(* ===== verification/_CoqProject ===== *)
-Q . S2P
Prelude.v
Text.v
Store.v
StoreSpec.v
WalCodec.v
WalWriter.v
WalWait.v
EventLoop.v
Durability.v
Linearizable.v
Server.v
ServerProofs.v
Placement.v
AssignProofs.v
Float64.v
FloatError.v
Score.v
Targets.v
Replicas.v
RaftFSM.v
Quorum.v
WritePath.v
Migration.v
Rebalance.v
ShortTerm.v
ControlPlane.v
Aliasing.v
Membership.v
RaftNode.v
Collector.v
Gossip.v
ControlLoop.v
Peers.v
BatchWorker.v
Replication.v
Cluster.v
Handover.v
HandoverChain.v
Router.v
LoadGen.v
SessionRead.v
ReadYourWrites.v
Transport.v
Cli.v
Startup.v
Identity.v
Observability.v
LoadRun.v
ReplicatorState.v
