(* ===== verification/Prelude.v ===== *)
(** * nawst: a verified model of a placement-aware replicated key-value store

    nawst is a key-value store written in Go.  A node keeps its data in memory
    ([src/core/store.go]), logs every write ([src/core/wal.go]), serialises requests in an
    event loop ([src/core/loop.go]) and serves them over gRPC ([src/core/rpc.go]).  Nodes form
    a cluster: a ring of 1024 vnodes is assigned to nodes by their scores
    ([src/cluster/placement.go], [score.go]), the assignment is agreed on through raft
    ([raft.go]), writes are replicated to a quorum through batching workers ([replication.go],
    [replication_batch.go]), data moves when the assignment changes, and membership and
    metrics travel by gossip ([membership.go], [metrics.go]).  Clients route requests
    themselves ([router.go], [state.go]).

    ** Files and the code they model

    - [Prelude]: machine integers, notations, tactics, lemmas on lists and maps.  [Text]: the
      string functions of Go's library that the code uses.  [Float64], [FloatError]: binary64
      arithmetic and bounds of its rounding errors.
    - [Store], [StoreSpec] ([store.go]): [Store.Apply], the reads, snapshots and deletion of a
      vnode over finite maps; the last-writer-wins map as the abstract specification.
    - [WalCodec], [WalWriter], [WalWait] ([wal.go]): record format and [ReplayWal]; [Append],
      [Wait] and the writer goroutine with the outcomes of disk operations as inputs and the
      images a crash can leave; the condition variable at the granularity of single loads,
      stores and lock operations.
    - [EventLoop], [Durability] ([loop.go]): [Run] and its responder as a step relation over an
      interface to the log (a class, implemented by the writer), and the composition of both.
      [Linearizable]: the loop as its clients see it, an atomic map.
    - [Server], [ServerProofs] ([rpc.go]): the handlers as functions of the node's state.
    - [Placement], [AssignProofs], [Score], [Targets], [Replicas] ([placement.go], [score.go]):
      vnode lookup, scores, target counts, assignment of primaries and replicas.
    - [RaftFSM], [RaftNode] ([raft.go]): the replicated state machine with snapshots; the
      wrapper around the raft library, which is a parameter.
    - [Quorum], [WritePath] ([replication.go], [rpc.go]): [ReplicateToAll], ownership, and [Put]
      from the handler to the quorum.
    - [Migration] ([replication.go], [cmd/server/main.go]): placement changes, vnode transfers and
      the clean-up of lost vnodes.
    - [Rebalance], [ShortTerm] ([replication.go]): smoothing of metrics, long-term rebalancing
      with hysteresis, short-term swaps away from degraded primaries.  [Aliasing] ([replication.go]):
      the copy of the ring and the swaps through pointers, over a heap of slices.  [ControlPlane]
      ([raft.go], [replication.go]): proposals of any node, the replicated log, delivery, restarts and
      snapshots of several nodes, as one step relation.
    - [Membership], [ControlLoop], [Peers] ([membership.go], [replication.go]): gossip metadata,
      reconciliation of raft with gossip, the goroutines that trigger it, clients of peers.
    - [Collector], [Gossip] ([metrics.go], [membership.go], [replication.go]): measuring a host,
      the reporter's schedule, publishing and receiving metrics.
    - [BatchWorker] ([replication_batch.go]): the goroutine that batches replication tasks onto a
      stream, as a step function.
    - [Router] ([router.go], [state.go]): the state served to clients, routing, pools and retries.
    - [Replication] ([replication_batch.go], [rpc.go]): a worker and the peer it streams to, as one
      step relation.  [Cluster] ([rpc.go], [replication.go]): nodes with their logs, concurrent
      writes, deliveries and restarts, as one step relation.  [Handover], [HandoverChain]
      ([replication.go], [rpc.go]): the old and the new primary of a moving vnode while writes arrive,
      as one step relation, and sequences of such moves.  [SessionRead], [ReadYourWrites] ([router.go],
      [rpc.go]): a router and the nodes it reads from, first any nodes, then those of the cluster.
    - [Transport] ([transport.go]): client credentials.  [Startup], [Identity] ([cmd/server/main.go],
      [membership.go], [rpc.go]): the server command from its flags to the running node, and the
      identity peers see.  [ReplicatorState] ([replication.go]): construction and accessors of the
      replicator, its hooks, migration sources, summaries.
    - [LoadGen], [LoadRun] ([cmd/loadgen/main.go]): operation mix, histograms, quantiles and prefill
      shares; flags, phases and report of a run.  [Cli] ([cmd/cli/main.go]): the interactive client.
    - [Observability] ([observability/metrics.go]): the registered series and what is recorded.

    State is passed explicitly; goroutines are step functions or relations over a record of
    channel contents and local variables; a blocked or impossible step is [None], a Go panic is
    a separate outcome.  Go's iteration over a map takes an order as a parameter wherever it
    can be observed.  Names follow the source.

    ** What the theorems show

    - Durability: an answered write survives a crash ([acked_write_survives_crash]); the store is
      the replay of the log under every interleaving; every request is answered once; the writer
      catches up and never panics; encoding and replay are inverse.  To its clients a node is an atomic
      last-writer-wins map whatever is batched and however late answers are ([event_loop_linearizable]).
    - Consistency: the store refines a last-writer-wins map, its indexes and counters are exact,
      replicas converge in any order of delivery; a successful [Put] is held by a majority, two
      quorums meet; versions increase; a transferred vnode is merged with the newer cells.  In every
      reachable state of the cluster an acknowledged write is held by a majority of the copies
      ([acknowledged_write_persists]), a node answers only values that were written, under their versions
      ([reads_return_written_values]), and a client that reads with the version of its own write gets it
      although one copy is stale or down ([read_your_writes]).  A vnode takes all its accepted writes
      along, however often it moves, if every snapshot follows the old primary's switch and precedes its
      clean-up ([fenced_handover_keeps_writes], [repeated_handovers_keep_writes]).
    - Placement: assignment is exact and moves a minimum of vnodes; the targets add up to 1024
      for all scores, rounding included; proposals are complete and well formed; short-term
      swaps keep the copies of a vnode and never write to the installed ring
      ([short_term_works_on_a_copy]); epochs of delivered placements increase.  Nodes under the same epoch
      have the same placement and at most one of them accepts a key ([one_primary_per_epoch]); nodes that
      have applied the whole log agree ([caught_up_nodes_agree]).
    - Cluster: replication tasks are answered once and success means that the peer applied the
      write (as long as sends do not fail with batches in flight); servers are removed only after
      the grace period; membership changes are evaluated and the loop comes to rest; published
      metrics are well typed and peers reproduce them; peers decode a started node's identity.
    - Start-up: a node holds exactly what its log holds or does not start, and it is encrypted in both
      directions or in neither; nodes on one host share neither names nor directories.
    - Clients: writes go to the node that accepts them, reads are spread over the copies and
      survive failing ones; the interactive client answers every command and never panics; the load
      generator's histogram and quantiles are exact and its report counts every operation; recording
      metrics never stops the program.
    - Behaviours the code does not intend, each proved as a property of the model: a lost wake-up
      in [Wait], batches stranded by [Close], writes of foreign keys through [StreamKV], a replica
      erased by a role swap, deletions missed by or restored against a transfer, an epoch per
      evaluation with replication factor one, acknowledgements credited to a batch of an earlier
      stream, departed servers that are never removed, pools that keep an old address, writes that
      are acknowledged and ignored after a restart with an earlier clock, writes lost between the
      snapshot of a moving vnode and the old primary's switch, transfers that succeed from a source
      that has already erased the vnode, keys of other nodes accepted before a placement is installed.

    ** Bounds and fuel

    Integers have their Go width with the wrap-around written out where it can occur.  Replay
    consumes its input and needs no more fuel than bytes ([WalCodec]); twenty digits hold every
    64-bit number ([FormatUint]); prefill needs as many turns as keys; all other recursions are
    structural.  [Targets] bounds rounding errors for up to
    2^20 nodes, far above what a gossip cluster holds.  The byte counter of the store is kept with
    its wrap-around; the read cursor of a router is followed up to 2^64 reads.

    ** Not modelled

    - The libraries: raft, memberlist, gRPC, protobuf code, Prometheus, x509 and the host readings of
      gopsutil.  Their results are parameters or inputs.  xxhash is any 64-bit hash function.
    - JSON text: a message or a log entry is modelled by what it decodes to.
    - Logging, the text of messages and reports, the HTTP endpoint of the metrics, signal handling and
      the deferred clean-up of the commands.  Code that is commented out (the first half of [replication_batch.go]).
    - Time: deadlines and tickers appear as events that may happen at any point.

    ** Plan

    Every component with logic of its own is modelled.  Moves of a vnode are composed for its primaries;
    the replicas that change along with them are covered by [Migration] one transfer at a time. *)

From Stdlib Require Export ZArith Lia.
From stdpp Require Export base gmap strings list fin_maps numbers.

Global Open Scope Z_scope.
Global Set Default Goal Selector "!".
#[export] Set Warnings "-clear-no-such-hyp".

(** ** Machine integers

    Go's fixed-width integers are kept as [Z] together with the wrap-around
    of the width at hand. *)

Definition u8 (z : Z) : Z := z mod 2 ^ 8.
Definition u16 (z : Z) : Z := z mod 2 ^ 16.
Definition u32 (z : Z) : Z := z mod 2 ^ 32.
Definition u64 (z : Z) : Z := z mod 2 ^ 64.
Definition i64 (z : Z) : Z := (z + 2 ^ 63) mod 2 ^ 64 - 2 ^ 63.

Definition MaxUint64 : Z := 2 ^ 64 - 1.

Declare Scope go_scope.
Delimit Scope go_scope with go.
Notation "x +u64 y" := (u64 (x + y)) (at level 50, left associativity) : go_scope.
Notation "x -i64 y" := (i64 (x - y)) (at level 50, left associativity) : go_scope.
Notation "x +i64 y" := (i64 (x + y)) (at level 50, left associativity) : go_scope.
Global Open Scope go_scope.

Create HintDb nawst.
Create Rewrite HintDb nawst.

(** [is_u64 z]: [z] is the value of a [uint64]. *)
Definition is_u64 (z : Z) : Prop := 0 <= z < 2 ^ 64.

#[export] Instance is_u64_dec z : Decision (is_u64 z).
Proof. unfold is_u64. apply _. Defined.

Lemma u64_range z : is_u64 (u64 z).
Proof. unfold is_u64, u64. apply Z.mod_pos_bound. lia. Qed.

Lemma u64_id z : is_u64 z → u64 z = z.
Proof. unfold is_u64, u64. intros. by apply Z.mod_small. Qed.

Lemma u16_range z : 0 <= u16 z < 2 ^ 16.
Proof. unfold u16. apply Z.mod_pos_bound. lia. Qed.

Lemma i64_sub_add a b c : i64 (i64 (a - b) + c) = i64 (a - b + c).
Proof.
  unfold i64. f_equal.
  replace ((a - b + 2 ^ 63) mod 2 ^ 64 - 2 ^ 63 + c + 2 ^ 63)
    with ((a - b + 2 ^ 63) mod 2 ^ 64 + c) by lia.
  rewrite Zplus_mod_idemp_l. f_equal. lia.
Qed.

Lemma i64_add_l a b : i64 (i64 a + b) = i64 (a + b).
Proof.
  rewrite <-(Z.sub_0_r a) at 1. rewrite i64_sub_add. f_equal. lia.
Qed.

Lemma i64_sub_l a b : i64 (i64 a - b) = i64 (a - b).
Proof. rewrite <-!Z.add_opp_r. apply i64_add_l. Qed.

Lemma i64_sub_l_add a b c : i64 (i64 a - b + c) = i64 (a - b + c).
Proof. rewrite <-!Z.add_opp_r, <-!Z.add_assoc. apply i64_add_l. Qed.

#[export] Hint Resolve u64_range u16_range : nawst.
#[export] Hint Rewrite i64_add_l i64_sub_l i64_sub_add i64_sub_l_add : nawst.

(** ** Automation *)

(** Case split on the innermost [match] or [if] of the goal. *)
Ltac case_goal :=
  match goal with
  | |- context [match ?x with _ => _ end] =>
      lazymatch x with
      | context [match _ with _ => _ end] => fail
      | _ => destruct x eqn:?
      end
  end.

(** Case split on the innermost [match] or [if] of a hypothesis. *)
Ltac case_hyp H :=
  match type of H with
  | context [match ?x with _ => _ end] =>
      lazymatch x with
      | context [match _ with _ => _ end] => fail
      | _ => destruct x eqn:?
      end
  end.

(** Turn boolean comparisons of the context into propositions. *)
Ltac bool_to_prop :=
  repeat match goal with
  | H : (_ =? _)%Z = true |- _ => apply Z.eqb_eq in H
  | H : (_ =? _)%Z = false |- _ => apply Z.eqb_neq in H
  | H : (_ <? _)%Z = true |- _ => apply Z.ltb_lt in H
  | H : (_ <? _)%Z = false |- _ => apply Z.ltb_ge in H
  | H : (_ <=? _)%Z = true |- _ => apply Z.leb_le in H
  | H : (_ <=? _)%Z = false |- _ => apply Z.leb_gt in H
  | H : (_ =? _)%nat = true |- _ => apply Nat.eqb_eq in H
  | H : (_ =? _)%nat = false |- _ => apply Nat.eqb_neq in H
  | H : (_ <? _)%nat = true |- _ => apply Nat.ltb_lt in H
  | H : (_ <? _)%nat = false |- _ => apply Nat.ltb_ge in H
  | H : (_ <=? _)%nat = true |- _ => apply Nat.leb_le in H
  | H : (_ <=? _)%nat = false |- _ => apply Nat.leb_gt in H
  | H : _ && _ = true |- _ => apply andb_true_iff in H as [? ?]
  | H : _ || _ = false |- _ => apply orb_false_iff in H as [? ?]
  | H : negb _ = true |- _ => apply negb_true_iff in H
  | H : negb _ = false |- _ => apply negb_false_iff in H
  | H : bool_decide _ = true |- _ => apply bool_decide_eq_true in H
  | H : bool_decide _ = false |- _ => apply bool_decide_eq_false in H
  end.

(** ** Weighted sums over finite maps

    The store keeps several counters incrementally (value bytes, tombstones,
    vnodes that hold data, ...).  Each of them is the sum of a weight over the
    entries of a map; the two lemmas below say how such a sum moves when one
    entry is written or removed. *)

Section map_weight.
Context {K : Type} `{Countable K} {A : Type}.
Variable w : K → A → Z.
Implicit Types m : gmap K A.

Definition map_weight (m : gmap K A) : Z :=
  map_fold (λ k a acc, w k a + acc) 0 m.

Definition opt_weight (k : K) (o : option A) : Z :=
  match o with Some a => w k a | None => 0 end.

Lemma map_weight_empty : map_weight ∅ = 0.
Proof. apply map_fold_empty. Qed.

Lemma map_weight_insert_None m k a :
  m !! k = None → map_weight (<[k:=a]> m) = w k a + map_weight m.
Proof.
  intros Hk. unfold map_weight. rewrite map_fold_insert_L; [done| |done].
  intros; lia.
Qed.

Lemma map_weight_delete m k :
  map_weight (delete k m) = map_weight m - opt_weight k (m !! k).
Proof.
  destruct (m !! k) as [a|] eqn:E; simpl.
  - rewrite <-(insert_id m k a) at 2 by done.
    rewrite <-insert_delete_eq, map_weight_insert_None; [lia|].
    apply lookup_delete_eq.
  - rewrite delete_id by done. lia.
Qed.

Lemma map_weight_insert m k a :
  map_weight (<[k:=a]> m) = map_weight m - opt_weight k (m !! k) + w k a.
Proof.
  rewrite <-insert_delete_eq, map_weight_insert_None by apply lookup_delete_eq.
  rewrite map_weight_delete. lia.
Qed.

Lemma map_weight_nonneg' m :
  (∀ k a, m !! k = Some a → 0 <= w k a) → 0 <= map_weight m.
Proof.
  induction m as [|k a m Hk IH] using map_ind; intros Hw.
  - rewrite map_weight_empty. lia.
  - rewrite map_weight_insert_None by done.
    pose proof (Hw k a (lookup_insert_eq _ _ _)). enough (0 <= map_weight m) by lia.
    apply IH. intros k' a' Hk'. apply Hw. rewrite lookup_insert_ne; congruence.
Qed.

Lemma map_weight_nonneg m :
  (∀ k a, 0 <= w k a) → 0 <= map_weight m.
Proof. intros Hw. by apply map_weight_nonneg'. Qed.

Lemma map_weight_ge' m k a :
  (∀ k a, m !! k = Some a → 0 <= w k a) → m !! k = Some a → w k a <= map_weight m.
Proof.
  intros Hw Hk. assert (0 <= map_weight (delete k m)) as Hd.
  { apply map_weight_nonneg'. intros k' a' [_ Hk']%lookup_delete_Some. by apply Hw. }
  rewrite map_weight_delete, Hk in Hd. simpl in Hd. lia.
Qed.

Lemma map_weight_ge m k a :
  (∀ k a, 0 <= w k a) → m !! k = Some a → w k a <= map_weight m.
Proof.
  intros Hw Hk. by apply map_weight_ge'.
Qed.
End map_weight.

#[export] Hint Rewrite @map_weight_insert @map_weight_delete @map_weight_empty : nawst.

(** ** Removing a list of keys from a map *)

Section map_deletes.
Context {K : Type} `{Countable K} {A : Type}.
Implicit Types (m : gmap K A) (l : list K).

Definition map_deletes (m : gmap K A) (l : list K) : gmap K A :=
  foldl (λ m k, delete k m) m l.

Lemma lookup_map_deletes m l k :
  map_deletes m l !! k = if decide (k ∈ l) then None else m !! k.
Proof.
  unfold map_deletes. revert m. induction l as [|x l IH]; intros m; cbn [foldl].
  - rewrite decide_False; [done|]. apply not_elem_of_nil.
  - rewrite IH, lookup_delete. repeat case_decide; subst; try done.
    all: exfalso; set_solver.
Qed.

Lemma map_weight_deletes (w : K → A → Z) (c : Z) m l :
  NoDup l →
  (∀ k, k ∈ l → opt_weight w k (m !! k) = c) →
  map_weight w (map_deletes m l) = map_weight w m - c * Z.of_nat (length l).
Proof.
  unfold map_deletes. revert m. induction l as [|x l IH]; intros m Hnd Hc; simpl; [lia|].
  apply list.NoDup_cons in Hnd as [Hx Hnd]. rewrite IH; [|done|].
  - rewrite map_weight_delete, Hc by set_solver. lia.
  - intros k Hk. rewrite lookup_delete_ne by set_solver. apply Hc. set_solver.
Qed.
End map_deletes.

(** A loop that updates two independent accumulators is two loops. *)
Lemma foldl_pair {X Y E} (f : X → E → X) (g : Y → E → Y) (l : list E) x y :
  foldl (λ '(x, y) e, (f x e, g y e)) (x, y) l = (foldl f x l, foldl g y l).
Proof. revert x y. induction l as [|e l IH]; intros; simpl; [done|apply IH]. Qed.

(** Decrementing a counter that never goes below zero. *)
Lemma foldl_count_down {E} (l : list E) (c : Z) :
  Z.of_nat (length l) <= c →
  foldl (λ c _, if 0 <? c then c - 1 else c) c l = c - Z.of_nat (length l).
Proof.
  revert c. induction l as [|e l IH]; intros c Hc; simpl in *; [lia|].
  rewrite IH; case_match; bool_to_prop; lia.
Qed.

(** ** Bit operations *)

(** Placing [b] below the bits of [a]. *)
Lemma lor_shiftl_add a b n :
  0 <= n → 0 <= b < 2 ^ n → Z.lor (Z.shiftl a n) b = a * 2 ^ n + b.
Proof.
  intros Hn Hb. assert (Z.land (Z.shiftl a n) b = 0) as Hl.
  { apply Z.bits_inj'. intros i Hi. rewrite Z.land_spec, Z.bits_0.
    destruct (Z.lt_ge_cases i n).
    - by rewrite Z.shiftl_spec_low.
    - rewrite <-(Z.mod_small b (2 ^ n)) by done.
      rewrite Z.mod_pow2_bits_high by lia. apply andb_false_r. }
  rewrite <-Z.shiftl_mul_pow2 by done. pose proof (Z.add_lor_land (Z.shiftl a n) b). lia.
Qed.

Lemma lor_add_shiftl a b n :
  0 <= n → 0 <= a < 2 ^ n → Z.lor a (Z.shiftl b n) = a + b * 2 ^ n.
Proof. intros. rewrite Z.lor_comm, lor_shiftl_add by done. lia. Qed.

(** ** Reachable states *)

(** What every step preserves holds in all reachable states. *)
Lemma rtc_preserves {A} (R : A → A → Prop) (P : A → Prop) x y :
  (∀ x y, P x → R x y → P y) → P x → rtc R x y → P y.
Proof. intros Hstep Hx Hr. revert Hx. induction Hr as [|x y z Hs _ IH]; eauto. Qed.
