(* ===== verification/Text.v ===== *)
(** * Strings as Go sees them

    A Go string is a sequence of bytes, here [string].  [TrimSpace] removes the UTF-8
    encodings of the runes for which [unicode.IsSpace] holds; [Split] cuts at every
    occurrence of a one-byte separator. *)

From Stdlib Require Import Ascii.
From S2P Require Import Prelude.

Definition code (a : ascii) : Z := Z.of_N (N_of_ascii a).

(** One-byte spaces: tab, newline, vertical tab, form feed, carriage return and space. *)
Definition space1 (a : ascii) : bool :=
  ((9 <=? code a) && (code a <=? 13)) || (code a =? 32).

(** U+0085 and U+00A0 *)
Definition space2 (a b : ascii) : bool :=
  (code a =? 194) && ((code b =? 133) || (code b =? 160)).

(** U+1680, U+2000 to U+200A, U+2028, U+2029, U+202F, U+205F and U+3000 *)
Definition space3 (a b c : ascii) : bool :=
  ((code a =? 225) && (code b =? 154) && (code c =? 128)) ||
  ((code a =? 226) && (code b =? 128) &&
     (((128 <=? code c) && (code c <=? 138)) || (code c =? 168) || (code c =? 169) || (code c =? 175))) ||
  ((code a =? 226) && (code b =? 129) && (code c =? 159)) ||
  ((code a =? 227) && (code b =? 128) && (code c =? 128)).

Section trim.
Context (p1 : ascii → bool) (p2 : ascii → ascii → bool) (p3 : ascii → ascii → ascii → bool).

(** Drop leading runes of one, two or three bytes. *)
Fixpoint trimBy (l : list ascii) : list ascii :=
  match l with
  | [] => []
  | a :: l1 =>
      if p1 a then trimBy l1
      else match l1 with
      | [] => l
      | b :: l2 =>
          if p2 a b then trimBy l2
          else match l2 with
          | [] => l
          | c :: l3 => if p3 a b c then trimBy l3 else l
          end
      end
  end.

Lemma trimBy_ind_len (P : list ascii → Prop) :
  (∀ l, (∀ l', (length l' < length l)%nat → P l') → P l) → ∀ l, P l.
Proof.
  intros H l. assert (∀ n l, (length l < n)%nat → P l) as Hn.
  { intros n. induction n as [|n IH]; intros l' Hl; [lia|]. apply H. intros l'' ?. apply IH. lia. }
  apply (Hn (S (length l))). lia.
Qed.

Lemma trimBy_length l : (length (trimBy l) <= length l)%nat.
Proof.
  induction l as [l IH] using trimBy_ind_len. destruct l as [|a [|b [|c l3]]]; simpl; [lia|..].
  all: repeat case_match; simpl; try lia.
  all: match goal with |- context [trimBy ?x] => specialize (IH x); simpl in IH end; lia.
Qed.

(** A separator that starts no match and continues none protects what follows. *)
Context (sep : ascii) (Hsep2 : ∀ a, p2 a sep = false)
        (Hsep3 : ∀ a b, p3 a sep b = false ∧ p3 a b sep = false).

Lemma trimBy_app_sep l r : l ≠ [] → trimBy l = l → trimBy (l ++ sep :: r) = l ++ sep :: r.
Proof.
  intros Hne Hl.
  assert (Hlen : ∀ x, trimBy x = l → (length l <= length x)%nat)
    by (intros x <-; apply trimBy_length).
  destruct l as [|a l1]; [done|]. simpl in Hl |- *.
  destruct (p1 a); [specialize (Hlen _ Hl); simpl in Hlen; lia|].
  destruct l1 as [|b l2]; simpl.
  { rewrite Hsep2. destruct r as [|x r]; [done|]. by rewrite (proj1 (Hsep3 a x)). }
  destruct (p2 a b); [specialize (Hlen _ Hl); simpl in Hlen; lia|].
  destruct l2 as [|c l3]; simpl; [by rewrite (proj2 (Hsep3 a b))|].
  destruct (p3 a b c); [specialize (Hlen _ Hl); simpl in Hlen; lia|done].
Qed.
End trim.

(** [strings.TrimSpace] on bytes: trailing runes are matched from the end. *)
Definition trimLeft : list ascii → list ascii := trimBy space1 space2 space3.
Definition trimRight (l : list ascii) : list ascii :=
  reverse (trimBy space1 (λ a b, space2 b a) (λ a b c, space3 c b a) (reverse l)).
Definition trimBytes (l : list ascii) : list ascii := trimRight (trimLeft l).

Definition str (l : list ascii) : string := String.string_of_list_ascii l.
Definition bytes (s : string) : list ascii := String.list_ascii_of_string s.

Definition TrimSpace (s : string) : string := str (trimBytes (bytes s)).

(** [strings.Split] for a one-byte separator *)
Fixpoint splitBytes (sep : ascii) (l : list ascii) : list (list ascii) :=
  match l with
  | [] => [[]]
  | a :: l =>
      if decide (a = sep) then [] :: splitBytes sep l
      else match splitBytes sep l with
           | part :: parts => (a :: part) :: parts
           | [] => [[a]]
           end
  end.

Definition comma : ascii := ",".

Definition Split (s : string) : list string := str <$> splitBytes comma (bytes s).

(** ** Lemmas *)

Lemma bytes_str l : bytes (str l) = l.
Proof. apply String.list_ascii_of_string_of_list_ascii. Qed.
Lemma str_bytes s : str (bytes s) = s.
Proof. apply String.string_of_list_ascii_of_string. Qed.

Lemma splitBytes_none sep l : sep ∉ l → splitBytes sep l = [l].
Proof.
  induction l as [|a l IH]; [done|]. intros [Ha Hl]%not_elem_of_cons. simpl.
  rewrite decide_False by done. by rewrite IH.
Qed.

Lemma splitBytes_app sep l r : sep ∉ l → splitBytes sep (l ++ sep :: r) = l :: splitBytes sep r.
Proof.
  induction l as [|a l IH]; simpl; [by rewrite decide_True|]. intros [Ha Hl]%not_elem_of_cons.
  rewrite decide_False by done. by rewrite IH.
Qed.

(** A field without surrounding space. *)
Definition trimmed (l : list ascii) : Prop := trimLeft l = l ∧ trimRight l = l.

Lemma trimmed_trimBytes l : trimmed l → trimBytes l = l.
Proof. intros [H1 H2]. unfold trimBytes. by rewrite H1. Qed.

Lemma space2_comma a : space2 a comma = false.
Proof. unfold space2. change (code comma) with 44. by rewrite andb_false_r. Qed.
Lemma space2_comma_l a : space2 comma a = false.
Proof. done. Qed.
Lemma space3_comma a b :
  space3 comma a b = false ∧ space3 a comma b = false ∧ space3 a b comma = false.
Proof.
  unfold space3. change (code comma) with 44.
  split_and!; repeat (rewrite ?andb_false_r, ?andb_false_l; simpl); done.
Qed.

(** Trimmed fields joined by commas are trimmed. *)
Lemma trimmed_join l r : l ≠ [] → r ≠ [] → trimmed l → trimmed r → trimmed (l ++ comma :: r).
Proof.
  intros Hl Hr [H1 _] [_ H2]. split.
  - apply trimBy_app_sep; try done; intros; [apply space2_comma|split; apply space3_comma].
  - unfold trimRight in *. rewrite reverse_app, reverse_cons, <-app_assoc. simpl.
    rewrite trimBy_app_sep; try done.
    + rewrite reverse_app, reverse_cons, !reverse_involutive, <-app_assoc. done.
    + intros. split; apply space3_comma.
    + intros E. apply Hr. rewrite <-(reverse_involutive r), E. done.
    + rewrite <-H2 at 2. by rewrite reverse_involutive.
Qed.

(** ** Words *)

Definition flush (cur : list ascii) : list (list ascii) := match cur with [] => [] | _ => [cur] end.

(** [strings.Fields]: the maximal runs without space.  A byte that starts no space joins the
    current run; the bytes of a longer rune start no space either, so runes need no decoding. *)
Fixpoint fieldsFrom (cur l : list ascii) : list (list ascii) :=
  match l with
  | [] => flush cur
  | a :: l1 =>
      if space1 a then flush cur ++ fieldsFrom [] l1
      else match l1 with
      | [] => fieldsFrom (cur ++ [a]) l1
      | b :: l2 =>
          if space2 a b then flush cur ++ fieldsFrom [] l2
          else match l2 with
          | [] => fieldsFrom (cur ++ [a]) l1
          | c :: l3 => if space3 a b c then flush cur ++ fieldsFrom [] l3 else fieldsFrom (cur ++ [a]) l1
          end
      end
  end.

Definition Fields (s : string) : list string := str <$> fieldsFrom [] (bytes s).

(** [strings.ToLower], as far as the result can be an ASCII word: the letters A to Z, U+0130
    (whose lower case is i) and U+212A (whose lower case is k).  No other rune has an ASCII
    lower case, so the comparison with an ASCII word is that of Go. *)
Definition lower1 (a : ascii) : ascii :=
  if (65 <=? code a) && (code a <=? 90) then ascii_of_N (N_of_ascii a + 32) else a.

Fixpoint lowerBytes (l : list ascii) : list ascii :=
  match l with
  | [] => []
  | a :: l1 =>
      match l1 with
      | b :: l2 =>
          if (code a =? 196) && (code b =? 176) then "i"%char :: lowerBytes l2
          else match l2 with
          | c :: l3 =>
              if (code a =? 226) && (code b =? 132) && (code c =? 170) then "k"%char :: lowerBytes l3
              else lower1 a :: lowerBytes l1
          | [] => lower1 a :: lowerBytes l1
          end
      | [] => [lower1 a]
      end
  end.

Definition ToLower (s : string) : string := str (lowerBytes (bytes s)).

(** The number of bytes of the space at the head. *)
Definition spaceLen (l : list ascii) : nat :=
  match l with
  | [] => 0
  | a :: l1 =>
      if space1 a then 1
      else match l1 with
      | [] => 0
      | b :: l2 => if space2 a b then 2 else match l2 with [] => 0 | c :: _ => if space3 a b c then 3 else 0 end
      end
  end%nat.

Lemma fieldsFrom_cons cur a l :
  fieldsFrom cur (a :: l) =
  match spaceLen (a :: l) with 0%nat => fieldsFrom (cur ++ [a]) l | S n => flush cur ++ fieldsFrom [] (drop n l) end.
Proof.
  destruct l as [|b [|c l3]]; cbn [spaceLen]; (destruct (space1 a) eqn:E1; [by cbn [fieldsFrom]; rewrite E1|]).
  - cbn [fieldsFrom]. by rewrite E1.
  - destruct (space2 a b) eqn:E2; cbn [fieldsFrom]; by rewrite E1, E2.
  - destruct (space2 a b) eqn:E2; [|destruct (space3 a b c) eqn:E3].
    all: cbn [fieldsFrom]; by rewrite E1, E2, ?E3.
Qed.

(** A byte that can only start a rune: it is part of no longer space. *)
Definition starts (a : ascii) : Prop := code a < 128 ∨ 192 <= code a.

Lemma space2_starts a b : starts b → space2 a b = false.
Proof.
  intros H. destruct (space2 a b) eqn:E; [|done]. unfold space2 in E.
  rewrite !andb_true_iff, !orb_true_iff in E. unfold starts in H. destruct E as [_ [E|E]]; bool_to_prop; lia.
Qed.

Lemma space3_starts a b c : starts b ∨ starts c → space3 a b c = false.
Proof.
  intros H. destruct (space3 a b c) eqn:E; [|done]. unfold space3 in E. unfold starts in H.
  rewrite !orb_true_iff, !andb_true_iff, !orb_true_iff, !andb_true_iff in E. exfalso.
  repeat match goal with E : _ ∨ _ |- _ => destruct E | E : _ ∧ _ |- _ => destruct E end; bool_to_prop; lia.
Qed.

Lemma spaceLen_starts sp l : spaceLen (sp :: l) ≠ 0%nat → starts sp.
Proof.
  unfold spaceLen, space1, space2, space3, starts. intros H.
  destruct (Z.lt_ge_cases (code sp) 128); [by left|]. right. destruct (Z.le_gt_cases 192 (code sp)); [done|].
  exfalso. apply H. repeat (case_match; bool_to_prop; try lia; try done).
  all: repeat match goal with E : (_ || _)%bool = true |- _ => apply orb_true_iff in E as [E|E]
    | E : (_ && _)%bool = true |- _ => apply andb_true_iff in E as [E ?] end; bool_to_prop; lia.
Qed.

Lemma spaceLen_app l sp r : starts sp → l ≠ [] → spaceLen (l ++ sp :: r) = spaceLen l.
Proof.
  intros Hsp Hne. destruct l as [|a [|b [|c l]]]; [done|..|done]; cbn; destruct (space1 a); try done.
  - rewrite space2_starts by done. destruct r; [done|]. by rewrite space3_starts by auto.
  - by rewrite (space3_starts a b sp) by auto.
Qed.

Lemma spaceLen_le l : (spaceLen l <= length l)%nat.
Proof. destruct l as [|a [|b [|c l]]]; cbn; repeat case_match; lia. Qed.

(** A space [sp :: k] ends the current word. *)
Lemma fieldsFrom_app_space sp k l : (∀ r, spaceLen (sp :: k ++ r) = S (length k)) → ∀ cur r,
  fieldsFrom cur (l ++ sp :: k ++ r) = fieldsFrom cur l ++ fieldsFrom [] r.
Proof.
  intros Hsp. assert (Hst : starts sp) by (eapply (spaceLen_starts sp k); by rewrite <-(app_nil_r k), Hsp).
  induction l as [l IH] using trimBy_ind_len. intros cur r. destruct l as [|a l].
  { rewrite app_nil_l, fieldsFrom_cons, Hsp, drop_app_length. done. }
  pose proof (spaceLen_le (a :: l)) as Hle. rewrite <-app_comm_cons, !fieldsFrom_cons, app_comm_cons.
  rewrite spaceLen_app by done. destruct (spaceLen (a :: l)) as [|n]; [apply IH; simpl; lia|].
  simpl in Hle. rewrite drop_app_le, IH, app_assoc by (rewrite ?length_drop; simpl; lia). done.
Qed.

Lemma fieldsFrom_space l cur r : fieldsFrom cur (l ++ " "%char :: r) = fieldsFrom cur l ++ fieldsFrom [] r.
Proof. exact (fieldsFrom_app_space " "%char [] l (λ _, eq_refl) cur r). Qed.

(** A word: non-empty and without space. *)
Definition word (l : list ascii) : Prop := l ≠ [] ∧ fieldsFrom [] l = [l].

#[global] Instance word_dec l : Decision (word l).
Proof. unfold word. apply _. Defined.

(** Words separated by single spaces. *)
Fixpoint unwords (ws : list (list ascii)) : list ascii :=
  match ws with
  | [] => []
  | [w] => w
  | w :: ws => w ++ " "%char :: unwords ws
  end.

Lemma fieldsFrom_unwords ws : Forall word ws → fieldsFrom [] (unwords ws) = ws.
Proof.
  induction ws as [|w [|w' ws] IH]; intros Hw; [done|by apply Forall_cons_iff in Hw as [[_ ?] _]|].
  apply Forall_cons_iff in Hw as [[_ Hw] Hws]. cbn [unwords]. rewrite fieldsFrom_space.
  rewrite Hw. cbn [unwords] in IH. by rewrite IH.
Qed.

(** Leading spaces do not matter. *)
Lemma trimLeft_spaceLen l : spaceLen (trimLeft l) = 0%nat.
Proof.
  unfold trimLeft. induction l as [l IH] using trimBy_ind_len. destruct l as [|a [|b [|c l3]]]; [done|..]; cbn.
  all: repeat case_match; try (apply IH; simpl; lia); cbn; repeat case_match; done.
Qed.

Lemma trimBy_suffix p1 p2 p3 l : ∃ k, l = k ++ trimBy p1 p2 p3 l.
Proof.
  induction l as [l IH] using trimBy_ind_len.
  assert (Hk : ∀ k l', l = k ++ l' → k ≠ [] → ∃ k', l = k' ++ trimBy p1 p2 p3 l').
  { intros k l' Hl Hne. destruct (IH l') as [k' Hk]; [subst l; rewrite length_app; destruct k; [done|simpl; lia]|].
    exists (k ++ k'). by rewrite <-app_assoc, <-Hk. }
  destruct l as [|a l1]; [by exists []|]. cbn [trimBy].
  destruct (p1 a); [by apply (Hk [a])|]. destruct l1 as [|b l2]; [by exists []|].
  destruct (p2 a b); [by apply (Hk [a; b])|]. destruct l2 as [|c l3]; [by exists []|].
  destruct (p3 a b c); [by apply (Hk [a; b; c])|by exists []].
Qed.

Lemma trimRight_prefix l : ∃ k, l = trimRight l ++ k.
Proof.
  unfold trimRight. destruct (trimBy_suffix space1 (λ a b, space2 b a) (λ a b c, space3 c b a) (reverse l)) as [k Hk].
  exists (reverse k). rewrite <-reverse_app, <-Hk. by rewrite reverse_involutive.
Qed.

Lemma spaceLen_prefix l r : spaceLen (l ++ r) = 0%nat → spaceLen l = 0%nat.
Proof. destruct l as [|a [|b [|c l]]]; cbn; repeat case_match; done. Qed.

Lemma fieldsFrom_cur cur l : cur ≠ [] → fieldsFrom cur l ≠ [].
Proof.
  revert cur. induction l as [|a l IH]; intros cur Hc; [by destruct cur|]. rewrite fieldsFrom_cons.
  destruct (spaceLen _); [apply IH; by destruct cur|]. by destruct cur.
Qed.

(** A line that is not blank has a first word. *)
Lemma Fields_TrimSpace s : TrimSpace s ≠ ""%string → Fields (TrimSpace s) ≠ [].
Proof.
  unfold TrimSpace, Fields. rewrite bytes_str. intros Hne Hf. apply fmap_nil_inv in Hf. revert Hf.
  assert (Hl : trimBytes (bytes s) ≠ []) by (intros E; by rewrite E in Hne).
  assert (H0 : spaceLen (trimBytes (bytes s)) = 0%nat).
  { unfold trimBytes in *. destruct (trimRight_prefix (trimLeft (bytes s))) as [k Hk].
    apply (spaceLen_prefix _ k). rewrite <-Hk. apply trimLeft_spaceLen. }
  destruct (trimBytes (bytes s)) as [|a l]; [done|]. rewrite fieldsFrom_cons, H0. by apply fieldsFrom_cur.
Qed.

(** Spaces around a line belong to no word. *)
Lemma fieldsFrom_trimLeft l : fieldsFrom [] (trimLeft l) = fieldsFrom [] l.
Proof.
  unfold trimLeft. induction l as [l IH] using trimBy_ind_len. destruct l as [|a l1]; [done|]. cbn [trimBy].
  destruct (space1 a) eqn:E1; [rewrite IH by (simpl; lia); rewrite fieldsFrom_cons; cbn [spaceLen]; by rewrite E1|].
  destruct l1 as [|b l2]; [done|].
  destruct (space2 a b) eqn:E2; [rewrite IH by (simpl; lia); rewrite (fieldsFrom_cons [] a); cbn [spaceLen]; by rewrite E1, E2|].
  destruct l2 as [|c l3]; [done|].
  destruct (space3 a b c) eqn:E3; [|done].
  rewrite IH by (simpl; lia). rewrite (fieldsFrom_cons [] a). cbn [spaceLen]. by rewrite E1, E2, E3.
Qed.

Lemma fieldsFrom_trimRight l : fieldsFrom [] (trimRight l) = fieldsFrom [] l.
Proof.
  unfold trimRight. rewrite <-(reverse_involutive l) at 2. set (m := reverse l). clearbody m. clear l.
  assert (Hend : ∀ sp k l, (∀ r, spaceLen (sp :: k ++ r) = S (length k)) →
    fieldsFrom [] (l ++ sp :: k) = fieldsFrom [] l).
  { intros sp k l Hsp. rewrite <-(app_nil_r k), (fieldsFrom_app_space sp k l Hsp). apply app_nil_r. }
  induction m as [m IH] using trimBy_ind_len. destruct m as [|a l1]; [done|]. cbn [trimBy].
  destruct (space1 a) eqn:E1.
  { rewrite IH by (simpl; lia). rewrite reverse_cons, (Hend a []); [done|]. intros r. cbn. by rewrite E1. }
  destruct l1 as [|b l2]; [done|]. destruct (space2 b a) eqn:E2.
  { rewrite IH by (simpl; lia). rewrite !reverse_cons, <-app_assoc. cbn [app]. rewrite (Hend b [a]); [done|].
    intros r. cbn. rewrite E2. destruct (space1 b) eqn:Eb; [|done]. exfalso. revert Eb E2. clear.
    unfold space1, space2. intros Eb [E2 _]%andb_true_iff. rewrite orb_true_iff, andb_true_iff in Eb.
    destruct Eb as [[_ Eb]|Eb]; bool_to_prop; lia. }
  destruct l2 as [|c l3]; [done|]. destruct (space3 c b a) eqn:E3; [|done].
  rewrite IH by (simpl; lia). rewrite !reverse_cons, <-!app_assoc. cbn [app]. rewrite (Hend c [b; a]); [done|].
  intros r. cbn. rewrite E3. assert (Hc : 225 <= code c).
  { revert E3. clear. unfold space3. rewrite !orb_true_iff, !andb_true_iff. intros E.
    repeat match goal with E : _ ∨ _ |- _ => destruct E | E : _ ∧ _ |- _ => destruct E end; bool_to_prop; lia. }
  unfold space1, space2. rewrite (proj2 (Z.leb_gt (code c) 13)), (proj2 (Z.eqb_neq (code c) 32)), (proj2 (Z.eqb_neq (code c) 194)) by lia.
  by rewrite andb_false_r.
Qed.

Lemma Fields_trimmed s : Fields (TrimSpace s) = Fields s.
Proof. unfold Fields, TrimSpace, trimBytes. by rewrite bytes_str, fieldsFrom_trimRight, fieldsFrom_trimLeft. Qed.
