(* ===== verification/Store.v ===== *)
(** * The versioned, vnode-aware store ([src/core/store.go]) *)

From stdpp Require Import sorting.
From S2P Require Import Prelude.
From Stdlib.Strings Require Import Byte.

(** ** Commands ([src/core/loop.go]) *)

(** [OpType] is a [uint8]; a byte read back from a log can be any value, so the
    type keeps every byte and the three operations are constants. *)
Definition OpType : Type := Z.
Definition OpPut : OpType := 0.
Definition OpGet : OpType := 1.
Definition OpDelete : OpType := 2.

Record Command := mkCommand {
  Op : OpType;
  Key : string;
  Value : list byte;
  VNodeID : Z;       (* uint16 *)
  Version : Z        (* uint64 *)
}.

(** ** Errors ([src/core/errors.go]) *)
Inductive Error :=
  | ErrKeyNotFound
  | ErrInvalidKey
  | ErrInvalidOperation.

(** ** The store's state *)
Record keyMeta := mkKeyMeta {
  mVersion : Z;
  mTombstone : bool
}.

Record Store := mkStore {
  storage : gmap string (list byte);
  vNodeIdx : gmap Z (gset string);
  tombstoneIdx : gmap Z (gset string);
  meta : gmap string keyMeta;
  tombstoneCount : Z;
  valueBytes : Z;               (* int64 *)
  vnodesWithData : Z;
  vnodesWithTombstones : Z
}.

#[export] Instance Error_eq_dec : EqDecision Error.
Proof. solve_decision. Defined.
#[export] Instance keyMeta_eq_dec : EqDecision keyMeta.
Proof. solve_decision. Defined.
#[export] Instance byte_eq_dec : EqDecision byte := Byte.byte_eq_dec.
#[export] Instance Command_eq_dec : EqDecision Command.
Proof. solve_decision. Defined.

Definition NewStore : Store := mkStore ∅ ∅ ∅ ∅ 0 0 0 0.

(** Reading a Go map at an absent key gives the zero value. *)
Definition zeroMeta : keyMeta := mkKeyMeta 0 false.
Definition metaOf (s : Store) (k : string) : keyMeta :=
  default zeroMeta (meta s !! k).
Definition setOf (idx : gmap Z (gset string)) (v : Z) : gset string :=
  default ∅ (idx !! v).

(** ** Index maintenance

    [vNodeIdx] and [tombstoneIdx] are updated by the same two code fragments,
    each with a counter of the vnodes whose set is non-empty.  [addKey] creates
    the inner map when it is nil and inserts the key; [removeKey] deletes the key
    when both the inner map and the key are present. *)
Definition addKey (idx : gmap Z (gset string)) (c v : Z) (k : string)
    : gmap Z (gset string) * Z :=
  (<[v := {[k]} ∪ setOf idx v]> idx,
   if (size (setOf idx v) =? 0)%nat then c + 1 else c).

Definition removeKey (idx : gmap Z (gset string)) (c v : Z) (k : string)
    : gmap Z (gset string) * Z :=
  match idx !! v with
  | Some X =>
      if decide (k ∈ X) then
        (<[v := X ∖ {[k]}]> idx,
         if (size (X ∖ {[k]}) =? 0)%nat && (0 <? c) then c - 1 else c)
      else (idx, c)
  | None => (idx, c)
  end.

(** ** [Apply] *)

(** [case OpPut] *)
Definition applyPut (s : Store) (curMeta : keyMeta) (cmd : Command) : Store :=
  let old := storage s !! Key cmd in
  let storage' := <[Key cmd := Value cmd]> (storage s) in
  let bytes1 := match old with
                | Some oldVal => valueBytes s -i64 Z.of_nat (length oldVal)
                | None => valueBytes s
                end in
  let valueBytes' := bytes1 +i64 Z.of_nat (length (Value cmd)) in
  let '(vNodeIdx', vnodesWithData') :=
    addKey (vNodeIdx s) (vnodesWithData s) (VNodeID cmd) (Key cmd) in
  let '(tombstoneIdx', vnodesWithTombstones') :=
    removeKey (tombstoneIdx s) (vnodesWithTombstones s) (VNodeID cmd) (Key cmd) in
  let tombstoneCount' :=
    if mTombstone curMeta then tombstoneCount s - 1 else tombstoneCount s in
  mkStore storage' vNodeIdx' tombstoneIdx'
    (<[Key cmd := mkKeyMeta (Version cmd) false]> (meta s))
    tombstoneCount' valueBytes' vnodesWithData' vnodesWithTombstones'.

(** [case OpDelete] *)
Definition applyDelete (s : Store) (curMeta : keyMeta) (cmd : Command) : Store :=
  let old := storage s !! Key cmd in
  let storage' := delete (Key cmd) (storage s) in
  let valueBytes' := match old with
                     | Some oldVal => valueBytes s -i64 Z.of_nat (length oldVal)
                     | None => valueBytes s
                     end in
  let '(vNodeIdx', vnodesWithData') :=
    removeKey (vNodeIdx s) (vnodesWithData s) (VNodeID cmd) (Key cmd) in
  let '(tombstoneIdx', vnodesWithTombstones') :=
    addKey (tombstoneIdx s) (vnodesWithTombstones s) (VNodeID cmd) (Key cmd) in
  let tombstoneCount' :=
    if mTombstone curMeta then tombstoneCount s else tombstoneCount s + 1 in
  mkStore storage' vNodeIdx' tombstoneIdx'
    (<[Key cmd := mkKeyMeta (Version cmd) true]> (meta s))
    tombstoneCount' valueBytes' vnodesWithData' vnodesWithTombstones'.

Definition setVersion (cmd : Command) (v : Z) : Command :=
  mkCommand (Op cmd) (Key cmd) (Value cmd) (VNodeID cmd) v.

(** The [switch cmd.Op] of [Apply]. *)
Definition applySwitch (s : Store) (curMeta : keyMeta) (cmd : Command) : Store * option Error :=
  if Op cmd =? OpPut then (applyPut s curMeta cmd, None)
  else if Op cmd =? OpDelete then (applyDelete s curMeta cmd, None)
  else (s, Some ErrInvalidOperation).

Definition Apply (s : Store) (cmd : Command) : Store * option Error :=
  let curMeta := metaOf s (Key cmd) in
  if Version cmd =? 0 then
    applySwitch s curMeta (setVersion cmd (mVersion curMeta +u64 1))
  else if Version cmd <? mVersion curMeta then (s, None)
  else applySwitch s curMeta cmd.

(** ** Reads *)
Definition GetWithVersion (s : Store) (key : string) : (list byte * Z) + Error :=
  match storage s !! key with
  | Some val =>
      let m := metaOf s key in
      if mTombstone m then inr ErrKeyNotFound else inl (val, mVersion m)
  | None => inr ErrKeyNotFound
  end.

Definition Get (s : Store) (key : string) : list byte + Error :=
  match GetWithVersion s key with
  | inl (val, _) => inl val
  | inr e => inr e
  end.

(** Go's map iteration order is unspecified; [elements] is one such order, and
    no theorem depends on which. *)
Definition GetKeysForVNode (s : Store) (vnodeID : Z) : list string :=
  match vNodeIdx s !! vnodeID with
  | None => []
  | Some indexSet => elements indexSet
  end.

Record SnapshotEntry := mkEntry {
  eKey : string;
  eValue : list byte;
  eVersion : Z;
  eTombstone : bool
}.

Record VNodeSnapshot := mkSnapshot {
  snapVNodeID : Z;
  Entries : list SnapshotEntry
}.

Definition SnapshotVNode (s : Store) (vnodeID : Z) : VNodeSnapshot :=
  match vNodeIdx s !! vnodeID with
  | None => mkSnapshot vnodeID []
  | Some indexSet =>
      let live :=
        omap (λ key,
          val ← storage s !! key;
          let m := metaOf s key in
          Some (mkEntry key val (mVersion m) (mTombstone m))) (elements indexSet) in
      let dead :=
        (λ key, mkEntry key [] (mVersion (metaOf s key)) true)
          <$> elements (setOf (tombstoneIdx s) vnodeID) in
      mkSnapshot vnodeID (live ++ dead)
  end.

(** ** [DeleteVNodeData] *)
Definition DeleteVNodeData (s : Store) (vnodeID : Z) : Store :=
  let indexSet := setOf (vNodeIdx s) vnodeID in
  let tsSet := setOf (tombstoneIdx s) vnodeID in
  if (size indexSet =? 0)%nat && (size tsSet =? 0)%nat then s
  else
    let '(storage1, meta1) :=
      foldl (λ '(st, mt) key, (delete key st, delete key mt))
        (storage s, meta s) (elements indexSet) in
    let '(count2, meta2) :=
      foldl (λ '(c, mt) key, (if 0 <? c then c - 1 else c, delete key mt))
        (tombstoneCount s, meta1) (elements tsSet) in
    mkStore storage1 (delete vnodeID (vNodeIdx s)) (delete vnodeID (tombstoneIdx s)) meta2
      count2 (valueBytes s)
      (if negb (size indexSet =? 0)%nat && (0 <? vnodesWithData s)
       then vnodesWithData s - 1 else vnodesWithData s)
      (if negb (size tsSet =? 0)%nat && (0 <? vnodesWithTombstones s)
       then vnodesWithTombstones s - 1 else vnodesWithTombstones s).

(** ** Invariants

    [bytes_ok] and [gauges_ok] relate the four incremental counters to the maps they
    summarise; it does not depend on how keys are assigned to vnodes.
    [index_ok vn] says that the two vnode indexes are exact, for a given
    assignment [vn] of keys to vnodes. *)

Definition bytesW (_ : string) (v : list byte) : Z := Z.of_nat (length v).
Definition tombW (_ : string) (m : keyMeta) : Z := if mTombstone m then 1 else 0.
Definition nonemptyW (_ : Z) (X : gset string) : Z := if decide (X = ∅) then 0 else 1.

Definition bytes_ok (s : Store) : Prop :=
  valueBytes s = i64 (map_weight bytesW (storage s)).

Record gauges_ok (s : Store) : Prop := {
  go_tombs : tombstoneCount s = map_weight tombW (meta s);
  go_data : vnodesWithData s = map_weight nonemptyW (vNodeIdx s);
  go_vtombs : vnodesWithTombstones s = map_weight nonemptyW (tombstoneIdx s)
}.

Definition live (s : Store) (k : string) : Prop :=
  ∃ m, meta s !! k = Some m ∧ mTombstone m = false.
Definition dead (s : Store) (k : string) : Prop :=
  ∃ m, meta s !! k = Some m ∧ mTombstone m = true.

Record index_ok (vn : string → Z) (s : Store) : Prop := {
  ix_storage : ∀ k, is_Some (storage s !! k) ↔ live s k;
  ix_data : ∀ v k, k ∈ setOf (vNodeIdx s) v ↔ vn k = v ∧ live s k;
  ix_tombs : ∀ v k, k ∈ setOf (tombstoneIdx s) v ↔ vn k = v ∧ dead s k
}.

Lemma live_not_dead s k : live s k → dead s k → False.
Proof. intros (m & E & T) (m' & E' & T'). congruence. Qed.

(** A command routed by [vn]. *)
Definition routed (vn : string → Z) (cmd : Command) : Prop := VNodeID cmd = vn (Key cmd).

(** *** Facts about the index sets *)

Lemma setOf_insert idx v X v' :
  setOf (<[v:=X]> idx) v' = if decide (v = v') then X else setOf idx v'.
Proof. unfold setOf. rewrite lookup_insert. by case_decide. Qed.

Lemma setOf_delete idx v v' :
  setOf (delete v idx) v' = if decide (v = v') then ∅ else setOf idx v'.
Proof. unfold setOf. rewrite lookup_delete. by case_decide. Qed.

Lemma setOf_lookup idx v X : idx !! v = Some X → setOf idx v = X.
Proof. unfold setOf. by intros ->. Qed.

Lemma size_0_empty (X : gset string) : (size X =? 0)%nat = bool_decide (X = ∅).
Proof.
  case_bool_decide as HX; bool_to_prop; [by rewrite HX|].
  apply Nat.eqb_neq. intros Hs%size_empty_iff. by apply leibniz_equiv in Hs.
Qed.

Lemma nonemptyW_empty v : nonemptyW v ∅ = 0.
Proof. unfold nonemptyW. by rewrite decide_True. Qed.

Lemma nonemptyW_ne v X : X ≠ ∅ → nonemptyW v X = 1.
Proof. intros. unfold nonemptyW. by rewrite decide_False. Qed.

Lemma nonemptyW_range v X : 0 <= nonemptyW v X <= 1.
Proof. unfold nonemptyW. case_decide; lia. Qed.

Lemma opt_nonemptyW idx v :
  opt_weight nonemptyW v (idx !! v) = nonemptyW v (setOf idx v).
Proof. unfold setOf. destruct (idx !! v); simpl; [done|by rewrite nonemptyW_empty]. Qed.

Lemma nonempty_count_pos idx v :
  setOf idx v ≠ ∅ → 0 < map_weight nonemptyW idx.
Proof.
  unfold setOf. intros Hne. destruct (idx !! v) as [X|] eqn:E; simpl in *; [|done].
  enough (1 <= map_weight nonemptyW idx) by lia.
  rewrite <-(nonemptyW_ne v X Hne). apply map_weight_ge; [|done].
  intros; apply nonemptyW_range.
Qed.

(** Both fragments keep the counter equal to the number of non-empty sets, and
    change the set of one vnode by one key. *)
Lemma addKey_count idx c v k idx' c' :
  addKey idx c v k = (idx', c') →
  c = map_weight nonemptyW idx → c' = map_weight nonemptyW idx'.
Proof.
  intros [= <- <-] ->. rewrite map_weight_insert, opt_nonemptyW, size_0_empty.
  rewrite (nonemptyW_ne v ({[k]} ∪ _)) by set_solver.
  case_bool_decide as HX; [rewrite HX, nonemptyW_empty|rewrite (nonemptyW_ne _ _ HX)]; lia.
Qed.

Lemma addKey_set idx c v k idx' c' v' :
  addKey idx c v k = (idx', c') →
  setOf idx' v' = if decide (v = v') then {[k]} ∪ setOf idx v' else setOf idx v'.
Proof. intros [= <- _]. rewrite setOf_insert. by case_decide; subst. Qed.

Lemma removeKey_count idx c v k idx' c' :
  removeKey idx c v k = (idx', c') →
  c = map_weight nonemptyW idx → c' = map_weight nonemptyW idx'.
Proof.
  unfold removeKey. intros H ->. destruct (idx !! v) as [X|] eqn:EX; [|by simplify_eq].
  case_decide as Hk; [|by simplify_eq].
  assert (0 < map_weight nonemptyW idx) as Hpos%Z.ltb_lt.
  { apply (nonempty_count_pos idx v). erewrite setOf_lookup by done. set_solver. }
  rewrite Hpos, size_0_empty, andb_true_r in H. simplify_eq.
  rewrite map_weight_insert, EX. simpl. rewrite (nonemptyW_ne v X) by set_solver.
  case_bool_decide as HX; [rewrite HX, nonemptyW_empty|rewrite (nonemptyW_ne _ _ HX)]; lia.
Qed.

Lemma removeKey_set idx c v k idx' c' v' :
  removeKey idx c v k = (idx', c') →
  setOf idx' v' = if decide (v = v') then setOf idx v' ∖ {[k]} else setOf idx v'.
Proof.
  unfold removeKey. intros Hrm. destruct (idx !! v) as [X|] eqn:EX.
  - case_decide as Hk; simplify_eq; [rewrite setOf_insert|].
    all: destruct (decide (v = v')) as [->|]; [|done].
    all: rewrite (setOf_lookup _ _ _ EX); set_solver.
  - simplify_eq. destruct (decide (v = v')) as [->|]; [|done].
    unfold setOf. rewrite EX. set_solver.
Qed.

(** *** [Apply] preserves the counters *)

Lemma tombW_meta s k : opt_weight tombW k (meta s !! k) = tombW k (metaOf s k).
Proof. unfold metaOf. by destruct (meta s !! k). Qed.

Lemma put_bytes s k (v : list byte) :
  bytes_ok s →
  (match storage s !! k with
   | Some o => valueBytes s -i64 Z.of_nat (length o)
   | None => valueBytes s
   end) +i64 Z.of_nat (length v)
  = i64 (map_weight bytesW (<[k:=v]> (storage s))).
Proof.
  intros ->. rewrite map_weight_insert.
  destruct (storage s !! k); simpl; autorewrite with nawst; f_equal; unfold bytesW; lia.
Qed.

Lemma delete_bytes s k :
  bytes_ok s →
  match storage s !! k with
  | Some o => valueBytes s -i64 Z.of_nat (length o)
  | None => valueBytes s
  end = i64 (map_weight bytesW (delete k (storage s))).
Proof.
  intros ->. rewrite map_weight_delete.
  destruct (storage s !! k); simpl; autorewrite with nawst; f_equal; unfold bytesW; lia.
Qed.

Lemma applyPut_bytes s m cmd : bytes_ok s → bytes_ok (applyPut s m cmd).
Proof.
  intros Hb. unfold applyPut. destruct (addKey _ _ _ _), (removeKey _ _ _ _).
  by apply put_bytes.
Qed.

Lemma applyDelete_bytes s m cmd : bytes_ok s → bytes_ok (applyDelete s m cmd).
Proof.
  intros Hb. unfold applyDelete. destruct (removeKey _ _ _ _), (addKey _ _ _ _).
  by apply delete_bytes.
Qed.

(** The tombstone counter follows the tombstone flag of the key's metadata. *)
Lemma put_tombs s k v :
  (if mTombstone (metaOf s k) then map_weight tombW (meta s) - 1 else map_weight tombW (meta s))
  = map_weight tombW (<[k := mkKeyMeta v false]> (meta s)).
Proof.
  rewrite map_weight_insert, tombW_meta.
  generalize (map_weight tombW (meta s)). intros w. unfold tombW. simpl.
  destruct (mTombstone _); lia.
Qed.

Lemma delete_tombs s k v :
  (if mTombstone (metaOf s k) then map_weight tombW (meta s) else map_weight tombW (meta s) + 1)
  = map_weight tombW (<[k := mkKeyMeta v true]> (meta s)).
Proof.
  rewrite map_weight_insert, tombW_meta.
  generalize (map_weight tombW (meta s)). intros w. unfold tombW. simpl.
  destruct (mTombstone _); lia.
Qed.

Lemma applyPut_gauges s cmd :
  gauges_ok s → gauges_ok (applyPut s (metaOf s (Key cmd)) cmd).
Proof.
  intros [Ht Hd Hv]. unfold applyPut.
  destruct (addKey _ _ _ _) as [idx1 c1] eqn:E1.
  destruct (removeKey _ _ _ _) as [idx2 c2] eqn:E2. split; simpl.
  - rewrite Ht. apply put_tombs.
  - by eapply addKey_count.
  - by eapply removeKey_count.
Qed.

Lemma applyDelete_gauges s cmd :
  gauges_ok s → gauges_ok (applyDelete s (metaOf s (Key cmd)) cmd).
Proof.
  intros [Ht Hd Hv]. unfold applyDelete.
  destruct (removeKey _ _ _ _) as [idx1 c1] eqn:E1.
  destruct (addKey _ _ _ _) as [idx2 c2] eqn:E2. split; simpl.
  - rewrite Ht. apply delete_tombs.
  - by eapply removeKey_count.
  - by eapply addKey_count.
Qed.

(** Case analysis of [Apply]: the command is stale and ignored, its operation is
    invalid, or it is applied with the version [ver] it resolves to. *)
Definition resolveVersion (s : Store) (cmd : Command) : Z :=
  if Version cmd =? 0 then mVersion (metaOf s (Key cmd)) +u64 1 else Version cmd.

Definition stale (s : Store) (cmd : Command) : bool :=
  negb (Version cmd =? 0) && (Version cmd <? mVersion (metaOf s (Key cmd))).

Lemma setVersion_same cmd : setVersion cmd (Version cmd) = cmd.
Proof. by destruct cmd. Qed.

Lemma Apply_eq s cmd :
  Apply s cmd =
    if stale s cmd then (s, None)
    else applySwitch s (metaOf s (Key cmd)) (setVersion cmd (resolveVersion s cmd)).
Proof.
  unfold Apply, stale, resolveVersion.
  destruct (Version cmd =? 0); simpl; [done|].
  destruct (_ <? _); [done|]. by rewrite setVersion_same.
Qed.

(** Any property that both branches preserve is preserved by [Apply]. *)
Lemma Apply_preserves (P : Store → Prop) s cmd :
  (∀ c, Key c = Key cmd → VNodeID c = VNodeID cmd →
     P (applyPut s (metaOf s (Key c)) c) ∧ P (applyDelete s (metaOf s (Key c)) c)) →
  P s → P (Apply s cmd).1.
Proof.
  intros Hstep Hs. rewrite Apply_eq.
  destruct (Hstep (setVersion cmd (resolveVersion s cmd))) as [Hp Hd]; [done..|].
  unfold applySwitch. repeat case_goal; done.
Qed.

Lemma Apply_bytes s cmd : bytes_ok s → bytes_ok (Apply s cmd).1.
Proof.
  intros Hs. apply Apply_preserves; [|done].
  split; [by apply applyPut_bytes|by apply applyDelete_bytes].
Qed.

Lemma Apply_gauges s cmd : gauges_ok s → gauges_ok (Apply s cmd).1.
Proof.
  intros Hs. apply Apply_preserves; [|done].
  split; [by apply applyPut_gauges|by apply applyDelete_gauges].
Qed.

(** *** [Apply] keeps the vnode indexes exact *)

Section index.
Context (vn : string → Z).

Lemma live_insert s k m k' :
  (∃ m', <[k:=m]> (meta s) !! k' = Some m' ∧ mTombstone m' = false) ↔
  if decide (k = k') then mTombstone m = false else live s k'.
Proof.
  unfold live. setoid_rewrite lookup_insert. case_decide; naive_solver.
Qed.

Lemma dead_insert s k m k' :
  (∃ m', <[k:=m]> (meta s) !! k' = Some m' ∧ mTombstone m' = true) ↔
  if decide (k = k') then mTombstone m = true else dead s k'.
Proof.
  unfold dead. setoid_rewrite lookup_insert. case_decide; naive_solver.
Qed.

Lemma applyPut_index s m cmd :
  routed vn cmd → index_ok vn s → index_ok vn (applyPut s m cmd).
Proof.
  unfold routed. intros Hr [Hst Hd Ht]. unfold applyPut.
  destruct (addKey _ _ _ _) as [idx1 c1] eqn:E1.
  destruct (removeKey _ _ _ _) as [idx2 c2] eqn:E2.
  split; unfold live, dead; simpl.
  - intros k. rewrite live_insert, lookup_insert.
    case_decide; [naive_solver|apply Hst].
  - intros v k. rewrite live_insert, (addKey_set _ _ _ _ _ _ v E1).
    specialize (Hd v k). repeat case_decide; set_solver.
  - intros v k. rewrite dead_insert, (removeKey_set _ _ _ _ _ _ v E2).
    specialize (Ht v k). simpl. repeat case_decide; set_solver.
Qed.

Lemma applyDelete_index s m cmd :
  routed vn cmd → index_ok vn s → index_ok vn (applyDelete s m cmd).
Proof.
  unfold routed. intros Hr [Hst Hd Ht]. unfold applyDelete.
  destruct (removeKey _ _ _ _) as [idx1 c1] eqn:E1.
  destruct (addKey _ _ _ _) as [idx2 c2] eqn:E2.
  split; unfold live, dead; simpl.
  - intros k. rewrite live_insert, lookup_delete.
    case_decide; [|apply Hst]. simpl. split; [by intros []|done].
  - intros v k. rewrite live_insert, (removeKey_set _ _ _ _ _ _ v E1).
    specialize (Hd v k). simpl. repeat case_decide; set_solver.
  - intros v k. rewrite dead_insert, (addKey_set _ _ _ _ _ _ v E2).
    specialize (Ht v k). repeat case_decide; set_solver.
Qed.

Lemma Apply_index s cmd :
  routed vn cmd → index_ok vn s → index_ok vn (Apply s cmd).1.
Proof.
  intros Hr Hs. apply Apply_preserves; [|done]. unfold routed in Hr. intros c Hk Hv.
  split; [apply applyPut_index|apply applyDelete_index]; unfold routed; congruence.
Qed.
End index.

(** *** [DeleteVNodeData] *)

Lemma DeleteVNodeData_eq s v :
  DeleteVNodeData s v =
    let indexSet := setOf (vNodeIdx s) v in
    let tsSet := setOf (tombstoneIdx s) v in
    if bool_decide (indexSet = ∅) && bool_decide (tsSet = ∅) then s
    else
      mkStore (map_deletes (storage s) (elements indexSet))
        (delete v (vNodeIdx s)) (delete v (tombstoneIdx s))
        (map_deletes (map_deletes (meta s) (elements indexSet)) (elements tsSet))
        (foldl (λ c _, if 0 <? c then c - 1 else c) (tombstoneCount s) (elements tsSet))
        (valueBytes s)
        (if negb (bool_decide (indexSet = ∅)) && (0 <? vnodesWithData s)
         then vnodesWithData s - 1 else vnodesWithData s)
        (if negb (bool_decide (tsSet = ∅)) && (0 <? vnodesWithTombstones s)
         then vnodesWithTombstones s - 1 else vnodesWithTombstones s).
Proof.
  unfold DeleteVNodeData. rewrite !size_0_empty. simpl.
  case_goal; [done|]. by rewrite !foldl_pair.
Qed.

(** Dropping a whole set, with the guarded decrement of the code. *)
Lemma drop_set_count idx v :
  (if negb (bool_decide (setOf idx v = ∅)) && (0 <? map_weight nonemptyW idx)
   then map_weight nonemptyW idx - 1 else map_weight nonemptyW idx)
  = map_weight nonemptyW (delete v idx).
Proof.
  rewrite map_weight_delete, opt_nonemptyW. case_bool_decide as HX; simpl.
  - rewrite HX, nonemptyW_empty. lia.
  - pose proof (nonempty_count_pos _ _ HX) as Hp%Z.ltb_lt.
    by rewrite Hp, nonemptyW_ne.
Qed.

Section drop.
Context (vn : string → Z) (s : Store) (v : Z) (Hix : index_ok vn s).

Let data := elements (setOf (vNodeIdx s) v).
Let tombs := elements (setOf (tombstoneIdx s) v).

Lemma drop_data k : k ∈ data ↔ vn k = v ∧ live s k.
Proof. unfold data. rewrite elem_of_elements. apply Hix. Qed.

Lemma drop_tombs k : k ∈ tombs ↔ vn k = v ∧ dead s k.
Proof. unfold tombs. rewrite elem_of_elements. apply Hix. Qed.

(** The entry of [k] after the call: gone when [k] belongs to the vnode. *)
Lemma DeleteVNodeData_lookup k :
  let s' := DeleteVNodeData s v in
  (storage s' !! k, meta s' !! k) =
  if decide (vn k = v) then (None, None) else (storage s !! k, meta s !! k).
Proof.
  simpl. rewrite DeleteVNodeData_eq. simpl.
  assert (Hgone : vn k = v → k ∉ data → k ∉ tombs → meta s !! k = None ∧ storage s !! k = None).
  { rewrite drop_data, drop_tombs. intros Hk Hl Hd.
    assert (meta s !! k = None) as Hm.
    { destruct (meta s !! k) as [m|] eqn:E; [|done].
      destruct (mTombstone m) eqn:Em; [destruct Hd|destruct Hl]; unfold dead, live; eauto. }
    split; [done|]. apply eq_None_not_Some. rewrite (ix_storage _ _ Hix). naive_solver. }
  case_goal; bool_to_prop; simpl.
  - case_decide as Hk; [|done]. destruct (Hgone Hk) as [-> ->]; [..|done].
    all: unfold data, tombs; set_solver.
  - fold data tombs. rewrite !lookup_map_deletes.
    destruct (decide (k ∈ data)) as [[Hk Hl]%drop_data|Hnd];
      destruct (decide (k ∈ tombs)) as [[Hk' Hd]%drop_tombs|Hnt]; subst;
      rewrite ?decide_True by done; try done.
    + assert (storage s !! k = None) as ->; [|done].
      apply eq_None_not_Some. rewrite (ix_storage _ _ Hix).
      intros Hl. by eapply live_not_dead.
    + destruct (decide (vn k = v)) as [Hk|]; [|reflexivity].
      by destruct (Hgone Hk) as [-> ->].
Qed.

Lemma DeleteVNodeData_storage k :
  storage (DeleteVNodeData s v) !! k = if decide (vn k = v) then None else storage s !! k.
Proof. pose proof (DeleteVNodeData_lookup k). case_decide; congruence. Qed.

Lemma DeleteVNodeData_meta k :
  meta (DeleteVNodeData s v) !! k = if decide (vn k = v) then None else meta s !! k.
Proof. pose proof (DeleteVNodeData_lookup k). case_decide; congruence. Qed.

Lemma drop_live k : live (DeleteVNodeData s v) k ↔ vn k ≠ v ∧ live s k.
Proof. unfold live. rewrite DeleteVNodeData_meta. case_decide; naive_solver. Qed.

Lemma drop_dead k : dead (DeleteVNodeData s v) k ↔ vn k ≠ v ∧ dead s k.
Proof. unfold dead. rewrite DeleteVNodeData_meta. case_decide; naive_solver. Qed.

Lemma DeleteVNodeData_sets w :
  let s' := DeleteVNodeData s v in
  setOf (vNodeIdx s') w = (if decide (v = w) then ∅ else setOf (vNodeIdx s) w) ∧
  setOf (tombstoneIdx s') w = (if decide (v = w) then ∅ else setOf (tombstoneIdx s) w).
Proof.
  simpl. rewrite DeleteVNodeData_eq. simpl. case_goal; bool_to_prop; simpl.
  - by case_decide; subst.
  - by rewrite !setOf_delete.
Qed.

Lemma DeleteVNodeData_index : index_ok vn (DeleteVNodeData s v).
Proof.
  split; intros.
  - rewrite drop_live, DeleteVNodeData_storage, <-(ix_storage _ _ Hix k).
    case_decide; [split; [by intros []|naive_solver]|naive_solver].
  - rewrite drop_live, (proj1 (DeleteVNodeData_sets _)).
    pose proof (ix_data _ _ Hix v0 k). case_decide; set_solver.
  - rewrite drop_dead, (proj2 (DeleteVNodeData_sets _)).
    pose proof (ix_tombs _ _ Hix v0 k). case_decide; set_solver.
Qed.

Lemma DeleteVNodeData_gauges : gauges_ok s → gauges_ok (DeleteVNodeData s v).
Proof.
  intros [Ht Hd Hv]. rewrite DeleteVNodeData_eq. simpl. case_goal; [done|].
  fold data tombs. split; simpl.
  - assert (Hw : map_weight tombW (map_deletes (map_deletes (meta s) data) tombs)
                 = map_weight tombW (meta s) - 1 * Z.of_nat (length tombs)).
    { rewrite (map_weight_deletes _ 1), (map_weight_deletes _ 0); [lia| | | |].
      1, 3: apply NoDup_elements.
      - intros k (_ & m & -> & Hm)%drop_data. simpl. unfold tombW. by rewrite Hm.
      - intros k (Hk & m & Em & Hm)%drop_tombs. rewrite lookup_map_deletes, decide_False.
        + rewrite Em. simpl. unfold tombW. by rewrite Hm.
        + rewrite drop_data. intros [_ Hl]. eapply live_not_dead; [done|].
          unfold dead. eauto. }
    rewrite Hw, foldl_count_down, Ht; [lia|]. rewrite Ht.
    assert (0 <= map_weight tombW (map_deletes (map_deletes (meta s) data) tombs)); [|lia].
    apply map_weight_nonneg. intros k m. unfold tombW. destruct (mTombstone m); lia.
  - rewrite Hd. apply drop_set_count.
  - rewrite Hv. apply drop_set_count.
Qed.
End drop.
