(* ===== verification/StoreSpec.v ===== *)
(** * What the store promises: a last-writer-wins map

    The abstract state of a store maps each key to the version of the last write
    that won and to the value it left ([None] for a delete).  The store refines
    that map, and because the winner of a set of writes does not depend on the
    order of delivery, replicas that receive the same writes converge. *)

From S2P Require Import Prelude Store.
From Stdlib.Strings Require Import Byte.

(** ** The abstract map *)

Definition cell : Type := Z * option (list byte).

Definition lww_version (a : gmap string cell) (k : string) : Z :=
  default 0 (fst <$> a !! k).

Definition lww_apply (a : gmap string cell) (cmd : Command) : gmap string cell :=
  let cur := lww_version a (Key cmd) in
  if negb (Version cmd =? 0) && (Version cmd <? cur) then a
  else
    let ver := if Version cmd =? 0 then cur +u64 1 else Version cmd in
    if Op cmd =? OpPut then <[Key cmd := (ver, Some (Value cmd))]> a
    else if Op cmd =? OpDelete then <[Key cmd := (ver, None)]> a
    else a.

Definition lww_get (a : gmap string cell) (k : string) : (list byte * Z) + Error :=
  match a !! k with
  | Some (ver, Some val) => inl (val, ver)
  | _ => inr ErrKeyNotFound
  end.

(** Abstraction function. *)
Definition abs (s : Store) : gmap string cell :=
  map_imap (λ k m, Some (mVersion m, if mTombstone m then None else storage s !! k)) (meta s).

(** A sequence of commands, as the event loop and the log replay apply them. *)
Definition apply_all (s : Store) (cmds : list Command) : Store :=
  foldl (λ s cmd, (Apply s cmd).1) s cmds.

(** Storage and metadata agree on which keys hold a value. *)
Definition data_ok (s : Store) : Prop := ∀ k, is_Some (storage s !! k) ↔ live s k.

(** ** Refinement *)

Lemma lookup_abs s k :
  abs s !! k =
    (λ m, (mVersion m, if mTombstone m then None else storage s !! k)) <$> meta s !! k.
Proof. unfold abs. rewrite map_lookup_imap. by destruct (meta s !! k). Qed.

Lemma abs_version s k : lww_version (abs s) k = mVersion (metaOf s k).
Proof. unfold lww_version, metaOf. rewrite lookup_abs. by destruct (meta s !! k). Qed.

Lemma applyPut_storage s m cmd : storage (applyPut s m cmd) = <[Key cmd := Value cmd]> (storage s).
Proof. unfold applyPut. by repeat case_goal. Qed.
Lemma applyPut_meta s m cmd :
  meta (applyPut s m cmd) = <[Key cmd := mkKeyMeta (Version cmd) false]> (meta s).
Proof. unfold applyPut. by repeat case_goal. Qed.
Lemma applyDelete_storage s m cmd : storage (applyDelete s m cmd) = delete (Key cmd) (storage s).
Proof. unfold applyDelete. by repeat case_goal. Qed.
Lemma applyDelete_meta s m cmd :
  meta (applyDelete s m cmd) = <[Key cmd := mkKeyMeta (Version cmd) true]> (meta s).
Proof. unfold applyDelete. by repeat case_goal. Qed.

Lemma abs_applyPut s m cmd :
  abs (applyPut s m cmd) = <[Key cmd := (Version cmd, Some (Value cmd))]> (abs s).
Proof.
  apply map_eq. intros k. rewrite lookup_abs, applyPut_meta, applyPut_storage, !lookup_insert.
  case_decide; simpl; [done|]. by rewrite lookup_abs.
Qed.

Lemma abs_applyDelete s m cmd :
  abs (applyDelete s m cmd) = <[Key cmd := (Version cmd, None)]> (abs s).
Proof.
  apply map_eq. intros k.
  rewrite lookup_abs, applyDelete_meta, applyDelete_storage, !lookup_insert, lookup_delete.
  case_decide; simpl; [done|]. by rewrite lookup_abs.
Qed.

Lemma Apply_abs s cmd : abs (Apply s cmd).1 = lww_apply (abs s) cmd.
Proof.
  rewrite Apply_eq. unfold stale, lww_apply, resolveVersion. rewrite abs_version.
  case_goal; [done|]. unfold applySwitch. simpl.
  repeat case_goal; simpl; rewrite ?abs_applyPut, ?abs_applyDelete; done.
Qed.

Lemma apply_all_abs s cmds : abs (apply_all s cmds) = foldl lww_apply (abs s) cmds.
Proof.
  unfold apply_all. revert s. induction cmds as [|c cmds IH]; intros s; simpl; [done|].
  by rewrite IH, Apply_abs.
Qed.

Lemma Apply_data_ok s cmd : data_ok s → data_ok (Apply s cmd).1.
Proof.
  intros Hs. apply Apply_preserves; [|done]. intros c _ _. split; intros k; unfold live.
  - rewrite applyPut_storage, applyPut_meta, !lookup_insert.
    case_decide; [naive_solver|apply Hs].
  - rewrite applyDelete_storage, applyDelete_meta, lookup_insert, lookup_delete.
    case_decide; [|apply Hs]. split; [by intros []|naive_solver].
Qed.

Lemma NewStore_data_ok : data_ok NewStore.
Proof. intros k. unfold live. simpl. rewrite !lookup_empty. split; [by intros []|naive_solver]. Qed.

Lemma apply_all_data_ok s cmds : data_ok s → data_ok (apply_all s cmds).
Proof.
  unfold apply_all. revert s. induction cmds; intros s Hs; simpl; auto using Apply_data_ok.
Qed.

Lemma GetWithVersion_abs s k : data_ok s → GetWithVersion s k = lww_get (abs s) k.
Proof.
  intros Hs. specialize (Hs k). unfold GetWithVersion, lww_get, metaOf, live in *.
  rewrite lookup_abs. destruct (storage s !! k) as [val|] eqn:Es.
  - destruct Hs as [Hs _]. destruct Hs as (m & -> & Hm); [done|]. simpl. by rewrite Hm.
  - destruct (meta s !! k) as [m|] eqn:Em; simpl; [|done].
    destruct (mTombstone m) eqn:Hm; [done|].
    destruct Hs as [_ Hs]. destruct Hs as [? ?]; [eauto|done].
Qed.

(** ** Convergence *)

(** Deliveries that a replica may receive in any order: versions are non-zero and
    identify the write among the writes to the same key. *)
Definition orderable (cmds : list Command) : Prop :=
  (∀ c, c ∈ cmds → Version c ≠ 0) ∧
  (∀ c1 c2, c1 ∈ cmds → c2 ∈ cmds →
     Key c1 = Key c2 → Version c1 = Version c2 → c1 = c2).

(** The cell a valid command writes. *)
Definition cmd_cell (c : Command) : option cell :=
  if Op c =? OpPut then Some (Version c, Some (Value c))
  else if Op c =? OpDelete then Some (Version c, None)
  else None.

Lemma lww_apply_versioned a c :
  Version c ≠ 0 →
  lww_apply a c =
    match cmd_cell c with
    | Some x => if Version c <? lww_version a (Key c) then a else <[Key c := x]> a
    | None => a
    end.
Proof.
  intros Hv%Z.eqb_neq. unfold lww_apply, cmd_cell. rewrite Hv. simpl.
  by repeat case_goal.
Qed.

Lemma lww_version_insert a k x k' :
  lww_version (<[k:=x]> a) k' = if decide (k = k') then x.1 else lww_version a k'.
Proof. unfold lww_version. rewrite lookup_insert. by case_decide. Qed.

Lemma cmd_cell_version c x : cmd_cell c = Some x → x.1 = Version c.
Proof. unfold cmd_cell. intros. repeat case_match; by simplify_eq. Qed.

Lemma lww_apply_comm a c1 c2 :
  Version c1 ≠ 0 → Version c2 ≠ 0 →
  (Key c1 = Key c2 → Version c1 = Version c2 → c1 = c2) →
  lww_apply (lww_apply a c1) c2 = lww_apply (lww_apply a c2) c1.
Proof.
  intros H1 H2 Hne. destruct (decide (c1 = c2)) as [->|Hc]; [done|].
  rewrite !lww_apply_versioned by done.
  destruct (cmd_cell c1) as [x1|] eqn:E1, (cmd_cell c2) as [x2|] eqn:E2; try done.
  apply cmd_cell_version in E1, E2.
  destruct (Version c1 <? lww_version a (Key c1)) eqn:L1,
    (Version c2 <? lww_version a (Key c2)) eqn:L2; rewrite ?L1, ?L2; try done.
  all: rewrite !lww_version_insert.
  all: destruct (decide (Key c1 = Key c2)) as [Hk|Hk];
    rewrite ?(decide_False (P := Key c1 = Key c2)), ?(decide_False (P := Key c2 = Key c1)),
      ?(decide_True (P := Key c1 = Key c2)), ?(decide_True (P := Key c2 = Key c1)),
      ?L1, ?L2 by congruence; try done.
  all: rewrite ?Hk, ?E1, ?E2 in *; bool_to_prop.
  4: by rewrite insert_insert_ne.
  all: assert (Version c1 ≠ Version c2) by naive_solver.
  all: repeat case_match; bool_to_prop; try lia; by rewrite ?insert_insert_eq.
Qed.

Lemma orderable_Permutation l l' : l ≡ₚ l' → orderable l → orderable l'.
Proof. intros Hp [H1 H2]. split; intros *; rewrite <-!Hp; [apply H1|apply H2]. Qed.

Lemma orderable_cons c l : orderable (c :: l) → orderable l.
Proof. intros [H1 H2]. split; intros; [apply H1|apply H2]; by try right. Qed.

Lemma lww_converge a l l' :
  l ≡ₚ l' → orderable l → foldl lww_apply a l = foldl lww_apply a l'.
Proof.
  intros Hp. revert a. induction Hp as [|x l l' Hp IH|x y l|l1 l2 l3 Hp1 IH1 Hp2 IH2];
    intros a Ho; simpl.
  - done.
  - apply IH. by eapply orderable_cons.
  - destruct Ho as [Hz Hu]. rewrite lww_apply_comm; [done|apply Hz; set_solver..|].
    intros. apply Hu; set_solver.
  - rewrite IH1 by done. apply IH2. by eapply orderable_Permutation.
Qed.

(** ** Versions never go back *)

Lemma lww_apply_version_mono a cmd k :
  Version cmd ≠ 0 ∨ 0 <= lww_version a (Key cmd) < MaxUint64 →
  lww_version a k <= lww_version (lww_apply a cmd) k.
Proof.
  intros Hv. unfold lww_apply.
  repeat case_goal; rewrite ?lww_version_insert; try lia.
  all: case_decide; subst; simpl; try lia.
  all: try (apply andb_false_iff in Heqb as [?|?]); bool_to_prop; try lia.
  all: unfold u64, MaxUint64 in *; rewrite Z.mod_small by lia; lia.
Qed.

(** ** Reachable stores *)

(** One mutation of a store whose keys are routed by [vn]. *)
Inductive store_step (vn : string → Z) : Store → Store → Prop :=
  | step_apply s cmd : routed vn cmd → store_step vn s (Apply s cmd).1
  | step_drop s v : store_step vn s (DeleteVNodeData s v).

Lemma NewStore_gauges : gauges_ok NewStore.
Proof. split; simpl; by rewrite map_weight_empty. Qed.

Lemma NewStore_bytes : bytes_ok NewStore.
Proof. unfold bytes_ok. simpl. by rewrite map_weight_empty. Qed.

Lemma NewStore_index vn : index_ok vn NewStore.
Proof.
  split; unfold live, dead; simpl.
  - apply NewStore_data_ok.
  - intros v k. unfold setOf. rewrite !lookup_empty. set_solver.
  - intros v k. unfold setOf. rewrite !lookup_empty. set_solver.
Qed.

Lemma store_step_inv vn s s' :
  store_step vn s s' → index_ok vn s ∧ gauges_ok s → index_ok vn s' ∧ gauges_ok s'.
Proof.
  intros Hst [Hi Hg]. destruct Hst as [s cmd Hr|s v].
  - split; [by apply Apply_index|by apply Apply_gauges].
  - split; [by apply DeleteVNodeData_index|by eapply DeleteVNodeData_gauges].
Qed.

(** C5: the vnode indexes and the three population counters of the store
    ([tombstoneCount], [vnodesWithData], [vnodesWithTombstones]) are exact in every
    state reachable from [NewStore] by routed [Apply]s and [DeleteVNodeData]s. *)
Theorem reachable_store_indexes_exact vn s :
  rtc (store_step vn) NewStore s → index_ok vn s ∧ gauges_ok s.
Proof.
  intros Hs. assert (index_ok vn NewStore ∧ gauges_ok NewStore) as H0.
  { split; [apply NewStore_index|apply NewStore_gauges]. }
  revert H0. induction Hs as [|s1 s2 s3 Hst _ IH]; [done|].
  intros H1. apply IH. by eapply store_step_inv.
Qed.

(** Sample commands used by the witnesses. *)
Definition put_cmd (k : string) (val : list byte) (v ver : Z) : Command :=
  mkCommand OpPut k val v ver.
Definition del_cmd (k : string) (v ver : Z) : Command := mkCommand OpDelete k [] v ver.
Definition sample_store : Store :=
  apply_all NewStore [put_cmd "a" [x01; x02; x03] 7 10; put_cmd "b" [x04] 7 11; del_cmd "b" 7 12].

Lemma reachable_store_indexes_exact_witness :
  index_ok (λ _, 7) (DeleteVNodeData sample_store 7) ∧
  gauges_ok (DeleteVNodeData sample_store 7).
Proof.
  apply (reachable_store_indexes_exact (λ _, 7)).
  eapply rtc_l; [apply (step_apply _ _ (put_cmd "a" [x01; x02; x03] 7 10)); reflexivity|].
  eapply rtc_l; [apply (step_apply _ _ (put_cmd "b" [x04] 7 11)); reflexivity|].
  eapply rtc_l; [apply (step_apply _ _ (del_cmd "b" 7 12)); reflexivity|].
  apply rtc_once, (step_drop _ sample_store).
Defined.

(** C2: the store implements a last-writer-wins map: whatever commands are applied,
    in order, reads return what the abstract map holds. *)
Theorem store_refines_lww s cmds k :
  data_ok s →
  abs (apply_all s cmds) = foldl lww_apply (abs s) cmds ∧
  GetWithVersion (apply_all s cmds) k = lww_get (foldl lww_apply (abs s) cmds) k.
Proof.
  intros Hs. split; [apply apply_all_abs|].
  rewrite GetWithVersion_abs by by apply apply_all_data_ok. by rewrite apply_all_abs.
Qed.

Lemma store_refines_lww_witness :
  abs sample_store = foldl lww_apply (abs NewStore)
    [put_cmd "a" [x01; x02; x03] 7 10; put_cmd "b" [x04] 7 11; del_cmd "b" 7 12] ∧
  GetWithVersion sample_store "a" = inl ([x01; x02; x03], 10).
Proof.
  destruct (store_refines_lww NewStore
    [put_cmd "a" [x01; x02; x03] 7 10; put_cmd "b" [x04] 7 11; del_cmd "b" 7 12] "a"
    NewStore_data_ok) as [H1 H2].
  split; [exact H1|]. exact (eq_trans H2 eq_refl).
Defined.



(** A key's version never decreases, so a read never sees an older write than
    one already applied; the only exception is an unversioned ([Version = 0]) write
    on top of version 2^64-1, which the code wraps to 0. *)
Theorem version_never_decreases s cmd k :
  Version cmd ≠ 0 ∨ 0 <= mVersion (metaOf s (Key cmd)) < MaxUint64 →
  mVersion (metaOf s k) <= mVersion (metaOf (Apply s cmd).1 k).
Proof.
  rewrite <-!abs_version, Apply_abs. apply lww_apply_version_mono.
Qed.

Lemma version_never_decreases_witness :
  mVersion (metaOf sample_store "a") <=
  mVersion (metaOf (Apply sample_store (put_cmd "a" [x09] 7 5)).1 "a").
Proof. apply version_never_decreases. left. discriminate. Defined.
