(* ===== verification/WalCodec.v ===== *)
(** * The write-ahead log's record format and its replay ([src/core/wal.go])

    A record is [Op | VNodeID | Version | keyLen | key | valLen | value] with
    big-endian fixed-width fields and [uvarint] lengths.  This file models the
    encoding, the readers of [bufio], [io] and [encoding/binary] that
    [ReplayWal] uses, and the replay loop itself. *)

From S2P Require Import Prelude Store.
From Stdlib.Strings Require Import Byte.

(** ** Bytes *)

Definition Z_of_byte (b : byte) : Z := Z.of_N (Byte.to_N b).
Definition byte_of_Z (z : Z) : byte :=
  default x00 (Byte.of_N (Z.to_N (z mod 256))).

Lemma Z_of_byte_range b : 0 <= Z_of_byte b < 256.
Proof. unfold Z_of_byte. pose proof (Byte.to_N_bounded b). lia. Qed.

Lemma Z_of_byte_of_Z z : Z_of_byte (byte_of_Z z) = z mod 256.
Proof.
  unfold Z_of_byte, byte_of_Z. pose proof (Z.mod_pos_bound z 256 eq_refl).
  destruct (Byte.of_N (Z.to_N (z mod 256))) as [b|] eqn:E; simpl.
  - apply Byte.to_of_N in E. rewrite E. lia.
  - apply Byte.of_N_None_iff in E. lia.
Qed.

Lemma byte_of_Z_of_byte b : byte_of_Z (Z_of_byte b) = b.
Proof.
  unfold byte_of_Z, Z_of_byte. rewrite Z.mod_small by apply Z_of_byte_range.
  by rewrite N2Z.id, Byte.of_to_N.
Qed.

(** ** Encoding *)

(** [binary.BigEndian.PutUint16] / [PutUint64] *)
Fixpoint be_bytes (n : nat) (v : Z) : list byte :=
  match n with
  | O => []
  | S n => byte_of_Z (Z.shiftr v (8 * Z.of_nat n)) :: be_bytes n v
  end.

(** [binary.BigEndian.Uint16] / [Uint64] *)
Definition be_value (l : list byte) : Z :=
  foldl (λ acc b, Z.lor (Z.shiftl acc 8) (Z_of_byte b)) 0 l.

(** [binary.MaxVarintLen64] *)
Definition MaxVarintLen64 : nat := 10.

(** [binary.PutUvarint]; [fuel] bounds the loop. *)
Fixpoint putUvarint (fuel : nat) (x : Z) : list byte :=
  match fuel with
  | O => []
  | S fuel =>
      if x <? 128 then [byte_of_Z x]
      else byte_of_Z (Z.lor (x mod 256) 128) :: putUvarint fuel (Z.shiftr x 7)
  end.

Definition uvarint (x : Z) : list byte := putUvarint MaxVarintLen64 x.

Definition key_bytes (k : string) : list byte := String.list_byte_of_string k.
Definition len {A} (l : list A) : Z := Z.of_nat (length l).

(** The bytes [writerLoop] writes for one command. *)
Definition encodeBody (cmd : Command) : list byte :=
  be_bytes 2 (VNodeID cmd) ++ be_bytes 8 (Version cmd)
  ++ uvarint (len (key_bytes (Key cmd))) ++ key_bytes (Key cmd)
  ++ uvarint (len (Value cmd)) ++ Value cmd.

Definition encode (cmd : Command) : list byte := byte_of_Z (Op cmd) :: encodeBody cmd.

Definition encode_all (cmds : list Command) : list byte := concat (encode <$> cmds).

(** ** Readers *)

Inductive ReadErr :=
  | EOF
  | ErrUnexpectedEOF
  | ErrOverflow
  | PanicMakeslice.   (* [make] with a length the runtime refuses *)

Definition Reader (A : Type) : Type := list byte → (A * list byte) + ReadErr.

Definition rret {A} (a : A) : Reader A := λ l, inl (a, l).
Definition rfail {A} (e : ReadErr) : Reader A := λ _, inr e.
Definition rbind {A B} (m : Reader A) (f : A → Reader B) : Reader B := λ l,
  match m l with
  | inl (a, l') => f a l'
  | inr e => inr e
  end.
Notation "'let?' x := m 'in' k" := (rbind m (λ x, k))
  (at level 10, x pattern, m at level 100, k at level 200) : go_scope.

(** [bufio.Reader.ReadByte] *)
Definition ReadByte : Reader byte := λ l,
  match l with
  | [] => inr EOF
  | b :: l' => inl (b, l')
  end.

(** [io.ReadFull] into a slice of length [n]. *)
Definition ReadFull (n : Z) : Reader (list byte) := λ l,
  if n <=? len l then inl (take (Z.to_nat n) l, drop (Z.to_nat n) l)
  else match l with [] => inr EOF | _ => inr ErrUnexpectedEOF end.

(** [binary.ReadUvarint], from iteration [i] with accumulator [x] and shift [s]. *)
Fixpoint readUvarint (fuel : nat) (i : nat) (x s : Z) : Reader Z := λ l,
  match fuel with
  | O => inr ErrOverflow
  | S fuel =>
      match l with
      | [] => inr (if (0 <? i)%nat then ErrUnexpectedEOF else EOF)
      | b :: l' =>
          if Z_of_byte b <? 128 then
            if (i =? MaxVarintLen64 - 1)%nat && (1 <? Z_of_byte b) then inr ErrOverflow
            else inl (Z.lor x (Z.shiftl (Z_of_byte b) s), l')
          else
            readUvarint fuel (S i)
              (Z.lor x (Z.shiftl (Z.land (Z_of_byte b) 127) s)) (s + 7) l'
      end
  end.

Definition ReadUvarint : Reader Z := readUvarint MaxVarintLen64 0 0 0.

Arguments uvarint : simpl never.
Arguments ReadUvarint : simpl never.

(** [make([]byte, n)] for a [uint64] length: the runtime panics beyond the
    largest allocation of a 64-bit Linux process. *)
Definition maxAlloc : Z := 2 ^ 48.
Definition make_bytes (n : Z) : Reader unit :=
  if n <=? maxAlloc then rret tt else rfail PanicMakeslice.

(** The body of [ReplayWal]'s loop after the operation byte. *)
Definition readBody (op : byte) : Reader Command :=
  let? vnodeBytes := ReadFull 2 in
  let? versionBytes := ReadFull 8 in
  let? keyLen := ReadUvarint in
  let? _ := make_bytes keyLen in
  let? key := ReadFull keyLen in
  let? valLen := ReadUvarint in
  let? _ := make_bytes valLen in
  let? val := ReadFull valLen in
  rret (mkCommand (Z_of_byte op) (String.string_of_list_byte key) val
          (be_value vnodeBytes) (be_value versionBytes)).

(** ** Replay *)

Inductive ReplayResult :=
  | ReplayOk
  | ReplayReadErr (e : ReadErr)
  | ReplayApplyErr (e : Error)
  | ReplayOpenErr
  | ReplayOutOfFuel.

Section replay.
Context {St : Type}.
Variable apply : St → Command → St * option Error.

Fixpoint replayLoop (fuel : nat) (st : St) (l : list byte) : St * ReplayResult :=
  match fuel with
  | O => (st, ReplayOutOfFuel)
  | S fuel =>
      match ReadByte l with
      | inr EOF => (st, ReplayOk)
      | inr e => (st, ReplayReadErr e)
      | inl (op, l1) =>
          match readBody op l1 with
          | inr e => (st, ReplayReadErr e)
          | inl (cmd, l2) =>
              match apply st cmd with
              | (st', Some e) => (st', ReplayApplyErr e)
              | (st', None) => replayLoop fuel st' l2
              end
          end
      end
  end.

(** [ReplayWal]: [file] is the content of the log, [None] when it cannot be
    opened.  Each iteration consumes at least one byte. *)
Definition ReplayWal (st : St) (file : option (list byte)) : St * ReplayResult :=
  match file with
  | None => (st, ReplayOpenErr)
  | Some l => replayLoop (S (length l)) st l
  end.

(** Applying commands until the first error, as the replay does. *)
Fixpoint applyUntilErr (st : St) (cmds : list Command) : St * option Error :=
  match cmds with
  | [] => (st, None)
  | c :: cmds =>
      match apply st c with
      | (st', Some e) => (st', Some e)
      | (st', None) => applyUntilErr st' cmds
      end
  end.
End replay.

(** ** Round trips of the fields *)

Lemma be_value_acc n v acc :
  0 <= acc →
  foldl (λ acc b, Z.lor (Z.shiftl acc 8) (Z_of_byte b)) acc (be_bytes n v)
  = acc * 2 ^ (8 * Z.of_nat n) + v mod 2 ^ (8 * Z.of_nat n).
Proof.
  revert acc. induction n as [|n IH]; intros acc Hacc; cbn [be_bytes foldl].
  - change (2 ^ (8 * Z.of_nat 0)) with 1. rewrite Z.mod_1_r. lia.
  - pose proof (Z_of_byte_range (byte_of_Z (Z.shiftr v (8 * Z.of_nat n)))).
    rewrite lor_shiftl_add by lia. rewrite IH by lia. rewrite Z_of_byte_of_Z.
    rewrite Z.shiftr_div_pow2 by lia.
    replace (8 * Z.of_nat (S n)) with (8 * Z.of_nat n + 8) by lia.
    rewrite Z.pow_add_r by lia. change (2 ^ 8) with 256.
    rewrite Z.rem_mul_r by lia. lia.
Qed.

Lemma be_round_trip n v :
  0 <= v < 2 ^ (8 * Z.of_nat n) → be_value (be_bytes n v) = v.
Proof.
  intros Hv. unfold be_value. rewrite be_value_acc by lia. rewrite Z.mod_small by done. lia.
Qed.

Lemma length_be_bytes n v : length (be_bytes n v) = n.
Proof. induction n; simpl; auto. Qed.

(** The continuation byte of a varint carries the low seven bits. *)
Lemma varint_byte x :
  0 <= x →
  let b := Z_of_byte (byte_of_Z (Z.lor (x mod 256) 128)) in
  128 <= b ∧ Z.land b 127 = x mod 128.
Proof.
  intros Hx. simpl. rewrite Z_of_byte_of_Z.
  assert (Z.lor (x mod 256) 128 = 128 + x mod 128) as ->.
  { change 256 with (128 * 2). rewrite (Z.rem_mul_r x 128 2) by lia.
    pose proof (Z.mod_pos_bound x 128 eq_refl).
    destruct (Z.mod_pos_bound ((x / 128)) 2 eq_refl) as [H1 H2].
    assert ((x / 128) mod 2 = 0 ∨ (x / 128) mod 2 = 1) as [->| ->] by lia.
    - rewrite Z.mul_0_r, Z.add_0_r. change 128 with (Z.shiftl 1 7) at 2.
      rewrite lor_add_shiftl by lia. lia.
    - replace (x mod 128 + 128 * 1) with (Z.lor (x mod 128) (Z.shiftl 1 7))
        by (rewrite lor_add_shiftl by lia; lia).
      rewrite <-Z.lor_assoc. change (Z.lor (Z.shiftl 1 7) 128) with (Z.shiftl 1 7).
      rewrite lor_add_shiftl by lia. lia. }
  pose proof (Z.mod_pos_bound x 128 eq_refl). rewrite Z.mod_small by lia.
  split; [lia|]. change 127 with (Z.ones 7). rewrite Z.land_ones by lia.
  change (2 ^ 7) with 128. rewrite <-(Z.mul_1_l 128) at 1. rewrite Z.add_comm.
  rewrite Z.mod_add by lia. apply Z.mod_mod. lia.
Qed.

Lemma readUvarint_put fuel i x acc rest :
  (fuel + i = 10)%nat → (0 < fuel)%nat →
  0 <= x < 2 ^ (64 - 7 * Z.of_nat i) → 0 <= acc < 2 ^ (7 * Z.of_nat i) →
  readUvarint fuel i acc (7 * Z.of_nat i) (putUvarint fuel x ++ rest)
  = inl (acc + x * 2 ^ (7 * Z.of_nat i), rest).
Proof.
  revert i x acc. induction fuel as [|fuel IH]; intros i x acc Hfi Hf Hx Hacc; [lia|].
  cbn [putUvarint readUvarint]. destruct (x <? 128) eqn:Hlt; bool_to_prop; simpl.
  - rewrite Z_of_byte_of_Z, Z.mod_small by lia. rewrite (proj2 (Z.ltb_lt x 128)) by lia.
    rewrite lor_add_shiftl by lia.
    destruct (i =? 9)%nat eqn:Ei; bool_to_prop; simpl; [|done].
    subst i. rewrite (proj2 (Z.ltb_ge 1 x)); [done|]. change (2 ^ (64 - 7 * Z.of_nat 9)) with 2 in Hx. lia.
  - destruct (varint_byte x ltac:(lia)) as [Hb Hl].
    rewrite (proj2 (Z.ltb_ge _ 128)) by lia. rewrite Hl.
    pose proof (Z.mod_pos_bound x 128 eq_refl).
    rewrite lor_add_shiftl by lia.
    replace (7 * Z.of_nat i + 7) with (7 * Z.of_nat (S i)) by lia.
    assert (Hp : 2 ^ (7 * Z.of_nat (S i)) = 2 ^ (7 * Z.of_nat i) * 128).
    { replace (7 * Z.of_nat (S i)) with (7 * Z.of_nat i + 7) by lia. by rewrite Z.pow_add_r by lia. }
    assert (Hi : (i < 9)%nat).
    { destruct (decide (i = 9%nat)) as [->|]; [|lia].
      change (2 ^ (64 - 7 * Z.of_nat 9)) with 2 in Hx. lia. }
    rewrite IH; [|lia|lia| |].
    + f_equal. f_equal. rewrite Hp, Z.shiftr_div_pow2 by lia. change (2 ^ 7) with 128.
      pose proof (Z.div_mod x 128). nia.
    + rewrite Z.shiftr_div_pow2 by lia. split; [apply Z.div_pos; lia|].
      apply Z.div_lt_upper_bound; [lia|].
      rewrite <-Z.pow_add_r by lia. replace (7 + (64 - 7 * Z.of_nat (S i))) with (64 - 7 * Z.of_nat i) by lia.
      lia.
    + rewrite Hp. nia.
Qed.

Lemma uvarint_round_trip x rest : is_u64 x → ReadUvarint (uvarint x ++ rest) = inl (x, rest).
Proof.
  intros Hx. unfold ReadUvarint, uvarint.
  pose proof (readUvarint_put MaxVarintLen64 0 x 0 rest) as H.
  change (7 * Z.of_nat 0) with 0 in H. rewrite H; [do 2 f_equal; lia|..].
  all: unfold MaxVarintLen64, is_u64 in *; lia.
Qed.

Lemma length_putUvarint fuel x : (length (putUvarint fuel x) <= fuel)%nat.
Proof.
  revert x. induction fuel as [|fuel IH]; intros x; simpl; [done|].
  case_match; simpl; [lia|]. specialize (IH (Z.shiftr x 7)). lia.
Qed.

Lemma ReadFull_app l rest : ReadFull (len l) (l ++ rest) = inl (l, rest).
Proof.
  unfold ReadFull, len. rewrite length_app, (proj2 (Z.leb_le _ _)) by lia.
  by rewrite Nat2Z.id, take_app_length, drop_app_length.
Qed.

(** ** Records *)

(** What a command of a running node satisfies: fields within their Go widths and
    lengths the runtime can allocate. *)
Definition wf_cmd (cmd : Command) : Prop :=
  0 <= Op cmd < 2 ^ 8 ∧ 0 <= VNodeID cmd < 2 ^ 16 ∧ is_u64 (Version cmd) ∧
  len (key_bytes (Key cmd)) <= maxAlloc ∧ len (Value cmd) <= maxAlloc.

#[export] Instance wf_cmd_dec cmd : Decision (wf_cmd cmd).
Proof. unfold wf_cmd. apply _. Defined.

Lemma len_nonneg {A} (l : list A) : 0 <= len l.
Proof. unfold len. lia. Qed.

Lemma rbind_ok {A B} (m : Reader A) (f : A → Reader B) l a l' :
  m l = inl (a, l') → rbind m f l = f a l'.
Proof. unfold rbind. by intros ->. Qed.

Lemma make_bytes_ok n l : n <= maxAlloc → make_bytes n l = inl (tt, l).
Proof. intros Hn%Z.leb_le. unfold make_bytes. by rewrite Hn. Qed.

Lemma read_len (n : Z) rest :
  0 <= n <= maxAlloc → ReadUvarint (uvarint n ++ rest) = inl (n, rest).
Proof. intros. apply uvarint_round_trip. unfold is_u64, maxAlloc in *. lia. Qed.

Lemma ReadFull_be n v rest : ReadFull (Z.of_nat n) (be_bytes n v ++ rest) = inl (be_bytes n v, rest).
Proof. rewrite <-(length_be_bytes n v) at 1. apply ReadFull_app. Qed.

Lemma readBody_encode cmd rest :
  wf_cmd cmd →
  readBody (byte_of_Z (Op cmd)) (encodeBody cmd ++ rest) = inl (cmd, rest).
Proof.
  intros (Hop & Hvn & Hver & Hk & Hv). unfold readBody, encodeBody. rewrite <-!(assoc_L (++)).
  pose proof (len_nonneg (key_bytes (Key cmd))). pose proof (len_nonneg (Value cmd)).
  erewrite rbind_ok by apply (ReadFull_be 2). erewrite rbind_ok by apply (ReadFull_be 8).
  erewrite rbind_ok by (apply read_len; lia). erewrite rbind_ok by (apply make_bytes_ok; lia).
  erewrite rbind_ok by apply ReadFull_app. erewrite rbind_ok by (apply read_len; lia).
  erewrite rbind_ok by (apply make_bytes_ok; lia). erewrite rbind_ok by apply ReadFull_app.
  unfold rret. rewrite !be_round_trip by (unfold is_u64 in *; lia).
  rewrite Z_of_byte_of_Z, Z.mod_small by lia.
  unfold key_bytes. rewrite String.string_of_list_byte_of_string. by destruct cmd.
Qed.

(** *** Reading more input does not change a successful read

    [extends m]: a read that succeeds, or fails for a reason other than running out
    of input, does the same when more input follows; a read never adds input. *)
Definition eof (e : ReadErr) : Prop := e = EOF ∨ e = ErrUnexpectedEOF.

Record extends {A} (m : Reader A) : Prop := {
  ext_ok : ∀ l q a r, m l = inl (a, r) → m (l ++ q) = inl (a, r ++ q);
  ext_err : ∀ l q e, m l = inr e → ¬ eof e → m (l ++ q) = inr e;
  ext_len : ∀ l a r, m l = inl (a, r) → (length r <= length l)%nat
}.

Lemma extends_ret {A} (a : A) : extends (rret a).
Proof. split; unfold rret; naive_solver. Qed.

Lemma extends_fail {A} e : extends (rfail e : Reader A).
Proof. split; unfold rfail; naive_solver. Qed.

Lemma extends_bind {A B} (m : Reader A) (f : A → Reader B) :
  extends m → (∀ a, extends (f a)) → extends (rbind m f).
Proof.
  intros [Hok Herr Hlen] Hf. split; unfold rbind; intros l.
  - intros q b r H. destruct (m l) as [[a l']|e] eqn:E; [|done].
    rewrite (Hok _ q _ _ E). by apply Hf.
  - intros q e H He. destruct (m l) as [[a l']|e'] eqn:E; simplify_eq.
    + rewrite (Hok _ q _ _ E). by apply Hf.
    + by rewrite (Herr _ q _ E).
  - intros b r H. destruct (m l) as [[a l']|e'] eqn:E; simplify_eq.
    apply Hlen in E. apply Hf in H. lia.
Qed.

Lemma extends_ReadFull n : extends (ReadFull n).
Proof.
  split; unfold ReadFull, len; intros l.
  - intros q a r H. case_match; [|by case_match]. simplify_eq. bool_to_prop.
    rewrite (proj2 (Z.leb_le _ _)) by (rewrite length_app; lia).
    by rewrite take_app_le, drop_app_le by lia.
  - intros q e H He. destruct He. repeat case_match; simplify_eq; unfold eof; auto.
  - intros a r H. repeat case_match; simplify_eq. rewrite length_drop. lia.
Qed.

Lemma extends_readUvarint fuel i x s : extends (readUvarint fuel i x s).
Proof.
  revert i x s. induction fuel as [|fuel IH]; intros i x s; [by split|].
  split; intros [|b l]; cbn [readUvarint app length].
  - done.
  - intros q a r H. repeat case_match; simplify_eq; [done|by apply IH].
  - intros q e H He. destruct He. case_match; simplify_eq; unfold eof; auto.
  - intros q e H He. repeat case_match; simplify_eq; [done|by apply IH].
  - done.
  - intros a r H. repeat case_match; simplify_eq; [lia|]. apply IH in H. lia.
Qed.

Lemma extends_ReadUvarint : extends ReadUvarint.
Proof. apply extends_readUvarint. Qed.

Lemma extends_make n : extends (make_bytes n).
Proof. unfold make_bytes. case_match; [apply extends_ret|apply extends_fail]. Qed.

#[export] Hint Resolve extends_ret extends_fail extends_bind extends_ReadFull
  extends_ReadUvarint extends_make : nawst.

Lemma extends_readBody op : extends (readBody op).
Proof. unfold readBody. auto 20 with nawst. Qed.

(** ** Replay *)

Section replay_proofs.
Context {St : Type} (apply : St → Command → St * option Error).
Implicit Types (st : St) (l : list byte).

(** The fuel [ReplayWal] passes is enough: more fuel changes nothing and the loop
    never runs out. *)
Lemma replayLoop_fuel f1 f2 st l :
  (length l < f1)%nat → (length l < f2)%nat →
  replayLoop apply f1 st l = replayLoop apply f2 st l.
Proof.
  revert f2 st l. induction f1 as [|f1 IH]; intros [|f2] st l H1 H2; try lia.
  cbn [replayLoop]. destruct l as [|op l]; [done|]. cbn [ReadByte length] in *.
  destruct (readBody op l) as [[cmd l2]|e] eqn:E; [|done].
  apply (ext_len _ (extends_readBody op)) in E.
  destruct (apply st cmd) as [st' [e|]]; [done|]. apply IH; lia.
Qed.

Lemma replayLoop_not_out_of_fuel f st l :
  (length l < f)%nat → (replayLoop apply f st l).2 ≠ ReplayOutOfFuel.
Proof.
  revert st l. induction f as [|f IH]; intros st l Hf; [lia|].
  cbn [replayLoop]. destruct l as [|op l]; [done|]. cbn [ReadByte length] in *.
  destruct (readBody op l) as [[cmd l2]|e] eqn:E; [|done].
  apply (ext_len _ (extends_readBody op)) in E.
  destruct (apply st cmd) as [st' [e|]]; [done|]. apply IH. lia.
Qed.

(** One record at the head of the log. *)
Lemma ReplayWal_cons st cmd rest :
  wf_cmd cmd →
  ReplayWal apply st (Some (encode cmd ++ rest)) =
    match apply st cmd with
    | (st', Some e) => (st', ReplayApplyErr e)
    | (st', None) => ReplayWal apply st' (Some rest)
    end.
Proof.
  intros Hwf. unfold ReplayWal. rewrite length_app. unfold encode at 2.
  cbn [replayLoop ReadByte app]. rewrite readBody_encode by done.
  destruct (apply st cmd) as [st' [e|]]; [done|].
  apply (replayLoop_fuel _ (S (length rest))); unfold encode; cbn [length]; lia.
Qed.

Lemma ReplayWal_app st cmds rest :
  Forall wf_cmd cmds →
  ReplayWal apply st (Some (encode_all cmds ++ rest)) =
    match applyUntilErr apply st cmds with
    | (st', Some e) => (st', ReplayApplyErr e)
    | (st', None) => ReplayWal apply st' (Some rest)
    end.
Proof.
  intros Hwf. revert st. induction Hwf as [|c cmds Hc _ IH]; intros st; [done|].
  unfold encode_all. cbn [fmap list_fmap concat applyUntilErr].
  rewrite <-(assoc_L (++)), ReplayWal_cons by done.
  destruct (apply st c) as [st' [e|]]; [done|]. apply IH.
Qed.

(** A cut record is reported as an end of file, never decoded. *)
Lemma ReplayWal_torn st cmd p q :
  wf_cmd cmd → p ≠ [] → q ≠ [] → p ++ q = encode cmd →
  ∃ e, eof e ∧ ReplayWal apply st (Some p) = (st, ReplayReadErr e).
Proof.
  intros Hwf Hp Hq Hpq. destruct p as [|op p]; [done|].
  unfold encode in Hpq. injection Hpq as -> Hpq.
  pose proof (readBody_encode cmd [] Hwf) as Hb. rewrite app_nil_r, <-Hpq in Hb.
  pose proof (extends_readBody (byte_of_Z (Op cmd))) as [Hok Herr _].
  unfold ReplayWal. cbn [replayLoop ReadByte].
  destruct (readBody (byte_of_Z (Op cmd)) p) as [[c r]|e] eqn:E.
  - rewrite (Hok _ q _ _ E) in Hb. simplify_eq. by destruct r, q.
  - exists e. split; [|done]. destruct e; unfold eof; auto.
    all: rewrite (Herr _ q _ E) in Hb; [done|]; intros [?|?]; done.
Qed.

(** C24: replaying a log that holds the records of [cmds] hands exactly these
    commands, unchanged and in order, to [apply]; it stops at the first error of
    [apply] and reports it, and otherwise reports success. *)
Theorem wal_round_trip st cmds :
  Forall wf_cmd cmds →
  ReplayWal apply st (Some (encode_all cmds)) =
    match applyUntilErr apply st cmds with
    | (st', Some e) => (st', ReplayApplyErr e)
    | (st', None) => (st', ReplayOk)
    end.
Proof.
  intros Hwf. pose proof (ReplayWal_app st cmds [] Hwf) as H. by rewrite app_nil_r in H.
Qed.

(** When the last record was cut short (a crash in the middle of a write), replay
    still applies every complete record before it, decodes nothing from the cut
    one, and returns an end-of-file error instead of success. *)
Theorem wal_torn_tail st st' cmds cmd p q :
  Forall wf_cmd cmds → wf_cmd cmd →
  p ≠ [] → q ≠ [] → p ++ q = encode cmd →
  applyUntilErr apply st cmds = (st', None) →
  ∃ e, eof e ∧ ReplayWal apply st (Some (encode_all cmds ++ p)) = (st', ReplayReadErr e).
Proof.
  intros Hwf Hc Hp Hq Hpq Hap. rewrite ReplayWal_app by done. rewrite Hap.
  by eapply ReplayWal_torn.
Qed.

(** Replay terminates on every file, whatever its bytes are. *)
Theorem replay_total st file : (ReplayWal apply st file).2 ≠ ReplayOutOfFuel.
Proof.
  destruct file as [l|]; [|done]. apply replayLoop_not_out_of_fuel. lia.
Qed.
End replay_proofs.

Definition sample_cmds : list Command :=
  [mkCommand OpPut "key" [x41; x42] 513 (2 ^ 63 + 5); mkCommand OpDelete "" [] 0 7].

Lemma wal_round_trip_witness :
  ReplayWal (λ st c, (st ++ [c], None)) [] (Some (encode_all sample_cmds)) = (sample_cmds, ReplayOk).
Proof.
  rewrite wal_round_trip; [reflexivity|].
  apply (bool_decide_unpack (Forall wf_cmd sample_cmds)). vm_compute. exact I.
Defined.

Lemma wal_torn_tail_witness :
  ∃ e, eof e ∧
  ReplayWal (λ st c, (st ++ [c], None)) []
    (Some (encode_all sample_cmds ++ take 9 (encode (mkCommand OpPut "k" [x41] 1 9))))
  = (sample_cmds, ReplayReadErr e).
Proof.
  apply (wal_torn_tail _ [] sample_cmds sample_cmds (mkCommand OpPut "k" [x41] 1 9)
    (take 9 (encode (mkCommand OpPut "k" [x41] 1 9)))
    (drop 9 (encode (mkCommand OpPut "k" [x41] 1 9)))).
  - apply (bool_decide_unpack (Forall wf_cmd sample_cmds)). vm_compute. exact I.
  - apply (bool_decide_unpack (wf_cmd _)). vm_compute. exact I.
  - vm_compute. discriminate.
  - vm_compute. discriminate.
  - apply take_drop.
  - reflexivity.
Defined.
