(* ===== verification/WalWriter.v ===== *)
(** * The write-ahead log's writer ([src/core/wal.go])

    [Append] hands batches to [writerLoop] over a bounded channel; the loop encodes
    them into a byte buffer, writes the buffer to the file when it is full or when
    the channel runs empty, and publishes the sequence number up to which commands
    are on disk.  [Wait] is the durability test used before acknowledging a batch.
    The buffer is modelled byte by byte, with Go's bounds checks, so that "the
    reservation is large enough" is a theorem. *)

From S2P Require Import Prelude Store WalCodec.
From Stdlib.Strings Require Import Byte.

Inductive AckMode := AckAfterEnqueue | AckAfterFlush | AckAfterFsync.

#[export] Instance AckMode_eq_dec : EqDecision AckMode.
Proof. solve_decision. Defined.

Record walBatch := mkBatch { bid : Z; bcmds : list Command }.

(** Outcome of one [flush] as decided by the operating system: a failing [Write]
    may have written a prefix of the buffer. *)
Inductive IoOutcome := IoOk | IoWriteErr (written : nat) | IoSyncErr.

(** Fields of [Wal], and the locals [buf] and [pos] of [writerLoop].  [synced] is
    the length of the file prefix known to be on stable storage. *)
Record Wal := mkWal {
  ackMode : AckMode;
  file : list byte;
  synced : nat;
  appendCh : list walBatch;
  nextID : Z;
  flushedID : Z;
  werr : bool;
  running : bool;
  buf : list byte;
  pos : nat
}.

Definition appendChCap : nat := 1024.

Definition NewWal (content : list byte) (bufferSize : nat) (mode : AckMode) : Wal :=
  mkWal mode content 0 [] 0 0 false true (replicate bufferSize x00) 0.

Definition setBuf (w : Wal) (b : list byte) (p : nat) : Wal :=
  mkWal (ackMode w) (file w) (synced w) (appendCh w) (nextID w) (flushedID w) (werr w) (running w) b p.
Definition setCh (w : Wal) (ch : list walBatch) (next : Z) : Wal :=
  mkWal (ackMode w) (file w) (synced w) ch next (flushedID w) (werr w) (running w) (buf w) (pos w).
Definition setFile (w : Wal) (f : list byte) (sy : nat) (p : nat) : Wal :=
  mkWal (ackMode w) f sy (appendCh w) (nextID w) (flushedID w) (werr w) (running w) (buf w) p.
Definition setFlushed (w : Wal) (id : Z) : Wal :=
  mkWal (ackMode w) (file w) (synced w) (appendCh w) (nextID w) id (werr w) (running w) (buf w) (pos w).
Definition setStopped (w : Wal) (e : bool) : Wal :=
  mkWal (ackMode w) (file w) (synced w) (appendCh w) (nextID w) (flushedID w) e false (buf w) (pos w).

(** ** [Append] and [Wait] *)

(** [None]: the send on the full channel blocks. *)
Definition Append (w : Wal) (cmds : list Command) : option (Wal * Z) :=
  if (length (appendCh w) <? appendChCap)%nat then
    let id := nextID w +u64 len cmds in
    Some (setCh w (appendCh w ++ [mkBatch id cmds]) id, id)
  else None.

(** [None]: blocked; [Some e]: returned with error status [e]. *)
Definition Wait (w : Wal) (id : Z) : option bool :=
  match ackMode w with
  | AckAfterEnqueue => Some false
  | _ => if (flushedID w <? id) && negb (werr w) then None else Some (werr w)
  end.

(** ** The buffer *)

(** Writing [src] at [p]: Go panics when it does not fit. *)
Definition put_at (b : list byte) (p : nat) (src : list byte) : option (list byte) :=
  if (p + length src <=? length b)%nat then Some (take p b ++ src ++ drop (p + length src) b)
  else None.

(** [copy(b[p:], src)]: truncates to the room left, and returns the count. *)
Definition copy_at (b : list byte) (p : nat) (src : list byte) : option (list byte * nat) :=
  if (p <=? length b)%nat then
    let n := Nat.min (length b - p) (length src) in
    b' ← put_at b p (take n src); Some (b', n)
  else None.

(** The encoding steps of the loop body; [None] is a panic. *)
Definition appendCmd (b : list byte) (p : nat) (cmd : Command) : option (list byte * nat) :=
  b ← put_at b p [byte_of_Z (Op cmd)];
  let p := (p + 1)%nat in
  b ← put_at b p (be_bytes 2 (VNodeID cmd));
  let p := (p + 2)%nat in
  b ← put_at b p (be_bytes 8 (Version cmd));
  let p := (p + 8)%nat in
  let kl := uvarint (len (key_bytes (Key cmd))) in
  b ← put_at b p kl;
  let p := (p + length kl)%nat in
  '(b, n) ← copy_at b p (key_bytes (Key cmd));
  let p := (p + n)%nat in
  let vl := uvarint (len (Value cmd)) in
  b ← put_at b p vl;
  let p := (p + length vl)%nat in
  '(b, n) ← copy_at b p (Value cmd);
  Some (b, (p + n)%nat).

Definition needed (cmd : Command) : nat :=
  1 + 2 + 8 + MaxVarintLen64 * 2 + length (key_bytes (Key cmd)) + length (Value cmd).
Arguments needed : simpl never.

(** ** [flush] and the loop body *)

Inductive Outcome A := Panic | Failed (w : Wal) | Done (a : A).
Arguments Panic {A}.
Arguments Failed {A}.
Arguments Done {A}.

(** The head of [outs] decides a flush that reaches the operating system; when
    [outs] is empty the flush succeeds. *)
Definition flush (w : Wal) (outs : list IoOutcome) : Outcome (Wal * list IoOutcome) :=
  if (pos w =? 0)%nat then Done (w, outs)
  else
    let data := take (pos w) (buf w) in
    let file' := file w ++ data in
    match hd IoOk outs, ackMode w with
    | IoWriteErr n, _ =>
        Failed (setFile w (file w ++ take (Nat.min n (length data - 1)) data) (synced w) (pos w))
    | IoSyncErr, AckAfterFsync => Failed (setFile w file' (synced w) (pos w))
    | _, AckAfterFsync => Done (setFile w file' (length file') 0, tl outs)
    | _, _ => Done (setFile w file' (synced w) 0, tl outs)
    end.

Definition obind {A B} (o : Outcome A) (f : A → Outcome B) : Outcome B :=
  match o with
  | Panic => Panic
  | Failed w => Failed w
  | Done a => f a
  end.

(** One command of a batch: make room, then encode. *)
Definition writeCmd (w : Wal) (outs : list IoOutcome) (cmd : Command)
    : Outcome (Wal * list IoOutcome) :=
  obind
    (if (length (buf w) <? pos w + needed cmd)%nat then
       obind (flush w outs) (λ '(w, outs),
         if (length (buf w) <? needed cmd)%nat
         then Done (setBuf w (replicate (needed cmd) x00) (pos w), outs)
         else Done (w, outs))
     else Done (w, outs))
    (λ '(w, outs),
       match appendCmd (buf w) (pos w) cmd with
       | None => Panic
       | Some (b, p) => Done (setBuf w b p, outs)
       end).

Fixpoint writeCmds (w : Wal) (outs : list IoOutcome) (cmds : list Command)
    : Outcome (Wal * list IoOutcome) :=
  match cmds with
  | [] => Done (w, outs)
  | c :: cmds => obind (writeCmd w outs c) (λ '(w, outs), writeCmds w outs cmds)
  end.

(** [case batch := <-w.appendCh]: the whole branch, [fail] included. *)
Definition handleBatch (w : Wal) (outs : list IoOutcome) : Outcome Wal :=
  match appendCh w with
  | [] => Done w
  | batch :: rest =>
      let w := setCh w rest (nextID w) in
      match writeCmds w outs (bcmds batch) with
      | Panic => Panic
      | Failed w => Done (setStopped w true)
      | Done (w, outs) =>
          if (length (appendCh w) =? 0)%nat then
            match flush w outs with
            | Panic => Panic
            | Failed w => Done (setStopped w true)
            | Done (w, _) => Done (setFlushed w (bid batch))
            end
          else Done w
      end
  end.

(** [case <-w.closeCh]: the final [flush] ignores its error, then [Sync]. *)
Definition handleClose (w : Wal) (outs : list IoOutcome) (syncOk : bool) : Wal :=
  let w' := match flush w outs with
            | Done (w', _) => w'
            | Failed w' => w'
            | Panic => w
            end in
  setStopped (setFile w' (file w') (if syncOk then length (file w') else synced w') (pos w'))
    (werr w').

(** The writer goroutine and its callers, interleaved. *)
Inductive wal_step : Wal → Wal → Prop :=
  | ws_append w cmds w' id : Append w cmds = Some (w', id) → wal_step w w'
  | ws_batch w outs w' : running w = true → appendCh w ≠ [] →
      handleBatch w outs = Done w' → wal_step w w'
  | ws_close w outs ok : running w = true → wal_step w (handleClose w outs ok).

(** ** The buffer holds what was appended, and never overflows *)

Definition holds (b : list byte) (p : nat) (c : list byte) : Prop :=
  (p <= length b)%nat ∧ take p b = c.

Lemma put_at_ok b p c src :
  holds b p c → (p + length src <= length b)%nat →
  ∃ b', put_at b p src = Some b' ∧ length b' = length b ∧ holds b' (p + length src) (c ++ src).
Proof.
  intros [Hp Hc] Hle. unfold put_at. rewrite (proj2 (Nat.leb_le _ _)) by done.
  eexists. split; [done|]. assert (length (take p b) = p) as Hl by (rewrite length_take; lia).
  split; [rewrite !length_app, Hl, length_drop; lia|].
  split; [rewrite !length_app, Hl, length_drop; lia|].
  rewrite (assoc_L (++)), Hc. rewrite take_app_length'; [done|].
  rewrite length_app, <-Hc, Hl. lia.
Qed.

Lemma copy_at_ok b p c src :
  holds b p c → (p + length src <= length b)%nat →
  ∃ b', copy_at b p src = Some (b', length src) ∧ length b' = length b ∧
        holds b' (p + length src) (c ++ src).
Proof.
  intros Hh Hle. unfold copy_at. rewrite (proj2 (Nat.leb_le _ _)) by lia.
  rewrite Nat.min_r by lia. rewrite take_ge by lia.
  destruct (put_at_ok b p c src Hh Hle) as (b' & -> & ? & ?). simpl. eauto.
Qed.

(** The conservative reservation [needed] covers the record. *)
Lemma length_encode_le cmd : (length (encode cmd) <= needed cmd)%nat.
Proof.
  unfold encode, encodeBody, needed. cbn [length]. rewrite !length_app, !length_be_bytes.
  pose proof (length_putUvarint MaxVarintLen64 (len (key_bytes (Key cmd)))).
  pose proof (length_putUvarint MaxVarintLen64 (len (Value cmd))).
  unfold uvarint. lia.
Qed.

(** One write into the buffer: discharge its bounds check and keep the content. *)
Ltac buffer_step :=
  let b' := fresh "b" in let E := fresh in let L := fresh "L" in let H' := fresh "Hh" in
  match goal with
  | H : holds ?b ?p ?c |- context [put_at ?b ?p ?src] =>
      destruct (put_at_ok b p c src H) as (b' & E & L & H')
  | H : holds ?b ?p ?c |- context [copy_at ?b ?p ?src] =>
      destruct (copy_at_ok b p c src H) as (b' & E & L & H')
  end;
  [cbn [length]; rewrite ?length_be_bytes; lia
  |rewrite E; clear E; cbn [mbind option_bind length] in *; rewrite ?length_be_bytes in H'].

Lemma appendCmd_ok b p c cmd :
  holds b p c → (p + needed cmd <= length b)%nat →
  ∃ b', appendCmd b p cmd = Some (b', (p + length (encode cmd))%nat) ∧ length b' = length b ∧
        holds b' (p + length (encode cmd)) (c ++ encode cmd).
Proof.
  intros Hh Hle. pose proof (length_encode_le cmd) as Hn.
  assert (Hsz : (p + length (encode cmd) <= length b)%nat) by lia.
  unfold appendCmd. unfold encode, encodeBody in *. cbn [length] in *.
  rewrite !length_app, !length_be_bytes in *.
  generalize dependent (uvarint (len (key_bytes (Key cmd)))). intros kl Hn Hsz.
  generalize dependent (uvarint (len (Value cmd))). intros vl Hn Hsz.
  repeat buffer_step. eexists. split; [do 2 f_equal; lia|]. split; [congruence|].
  match goal with
  | H : holds ?b ?p1 _ |- holds ?b ?p2 _ =>
      replace p2 with p1 by lia; rewrite <-!(assoc_L (++)) in H; exact H
  end.
Qed.

(** ** What is in the file *)

(** [content w c]: the bytes written plus the bytes still buffered are [c]. *)
Definition content (w : Wal) (c : list byte) : Prop :=
  ∃ d, holds (buf w) (pos w) d ∧ file w ++ d = c.

Lemma content_prefix w c : content w c → file w `prefix_of` c.
Proof. intros (d & _ & <-). by apply prefix_app_r. Qed.

(** The parts of [Wal] a flush or a write never touches. *)
Definition same_ids (w w' : Wal) : Prop :=
  ackMode w' = ackMode w ∧ appendCh w' = appendCh w ∧ nextID w' = nextID w ∧
  flushedID w' = flushedID w ∧ werr w' = werr w ∧ running w' = running w.

#[export] Instance same_ids_refl : Reflexive same_ids.
Proof. intros w. unfold same_ids. tauto. Qed.
#[export] Instance same_ids_trans : Transitive same_ids.
Proof. intros w1 w2 w3. unfold same_ids. intuition congruence. Qed.

(** Nothing is lost: the file only grows, and so does its synced prefix. *)
Definition grows (w w' : Wal) : Prop :=
  file w `prefix_of` file w' ∧
  ((synced w <= length (file w))%nat → (synced w <= synced w' <= length (file w'))%nat).

#[export] Instance grows_refl : Reflexive grows.
Proof. intros w. unfold grows. split; [done|lia]. Qed.
#[export] Instance grows_trans : Transitive grows.
Proof. intros w1 w2 w3 [? ?] [? ?]. split; [by etrans|lia]. Qed.

(** Result of a step of the writer on the content [c], with [c'] the content it
    aims at: success leaves [c'], a disk error leaves a file that holds a prefix. *)
Definition wrote (w : Wal) (c' : list byte) (r : Outcome (Wal * list IoOutcome)) : Prop :=
  match r with
  | Panic => False
  | Failed w' => same_ids w w' ∧ grows w w' ∧ file w' `prefix_of` c'
  | Done (w', _) => same_ids w w' ∧ grows w w' ∧ content w' c'
  end.

Lemma same_ids_setFile w f n p : same_ids w (setFile w f n p).
Proof. unfold same_ids. tauto. Qed.

Lemma same_ids_setBuf w b p : same_ids w (setBuf w b p).
Proof. unfold same_ids. tauto. Qed.

Lemma grows_setBuf w b p : grows w (setBuf w b p).
Proof. split; simpl; [done|lia]. Qed.

Lemma flush_ok w outs c : content w c → wrote w c (flush w outs).
Proof.
  intros (d & [Hp Hd] & <-). unfold flush.
  destruct (pos w =? 0)%nat eqn:E; bool_to_prop; simpl.
  - split; [done|]. split; [done|]. exists d. by split.
  - rewrite Hd. unfold wrote, grows, content, holds.
    destruct (hd IoOk outs) as [|n|], (ackMode w); simpl; rewrite ?length_app;
      (split; [apply same_ids_setFile|]);
      (split; [split; [by apply prefix_app_r|lia]|]).
    all: try (exists []; rewrite app_nil_r; split; [split; [lia|done]|done]).
    all: try done.
    all: apply prefix_app, prefix_take.
Qed.

Lemma flush_empties w outs w' outs' :
  flush w outs = Done (w', outs') →
  pos w' = 0%nat ∧ (ackMode w = AckAfterFsync → pos w ≠ 0%nat → synced w' = length (file w')).
Proof.
  unfold flush. intros H. repeat case_match; simplify_eq; bool_to_prop; simpl;
    (split; [done|]); intros; congruence || done.
Qed.

(** [wrote] is preserved by a further growth of the goal. *)
Lemma wrote_failed w w' c c' : wrote w c (Failed w') → c `prefix_of` c' → wrote w c' (Failed w').
Proof. simpl. intros (? & ? & ?) ?. split; [done|]. split; [done|]. by etrans. Qed.

Lemma wrote_bind w c c' (r : Outcome (Wal * list IoOutcome)) f :
  wrote w c r → c `prefix_of` c' →
  (∀ w' outs', r = Done (w', outs') → content w' c → wrote w' c' (f (w', outs'))) →
  wrote w c' (obind r f).
Proof.
  intros Hr Hpre Hf. destruct r as [|w'|[w' outs']]; simpl obind; [done|by eapply wrote_failed|].
  destruct Hr as (Hs & Hg & Hc). specialize (Hf w' outs' eq_refl Hc).
  destruct (f (w', outs')) as [|w2|[w2 outs2]]; simpl in *; [done|..].
  all: destruct Hf as (? & ? & ?); repeat split_and?; try done; by etrans.
Qed.

Lemma writeCmd_ok w outs cmd c :
  content w c → wrote w (c ++ encode cmd) (writeCmd w outs cmd).
Proof.
  intros Hc. unfold writeCmd.
  assert (Hput : ∀ w outs, content w c → (pos w + needed cmd <= length (buf w))%nat →
    wrote w (c ++ encode cmd)
      match appendCmd (buf w) (pos w) cmd with
      | None => Panic
      | Some (b, p) => Done (setBuf w b p, outs)
      end).
  { clear. intros w outs (d & Hh & <-) Hn.
    destruct (appendCmd_ok _ _ _ _ Hh Hn) as (b' & -> & _ & Hh').
    split; [apply same_ids_setBuf|]. split; [apply grows_setBuf|].
    exists (d ++ encode cmd). split; [done|]. simpl. by rewrite (assoc_L (++)). }
  destruct (length (buf w) <? pos w + needed cmd)%nat eqn:Hfull; bool_to_prop.
  - eapply wrote_bind; [|by apply prefix_app_r|]; [|intros w' outs' Hr Hc'; apply Hput; [done|]].
    + eapply wrote_bind; [by apply flush_ok|done|].
      intros w' outs' Hr Hc'. apply flush_empties in Hr as [Hpos _].
      case_match; (split; [apply same_ids_setBuf || done|]); (split; [apply grows_setBuf || done|]); [|done].
      destruct Hc' as (d & [_ Hd] & Hf). rewrite Hpos in Hd. simpl in Hd. subst d.
      exists []. split; [|done]. simpl. rewrite Hpos. split; [lia|done].
    + destruct (flush w outs) as [|?|[w1 o1]] eqn:Hfl; cbn [obind] in Hr; try done.
      apply flush_empties in Hfl as [Hpos _].
      clear Hput Hc'. generalize dependent (needed cmd). intros n Hfull Hr.
      case_match; simplify_eq; bool_to_prop; cbn [buf pos setBuf]; rewrite ?length_replicate; lia.
  - simpl. apply Hput; [done|lia].
Qed.

Lemma writeCmds_ok w outs cmds c :
  content w c → wrote w (c ++ encode_all cmds) (writeCmds w outs cmds).
Proof.
  revert w outs c. induction cmds as [|cmd cmds IH]; intros w outs c Hc; simpl writeCmds.
  - unfold encode_all. simpl. rewrite app_nil_r. split; [done|]. by split.
  - change (encode_all (cmd :: cmds)) with (encode cmd ++ encode_all cmds).
    rewrite (assoc_L (++)). eapply wrote_bind; [by apply writeCmd_ok|by apply prefix_app_r|].
    intros w' outs' _ Hc'. by apply IH.
Qed.

Lemma encode_all_app l1 l2 : encode_all (l1 ++ l2) = encode_all l1 ++ encode_all l2.
Proof. unfold encode_all. by rewrite fmap_app, concat_app. Qed.

Lemma len_app {A} (l1 l2 : list A) : len (l1 ++ l2) = len l1 + len l2.
Proof. unfold len. rewrite length_app. lia. Qed.

(** ** Reachable states of the log

    [wal_reach base size mode w h]: the log was opened on a file holding [base] and
    [h] are the commands appended since, in order. *)
Inductive wal_reach (base : list byte) (size : nat) (mode : AckMode) : Wal → list Command → Prop :=
  | wr_init : wal_reach base size mode (NewWal base size mode) []
  | wr_append w h cmds w' id :
      wal_reach base size mode w h → Append w cmds = Some (w', id) →
      wal_reach base size mode w' (h ++ cmds)
  | wr_batch w h outs w' :
      wal_reach base size mode w h → running w = true → appendCh w ≠ [] →
      handleBatch w outs = Done w' → wal_reach base size mode w' h
  | wr_close w h outs ok :
      wal_reach base size mode w h → running w = true →
      wal_reach base size mode (handleClose w outs ok) h.

(** Sequence numbers of queued batches, the first one starting after command [n]. *)
Fixpoint ids_from (n : Z) (bs : list walBatch) : Prop :=
  match bs with
  | [] => True
  | b :: bs => bid b = u64 (n + len (bcmds b)) ∧ ids_from (n + len (bcmds b)) bs
  end.

Definition queued (w : Wal) : list Command := concat (bcmds <$> appendCh w).

(** [on_disk base w l]: the commands [l] are in the file, and on stable storage in
    fsync mode. *)
Definition on_disk (base : list byte) (w : Wal) (l : list Command) : Prop :=
  base ++ encode_all l `prefix_of` file w ∧
  (ackMode w = AckAfterFsync →
   (length (base ++ encode_all l) <= Nat.max (synced w) (length base))%nat).

Record wal_inv (base : list byte) (w : Wal) (h taken : list Command) : Prop := {
  wi_hist : h = taken ++ queued w;
  wi_next : nextID w = u64 (len h);
  wi_ids : ids_from (len taken) (appendCh w);
  wi_prefix : file w `prefix_of` base ++ encode_all taken;
  wi_content : running w = true → werr w = false ∧ content w (base ++ encode_all taken);
  wi_synced : (synced w <= length (file w))%nat;
  wi_fsync : running w = true → ackMode w = AckAfterFsync →
             (length (file w) <= Nat.max (synced w) (length base))%nat;
  wi_flushed : ∃ m, (m <= length taken)%nat ∧ flushedID w = u64 (Z.of_nat m) ∧
                    on_disk base w (take m taken)
}.


(** *** The invariant holds in every reachable state *)

Definition fsynced (base : list byte) (w : Wal) : Prop :=
  ackMode w = AckAfterFsync → (length (file w) <= Nat.max (synced w) (length base))%nat.

Lemma flush_fsynced base w outs w' outs' :
  flush w outs = Done (w', outs') → fsynced base w → fsynced base w'.
Proof.
  unfold flush, fsynced. intros H. repeat case_match; simplify_eq; simpl; intros Hf Ha;
    try congruence; try specialize (Hf Ha); lia.
Qed.

Lemma writeCmds_fsynced base w outs cmds w' outs' :
  writeCmds w outs cmds = Done (w', outs') → fsynced base w → fsynced base w'.
Proof.
  revert w outs. induction cmds as [|cmd cmds IH]; intros w outs; simpl; [by intros [= -> ->]|].
  destruct (writeCmd w outs cmd) as [|?|[w1 outs1]] eqn:E; simpl; try done.
  intros H Hf. eapply IH; [done|]. clear IH H. unfold writeCmd in E.
  case_hyp E; [destruct (flush w outs) as [|?|[w2 outs2]] eqn:Efl; simpl in E; try done|simpl in E].
  - eapply flush_fsynced in Efl; [|done].
    repeat (case_match; simplify_eq; simpl in *); done.
  - repeat (case_match; simplify_eq; simpl in *); done.
Qed.

Lemma on_disk_grows base w w' l :
  on_disk base w l → grows w w' → ackMode w' = ackMode w → (synced w <= length (file w))%nat →
  on_disk base w' l.
Proof.
  intros [Hp Hs] [Hpre Hsy] Hm Hle. split; [by etrans|].
  rewrite Hm. intros Ha. specialize (Hs Ha). specialize (Hsy Hle). lia.
Qed.

(** A step that only extends the file keeps the published prefix on disk. *)
Lemma flushed_grows base w w' taken more :
  (∃ m, (m <= length taken)%nat ∧ flushedID w = u64 (Z.of_nat m) ∧ on_disk base w (take m taken)) →
  grows w w' → same_ids w w' → (synced w <= length (file w))%nat →
  ∃ m, (m <= length (taken ++ more))%nat ∧ flushedID w' = u64 (Z.of_nat m) ∧
       on_disk base w' (take m (taken ++ more)).
Proof.
  intros (m & Hm & Hf & Hd) Hg (Ha & _ & _ & Hfl & _) Hle. exists m.
  rewrite length_app, take_app_le by done. split; [lia|]. split; [congruence|].
  by eapply on_disk_grows.
Qed.

Lemma wal_inv_init base size mode : wal_inv base (NewWal base size mode) [] [].
Proof.
  split; simpl; try done; unfold encode_all; simpl; rewrite ?app_nil_r; try done; try lia.
  - intros _. split; [done|]. exists []. rewrite app_nil_r. split; [|done]. split; [simpl; lia|done].
  - exists 0%nat. split; [lia|]. split; [done|]. split; unfold encode_all; simpl; rewrite app_nil_r; [done|lia].
Qed.

Lemma ids_from_app n l1 l2 :
  ids_from n (l1 ++ l2) ↔ ids_from n l1 ∧ ids_from (n + len (concat (bcmds <$> l1))) l2.
Proof.
  revert n. induction l1 as [|b l1 IH]; intros n; simpl.
  - unfold len. simpl. rewrite Z.add_0_r. tauto.
  - rewrite IH, len_app, Z.add_assoc. tauto.
Qed.

Lemma Append_inv base w h taken cmds w' id :
  wal_inv base w h taken → Append w cmds = Some (w', id) →
  wal_inv base w' (h ++ cmds) taken ∧ id = u64 (len (h ++ cmds)).
Proof.
  unfold Append. intros [] Ha. case_match; simplify_eq.
  assert (Hid : nextID w +u64 len cmds = u64 (len (taken ++ queued w ++ cmds))).
  { rewrite wi_next0, !len_app. unfold u64. rewrite Zplus_mod_idemp_l. f_equal. lia. }
  rewrite <-(assoc_L (++)). split; [|done]. split; simpl; try done.
  - unfold queued. simpl. rewrite fmap_app, concat_app. simpl. by rewrite app_nil_r.
  - rewrite ids_from_app. split; [done|]. simpl. split; [|done].
    rewrite Hid. f_equal. rewrite !len_app. unfold queued. lia.
Qed.


Lemma handleClose_inv base w h taken outs ok :
  running w = true → wal_inv base w h taken → wal_inv base (handleClose w outs ok) h taken.
Proof.
  intros Hr Hi. pose proof (wi_content _ _ _ _ Hi Hr) as [Herr Hc].
  pose proof (flush_ok w outs _ Hc) as Hfl. unfold handleClose.
  assert (∃ w', same_ids w w' ∧ grows w w' ∧ file w' `prefix_of` base ++ encode_all taken ∧
    match flush w outs with Done (w', _) => w' | Failed w' => w' | Panic => w end = w')
    as (w' & Hids & Hg & Hpre & ->).
  { destruct (flush w outs) as [|w'|[w' outs']]; [done|..]; exists w'; destruct Hfl as (? & ? & Hf);
      split_and!; try done. destruct Hf as (d & _ & <-). by apply prefix_app_r. }
  pose proof Hids as (Hm & Hch & Hn & Hfi & He & _).
  pose proof (proj2 Hg (wi_synced _ _ _ _ Hi)) as Hsy.
  split; simpl; try done; unfold queued; simpl; rewrite ?Hch, ?Hn; try apply Hi.
  - case_match; lia.
  - pose proof (wi_flushed _ _ _ _ Hi) as (m & Hm' & Hf & Hd). exists m.
    split; [done|]. split; [congruence|]. eapply on_disk_grows; [done| |done|apply Hi].
    split; simpl; [apply Hg|]. intros _. case_match; lia.
Qed.

(** The fields that survive a step of the writer, [fail] included. *)
Definition kept (w w' : Wal) : Prop :=
  ackMode w' = ackMode w ∧ appendCh w' = appendCh w ∧ nextID w' = nextID w ∧
  flushedID w' = flushedID w.

Lemma same_ids_kept w w' : same_ids w w' → kept w w'.
Proof. unfold same_ids, kept. tauto. Qed.

Lemma kept_stopped w w' e : same_ids w w' → kept w (setStopped w' e).
Proof. unfold same_ids, kept. simpl. tauto. Qed.

(** A state that grew from the one where [batch] was received. *)
Lemma batch_taken base w h taken batch rest w' :
  appendCh w = batch :: rest → wal_inv base w h taken →
  kept (setCh w rest (nextID w)) w' → grows w w' →
  file w' `prefix_of` base ++ encode_all (taken ++ bcmds batch) →
  (running w' = true →
     werr w' = false ∧ content w' (base ++ encode_all (taken ++ bcmds batch)) ∧ fsynced base w') →
  wal_inv base w' h (taken ++ bcmds batch).
Proof.
  intros Hch Hi (Hm & Hch' & Hn & Hf) Hg Hp Hc. simpl in Hm, Hch', Hn, Hf.
  pose proof (wi_ids _ _ _ _ Hi) as Hids. rewrite Hch in Hids. destruct Hids as [Hbid Hids].
  pose proof (wi_synced _ _ _ _ Hi) as Hle. split; try done.
  - unfold queued. rewrite Hch', (wi_hist _ _ _ _ Hi). unfold queued.
    rewrite Hch. simpl. by rewrite (assoc_L (++)).
  - rewrite Hn. apply Hi.
  - rewrite Hch'. by rewrite len_app.
  - intros Hr. destruct (Hc Hr) as (? & ? & _). done.
  - apply Hg, Hle.
  - intros Hr. destruct (Hc Hr) as (_ & _ & ?). done.
  - destruct (wi_flushed _ _ _ _ Hi) as (m & Hlm & Hfl & Hd). exists m.
    rewrite length_app, take_app_le by done. split; [lia|]. split; [congruence|].
    by eapply on_disk_grows.
Qed.

(** Publishing the batch's id once everything taken is in the file. *)
Lemma setFlushed_inv base w h taken id :
  running w = true → pos w = 0%nat → id = u64 (len taken) →
  wal_inv base w h taken → wal_inv base (setFlushed w id) h taken.
Proof.
  intros Hr Hpos Hid Hi. destruct (wi_content _ _ _ _ Hi Hr) as (He & d & [_ Hd] & Hf).
  rewrite Hpos in Hd. simpl in Hd. subst d. rewrite app_nil_r in Hf.
  destruct Hi as [? ? ? ? ? ? Hfs _]. split; try done. exists (length taken).
  split; [done|]. split; [by rewrite Hid|]. rewrite take_ge by done. split; simpl.
  - by rewrite Hf.
  - rewrite <-Hf. by apply Hfs.
Qed.

(** The writer's loop body: no panic, and the invariant with the batch taken. *)
Lemma handleBatch_inv base w h taken outs batch rest :
  running w = true → appendCh w = batch :: rest → wal_inv base w h taken →
  ∃ w', handleBatch w outs = Done w' ∧ wal_inv base w' h (taken ++ bcmds batch) ∧
        appendCh w' = rest ∧ ackMode w' = ackMode w ∧ grows w w' ∧
        (rest = [] → running w' = true →
         flushedID w' = u64 (len (taken ++ bcmds batch)) ∧ pos w' = 0%nat).
Proof.
  intros Hr Hch Hi. pose proof (wi_content _ _ _ _ Hi Hr) as [Herr Hc].
  unfold handleBatch. rewrite Hch. set (w0 := setCh w rest (nextID w)).
  set (goal := base ++ encode_all (taken ++ bcmds batch)).
  assert (Hgoal : goal = (base ++ encode_all taken) ++ encode_all (bcmds batch))
    by (unfold goal; by rewrite encode_all_app, (assoc_L (++))).
  assert (Hbid : bid batch = u64 (len (taken ++ bcmds batch))).
  { pose proof (wi_ids _ _ _ _ Hi) as Hids. rewrite Hch in Hids. rewrite len_app. apply Hids. }
  pose proof (writeCmds_ok w0 outs (bcmds batch) (base ++ encode_all taken) Hc) as Hw.
  rewrite <-Hgoal in Hw.
  assert (Hfs : fsynced base w0) by (unfold fsynced; apply (wi_fsync _ _ _ _ Hi Hr)).
  destruct (writeCmds w0 outs (bcmds batch)) as [|w1|[w1 outs1]] eqn:Ew; [done|..].
  { eexists. split; [done|]. destruct Hw as (Hs & Hg & Hp). pose proof Hs as (? & ? & _).
    split; [|split_and!; done || exact Hg].
    eapply batch_taken; [done|done|by apply kept_stopped|exact Hg|exact Hp|done]. }
  eapply writeCmds_fsynced in Hfs; [|done]. destruct Hw as (Hs & Hg & Hc1).
  pose proof Hs as (Hm1 & Hch1 & Hn1 & Hf1 & He1 & Hr1). simpl in Hch1. rewrite Hch1.
  destruct (length rest =? 0)%nat eqn:El; bool_to_prop.
  2:{ eexists. split; [done|]. split; [|split_and!; done || exact Hg || by destruct rest].
      eapply batch_taken; [done|done|by apply same_ids_kept|exact Hg|by eapply content_prefix|].
      intros _. split_and!; done || (simpl in *; congruence). }
  pose proof (flush_ok w1 outs1 goal Hc1) as Hf2.
  destruct (flush w1 outs1) as [|w2|[w2 outs2]] eqn:Ef; [done|..].
  { eexists. split; [done|]. destruct Hf2 as (Hs2 & Hg2 & Hp2).
    pose proof (same_ids_trans _ _ _ Hs Hs2) as Hs02. pose proof Hs02 as (? & ? & _).
    split; [|split_and!; done || exact (grows_trans _ _ _ Hg Hg2)].
    eapply batch_taken; [done|done|by apply kept_stopped|exact (grows_trans _ _ _ Hg Hg2)|exact Hp2|done]. }
  eapply flush_fsynced in Hfs; [|done]. apply flush_empties in Ef as [Hpos _].
  destruct Hf2 as (Hs2 & Hg2 & Hc2). pose proof (same_ids_trans _ _ _ Hs Hs2) as Hs02.
  pose proof Hs02 as (? & ? & ? & ? & ? & ?).
  eexists. split; [done|]. split; [|split_and!; done || exact (grows_trans _ _ _ Hg Hg2)].
  apply setFlushed_inv; [simpl in *; congruence|done|done|].
  eapply batch_taken;
    [done|done|by apply same_ids_kept|exact (grows_trans _ _ _ Hg Hg2)|by eapply content_prefix|].
  intros _. split_and!; done || (simpl in *; congruence).
Qed.

(** An idle writer has published everything it received. *)
Definition caught_up (w : Wal) (taken : list Command) : Prop :=
  running w = true → appendCh w = [] → flushedID w = u64 (len taken) ∧ pos w = 0%nat.

Lemma wal_reach_inv base size mode w h :
  wal_reach base size mode w h →
  ackMode w = mode ∧ ∃ taken, wal_inv base w h taken ∧ caught_up w taken.
Proof.
  induction 1 as [|w h cmds w' id _ [Hm (taken & Hi & Hc)] Ha
    |w h outs w' _ [Hm (taken & Hi & Hc)] Hr Hne Hb|w h outs ok _ [Hm (taken & Hi & Hc)] Hr].
  - split; [done|]. exists []. split; [apply wal_inv_init|done].
  - split; [unfold Append in Ha; by case_match; simplify_eq|]. exists taken.
    split; [by eapply Append_inv|]. intros _ Hnil. unfold Append in Ha.
    case_match; simplify_eq. simpl in Hnil. by destruct (appendCh w).
  - destruct (appendCh w) as [|batch rest] eqn:Hch; [done|].
    destruct (handleBatch_inv base w h taken outs batch rest) as (w1 & Hb1 & Hi1 & Hch1 & Hm1 & _ & Hcu);
      [done..|]. rewrite Hb1 in Hb. simplify_eq. split; [congruence|]. eexists.
    split; [done|]. intros Hr' Hnil. apply Hcu; congruence.
  - pose proof (handleClose_inv base w h taken outs ok Hr Hi) as Hi'. split; [|by exists taken].
    unfold handleClose. simpl. pose proof (flush_ok w outs _ (proj2 (wi_content _ _ _ _ Hi Hr))) as Hf.
    destruct (flush w outs) as [|?|[??]]; simpl in *; [done|..].
    all: destruct Hf as ((-> & _) & _); done.
Qed.

(** C23: the writer goroutine never indexes its buffer out of range: in every state
    the log can reach, under every outcome of the disk operations, receiving the
    next batch completes (with success or with a recorded disk error). *)
Theorem wal_writer_never_panics base size mode w h outs :
  wal_reach base size mode w h → running w = true →
  ∃ w', handleBatch w outs = Done w'.
Proof.
  intros (Hm & taken & Hi & _)%wal_reach_inv Hr.
  destruct (appendCh w) as [|batch rest] eqn:Hch.
  - unfold handleBatch. rewrite Hch. eauto.
  - destruct (handleBatch_inv base w h taken outs batch rest) as (w' & ? & _); eauto.
Qed.

(** The reachable part of the durability test. *)
Lemma Wait_on_disk base size mode w h h0 :
  wal_reach base size mode w h → mode ≠ AckAfterEnqueue →
  len h < 2 ^ 64 → h0 `prefix_of` h →
  Wait w (len h0) = Some false →
  ∃ taken, wal_inv base w h taken ∧ h0 `prefix_of` taken ∧ on_disk base w h0.
Proof.
  intros (Hm & taken & Hi & _)%wal_reach_inv Hne Hlen [t Ht] Hw.
  destruct (wi_flushed _ _ _ _ Hi) as (m & Hmt & Hf & Hd).
  pose proof (wi_hist _ _ _ _ Hi) as Hh. unfold Wait in Hw. rewrite Hm in Hw.
  assert (Hle : len h0 <= flushedID w).
  { destruct mode; [done|..]; case_match; simplify_eq;
      match goal with H : _ && _ = false |- _ => apply andb_false_iff in H as [H|H] end;
      bool_to_prop; try lia; congruence. }
  assert (Hlm : Z.of_nat m < 2 ^ 64) by (rewrite Hh, len_app in Hlen; unfold len in Hlen; lia).
  rewrite Hf, u64_id in Hle by (unfold is_u64; lia).
  assert (Hpre : h0 `prefix_of` take m taken).
  { exists (drop (length h0) (take m taken)).
    rewrite <-(take_drop (length h0) (take m taken)) at 1. f_equal.
    rewrite take_take, Nat.min_l by (unfold len in Hle; lia).
    assert (take (length h0) (taken ++ queued w) = h0) as E by (rewrite <-Hh, Ht; apply take_app_length).
    rewrite take_app_le in E by (unfold len in Hle; lia). done. }
  exists taken. split; [done|]. split; [by etrans; [|apply prefix_take]|].
  destruct Hpre as [t' Ht']. destruct Hd as [Hp Hs]. rewrite Ht', encode_all_app in Hp, Hs. split.
  - etrans; [|exact Hp]. rewrite (assoc_L (++)). by apply prefix_app_r.
  - intros Ha. specialize (Hs Ha). rewrite !length_app in *. lia.
Qed.

(** The bytes of the log left by a crash: [f] is a prefix of the file that holds at
    least what was synced (and what was there when the log was opened). *)
Definition crash_file (base : list byte) (w : Wal) (f : list byte) : Prop :=
  f `prefix_of` file w ∧ (Nat.max (synced w) (length base) <= length f)%nat.

(** A prefix of a log is a log with at most one cut record. *)
Lemma prefix_encode_all f l :
  f `prefix_of` encode_all l →
  ∃ l1 p, l1 `prefix_of` l ∧ f = encode_all l1 ++ p ∧
    (p = [] ∨ ∃ c q, c ∈ l ∧ p ≠ [] ∧ q ≠ [] ∧ p ++ q = encode c).
Proof.
  revert f. induction l as [|c l IH]; intros f Hf.
  - exists [], []. apply prefix_nil_inv in Hf as ->. auto using prefix_nil.
  - change (encode_all (c :: l)) with (encode c ++ encode_all l) in Hf.
    destruct (decide (length (encode c) <= length f)%nat) as [Hlen|Hlen].
    + destruct Hf as [t Ht]. assert (∃ f', f = encode c ++ f') as [f' ->].
      { exists (drop (length (encode c)) f). rewrite <-(take_drop (length (encode c)) f) at 1.
        f_equal. apply (f_equal (take (length (encode c)))) in Ht.
        rewrite take_app_length, take_app_le in Ht by done. done. }
      rewrite <-(assoc_L (++)) in Ht. apply app_inv_head in Ht.
      destruct (IH f') as (l1 & p & [t1 ->] & -> & Hp); [by exists t|].
      exists (c :: l1), p. split; [by exists t1|]. split; [by rewrite (assoc_L (++))|].
      destruct Hp as [?|(c' & q & ? & ?)]; [by left|right]. exists c', q. set_solver.
    + exists [], f. split; [apply prefix_nil|]. split; [done|].
      destruct (decide (f = [])) as [|Hne]; [by left|right]. exists c.
      destruct Hf as [t Ht]. exists (drop (length f) (encode c)). split; [set_solver|]. split; [done|].
      split; [intros E%(f_equal length); rewrite length_drop in E; apply Nat.sub_0_le in E; lia|].
      rewrite <-(take_drop (length f) (encode c)) at 2. f_equal.
      apply (f_equal (take (length f))) in Ht.
      rewrite take_app_length, take_app_le in Ht by lia. done.
Qed.

(** Replaying a log whose last record may be cut. *)
Lemma replay_prefix {St} (apply : St → Command → St * option Error) st l1 p l :
  Forall wf_cmd l1 → Forall wf_cmd l →
  (p = [] ∨ ∃ c q, c ∈ l ∧ p ≠ [] ∧ q ≠ [] ∧ p ++ q = encode c) →
  (applyUntilErr apply st l1).2 = None →
  (ReplayWal apply st (Some (encode_all l1 ++ p))).1 = (applyUntilErr apply st l1).1.
Proof.
  intros Hwf1 Hwf Hp Hok. rewrite ReplayWal_app by done.
  destruct (applyUntilErr apply st l1) as [st' oe]. simpl in Hok. subst oe. cbn [fst].
  destruct Hp as [->|(c & q & Hc & Hp & Hq & Hpq)]; [done|].
  destruct (ReplayWal_torn apply st' c p q) as (e & _ & ->); try done.
  by eapply (proj1 (list.Forall_forall _ _) Hwf).
Qed.

Lemma encode_all_short l1 l2 :
  (length (encode_all (l1 ++ l2)) <= length (encode_all l1))%nat → l2 = [].
Proof.
  rewrite encode_all_app, length_app. destruct l2 as [|c l2]; [done|].
  change (encode_all (c :: l2)) with (encode c ++ encode_all l2).
  rewrite length_app. unfold encode. cbn [length]. lia.
Qed.

(** What is on disk has gone through the writer. *)
Lemma on_disk_taken base w h taken h1 :
  wal_inv base w h taken → h1 `prefix_of` h → on_disk base w h1 → h1 `prefix_of` taken.
Proof.
  intros Hi Hp [Hd _]. assert (Ht : taken `prefix_of` h) by (rewrite (wi_hist _ _ _ _ Hi); by apply prefix_app_r).
  destruct (prefix_weak_total _ _ _ Hp Ht) as [?|[t ->]]; [done|].
  pose proof (prefix_length _ _ (transitivity Hd (wi_prefix _ _ _ _ Hi))) as Hl.
  rewrite !length_app in Hl. rewrite (encode_all_short taken t) by lia. by rewrite app_nil_r.
Qed.

(** What a crash leaves, once [h0] is on stable storage. *)
Lemma crash_replay l0 size w h h0 f :
  wal_reach (encode_all l0) size AckAfterFsync w h →
  Forall wf_cmd (l0 ++ h) → h0 `prefix_of` h →
  on_disk (encode_all l0) w h0 →
  crash_file (encode_all l0) w f →
  ∃ l1, h0 `prefix_of` l1 ∧ l1 `prefix_of` h ∧
    ∀ St (apply : St → Command → St * option Error) st,
      (applyUntilErr apply st (l0 ++ l1)).2 = None →
      (ReplayWal apply st (Some f)).1 = (applyUntilErr apply st (l0 ++ l1)).1.
Proof.
  intros Hr Hwf Hh0 Hdisk [Hf Hfl]. apply wal_reach_inv in Hr as (Hm & taken & Hi & _).
  destruct (on_disk_taken _ _ _ _ _ Hi Hh0 Hdisk) as [rest Hrest]. destruct Hdisk as [Hpre Hsy].
  specialize (Hsy Hm). rewrite <-encode_all_app in Hpre, Hsy.
  assert (∃ f', f = encode_all (l0 ++ h0) ++ f') as [f' ->].
  { destruct (prefix_weak_total _ _ _ Hf Hpre) as [Hp|Hp]; [|destruct Hp as [f' ->]; by exists f'].
    exists []. rewrite app_nil_r. apply prefix_length_eq; [done|lia]. }
  assert (Hf' : f' `prefix_of` encode_all rest).
  { assert (Hp : encode_all (l0 ++ h0) ++ f' `prefix_of` encode_all (l0 ++ h0) ++ encode_all rest).
    { etrans; [exact Hf|]. etrans; [apply Hi|]. by rewrite Hrest, <-!encode_all_app, <-(assoc_L (++)). }
    by apply prefix_app_inv in Hp. }
  destruct (prefix_encode_all f' rest Hf') as (l1 & p & [t ->] & -> & Hp).
  exists (h0 ++ l1). pose proof (wi_hist _ _ _ _ Hi) as Hh. subst taken.
  split; [by apply prefix_app_r|]. split; [rewrite Hh, <-!(assoc_L (++)); by apply prefix_app, prefix_app_r|].
  intros St apply st Hok. rewrite (assoc_L (++)), <-encode_all_app, <-(assoc_L (++)).
  rewrite Hh, !Forall_app in Hwf.
  apply (replay_prefix _ _ _ _ (l1 ++ t)); [..|done|done]; rewrite ?Forall_app; tauto.
Qed.

Lemma applyUntilErr_snoc st l :
  applyUntilErr (λ st c, (st ++ [c], None)) st l = (st ++ l, None).
Proof.
  revert st. induction l as [|c l IH]; intros st; simpl; [by rewrite app_nil_r|].
  by rewrite IH, <-(assoc_L (++)).
Qed.

(** C10: what an acknowledgement in fsync mode means.  The log was opened on the records
    of [l0]; [h] are the commands appended since, and [Wait] returned success for
    the sequence number of the batch that ends the prefix [h0] of [h].  Then
    whatever a crash leaves of the file, replay hands back [l0], then all of [h0],
    then possibly some later commands of [h], in order and nothing else. *)
Theorem durable_ack_survives_crash l0 size w h h0 f :
  wal_reach (encode_all l0) size AckAfterFsync w h →
  Forall wf_cmd (l0 ++ h) → len h < 2 ^ 64 → h0 `prefix_of` h →
  Wait w (len h0) = Some false →
  crash_file (encode_all l0) w f →
  ∃ l1, h0 `prefix_of` l1 ∧ l1 `prefix_of` h ∧
    (ReplayWal (λ st c, (st ++ [c], None)) [] (Some f)).1 = l0 ++ l1.
Proof.
  intros Hr Hwf Hlen Hh0 Hw Hf.
  destruct (Wait_on_disk _ _ _ _ _ _ Hr ltac:(done) Hlen Hh0 Hw) as (_ & _ & _ & Hd).
  destruct (crash_replay _ _ _ _ _ _ Hr Hwf Hh0 Hd Hf) as (l1 & ? & ? & Hrep).
  exists l1. split; [done|]. split; [done|]. rewrite Hrep; by rewrite applyUntilErr_snoc.
Qed.

(** ** The writer catches up *)

Lemma flush_no_error w : ∃ w', flush w [] = Done (w', []).
Proof. unfold flush. cbn [hd tl]. repeat case_match; eauto. Qed.

Lemma writeCmds_no_error w cmds :
  writeCmds w [] cmds = Panic ∨ ∃ w', writeCmds w [] cmds = Done (w', []).
Proof.
  revert w. induction cmds as [|c cmds IH]; intros w; cbn [writeCmds]; [eauto|].
  unfold writeCmd. destruct (flush_no_error w) as [w1 Hf]. rewrite Hf. cbn [obind].
  repeat (case_goal; cbn [obind]); auto.
Qed.

Lemma handleBatch_no_error base w h taken w' :
  wal_inv base w h taken → running w = true → handleBatch w [] = Done w' → running w' = true.
Proof.
  intros Hi Hr. pose proof (wi_content _ _ _ _ Hi Hr) as [_ Hc]. unfold handleBatch.
  destruct (appendCh w) as [|batch rest]; [by intros [= <-]|].
  set (w0 := setCh w rest (nextID w)).
  pose proof (writeCmds_ok w0 [] (bcmds batch) _ Hc) as Hw.
  destruct (writeCmds_no_error w0 (bcmds batch)) as [E|[w1 E]]; rewrite E in Hw |- *; [done|].
  destruct Hw as ((_ & _ & _ & _ & _ & Hr1) & _ & Hc1). simpl in Hr1.
  case_match; [|intros [= <-]; congruence].
  pose proof (flush_ok w1 [] _ Hc1) as Hf. destruct (flush_no_error w1) as [w2 E2].
  rewrite E2 in Hf |- *. destruct Hf as ((_ & _ & _ & _ & _ & Hr2) & _).
  intros [= <-]. simpl. congruence.
Qed.

(** [n] iterations of the writer with a disk that works. *)
Fixpoint drain (n : nat) (w : Wal) : Outcome Wal :=
  match n with
  | O => Done w
  | S n => obind (handleBatch w []) (drain n)
  end.

Lemma drain_reach base size mode n w h :
  wal_reach base size mode w h → running w = true → length (appendCh w) = n →
  ∃ w', drain n w = Done w' ∧ wal_reach base size mode w' h ∧ running w' = true ∧
        appendCh w' = [].
Proof.
  revert w. induction n as [|n IH]; intros w Hreach Hr Hn; simpl.
  - exists w. by destruct (appendCh w).
  - destruct (appendCh w) as [|batch rest] eqn:Hch; [done|].
    pose proof (wal_reach_inv _ _ _ _ _ Hreach) as (_ & taken & Hi & _).
    destruct (handleBatch_inv base w h taken [] batch rest) as (w1 & Hb & _ & Hch1 & _); [done..|].
    rewrite Hb. simpl in *. apply IH.
    + eapply wr_batch; [done..| |exact Hb]. by rewrite Hch.
    + by eapply handleBatch_no_error.
    + rewrite Hch1. lia.
Qed.


(** ** Shutdown *)

(** Once the writer has stopped, appending is all that can still happen. *)
Lemma stopped_forever w w' :
  rtc wal_step w w' → running w = false →
  running w' = false ∧ file w' = file w ∧ flushedID w' = flushedID w ∧
  werr w' = werr w ∧ ackMode w' = ackMode w.
Proof.
  induction 1 as [|w1 w2 w3 Hs _ IH]; intros Hr; [done|].
  destruct Hs as [w1 cmds w2 id Ha|w1 outs w2 Hr' _ _|w1 outs ok Hr']; try congruence.
  unfold Append in Ha. case_match; simplify_eq. by apply IH.
Qed.

(** [Close] abandons the batches still queued.  When the writer receives the close
    signal before it has published sequence number [id], then nothing that happens
    afterwards publishes it, records an error or changes the file: a caller waiting
    for [id] blocks forever. *)
Theorem close_strands_queued base size mode w h outs ok id w' :
  wal_reach base size mode w h → running w = true → mode ≠ AckAfterEnqueue →
  flushedID w < id →
  rtc wal_step (handleClose w outs ok) w' →
  Wait w' id = None ∧ file w' = file (handleClose w outs ok).
Proof.
  intros Hreach Hr Hmode Hid Hs.
  pose proof (wr_close _ _ _ _ _ outs ok Hreach Hr) as Hreach'.
  apply wal_reach_inv in Hreach' as [Hm _].
  apply wal_reach_inv in Hreach as (_ & taken & Hi & _).
  destruct (wi_content _ _ _ _ Hi Hr) as [He Hc].
  apply stopped_forever in Hs as (_ & Hf & Hfl & He' & Hm'); [|done].
  split; [|done]. pose proof (flush_ok w outs _ Hc) as Hfo.
  assert (werr (handleClose w outs ok) = false ∧ flushedID (handleClose w outs ok) = flushedID w) as [Hce Hcf].
  { unfold handleClose. simpl. destruct (flush w outs) as [|?|[??]]; [done|..];
      destruct Hfo as ((_ & _ & _ & ? & ? & _) & _); split; congruence. }
  unfold Wait. rewrite Hm', Hm, He', Hce, Hfl, Hcf, (proj2 (Z.ltb_lt _ _) Hid). by destruct mode.
Qed.

(** ** Witnesses *)

Definition ex_base : list Command := [mkCommand OpPut "a" [x41] 3 1].
Definition ex_h0 : list Command := [mkCommand OpPut "b" [x42; x43] 700 2; mkCommand OpDelete "a" [] 3 2].
Definition ex_h1 : list Command := [mkCommand OpPut "c" [] 1023 1].

Definition ex_append (w : Wal) (cmds : list Command) : Wal :=
  match Append w cmds with Some (w', _) => w' | None => w end.
Definition ex_run (w : Wal) : Wal :=
  match handleBatch w [] with Done w' => w' | _ => w end.

(** A tiny buffer, so that the writer has to grow it. *)
Definition ex_opened : Wal := NewWal (encode_all ex_base) 8 AckAfterFsync.
Definition ex_written : Wal := ex_run (ex_append ex_opened ex_h0).
Definition ex_wal : Wal := ex_append ex_written ex_h1.

Lemma ex_append_reach base size mode w h cmds :
  wal_reach base size mode w h → (length (appendCh w) <? appendChCap)%nat = true →
  wal_reach base size mode (ex_append w cmds) (h ++ cmds).
Proof.
  intros Hr Hl. unfold ex_append. destruct (Append w cmds) as [[w' id]|] eqn:E.
  - by eapply wr_append.
  - unfold Append in E. by rewrite Hl in E.
Qed.

Lemma ex_written_reach : wal_reach (encode_all ex_base) 8 AckAfterFsync ex_written ex_h0.
Proof.
  apply (wr_batch _ _ _ (ex_append ex_opened ex_h0) _ []).
  - apply (ex_append_reach _ _ _ _ []); [apply wr_init|reflexivity].
  - reflexivity.
  - vm_compute. discriminate.
  - vm_compute. reflexivity.
Qed.

Lemma ex_wal_reach : wal_reach (encode_all ex_base) 8 AckAfterFsync ex_wal (ex_h0 ++ ex_h1).
Proof. apply ex_append_reach; [apply ex_written_reach|reflexivity]. Qed.

Lemma wal_writer_never_panics_witness : ∃ w', handleBatch ex_wal [IoWriteErr 5] = Done w'.
Proof.
  apply (wal_writer_never_panics _ _ _ _ _ [IoWriteErr 5] ex_wal_reach). reflexivity.
Defined.

Lemma durable_ack_survives_crash_witness :
  Wait ex_wal 2 = Some false ∧
  ∃ l1, ex_h0 `prefix_of` l1 ∧ l1 `prefix_of` ex_h0 ++ ex_h1 ∧
    (ReplayWal (λ st c, (st ++ [c], None)) [] (Some (file ex_wal))).1 = ex_base ++ l1.
Proof.
  split; [reflexivity|].
  apply (durable_ack_survives_crash ex_base 8 ex_wal (ex_h0 ++ ex_h1) ex_h0 (file ex_wal) ex_wal_reach).
  - apply (bool_decide_unpack (Forall wf_cmd _)). vm_compute. exact I.
  - vm_compute. reflexivity.
  - by apply prefix_app_r.
  - reflexivity.
  - split; [done|]. apply Nat.leb_le. vm_compute. reflexivity.
Defined.


Lemma close_strands_queued_witness :
  Wait (handleClose ex_wal [] true) 3 = None ∧
  file (handleClose ex_wal [] true) = file (handleClose ex_wal [] true).
Proof.
  apply (close_strands_queued _ _ _ ex_wal _ [] true 3 _ ex_wal_reach); try reflexivity.
  discriminate.
Defined.
