(* ===== verification/WalWait.v ===== *)
(** * Waiting for durability: the condition variable of [src/core/wal.go]

    [Wait] and the writer goroutine synchronise through [flushedID] (an atomic), [err]
    (guarded by [mu]) and [cond].  The steps below interleave the waiter's
    instructions (lock, test, [notifyListAdd], unlock, park, wake up) with the
    writer's: the success path stores [flushedID] and broadcasts without holding
    [mu], while [fail] stores [err] and broadcasts with [mu] held. *)

From S2P Require Import Prelude Store WalCodec WalWriter.

(** Program counter of a goroutine inside [Wait]; [sync.Cond.Wait] adds the
    goroutine to the notify list, unlocks, parks, and locks again once notified. *)
Inductive WaiterPC :=
  | PLock        (* before [mu.Lock()] *)
  | PTest        (* holds [mu], at the loop condition *)
  | PAdd         (* holds [mu], the condition was true: about to join the list *)
  | PUnlock      (* holds [mu], on the list *)
  | PParked      (* on the list, not holding [mu] *)
  | PReturned (e : bool).

Inductive WriterPC :=
  | WIdle
  | WBroadcast      (* [flushedID] stored, broadcast pending *)
  | WFail           (* [mu] held by [fail], [err] stored, broadcast pending *)
  | WFailUnlock     (* broadcast done, [mu] still held *)
  | WStopped.

#[export] Instance WaiterPC_eq_dec : EqDecision WaiterPC.
Proof. solve_decision. Defined.
#[export] Instance WriterPC_eq_dec : EqDecision WriterPC.
Proof. solve_decision. Defined.

Record Sync := mkSync {
  waiter : WaiterPC;
  writer : WriterPC;
  sFlushed : Z;
  sErr : bool;
  notified : bool     (* a broadcast has reached the waiter's list entry *)
}.

(** Who holds [mu]. *)
Definition waiterHolds (s : Sync) : bool :=
  match waiter s with PTest | PAdd | PUnlock => true | _ => false end.
Definition writerHolds (s : Sync) : bool :=
  match writer s with WFail | WFailUnlock => true | _ => false end.
Definition onList (s : Sync) : bool :=
  match waiter s with PUnlock | PParked => true | _ => false end.

Inductive SyncEvent := Waiter | Writer | Publish (id : Z) | Fail_.

Definition setWaiter (s : Sync) (p : WaiterPC) : Sync :=
  mkSync p (writer s) (sFlushed s) (sErr s) (notified s).
Definition broadcast (s : Sync) (p : WriterPC) : Sync :=
  mkSync (waiter s) p (sFlushed s) (sErr s) (notified s || onList s).

(** One instruction; [None] when the goroutine cannot move. *)
Definition sync_step (id : Z) (ev : SyncEvent) (s : Sync) : option Sync :=
  match ev with
  | Waiter =>
      match waiter s with
      | PLock => if writerHolds s then None else Some (setWaiter s PTest)
      | PTest => Some (setWaiter s (if (sFlushed s <? id) && negb (sErr s) then PAdd
                                    else PReturned (sErr s)))
      | PAdd => Some (mkSync PUnlock (writer s) (sFlushed s) (sErr s) false)
      | PUnlock => Some (setWaiter s PParked)
      | PParked => if notified s then Some (setWaiter s PLock) else None
      | PReturned _ => None
      end
  | Writer =>
      match writer s with
      | WBroadcast => Some (broadcast s WIdle)
      | WFail => Some (broadcast s WFailUnlock)
      | WFailUnlock => Some (mkSync (waiter s) WStopped (sFlushed s) (sErr s) (notified s))
      | WIdle | WStopped => None
      end
  | Publish n =>
      if bool_decide (writer s = WIdle) && (sFlushed s <? n)
      then Some (mkSync (waiter s) WBroadcast n (sErr s) (notified s)) else None
  | Fail_ =>
      if bool_decide (writer s = WIdle) && negb (waiterHolds s)
      then Some (mkSync (waiter s) WFail (sFlushed s) true (notified s)) else None
  end.

Fixpoint sync_run (id : Z) (evs : list SyncEvent) (s : Sync) : option Sync :=
  match evs with
  | [] => Some s
  | ev :: evs => s' ← sync_step id ev s; sync_run id evs s'
  end.

Definition sync_init (flushed : Z) : Sync := mkSync PLock WIdle flushed false false.

(** ** Invariant *)

Definition failed (p : WriterPC) : bool :=
  match p with WFail | WFailUnlock | WStopped => true | WIdle | WBroadcast => false end.
Definition failNotified (p : WriterPC) : bool :=
  match p with WFailUnlock | WStopped => true | _ => false end.

(** [err] is only ever set through [fail]; once its broadcast is out, a goroutine on
    the list has been notified. *)
Record sync_inv (id : Z) (s : Sync) : Prop := {
  sy_err : sErr s = failed (writer s);
  sy_mutex : waiterHolds s && writerHolds s = false;
  sy_add : match waiter s with PAdd => sErr s | _ => false end = false;
  sy_note : onList s && failNotified (writer s) && negb (notified s) = false;
  sy_ret : match waiter s with PReturned e => e || (id <=? sFlushed s) | _ => true end = true
}.

Lemma sync_inv_init id f : sync_inv id (sync_init f).
Proof. by split. Qed.

Lemma sync_inv_step id ev s s' :
  sync_inv id s → sync_step id ev s = Some s' → sync_inv id s'.
Proof.
  intros [He Hm Ha Hn Hr] Hs. destruct s as [wt wr fl er nt].
  unfold waiterHolds, writerHolds, onList in *. simpl in *. subst er.
  destruct ev as [| |n|]; simpl in Hs.
  - destruct wt; [..|done]; simpl in *.
    all: try (destruct wr, nt; simplify_eq/=; by split).
    injection Hs as <-. destruct (fl <? id) eqn:E, wr; split; simpl; try done.
    all: bool_to_prop; by apply Z.leb_le.
  - destruct wr; simplify_eq; destruct wt, nt; by split.
  - case_match; simplify_eq. bool_to_prop. subst. split; simpl; try done.
    destruct wt as [| | | | |[]]; try done. simpl in *. bool_to_prop. apply Z.leb_le. lia.
  - case_match; simplify_eq. bool_to_prop. subst. unfold waiterHolds in *. simpl in *.
    destruct wt; by split.
Qed.

Lemma sync_inv_run id evs s s' :
  sync_inv id s → sync_run id evs s = Some s' → sync_inv id s'.
Proof.
  revert s. induction evs as [|ev evs IH]; intros s Hi; simpl; [by intros [= <-]|].
  destruct (sync_step id ev s) as [s1|] eqn:E; simpl; [|done].
  apply IH. by eapply sync_inv_step.
Qed.

(** [Wait] is sound under every interleaving: when it returns without error, the
    sequence number it waited for has been published. *)
Theorem wait_returns_published id f evs s :
  sync_run id evs (sync_init f) = Some s → waiter s = PReturned false → id <= sFlushed s.
Proof.
  intros Hrun Hw. pose proof (sync_inv_run _ _ _ _ (sync_inv_init id f) Hrun) as [_ _ _ _ Hr].
  rewrite Hw in Hr. simpl in Hr. by apply Z.leb_le.
Qed.

(** The error path cannot lose a wake-up: once [fail] has finished, a waiter is
    never parked without a pending notification, so it can always take its next
    step until it has returned, and it then returns the error (or a success
    published before). *)
Theorem fail_wakes_waiter id f evs s :
  sync_run id evs (sync_init f) = Some s → writer s = WStopped →
  is_Some (sync_step id Waiter s) ∨ ∃ e, waiter s = PReturned e.
Proof.
  intros Hrun Hw. pose proof (sync_inv_run _ _ _ _ (sync_inv_init id f) Hrun) as [_ _ _ Hn _].
  unfold onList, sync_step, writerHolds in *. rewrite Hw in *.
  destruct (waiter s) eqn:E; simpl in *; eauto.
  destruct (notified s); [eauto|done].
Qed.

(** No event of the waiter and no completion of a pending broadcast frees a waiter that
    missed the broadcast. *)
Definition quiet (ev : SyncEvent) : Prop := ev = Waiter ∨ ev = Writer.

Lemma parked_stays id evs s s' :
  Forall quiet evs → waiter s = PParked → writer s = WIdle → notified s = false →
  sync_run id evs s = Some s' → s' = s.
Proof.
  intros Hq Hp Hw Hn Hrun. destruct Hq as [|ev evs [-> | ->] _]; [by simplify_eq/=|..].
  all: simpl in Hrun; rewrite ?Hp, ?Hn, ?Hw in Hrun; done.
Qed.

(** C38: the success path can lose a wake-up.  There is an interleaving in which the
    writer stores [flushedID] and broadcasts between the waiter's test and its
    entry on the notify list: the sequence number is published, yet the waiter is
    parked, and neither goroutine can move until some later batch is published. *)
Theorem publish_can_lose_wakeup id f :
  f < id →
  ∃ evs s, sync_run id evs (sync_init f) = Some s ∧ id <= sFlushed s ∧ waiter s = PParked ∧
    ∀ evs' s', Forall quiet evs' → sync_run id evs' s = Some s' → waiter s' = PParked.
Proof.
  intros Hlt. exists [Waiter; Waiter; Publish id; Writer; Waiter; Waiter],
    (mkSync PParked WIdle id false false).
  split_and!; [|simpl; lia|done|].
  - cbn -[Z.ltb]. by rewrite !(proj2 (Z.ltb_lt _ _) Hlt).
  - intros evs' s' Hq Hrun. apply parked_stays in Hrun as ->; done.
Qed.

Definition ex_fail_run : list SyncEvent := [Waiter; Waiter; Waiter; Waiter; Fail_; Writer; Writer].

Lemma wait_returns_published_witness :
  sync_run 3 [Publish 4; Waiter; Waiter] (sync_init 2)
    = Some (mkSync (PReturned false) WBroadcast 4 false false) ∧ 3 <= 4.
Proof.
  split; [reflexivity|].
  apply (wait_returns_published 3 2 [Publish 4; Waiter; Waiter]
           (mkSync (PReturned false) WBroadcast 4 false false)); reflexivity.
Defined.

Lemma fail_wakes_waiter_witness :
  ∃ s, sync_run 3 ex_fail_run (sync_init 2) = Some s ∧
       (is_Some (sync_step 3 Waiter s) ∨ ∃ e, waiter s = PReturned e).
Proof.
  eexists. split; [reflexivity|].
  apply (fail_wakes_waiter 3 2 ex_fail_run); reflexivity.
Defined.

Lemma publish_can_lose_wakeup_witness :
  ∃ evs s, sync_run 3 evs (sync_init 2) = Some s ∧ 3 <= sFlushed s ∧ waiter s = PParked ∧
    ∀ evs' s', Forall quiet evs' → sync_run 3 evs' s = Some s' → waiter s' = PParked.
Proof. apply (publish_can_lose_wakeup 3 2). reflexivity. Defined.
