(* ===== verification/EventLoop.v ===== *)
(** * The event loop ([src/core/loop.go])

    [Run] is the single goroutine that owns the store: it serves reads, batches
    writes, applies them, appends them to the log and hands the batch to the
    responder goroutine, which waits for durability and answers every request.
    The loop is proved against an interface of the log, the class [Log]; the
    write-ahead log of [WalWriter] is an instance of it. *)

From S2P Require Import Prelude Store StoreSpec WalCodec WalWriter.
From Stdlib.Strings Require Import Byte.

(** ** What the loop relies on *)

(** [log_hist w h]: [h] is the sequence of commands appended to [w].
    [log_durable w h]: the commands [h] survive a crash.  [log_step] are the steps the
    log takes on its own. *)
Class Log (W : Type) := {
  log_mode : W → AckMode;
  log_append : W → list Command → option (W * Z);
  log_wait : W → Z → option bool;
  log_step : W → W → Prop;
  log_hist : W → list Command → Prop;
  log_durable : W → list Command → Prop;

  log_append_hist w h cmds w' id :
    log_hist w h → log_append w cmds = Some (w', id) →
    log_hist w' (h ++ cmds) ∧ id = u64 (len (h ++ cmds)) ∧ log_mode w' = log_mode w;
  log_step_hist w w' h :
    log_hist w h → log_step w w' → log_hist w' h ∧ log_mode w' = log_mode w;
  log_wait_durable w h h1 :
    log_hist w h → log_mode w ≠ AckAfterEnqueue → len h < 2 ^ 64 → h1 `prefix_of` h →
    log_wait w (len h1) = Some false → log_durable w h1;
  log_append_durable w h cmds w' id h1 :
    log_hist w h → log_append w cmds = Some (w', id) → log_durable w h1 → log_durable w' h1;
  log_step_durable w w' h h1 :
    log_hist w h → log_step w w' → log_durable w h1 → log_durable w' h1
}.

(** ** Requests and responses ([src/core/rpc.go]) *)

(** [rChan] identifies the request's response channel. *)
Record Request := mkRequest {
  rOp : OpType;
  rKey : string;
  rValue : list byte;
  rVNodeID : Z;
  rVersion : Z;
  rChan : nat
}.

(** The errors a response can carry; [CtxDone] is made by the RPC layer when the
    caller's context ends first. *)
Inductive RespErr := KvErr (e : Error) | DiskErr | CtxDone.

Record Response := mkResponse {
  pOp : OpType;
  pValue : list byte;
  pErr : option RespErr;
  pVersion : Z
}.

Record pendingAck := mkAck { ackID : Z; requests : list Request }.

Definition ackChCap : Z := 10000.

Definition cmdOf (r : Request) : Command :=
  mkCommand (rOp r) (rKey r) (rValue r) (rVNodeID r) (rVersion r).

Section loop.
Context {W : Type} `{Log W}.

Record EventLoop := mkLoop {
  elStore : Store;
  elWal : W;
  BatchSize : Z;
  writeBatch : list Request;
  ackCh : list pendingAck;
  stopped : bool            (* [Run] has returned *)
}.

Definition NewLoop (s : Store) (w : W) (n : Z) : EventLoop := mkLoop s w n [] [] false.

(** [processBatch].  [None]: a send blocks (the log's channel or [ackCh] is full), and
    the step is taken when there is room.  The error [Apply] returns is dropped. *)
Definition processBatch (el : EventLoop) : option EventLoop :=
  match writeBatch el with
  | [] => Some el
  | batch =>
      let cmds := cmdOf <$> batch in
      let store' := apply_all (elStore el) cmds in
      '(w', id) ← log_append (elWal el) cmds;
      if len (ackCh el) <? ackChCap then
        Some (mkLoop store' w' (BatchSize el) [] (ackCh el ++ [mkAck id batch]) (stopped el))
      else None
  end.

Definition getResponse (s : Store) (req : Request) : Response :=
  match GetWithVersion s (rKey req) with
  | inl (val, ver) => mkResponse (rOp req) val None ver
  | inr e => mkResponse (rOp req) [] (Some (KvErr e)) 0
  end.

(** [case req, ok := <-el.ReqCh] with [ok]: the new state and the responses sent. *)
Definition onRequest (el : EventLoop) (req : Request)
    : option (EventLoop * list (Request * Response)) :=
  if rOp req =? OpGet then
    Some (el, [(req, getResponse (elStore el) req)])
  else if decide (log_mode (elWal el) = AckAfterEnqueue) then
    '(w', _) ← log_append (elWal el) [cmdOf req];
    let '(store', err) := Apply (elStore el) (cmdOf req) in
    Some (mkLoop store' w' (BatchSize el) (writeBatch el) (ackCh el) (stopped el),
          [(req, mkResponse (rOp req) [] (KvErr <$> err) 0)])
  else
    let el := mkLoop (elStore el) (elWal el) (BatchSize el) (writeBatch el ++ [req])
                (ackCh el) (stopped el) in
    if BatchSize el <=? len (writeBatch el) then
      el' ← processBatch el; Some (el', [])
    else Some (el, []).

(** [ok] is false: the request channel was closed. *)
Definition onClose (el : EventLoop) : option EventLoop :=
  el' ← processBatch el;
  Some (mkLoop (elStore el') (elWal el') (BatchSize el') (writeBatch el') (ackCh el') true).

(** One round of the responder goroutine; [None] when it blocks. *)
Definition respond (el : EventLoop) : option (EventLoop * list (Request * Response)) :=
  match ackCh el with
  | [] => None
  | ack :: rest =>
      diskErr ← log_wait (elWal el) (ackID ack);
      Some (mkLoop (elStore el) (elWal el) (BatchSize el) (writeBatch el) rest (stopped el),
            (λ req, (req, mkResponse (rOp req) [] (if diskErr : bool then Some DiskErr else None) 0))
              <$> requests ack)
  end.

Definition setWal (el : EventLoop) (w : W) : EventLoop :=
  mkLoop (elStore el) w (BatchSize el) (writeBatch el) (ackCh el) (stopped el).

(** Runs of the loop: the state, the requests received and the responses sent. *)
Inductive el_reach (el0 : EventLoop)
    : EventLoop → list Request → list (Request * Response) → Prop :=
  | er_init : el_reach el0 el0 [] []
  | er_request el rs sent req el' out :
      el_reach el0 el rs sent → stopped el = false → onRequest el req = Some (el', out) →
      el_reach el0 el' (rs ++ [req]) (sent ++ out)
  | er_tick el rs sent el' :
      el_reach el0 el rs sent → stopped el = false → processBatch el = Some el' →
      el_reach el0 el' rs sent
  | er_close el rs sent el' :
      el_reach el0 el rs sent → stopped el = false → onClose el = Some el' →
      el_reach el0 el' rs sent
  | er_respond el rs sent el' out :
      el_reach el0 el rs sent → respond el = Some (el', out) →
      el_reach el0 el' rs (sent ++ out)
  | er_log el rs sent w' :
      el_reach el0 el rs sent → log_step (elWal el) w' →
      el_reach el0 (setWal el w') rs sent.

(** Requests received and not answered yet. *)
Definition pending (el : EventLoop) : list Request :=
  concat (requests <$> ackCh el) ++ writeBatch el.

(** Every queued acknowledgement carries the sequence number of its batch. *)
Definition acks_ok (hist : list Command) (acks : list pendingAck) : Prop :=
  Forall (λ a, ∃ h1, h1 ++ (cmdOf <$> requests a) `prefix_of` hist ∧
                     ackID a = u64 (len (h1 ++ (cmdOf <$> requests a)))) acks.

(** Every write answered with success is in the durable part of the log. *)
Definition sent_durable (hist : list Command) (w : W) (sent : list (Request * Response)) : Prop :=
  Forall (λ rp, rOp rp.1 ≠ OpGet → pErr rp.2 = None →
            ∃ h1, h1 `prefix_of` hist ∧ cmdOf rp.1 ∈ h1 ∧ log_durable w h1) sent.

(** A command of the log is a write that was requested. *)
Definition logged_from (rs : list Request) (c : Command) : Prop :=
  ∃ r, r ∈ rs ∧ rOp r ≠ OpGet ∧ c = cmdOf r.

(** Commands in the log so far, past the [h0] it was opened with. *)
Record el_inv (s0 : Store) (h0 : list Command) (el : EventLoop) (h : list Command)
    (rs : list Request) (sent : list (Request * Response)) : Prop := {
  ei_hist : log_hist (elWal el) (h0 ++ h);
  ei_store : elStore el = apply_all s0 h;
  ei_answers : sent.*1 ++ pending el ≡ₚ rs;
  ei_cmds : Forall (logged_from rs) (h ++ (cmdOf <$> writeBatch el));
  ei_count : len h + len (writeBatch el) <= len rs;
  ei_acks : acks_ok (h0 ++ h) (ackCh el);
  ei_durable : log_mode (elWal el) ≠ AckAfterEnqueue → len (h0 ++ h) < 2 ^ 64 →
               sent_durable (h0 ++ h) (elWal el) sent
}.

(** Both survive an append to the log. *)
Lemma acks_ok_app hist cmds acks : acks_ok hist acks → acks_ok (hist ++ cmds) acks.
Proof.
  intros Ha. eapply Forall_impl; [|exact Ha]. intros a (h1 & Hp & Hid).
  exists h1. split; [by apply prefix_app_r|done].
Qed.

Lemma sent_durable_app hist w cmds w' id sent :
  log_hist w hist → log_append w cmds = Some (w', id) →
  sent_durable hist w sent → sent_durable (hist ++ cmds) w' sent.
Proof.
  intros Hh Ha Hs. eapply Forall_impl; [|exact Hs]. intros rp Hrp Hop He.
  destruct (Hrp Hop He) as (h1 & Hp & Hin & Hd). exists h1.
  split; [by apply prefix_app_r|]. split; [done|]. by eapply log_append_durable.
Qed.

Lemma apply_all_app s l1 l2 : apply_all s (l1 ++ l2) = apply_all (apply_all s l1) l2.
Proof. unfold apply_all. by rewrite foldl_app. Qed.

Lemma len_prefix {A} (l1 l2 : list A) : len l1 <= len (l1 ++ l2).
Proof. rewrite len_app. pose proof (len_nonneg l2). lia. Qed.

Lemma logged_from_snoc rs req c : logged_from rs c → logged_from (rs ++ [req]) c.
Proof. intros (r & ? & ? & ?). exists r. set_solver. Qed.

Lemma logged_from_new rs req : rOp req ≠ OpGet → logged_from (rs ++ [req]) (cmdOf req).
Proof. intros. exists req. set_solver. Qed.

Section inv.
Context (s0 : Store) (h0 : list Command).

Lemma processBatch_inv el h rs sent el' :
  el_inv s0 h0 el h rs sent → processBatch el = Some el' →
  ∃ h', el_inv s0 h0 el' h' rs sent ∧ log_mode (elWal el') = log_mode (elWal el) ∧
        writeBatch el' = [] ∧ BatchSize el' = BatchSize el ∧ stopped el' = stopped el.
Proof.
  intros [Hh Hs Ha Hc Hlen Hk Hd] Hp. unfold processBatch in Hp.
  destruct (writeBatch el) as [|r batch] eqn:Eb.
  { simplify_eq. exists h. split; [split; rewrite ?Eb; done|done]. }
  rewrite <-Eb in Hp, Hc, Hlen. set (cmds := cmdOf <$> writeBatch el) in *.
  destruct (log_append (elWal el) cmds) as [[w' id]|] eqn:Eap; [|done]. simpl in Hp.
  case_match; simplify_eq. exists (h ++ cmds).
  destruct (log_append_hist _ _ _ _ _ Hh Eap) as (Hh' & Hid & Hm).
  split; [|by split_and!]. rewrite <-(assoc_L (++)) in Hh', Hid. split; simpl.
  - done.
  - by rewrite apply_all_app, Hs.
  - unfold pending in *. simpl. rewrite fmap_app, concat_app. simpl. by rewrite !app_nil_r.
  - by rewrite app_nil_r.
  - rewrite len_app. unfold cmds, len in *. rewrite length_fmap. simpl. lia.
  - rewrite (assoc_L (++)). apply Forall_app_2; [by apply acks_ok_app|].
    apply Forall_singleton. exists (h0 ++ h). split; [done|]. by rewrite <-(assoc_L (++)).
  - rewrite Hm. intros Hmode Hl. rewrite (assoc_L (++)) in Hl |- *.
    eapply sent_durable_app; [done..|]. apply Hd; [done|].
    pose proof (len_prefix (h0 ++ h) cmds). lia.
Qed.

Lemma onRequest_inv el h rs sent req el' out :
  el_inv s0 h0 el h rs sent → onRequest el req = Some (el', out) →
  ∃ h', el_inv s0 h0 el' h' (rs ++ [req]) (sent ++ out) ∧
        log_mode (elWal el') = log_mode (elWal el) ∧ BatchSize el' = BatchSize el ∧
        stopped el' = stopped el.
Proof.
  intros Hi Hreq. pose proof Hi as [Hh Hs Ha Hc Hlen Hk Hd]. unfold onRequest in Hreq.
  apply (Forall_impl _ (logged_from_snoc rs req)) in Hc.
  assert (Hlen' : len (rs ++ [req]) = len rs + 1) by (rewrite len_app; done).
  destruct (rOp req =? OpGet) eqn:Eop; [|case_decide as Emode]; bool_to_prop.
  - simplify_eq. exists h. split; [|done]. split; try done.
    + rewrite fmap_app, <-Ha. simpl. solve_Permutation.
    + rewrite Hlen'. lia.
    + intros. apply Forall_app_2; [by apply Hd|]. apply Forall_singleton. done.
  - destruct (log_append (elWal el) [cmdOf req]) as [[w' id]|] eqn:Eap; [|done]. simpl in Hreq.
    destruct (Apply (elStore el) (cmdOf req)) as [st err] eqn:EA. simplify_eq.
    destruct (log_append_hist _ _ _ _ _ Hh Eap) as (Hh' & Hid & Hm).
    exists (h ++ [cmdOf req]). split; [|by split_and!]. rewrite <-(assoc_L (++)) in Hh'.
    split; simpl; try done.
    + rewrite apply_all_app, <-Hs. unfold apply_all. simpl. by rewrite EA.
    + rewrite fmap_app, <-Ha. simpl. unfold pending. simpl. solve_Permutation.
    + apply Forall_app in Hc as [? ?]. rewrite !Forall_app, Forall_singleton.
      split_and!; try done. by apply logged_from_new.
    + rewrite Hlen', len_app. unfold len in *. simpl. lia.
    + rewrite (assoc_L (++)). by apply acks_ok_app.
    + congruence.
  - set (el1 := mkLoop _ _ _ _ _ _) in Hreq.
    assert (Hi1 : el_inv s0 h0 el1 h (rs ++ [req]) sent).
    { split; try done;
        [rewrite <-Ha; unfold pending; simpl; solve_Permutation|
        |rewrite Hlen'; simpl; rewrite len_app; unfold len in *; simpl; lia].
      simpl. rewrite fmap_app, (assoc_L (++)), Forall_app. split; [done|].
      apply Forall_singleton. by apply logged_from_new. }
    case_match.
    + destruct (processBatch el1) as [el2|] eqn:Ep; [|done]. simplify_eq/=.
      rewrite app_nil_r. destruct (processBatch_inv _ _ _ _ _ Hi1 Ep) as (h' & ? & ? & ? & ? & ?).
      by exists h'.
    + simplify_eq/=. rewrite app_nil_r. by exists h.
Qed.

Lemma respond_inv el h rs sent el' out :
  el_inv s0 h0 el h rs sent → respond el = Some (el', out) →
  el_inv s0 h0 el' h rs (sent ++ out) ∧ elWal el' = elWal el.
Proof.
  intros [Hh Hs Ha Hc Hlen Hk Hd] Hr. unfold respond in Hr.
  destruct (ackCh el) as [|ack rest] eqn:Eack; [done|].
  destruct (log_wait (elWal el) (ackID ack)) as [e|] eqn:Ew; [|done]. simplify_eq/=.
  apply Forall_cons_iff in Hk as [(h1 & Hpre & Hid) Hk]. split; [|done]. split; try done; simpl.
  - rewrite <-Ha. unfold pending. rewrite Eack. simpl.
    rewrite fmap_app, <-list_fmap_compose. unfold compose. simpl. rewrite list_fmap_id.
    by rewrite <-!(assoc_L (++)).
  - intros Hm Hl. apply Forall_app_2; [by apply Hd|]. apply Forall_fmap, list.Forall_forall.
    intros req Hreq _ He. simpl in *. destruct e; [done|].
    exists (h1 ++ (cmdOf <$> requests ack)). split; [done|].
    split; [apply elem_of_app; right; by apply list_elem_of_fmap_2|].
    eapply log_wait_durable; [done..|]. rewrite <-Ew, Hid, u64_id; [done|].
    destruct Hpre as [t Ht]. rewrite Ht in Hl.
    pose proof (len_prefix (h1 ++ (cmdOf <$> requests ack)) t).
    pose proof (len_nonneg (h1 ++ (cmdOf <$> requests ack))). unfold is_u64. lia.
Qed.

Lemma log_step_inv el h rs sent w' :
  el_inv s0 h0 el h rs sent → log_step (elWal el) w' →
  el_inv s0 h0 (setWal el w') h rs sent ∧ log_mode w' = log_mode (elWal el).
Proof.
  intros [Hh Hs Ha Hc Hlen Hk Hd] Hst. destruct (log_step_hist _ _ _ Hh Hst) as [Hh' Hm].
  split; [|done]. split; try done. simpl. rewrite Hm. intros Hmode Hl.
  eapply Forall_impl; [|exact (Hd Hmode Hl)]. intros rp Hrp Hop He.
  destruct (Hrp Hop He) as (h1 & Hp & Hin & Hdur). exists h1.
  split; [done|]. split; [done|]. exact (log_step_durable _ _ _ _ Hh Hst Hdur).
Qed.

Lemma el_reach_inv w0 n el rs sent :
  log_hist w0 h0 → el_reach (NewLoop s0 w0 n) el rs sent →
  (∃ h, el_inv s0 h0 el h rs sent) ∧ log_mode (elWal el) = log_mode w0.
Proof.
  intros Hh0. induction 1 as [|el rs sent req el' out _ [[h Hi] Hm] _ Hr
    |el rs sent el' _ [[h Hi] Hm] _ Hp|el rs sent el' _ [[h Hi] Hm] _ Hc
    |el rs sent el' out _ [[h Hi] Hm] Hr|el rs sent w' _ [[h Hi] Hm] Hs].
  - split; [|done]. exists []. split; simpl; rewrite ?app_nil_r; try done; by constructor.
  - destruct (onRequest_inv _ _ _ _ _ _ _ Hi Hr) as (h' & ? & ? & _). split; [eauto|congruence].
  - destruct (processBatch_inv _ _ _ _ _ Hi Hp) as (h' & ? & ? & _). split; [eauto|congruence].
  - unfold onClose in Hc. destruct (processBatch el) as [el1|] eqn:Hp; [|done]. simplify_eq/=.
    destruct (processBatch_inv _ _ _ _ _ Hi Hp) as (h' & [] & ? & _).
    split; [exists h'; by split|congruence].
  - destruct (respond_inv _ _ _ _ _ _ Hi Hr) as (? & ->). eauto.
  - destruct (log_step_inv _ _ _ _ _ Hi Hs) as (? & ?). split; [eauto|simpl; congruence].
Qed.
End inv.

(** ** The size of batches *)

Definition batch_ok (n : Z) (el : EventLoop) : Prop :=
  (stopped el = true → writeBatch el = []) ∧ BatchSize el = n ∧
  (writeBatch el = [] ∨ len (writeBatch el) < n) ∧
  Forall (λ a, 0 < len (requests a) <= Z.max 1 n) (ackCh el).

Lemma processBatch_batch n el el' :
  BatchSize el = n → len (writeBatch el) <= Z.max 1 n →
  Forall (λ a, 0 < len (requests a) <= Z.max 1 n) (ackCh el) →
  processBatch el = Some el' → writeBatch el' = [] ∧ batch_ok n el'.
Proof.
  unfold processBatch, batch_ok. intros Hn Hb Hf Hp.
  destruct (writeBatch el) as [|r batch] eqn:Eb; [simplify_eq; rewrite !Eb; split_and!; by auto|].
  destruct (log_append _ _) as [[w' id]|]; [|done]. simpl in Hp. case_match; simplify_eq. simpl.
  split_and!; auto. apply Forall_app_2; [done|]. apply Forall_singleton. simpl.
  unfold len in *. simpl in *. lia.
Qed.

Lemma el_batch s0 w0 n el rs sent :
  el_reach (NewLoop s0 w0 n) el rs sent → batch_ok n el.
Proof.
  assert (Hle : ∀ l : list Request, l = [] ∨ len l < n → len l <= Z.max 1 n)
    by (intros l [->|?]; unfold len in *; simpl in *; lia).
  induction 1 as [|el rs sent req el' out _ (Hst & Hn & Hb & Hf) Hs Hr
    |el rs sent el' _ (Hst & Hn & Hb & Hf) Hs Hp|el rs sent el' _ (Hst & Hn & Hb & Hf) Hs Hp
    |el rs sent el' out _ (Hst & Hn & Hb & Hf) Hr|el rs sent w' _ ? Hs].
  - split_and!; auto.
  - unfold onRequest in Hr. repeat (case_match; simplify_eq/=; try done).
    + destruct (log_append _ _) as [[w' id]|]; [|done]. simpl in Hr.
      destruct (Apply _ _); simplify_eq. by split_and!.
    + destruct (processBatch _) as [el1|] eqn:Hp; [|done]. simplify_eq/=.
      eapply processBatch_batch in Hp as [_ ?]; [done|done| |done]. simpl.
      rewrite len_app. destruct Hb as [->|?]; unfold len in *; simpl; lia.
    + bool_to_prop. split_and!; simpl; try done; [congruence|by right].
  - eapply processBatch_batch; eauto.
  - unfold onClose in Hp. destruct (processBatch el) as [el1|] eqn:Ep; [|done]. simplify_eq/=.
    apply (processBatch_batch (BatchSize el)) in Ep as [? (? & ? & ? & ?)]; auto. by split_and!.
  - unfold respond in Hr. destruct (ackCh el) as [|a rest]; [done|].
    destruct (log_wait _ _); simplify_eq/=. apply Forall_cons_iff in Hf as [_ ?]. by split_and!.
  - done.
Qed.

(** ** Theorems *)

(** C8: the store is the replay of the log.  In every state of the loop, with any
    interleaving of requests, ticks, responses and steps of the log, the store
    equals the initial one with exactly the appended commands applied in the
    order of the log; each of them is a write that was requested. *)
Theorem store_is_replay_of_log s0 w0 n el rs sent :
  log_hist w0 [] → el_reach (NewLoop s0 w0 n) el rs sent →
  ∃ h, log_hist (elWal el) h ∧ elStore el = apply_all s0 h ∧ Forall (logged_from rs) h.
Proof.
  intros Hh Hr. destruct (el_reach_inv s0 [] w0 n el rs sent Hh Hr) as [[h [Hh' Hs _ Hc _ _ _]] _].
  exists h. apply Forall_app in Hc as [? _]. done.
Qed.

(** C9: every request is answered exactly once.  At any time the answered requests and
    the ones still waiting (in the open batch or in queued acknowledgements) are
    together exactly the received ones, none lost and none duplicated; once the
    loop has stopped and the responder has drained its queue, every request
    received has exactly one answer. *)
Theorem every_request_answered_once s0 w0 n el rs sent :
  log_hist w0 [] → el_reach (NewLoop s0 w0 n) el rs sent →
  sent.*1 ++ pending el ≡ₚ rs ∧
  (stopped el = true → ackCh el = [] → sent.*1 ≡ₚ rs).
Proof.
  intros Hh Hr. destruct (el_reach_inv s0 [] w0 n el rs sent Hh Hr) as [[h [_ _ Ha _ _ _ _]] _].
  split; [done|]. intros Hst Hack.
  assert (stopped el = true → writeBatch el = []) as Hb.
  { eapply el_batch, Hr. }
  unfold pending in Ha. rewrite Hack, Hb in Ha by done. by rewrite app_nil_r in Ha.
Qed.

(** Batches are bounded.  Between two events the open batch holds fewer than
    [BatchSize] requests, and none at all when [BatchSize] is at most one or when
    the log acknowledges on enqueue; every queued batch is non-empty and within the bound. *)
Theorem batches_bounded s0 w0 n el rs sent :
  el_reach (NewLoop s0 w0 n) el rs sent →
  (writeBatch el = [] ∨ len (writeBatch el) < n) ∧
  Forall (λ a, 0 < len (requests a) <= Z.max 1 n) (ackCh el).
Proof. intros Hr. destruct (el_batch _ _ _ _ _ _ Hr) as (? & ? & ? & ?). done. Qed.
End loop.
