(* ===== verification/Durability.v ===== *)
(** * The event loop over the write-ahead log, end to end

    The write-ahead log of [src/core/wal.go] implements the interface the event loop
    relies on; putting the two together gives what a client's acknowledgement means
    across a crash and a restart ([src/cmd/server/main.go] replays the log into a
    fresh store before it opens it for writing). *)

From S2P Require Import Prelude Store StoreSpec WalCodec WalWriter EventLoop.
From Stdlib.Strings Require Import Byte.

(** ** The write-ahead log is a [Log] *)

Definition wal_own_step (w w' : Wal) : Prop :=
  running w = true ∧
  ((appendCh w ≠ [] ∧ ∃ outs, handleBatch w outs = Done w') ∨
   (∃ outs ok, w' = handleClose w outs ok)).

Lemma wal_own_step_grows base size mode w h w' :
  wal_reach base size mode w h → wal_own_step w w' →
  wal_reach base size mode w' h ∧ grows w w' ∧ (synced w <= length (file w))%nat.
Proof.
  intros Hreach [Hr Hs].
  pose proof (wal_reach_inv _ _ _ _ _ Hreach) as (_ & taken & Hi & _).
  split; [destruct Hs as [[Hne [outs Hb]]|(outs & ok & ->)]; [by eapply wr_batch|by apply wr_close]|].
  split; [|apply Hi]. destruct Hs as [[Hne [outs Hb]]|(outs & ok & ->)].
  - destruct (appendCh w) as [|batch rest] eqn:Hch; [done|].
    destruct (handleBatch_inv base w h taken outs batch rest) as (w1 & Hb1 & _ & _ & _ & Hg & _); [done..|].
    rewrite Hb1 in Hb. by injection Hb as <-.
  - destruct (wi_content _ _ _ _ Hi Hr) as [_ Hc]. pose proof (flush_ok w outs _ Hc) as Hf.
    unfold handleClose. destruct (flush w outs) as [|w1|[w1 o]]; [done|..];
      destruct Hf as (_ & [Hp Hsy] & _); split; simpl; [done| |done|];
      intros Hle; specialize (Hsy Hle); case_match; lia.
Qed.

#[export] Program Instance Wal_Log (base : list byte) (size : nat) : Log Wal := {|
  log_mode := ackMode;
  log_append := Append;
  log_wait := Wait;
  log_step := wal_own_step;
  log_hist := λ w h, wal_reach base size (ackMode w) w h;
  log_durable := on_disk base
|}.
Next Obligation.
  intros base size w h cmds w' id Hh Ha. simpl in *.
  assert (Hm : ackMode w' = ackMode w) by (unfold Append in Ha; by case_match; simplify_eq).
  rewrite Hm. split; [by eapply wr_append|]. split; [|done].
  destruct (wal_reach_inv _ _ _ _ _ Hh) as (_ & taken & Hi & _). by eapply Append_inv.
Qed.
Next Obligation.
  intros base size w w' h Hh Hs. simpl in *.
  destruct (wal_own_step_grows _ _ _ _ _ _ Hh Hs) as (Hh' & _).
  pose proof (wal_reach_inv _ _ _ _ _ Hh') as [Hm _]. by rewrite Hm.
Qed.
Next Obligation.
  intros base size w h h1 Hh Hm Hlen Hpre Hw. simpl in *.
  by destruct (Wait_on_disk _ _ _ _ _ _ Hh Hm Hlen Hpre Hw) as (? & _ & _ & ?).
Qed.
Next Obligation.
  intros base size w h cmds w' id h1 Hh Ha Hd. unfold Append in Ha. simpl in *.
  by case_match; simplify_eq.
Qed.
Next Obligation.
  intros base size w w' h h1 Hh Hs Hd. simpl in *.
  destruct (wal_own_step_grows _ _ _ _ _ _ Hh Hs) as (Hh' & Hg & Hle).
  pose proof (wal_reach_inv _ _ _ _ _ Hh') as [Hm _]. by eapply on_disk_grows.
Qed.

(** ** Recovery *)

(** A request as the RPC layer issues it: a read, or a write with a version. *)
Definition good_write (c : Command) : Prop :=
  (Op c = OpPut ∨ Op c = OpDelete) ∧ Version c ≠ 0 ∧ wf_cmd c.
Definition good_request (r : Request) : Prop := rOp r = OpGet ∨ good_write (cmdOf r).

#[export] Instance good_write_dec c : Decision (good_write c).
Proof. unfold good_write. apply _. Defined.
#[export] Instance good_request_dec r : Decision (good_request r).
Proof. unfold good_request, good_write. apply _. Defined.

Lemma good_writes_apply s l :
  Forall good_write l → applyUntilErr Apply s l = (apply_all s l, None).
Proof.
  intros Hl. revert s. induction Hl as [|c l Hc _ IH]; intros s; [done|].
  cbn [applyUntilErr]. destruct (Apply s c) as [s' e] eqn:E.
  assert (e = None) as ->.
  { rewrite Apply_eq in E. destruct Hc as ([Ho|Ho] & _). all: unfold applySwitch in E; simpl in E.
    all: rewrite Ho in E; case_match; by simplify_eq/=. }
  rewrite IH. unfold apply_all. simpl. by rewrite E.
Qed.

Lemma lww_applied_version a c :
  good_write c → Version c <= lww_version (lww_apply a c) (Key c).
Proof.
  intros (Ho & Hv & _). unfold lww_apply.
  rewrite (proj2 (Z.eqb_neq _ _) Hv). simpl.
  destruct (Version c <? _) eqn:E; bool_to_prop; [lia|].
  destruct Ho as [-> | ->]; simpl; rewrite lww_version_insert, decide_True by done; simpl; lia.
Qed.

Lemma lww_all_version a l k :
  Forall good_write l → lww_version a k <= lww_version (foldl lww_apply a l) k.
Proof.
  intros Hl. revert a. induction Hl as [|c l (_ & Hv & _) _ IH]; intros a; simpl; [lia|].
  etrans; [|apply IH]. apply lww_apply_version_mono. by left.
Qed.

Lemma applied_version s l c :
  Forall good_write l → c ∈ l → Version c <= mVersion (metaOf (apply_all s l) (Key c)).
Proof.
  intros Hl Hc. rewrite <-abs_version, apply_all_abs. generalize (abs s). clear s.
  induction Hl as [|c' l Hg Hl' IH]; intros a; [by apply elem_of_nil in Hc|].
  simpl. apply elem_of_cons in Hc as [->|Hc]; [|by apply IH].
  etrans; [by apply (lww_applied_version a)|by apply lww_all_version].
Qed.

(** A server that opened its log on the content [base] with the store [s0]. *)
Definition served (base : list byte) (size : nat) (mode : AckMode) (s0 : Store) (n : Z)
    : EventLoop → list Request → list (Request * Response) → Prop :=
  el_reach (H := Wal_Log base size) (NewLoop s0 (NewWal base size mode) n).

(** What the loop's invariant says of a successful answer. *)
Lemma served_acked base size mode s0 n el rs sent req resp :
  served base size mode s0 n el rs sent → mode ≠ AckAfterEnqueue → len rs < 2 ^ 64 →
  (req, resp) ∈ sent → rOp req ≠ OpGet → pErr resp = None →
  ∃ h h1, wal_reach base size mode (elWal el) h ∧ Forall (logged_from rs) h ∧
    h1 `prefix_of` h ∧ cmdOf req ∈ h1 ∧ on_disk base (elWal el) h1.
Proof.
  intros Hr Hm Hlen Hin Hop He.
  destruct (el_reach_inv (H := Wal_Log base size) s0 [] _ n el rs sent (wr_init _ _ _) Hr) as [[h Hi] Hmode].
  destruct Hi as [Hh _ _ Hc Hcount _ Hd]. simpl in *. rewrite Hmode in *.
  pose proof (len_nonneg (writeBatch el)).
  specialize (Hd Hm ltac:(lia)).
  destruct (proj1 (list.Forall_forall _ _) Hd _ Hin Hop He) as (h1 & Hp & Hin1 & Hdur).
  exists h, h1. apply Forall_app in Hc as [? _]. done.
Qed.

(** Acknowledged means durable.  When a write was answered with success (and the
    log does not acknowledge on enqueue), a run of consecutive records from the start
    of the log that contains the write's command is in the file, and on stable
    storage in fsync mode, in that state and in every later one. *)
Theorem acked_write_on_disk base size mode s0 n el rs sent req resp :
  served base size mode s0 n el rs sent → mode ≠ AckAfterEnqueue → len rs < 2 ^ 64 →
  (req, resp) ∈ sent → rOp req ≠ OpGet → pErr resp = None →
  ∃ h1, cmdOf req ∈ h1 ∧ base ++ encode_all h1 `prefix_of` file (elWal el) ∧
    (mode = AckAfterFsync →
     (length (base ++ encode_all h1) <= Nat.max (synced (elWal el)) (length base))%nat).
Proof.
  intros Hr Hm Hlen Hin Hop He.
  destruct (served_acked _ _ _ _ _ _ _ _ _ _ Hr Hm Hlen Hin Hop He) as (h & h1 & Hw & _ & _ & ? & Hd).
  apply wal_reach_inv in Hw as [Hmode _]. exists h1. split; [done|]. rewrite <-Hmode. exact Hd.
Qed.

Lemma logged_good rs h :
  Forall good_request rs → Forall (logged_from rs) h → Forall good_write h.
Proof.
  intros Hrs Hh. eapply Forall_impl; [|exact Hh]. intros c (r & Hr & Hop & ->).
  by destruct (proj1 (list.Forall_forall _ _) Hrs r Hr).
Qed.

Lemma good_write_wf l : Forall good_write l → Forall wf_cmd l.
Proof. apply Forall_impl. intros c (_ & _ & ?). done. Qed.

(** C1: an acknowledged write survives a crash.  A server starts from a log that holds
    the writes [l0], replays it and serves requests with fsync acknowledgement.  If
    a write was acknowledged and the machine then crashes, at any later point and
    with any torn write at the end of the file, the store rebuilt by replay holds
    for that key the acknowledged version or a newer one. *)
Theorem acked_write_survives_crash l0 size n el rs sent req resp f :
  Forall good_write l0 → Forall good_request rs → len rs < 2 ^ 64 →
  served (encode_all l0) size AckAfterFsync (apply_all NewStore l0) n el rs sent →
  (req, resp) ∈ sent → rOp req ≠ OpGet → pErr resp = None →
  crash_file (encode_all l0) (elWal el) f →
  rVersion req <= mVersion (metaOf (ReplayWal Apply NewStore (Some f)).1 (rKey req)).
Proof.
  intros Hl0 Hrs Hlen Hr Hin Hop He Hf.
  destruct (served_acked _ _ _ _ _ _ _ _ _ _ Hr ltac:(done) Hlen Hin Hop He)
    as (h & h1 & Hw & Hlog & Hp & Hc & Hd).
  pose proof (logged_good _ _ Hrs Hlog) as Hh.
  assert (Hall : Forall good_write (l0 ++ h)) by (by apply Forall_app).
  destruct (crash_replay _ _ _ _ _ _ Hw (good_write_wf _ Hall) Hp Hd Hf)
    as (l1 & [t1 Ht1] & [t2 Ht2] & Hrep).
  assert (Hg : Forall good_write (l0 ++ l1)).
  { rewrite Ht2, !Forall_app in Hall. apply Forall_app. tauto. }
  rewrite Hrep; rewrite good_writes_apply by done; [|done]. simpl.
  apply (applied_version NewStore (l0 ++ l1) (cmdOf req)); [done|]. subst. set_solver.
Qed.

(** ** Witnesses *)

Definition ex_put : Request := mkRequest OpPut "b" [x42] 5 9 0.
Definition ex_get : Request := mkRequest OpGet "b" [] 5 0 1.

Definition ex_log : list Command := [mkCommand OpPut "a" [x41] 3 1].
Definition ex_file : list byte := encode_all ex_log.
Definition ex_store : Store := apply_all NewStore ex_log.

(** One write, one read before it is applied, a tick, the log's writer, the answer. *)
Definition ex_states : option (EventLoop * list (Request * Response)) :=
  let H := Wal_Log ex_file 64 in
  '(el1, o1) ← onRequest (NewLoop ex_store (NewWal ex_file 64 AckAfterFsync) 4) ex_put;
  '(el2, o2) ← onRequest el1 ex_get;
  el3 ← processBatch el2;
  w ← (match handleBatch (elWal el3) [] with Done w => Some w | _ => None end);
  '(el4, o3) ← respond (setWal el3 w);
  Some (el4, ((([] ++ o1) ++ o2) ++ o3)).

Definition ex_served : EventLoop * list (Request * Response) :=
  default (NewLoop NewStore (NewWal [] 0 AckAfterFsync) 0, []) ex_states.

Lemma ex_reach (el : EventLoop) out :
  ex_states = Some (el, out) →
  served ex_file 64 AckAfterFsync ex_store 4 el [ex_put; ex_get] out.
Proof.
  unfold ex_states, served. intros Hs.
  apply bind_Some in Hs as ([el1 o1] & H1 & Hs). apply bind_Some in Hs as ([el2 o2] & H2 & Hs).
  apply bind_Some in Hs as (el3 & H3 & Hs). apply bind_Some in Hs as (w & H4 & Hs).
  apply bind_Some in Hs as ([el4 o3] & H5 & Hs). injection Hs as <- <-.
  pose proof (er_init (H := Wal_Log ex_file 64)
                (NewLoop ex_store (NewWal ex_file 64 AckAfterFsync) 4)) as Hr.
  eapply er_request in Hr; [|done|exact H1]. eapply er_request in Hr; [| |exact H2].
  2:{ vm_compute in H1. by injection H1 as <- _. }
  eapply er_tick in Hr; [| |exact H3].
  2:{ vm_compute in H1. injection H1 as <- _. vm_compute in H2. by injection H2 as <- _. }
  eapply (er_log _ _ _ _ w) in Hr; [by eapply er_respond in Hr; [|exact H5]|].
  destruct (handleBatch (elWal el3) []) as [|?|w'] eqn:Eh; try done. injection H4 as ->.
  vm_compute in H1. injection H1 as <- _. vm_compute in H2. injection H2 as <- _.
  vm_compute in H3. injection H3 as <-. split; [done|]. left. split; [done|].
  exists []. exact Eh.
Qed.

Lemma ex_served_reach :
  served ex_file 64 AckAfterFsync ex_store 4 ex_served.1 [ex_put; ex_get] ex_served.2.
Proof. apply ex_reach. vm_compute. reflexivity. Qed.

Definition ex_ok : Response := mkResponse OpPut [] None 0.

Lemma ex_acked : (ex_put, ex_ok) ∈ ex_served.2.
Proof.
  apply (list_elem_of_lookup_2 _ 1%nat). vm_compute. reflexivity.
Qed.

Lemma store_is_replay_of_log_witness :
  ∃ h, wal_reach ex_file 64 AckAfterFsync (elWal ex_served.1) h ∧
       elStore ex_served.1 = apply_all ex_store h ∧ Forall (logged_from [ex_put; ex_get]) h.
Proof.
  exact (store_is_replay_of_log (H := Wal_Log ex_file 64) ex_store _ 4 ex_served.1
           [ex_put; ex_get] ex_served.2 (wr_init _ _ _) ex_served_reach).
Defined.

Lemma every_request_answered_once_witness :
  ex_served.2.*1 ++ pending ex_served.1 ≡ₚ [ex_put; ex_get] ∧
  (stopped ex_served.1 = true → ackCh ex_served.1 = [] → ex_served.2.*1 ≡ₚ [ex_put; ex_get]).
Proof.
  exact (every_request_answered_once (H := Wal_Log ex_file 64) ex_store _ 4 ex_served.1
           [ex_put; ex_get] ex_served.2 (wr_init _ _ _) ex_served_reach).
Defined.

Lemma batches_bounded_witness :
  (writeBatch ex_served.1 = [] ∨ len (writeBatch ex_served.1) < 4) ∧
  Forall (λ a, 0 < len (requests a) <= Z.max 1 4) (ackCh ex_served.1).
Proof.
  exact (batches_bounded (H := Wal_Log ex_file 64) ex_store _ 4 ex_served.1
           [ex_put; ex_get] ex_served.2 ex_served_reach).
Defined.

Lemma acked_write_on_disk_witness :
  ∃ h1, cmdOf ex_put ∈ h1 ∧ ex_file ++ encode_all h1 `prefix_of` file (elWal ex_served.1) ∧
    (AckAfterFsync = AckAfterFsync →
     (length (ex_file ++ encode_all h1)
      <= Nat.max (synced (elWal ex_served.1)) (length ex_file))%nat).
Proof.
  apply (acked_write_on_disk _ _ _ _ _ _ _ _ ex_put ex_ok ex_served_reach);
    [discriminate|reflexivity|apply ex_acked|discriminate|reflexivity].
Defined.

Lemma acked_write_survives_crash_witness :
  9 <= mVersion (metaOf (ReplayWal Apply NewStore (Some (file (elWal ex_served.1)))).1 "b").
Proof.
  apply (acked_write_survives_crash ex_log 64 4 ex_served.1 [ex_put; ex_get] ex_served.2 ex_put ex_ok).
  - apply (bool_decide_unpack (Forall good_write ex_log)). vm_compute. exact I.
  - apply (bool_decide_unpack (Forall good_request _)). vm_compute. exact I.
  - reflexivity.
  - apply ex_served_reach.
  - apply ex_acked.
  - discriminate.
  - reflexivity.
  - split; [done|]. apply Nat.leb_le. vm_compute. reflexivity.
Defined.
