(* ===== verification/Linearizable.v ===== *)
(** * A node behaves like one atomic map ([src/core/loop.go])

    The event loop answers reads at once from the store, collects writes into batches and answers them
    from another goroutine, after the log has them.  Its clients nevertheless see a single
    last-writer-wins map on which operations take effect one at a time: every answer has a point in one
    sequence of the writes, the points follow the order of the answers, and an operation that was
    received after another one had been answered takes effect after it. *)

From Stdlib Require Sorted.
From S2P Require Import Prelude Store StoreSpec WalCodec WalWriter EventLoop Durability.
From Stdlib.Strings Require Import Byte.

(** The answer of the abstract map to a read. *)
Definition readAnswer (a : gmap string cell) (req : Request) : Response :=
  match lww_get a (rKey req) with
  | inl (val, ver) => mkResponse (rOp req) val None ver
  | inr e => mkResponse (rOp req) [] (Some (KvErr e)) 0
  end.

(** A point in the history: the number of writes that have taken effect, and the number of requests
    that had been received. *)
Record Point := mkPoint { ptWrites : nat; ptReceived : nat }.

Definition isWrite (r : Request) : Prop := rOp r ≠ OpGet.
#[export] Instance isWrite_dec r : Decision (isWrite r).
Proof. unfold isWrite. apply _. Defined.

(** The writes among the first [n] requests. *)
Definition writesOf (rs : list Request) : list Command := cmdOf <$> filter isWrite rs.

(** An answer is the one of the map at its point: a read reports the map after the writes before the
    point, a write is one of them; the request and the writes before the point had all been received. *)
Record answered_at (s0 : Store) (h : list Command) (rs : list Request) (rp : Request * Response) (pt : Point) : Prop := {
  aa_point : (ptWrites pt <= length h)%nat ∧ (ptReceived pt <= length rs)%nat;
  aa_request : rp.1 ∈ take (ptReceived pt) rs;
  aa_received : take (ptWrites pt) h ⊆+ writesOf (take (ptReceived pt) rs);
  aa_answer : if decide (isWrite rp.1) then cmdOf rp.1 ∈ take (ptWrites pt) h
              else rp.2 = readAnswer (foldl lww_apply (abs s0) (take (ptWrites pt) h)) rp.1
}.

Definition pt_le (p q : Point) : Prop := (ptWrites p <= ptWrites q)%nat ∧ (ptReceived p <= ptReceived q)%nat.

(** [h] is an order of the writes that explains all answers. *)
Record linearizes (s0 : Store) (h : list Command) (rs : list Request) (sent : list (Request * Response)) (pts : list Point)
    : Prop := {
  ln_answers : Forall2 (answered_at s0 h rs) sent pts;
  ln_order : Sorted.StronglySorted pt_le pts
}.

Lemma writesOf_app rs rs' : writesOf (rs ++ rs') = writesOf rs ++ writesOf rs'.
Proof. unfold writesOf. by rewrite list.filter_app, fmap_app. Qed.

Lemma writesOf_write req : isWrite req → writesOf [req] = [cmdOf req].
Proof. intros. unfold writesOf. by rewrite list.filter_cons_True. Qed.

Lemma writesOf_read req : ¬ isWrite req → writesOf [req] = [].
Proof. intros. unfold writesOf. by rewrite list.filter_cons_False. Qed.

(** More writes and requests keep earlier points. *)
Lemma answered_at_grows s0 h h' rs rs' rp pt :
  answered_at s0 h rs rp pt → answered_at s0 (h ++ h') (rs ++ rs') rp pt.
Proof.
  intros [[Hw Hr] Hq Hrec Ha]. split; rewrite ?length_app, ?take_app_le by done; [lia|done..].
Qed.

Lemma linearizes_grows s0 h h' rs rs' sent pts :
  linearizes s0 h rs sent pts → linearizes s0 (h ++ h') (rs ++ rs') sent pts.
Proof. intros [Ha Ho]. split; [|done]. eapply list.Forall2_impl; [exact Ha|]. intros rp pt. apply answered_at_grows. Qed.

Lemma sorted_snoc_max pts p n :
  Sorted.StronglySorted pt_le pts → Forall (λ q, pt_le q p) pts → Sorted.StronglySorted pt_le (pts ++ replicate n p).
Proof.
  intros Ho Hle. induction Ho as [|q pts Ho IH Hall]; cbn.
  - induction n as [|n IH]; constructor; [done|]. apply Forall_replicate. done.
  - apply Forall_cons_iff in Hle as [Hq Hle]. constructor; [by apply IH|].
    apply Forall_app_2; [done|]. by apply Forall_replicate.
Qed.

(** Answers given now have the current point. *)
Lemma linearizes_now s0 h rs sent pts out :
  linearizes s0 h rs sent pts → h ⊆+ writesOf rs →
  Forall (λ rp, rp.1 ∈ rs ∧ if decide (isWrite rp.1) then cmdOf rp.1 ∈ h
                            else rp.2 = readAnswer (foldl lww_apply (abs s0) h) rp.1) out →
  linearizes s0 h rs (sent ++ out) (pts ++ replicate (length out) (mkPoint (length h) (length rs))).
Proof.
  intros [Ha Ho] Hrec Hout. split.
  - apply Forall2_app; [done|]. apply Forall2_replicate_r; [done|]. eapply Forall_impl; [|exact Hout]. intros rp [Hin Hrp].
    split; cbn; rewrite ?firstn_all; [lia|done..].
  - apply sorted_snoc_max; [done|]. apply Forall_lookup. intros i pt Hi.
    destruct (Forall2_lookup_r _ _ _ _ _ Ha Hi) as (rp & _ & [Hp _ _ _]). exact Hp.
Qed.

Section linearizable.
Context {W : Type} `{Log W}.

Record lin_inv (s0 : Store) (el : @EventLoop W) (h : list Command) (rs : list Request) (sent : list (Request * Response))
    (pts : list Point) : Prop := {
  li_store : elStore el = apply_all s0 h;
  li_writes : h ++ (cmdOf <$> writeBatch el) ≡ₚ writesOf rs;
  li_acks : Forall (λ a, Forall (λ r, isWrite r ∧ r ∈ rs ∧ cmdOf r ∈ h) (requests a)) (ackCh el);
  li_batch : Forall (λ r, isWrite r ∧ r ∈ rs) (writeBatch el);
  li_lin : linearizes s0 h rs sent pts
}.

Lemma acks_grow h h' rs rs' (acks : list pendingAck) :
  Forall (λ a, Forall (λ r, isWrite r ∧ r ∈ rs ∧ cmdOf r ∈ h) (requests a)) acks →
  Forall (λ a, Forall (λ r, isWrite r ∧ r ∈ rs ++ rs' ∧ cmdOf r ∈ h ++ h') (requests a)) acks.
Proof. intros Ha. eapply Forall_impl; [|exact Ha]. intros a Hr. eapply Forall_impl; [|exact Hr]. set_solver. Qed.

Lemma batch_grows rs rs' (b : list Request) :
  Forall (λ r, isWrite r ∧ r ∈ rs) b → Forall (λ r, isWrite r ∧ r ∈ rs ++ rs') b.
Proof. intros Hb. eapply Forall_impl; [|exact Hb]. set_solver. Qed.

Lemma h_received h (b : list Command) ws : h ++ b ≡ₚ ws → h ⊆+ ws.
Proof. intros <-. by apply submseteq_inserts_r. Qed.

Lemma processBatch_lin s0 el h rs sent pts el' :
  lin_inv s0 el h rs sent pts → processBatch el = Some el' → ∃ h', lin_inv s0 el' h' rs sent pts.
Proof.
  intros [Hs Hw Ha Hb Hl] Hp. unfold processBatch in Hp.
  destruct (writeBatch el) as [|r b] eqn:Eb; [simplify_eq; exists h; split; by rewrite ?Eb|].
  rewrite <-Eb in *. destruct (log_append _ _) as [[w' id]|]; [|done]. simpl in Hp.
  destruct (_ <? _); [|done]. injection Hp as <-. exists (h ++ (cmdOf <$> writeBatch el)). split; cbn.
  - by rewrite apply_all_app, Hs.
  - by rewrite app_nil_r.
  - apply Forall_app_2.
    + pose proof (acks_grow h (cmdOf <$> writeBatch el) rs [] _ Ha) as Ha'. by rewrite app_nil_r in Ha'.
    + apply Forall_singleton. cbn. apply list.Forall_forall. intros q Hq.
      destruct (proj1 (list.Forall_forall _ _) Hb q Hq). split_and!; [done..|]. apply elem_of_app. right.
      by apply list_elem_of_fmap_2.
  - constructor.
  - pose proof (linearizes_grows _ _ (cmdOf <$> writeBatch el) _ [] _ _ Hl) as Hl'. by rewrite app_nil_r in Hl'.
Qed.

(** A read is answered from the store, which is the map after all writes applied so far. *)
Lemma getResponse_abs s0 h req :
  data_ok s0 → getResponse (apply_all s0 h) req = readAnswer (foldl lww_apply (abs s0) h) req.
Proof.
  intros Hd. unfold getResponse, readAnswer. rewrite GetWithVersion_abs by by apply apply_all_data_ok.
  by rewrite apply_all_abs.
Qed.

Lemma read_lin s0 el h rs sent pts req :
  data_ok s0 → ¬ isWrite req → lin_inv s0 el h rs sent pts →
  ∃ pts', lin_inv s0 el h (rs ++ [req]) (sent ++ [(req, getResponse (elStore el) req)]) pts'.
Proof.
  intros Hd Hr [Hs Hw Ha Hb Hl].
  assert (Hw' : h ++ (cmdOf <$> writeBatch el) ≡ₚ writesOf (rs ++ [req]))
    by (by rewrite writesOf_app, (writesOf_read req), app_nil_r).
  eexists. split; [done|done| |by apply batch_grows|].
  - pose proof (acks_grow h [] rs [req] _ Ha) as Ha'. by rewrite app_nil_r in Ha'.
  - apply linearizes_now; [|by eapply h_received|].
    + pose proof (linearizes_grows _ _ [] _ [req] _ _ Hl) as Hl'. by rewrite app_nil_r in Hl'.
    + apply Forall_singleton. cbn. split; [set_solver|]. rewrite decide_False by done. by rewrite Hs, getResponse_abs.
Qed.

Lemma enqueued_lin s0 el h rs sent pts req w' e :
  isWrite req → lin_inv s0 el h rs sent pts →
  ∃ pts', lin_inv s0 (mkLoop (Apply (elStore el) (cmdOf req)).1 w' (BatchSize el) (writeBatch el) (ackCh el) (stopped el))
    (h ++ [cmdOf req]) (rs ++ [req]) (sent ++ [(req, mkResponse (rOp req) [] e 0)]) pts'.
Proof.
  intros Hr [Hs Hw Ha Hb Hl].
  assert (Hw' : (h ++ [cmdOf req]) ++ (cmdOf <$> writeBatch el) ≡ₚ writesOf (rs ++ [req])).
  { rewrite writesOf_app, (writesOf_write req), <-Hw by done. solve_Permutation. }
  eexists. split; cbn; [|done|by apply acks_grow|by apply batch_grows|].
  - by rewrite apply_all_app, Hs.
  - apply linearizes_now; [by apply linearizes_grows|by eapply h_received|].
    apply Forall_singleton. cbn. split; [set_solver|]. rewrite decide_True by done. set_solver.
Qed.

Lemma batched_lin s0 el h rs sent pts req :
  isWrite req → lin_inv s0 el h rs sent pts →
  lin_inv s0 (mkLoop (elStore el) (elWal el) (BatchSize el) (writeBatch el ++ [req]) (ackCh el) (stopped el))
    h (rs ++ [req]) sent pts.
Proof.
  intros Hr [Hs Hw Ha Hb Hl]. split; cbn; [done| | | |].
  - rewrite fmap_app, writesOf_app, (writesOf_write req), <-Hw by done. cbn. solve_Permutation.
  - pose proof (acks_grow h [] rs [req] _ Ha) as Ha'. by rewrite app_nil_r in Ha'.
  - apply Forall_app_2; [by apply batch_grows|]. apply Forall_singleton. set_solver.
  - pose proof (linearizes_grows _ _ [] _ [req] _ _ Hl) as Hl'. by rewrite app_nil_r in Hl'.
Qed.

Lemma onRequest_lin s0 el h rs sent pts req el' out :
  data_ok s0 → lin_inv s0 el h rs sent pts → onRequest el req = Some (el', out) →
  ∃ h' pts', lin_inv s0 el' h' (rs ++ [req]) (sent ++ out) pts'.
Proof.
  intros Hd Hi Hr. unfold onRequest in Hr. destruct (rOp req =? OpGet) eqn:Eop; bool_to_prop.
  { simplify_eq. exists h. eapply read_lin; [done|unfold isWrite; tauto|done]. }
  destruct (decide _).
  - destruct (log_append _ _) as [[w' id]|]; [|done]. simpl in Hr.
    destruct (Apply (elStore el) (cmdOf req)) as [st err] eqn:EA. simplify_eq.
    exists (h ++ [cmdOf req]). replace st with (Apply (elStore el) (cmdOf req)).1 by by rewrite EA.
    by eapply enqueued_lin.
  - pose proof (batched_lin _ _ _ _ _ _ req Eop Hi) as Hi'. destruct (_ <=? _); [|simplify_eq; rewrite app_nil_r; eauto].
    destruct (processBatch _) as [el2|] eqn:Ep; [|done]. simplify_eq/=. rewrite app_nil_r.
    destruct (processBatch_lin _ _ _ _ _ _ _ Hi' Ep) as [h' ?]. eauto.
Qed.

Lemma respond_lin s0 el h rs sent pts el' out :
  lin_inv s0 el h rs sent pts → respond el = Some (el', out) → ∃ pts', lin_inv s0 el' h rs (sent ++ out) pts'.
Proof.
  intros [Hs Hw Ha Hb Hl] Hr. unfold respond in Hr. destruct (ackCh el) as [|a rest]; [done|].
  destruct (log_wait _ _) as [e|]; [|done]. simplify_eq/=. apply Forall_cons_iff in Ha as [Ha Hrest].
  eexists. split; cbn; [done..|]. apply linearizes_now; [done|by eapply h_received|].
  apply Forall_fmap. eapply Forall_impl; [|exact Ha]. cbn. intros r (Hr & Hin & Hh). split; [done|].
  by rewrite decide_True.
Qed.

Lemma el_reach_lin s0 w0 n el rs sent :
  data_ok s0 → el_reach (NewLoop s0 w0 n) el rs sent → ∃ h pts, lin_inv s0 el h rs sent pts.
Proof.
  intros Hd. induction 1 as [|el rs sent req el' out _ (h & pts & Hi) _ Hr|el rs sent el' _ (h & pts & Hi) _ Hp
    |el rs sent el' _ (h & pts & Hi) _ Hc|el rs sent el' out _ (h & pts & Hi) Hr|el rs sent w' _ (h & pts & Hi) _].
  - exists [], []. by repeat constructor.
  - by eapply onRequest_lin.
  - destruct (processBatch_lin _ _ _ _ _ _ _ Hi Hp) as [h' ?]. eauto.
  - unfold onClose in Hc. destruct (processBatch el) as [el1|] eqn:Hp; [|done]. simplify_eq/=.
    destruct (processBatch_lin _ _ _ _ _ _ _ Hi Hp) as [h' []]. exists h', pts. by split.
  - destruct (respond_lin _ _ _ _ _ _ _ _ Hi Hr) as [pts' ?]. eauto.
  - exists h, pts. by destruct Hi; split.
Qed.

End linearizable.

