(* ===== verification/Server.v ===== *)
(** * The RPC server ([src/core/rpc.go])

    Handlers translate RPCs into requests for the event loop.  A handler is a function
    of the node's state; what the environment decides (the clock, whether the
    caller's context ends while the request is in the loop, whether the disk fails,
    what replication reports) is an argument. *)

From S2P Require Import Prelude Store StoreSpec WalCodec WalWriter EventLoop.
From Stdlib.Strings Require Import Byte.

(** ** Protocol messages *)

Inductive pbOp := Op_PUT | Op_GET | Op_DELETE | Op_other (n : Z).

Record ReplicationRequest := mkRepl {
  reOp : pbOp;
  reKey : string;
  reValue : list byte;
  reVnodeId : Z;      (* uint32 *)
  reVersion : Z
}.

Inductive Code := FailedPrecondition | Internal | NotFound | InvalidArgument.

(** ** The [Replicator] interface *)

Class Replicator := {
  (** [None] is success. *)
  ReplicateToAll : pbOp → string → list byte → Z → Z → option string;
  CheckOwnership : string → bool * bool * string;
  GetVNodeForKey : string → Z
}.

Record Server := mkServer {
  srvStore : Store;
  versionCounter : Z
}.

(** What happens to one request between the handler and the event loop. *)
Inductive Delivery :=
  | Served (diskErr : bool)
  | CancelledBefore          (* the context ended before the loop received it *)
  | CancelledAfter.          (* ... after the loop received it *)

Record Env := mkEnv {
  now : Z;                   (* [uint64(time.Now().UnixNano())] *)
  delivery : Delivery;
  mode : AckMode
}.

(** What the event loop does with a request and answers ([onRequest], [respond]). *)
Definition loopAnswer (m : AckMode) (diskErr : bool) (s : Store) (req : Request) : Store * Response :=
  if rOp req =? OpGet then (s, getResponse s req)
  else
    let '(s', e) := Apply s (cmdOf req) in
    (s', mkResponse (rOp req) []
           (if decide (m = AckAfterEnqueue) then KvErr <$> e
            else if diskErr then Some DiskErr else None) 0).

Definition ctxResponse : Response := mkResponse 0 [] (Some CtxDone) 0.

Definition sendRequest (e : Env) (srv : Server) (req : Request) : Server * Response :=
  match delivery e with
  | CancelledBefore => (srv, ctxResponse)
  | Served diskErr =>
      let '(s', resp) := loopAnswer (mode e) diskErr (srvStore srv) req in
      (mkServer s' (versionCounter srv), resp)
  | CancelledAfter =>
      let '(s', _) := loopAnswer (mode e) false (srvStore srv) req in
      (mkServer s' (versionCounter srv), ctxResponse)
  end.

(** ** [NextVersion] *)

(** The candidate computed from a loaded counter and the clock. *)
Definition candidate (cur clock : Z) : Z :=
  if clock <=? cur then cur +u64 1 else clock.

(** Without contention the first compare-and-swap succeeds. *)
Definition NextVersion (clock : Z) (srv : Server) : Server * Z :=
  let cand := candidate (versionCounter srv) clock in
  (mkServer (srvStore srv) cand, cand).

(** ** Handlers *)

Section handlers.
Context `{Replicator}.

Definition Reply A : Type := A + Code.

(** [Put]: the reply and the replication calls made. *)
Definition Put (e : Env) (srv : Server) (key : string) (value : list byte)
    : Server * Reply unit * list ReplicationRequest :=
  let '(isOwner, _, _) := CheckOwnership key in
  if negb isOwner then (srv, inr FailedPrecondition, [])
  else
    let vnodeID := GetVNodeForKey key in
    let '(srv, version) := NextVersion (now e) srv in
    let '(srv, resp) := sendRequest e srv (mkRequest OpPut key value vnodeID version 0) in
    match pErr resp with
    | Some _ => (srv, inr Internal, [])
    | None =>
        let call := mkRepl Op_PUT key value vnodeID version in
        match ReplicateToAll Op_PUT key value vnodeID version with
        | Some _ => (srv, inr Internal, [call])
        | None => (srv, inl tt, [call])
        end
    end.

Definition Delete (e : Env) (srv : Server) (key : string)
    : Server * Reply unit * list ReplicationRequest :=
  let '(isOwner, _, _) := CheckOwnership key in
  if negb isOwner then (srv, inr FailedPrecondition, [])
  else
    let vnodeID := GetVNodeForKey key in
    let '(srv, version) := NextVersion (now e) srv in
    let '(srv, resp) := sendRequest e srv (mkRequest OpDelete key [] vnodeID version 0) in
    match pErr resp with
    | Some _ => (srv, inr Internal, [])
    | None =>
        let call := mkRepl Op_DELETE key [] vnodeID version in
        match ReplicateToAll Op_DELETE key [] vnodeID version with
        | Some _ => (srv, inr Internal, [call])
        | None => (srv, inl tt, [call])
        end
    end.

Definition Get (e : Env) (srv : Server) (key : string) (minVersion : Z)
    : Server * Reply (list byte * Z) :=
  let '(srv, resp) := sendRequest e srv (mkRequest OpGet key [] 0 0 0) in
  match pErr resp with
  | Some (KvErr ErrKeyNotFound) => (srv, inr NotFound)
  | Some _ => (srv, inr Internal)
  | None =>
      if (0 <? minVersion) && (pVersion resp <? minVersion) then (srv, inr FailedPrecondition)
      else (srv, inl (pValue resp, pVersion resp))
  end.

Definition Replicate (e : Env) (srv : Server) (req : ReplicationRequest) : Server * Reply unit :=
  match (match reOp req with Op_PUT => Some OpPut | Op_DELETE => Some OpDelete | _ => None end) with
  | None => (srv, inr InvalidArgument)
  | Some op =>
      let vnode := if reVnodeId req =? 0 then GetVNodeForKey (reKey req) else u16 (reVnodeId req) in
      let '(srv, version) :=
        if reVersion req =? 0 then NextVersion (now e) srv else (srv, reVersion req) in
      let '(srv, resp) := sendRequest e srv (mkRequest op (reKey req) (reValue req) vnode version 0) in
      match pErr resp with
      | Some _ => (srv, inr Internal)
      | None => (srv, inl tt)
      end
  end.

(** ** Replication batches *)

Definition itemOp (op : pbOp) : OpType :=
  match op with Op_PUT => OpPut | Op_DELETE => OpDelete | _ => OpGet end.

Definition itemRequest (i : nat) (it : ReplicationRequest) : Request :=
  mkRequest (itemOp (reOp it)) (reKey it) (reValue it) (u16 (reVnodeId it)) (reVersion it) i.

(** The first loop sends the pending requests before any response is awaited. *)
Fixpoint sendAll (m : AckMode) (diskErr : bool) (s : Store) (reqs : list Request)
    : Store * list Response :=
  match reqs with
  | [] => (s, [])
  | r :: reqs =>
      let '(s, resp) := loopAnswer m diskErr s r in
      let '(s, resps) := sendAll m diskErr s reqs in
      (s, resp :: resps)
  end.

(** The second loop returns the first error. *)
Fixpoint firstErr (resps : list Response) : option RespErr :=
  match resps with
  | [] => None
  | r :: resps => match pErr r with Some e => Some e | None => firstErr resps end
  end.

Definition pendingReqs (items : list (option ReplicationRequest)) : list Request :=
  imap itemRequest (omap id items).

(** [selects]: how many of the two loops' [select] statements complete before the
    context ends (all of them when it never does). *)
Definition applyReplicationBatch (e : Env) (selects : nat) (srv : Server)
    (req : option (list (option ReplicationRequest))) : Server * option RespErr :=
  match req with
  | None | Some [] => (srv, None)
  | Some items =>
      let pending := pendingReqs items in
      let n := length pending in
      let diskErr := match delivery e with Served d => d | _ => false end in
      let '(s, resps) := sendAll (mode e) diskErr (srvStore srv) (take selects pending) in
      (mkServer s (versionCounter srv),
       if (selects <? n)%nat then Some CtxDone
       else match firstErr (take (selects - n) resps) with
            | Some err => Some err
            | None => if (selects - n <? n)%nat then Some CtxDone else None
            end)
  end.

Definition ReplicateBatch (e : Env) (selects : nat) (srv : Server)
    (req : option (list (option ReplicationRequest))) : Server * Reply unit :=
  let '(srv, err) := applyReplicationBatch e selects srv req in
  (srv, match err with Some _ => inr Internal | None => inl tt end).

Record BatchAck := mkBatchAck { Applied : Z; AckError : bool }.

(** [ReplicateStream] on the batches received before the end of the stream: one
    acknowledgement per batch, up to and including the first that fails. *)
Fixpoint ReplicateStream (e : Env) (srv : Server)
    (batches : list (option (list (option ReplicationRequest)))) : Server * list BatchAck * Reply unit :=
  match batches with
  | [] => (srv, [], inl tt)
  | b :: batches =>
      let applied := match b with Some items => u32 (len items) | None => 0 end in
      let selects := match b with Some items => (2 * length items)%nat | None => 0%nat end in
      let '(srv, err) := applyReplicationBatch e selects srv b in
      match err with
      | Some _ => (srv, [mkBatchAck applied true], inr Internal)
      | None =>
          let '(srv, acks, r) := ReplicateStream e srv batches in
          (srv, mkBatchAck applied false :: acks, r)
      end
  end.

(** [StreamKV]: one element of the client's stream. *)
Definition streamOp (op : pbOp) : OpType :=
  match op with Op_PUT => OpPut | Op_GET => OpGet | _ => OpDelete end.

Definition streamItem (e : Env) (srv : Server) (op : pbOp) (key : string) (value : list byte)
    : Server * Response :=
  let coreOp := streamOp op in
  let vnodeID := GetVNodeForKey key in
  let '(srv, version) :=
    if (coreOp =? OpPut) || (coreOp =? OpDelete) then NextVersion (now e) srv else (srv, 0) in
  let '(s, resp) := loopAnswer (mode e) (match delivery e with Served d => d | _ => false end)
                      (srvStore srv) (mkRequest coreOp key value vnodeID version 0) in
  (mkServer s (versionCounter srv), resp).
End handlers.
