(* ===== verification/ServerProofs.v ===== *)
(** * Properties of the RPC server ([src/core/rpc.go])

    Unique versions under concurrent callers of [NextVersion], the behaviour of each
    handler on every branch, and what a replication request does on a replica. *)

From S2P Require Import Prelude Store StoreSpec WalCodec WalWriter EventLoop Server.
From Stdlib Require Import Sorted.
From Stdlib.Strings Require Import Byte.

(** ** Concurrent callers of [NextVersion]

    The loop loads the counter, reads the clock and tries a compare-and-swap;
    [loaded] holds the goroutines between load and swap, [issued] the versions
    returned, in the order of the successful swaps. *)

Record Counter := mkCounter {
  cur : Z;
  loaded : gmap nat (Z * Z);
  issued : list Z
}.

Inductive next_step : Counter → Counter → Prop :=
  | ns_load c t clock :
      is_u64 clock → loaded c !! t = None →
      next_step c (mkCounter (cur c) (<[t := (cur c, candidate (cur c) clock)]> (loaded c)) (issued c))
  | ns_swap c t old cand :
      loaded c !! t = Some (old, cand) → cur c = old →
      next_step c (mkCounter cand (delete t (loaded c)) (issued c ++ [cand]))
  | ns_retry c t old cand :
      loaded c !! t = Some (old, cand) → cur c ≠ old →
      next_step c (mkCounter (cur c) (delete t (loaded c)) (issued c)).

Record counter_inv (c0 : Z) (c : Counter) : Prop := {
  ci_range : is_u64 (cur c);
  ci_loaded : map_Forall (λ _ p, is_u64 p.1 ∧ is_u64 p.2 ∧ (p.1 < p.2 ∨ p.1 = MaxUint64)) (loaded c);
  ci_last : cur c = List.last (issued c) c0;
  ci_sorted : MaxUint64 ∉ c0 :: issued c →
              StronglySorted Z.lt (c0 :: issued c) ∧ Forall (λ v, v <= cur c) (c0 :: issued c)
}.

Lemma candidate_range old clock :
  is_u64 old → is_u64 clock →
  is_u64 (candidate old clock) ∧ (old < candidate old clock ∨ old = MaxUint64).
Proof.
  unfold candidate, is_u64, MaxUint64. intros Ho Hc. case_match; bool_to_prop; [|lia].
  destruct (decide (old = 2 ^ 64 - 1)) as [->|]; [split; [exact (u64_range _)|by right]|].
  rewrite u64_id by (unfold is_u64; lia). lia.
Qed.

Lemma StronglySorted_snoc l x :
  StronglySorted Z.lt l → Forall (λ v, v < x) l → StronglySorted Z.lt (l ++ [x]).
Proof.
  induction 1 as [|y l Hs IH Hy]; intros Hx; simpl; [repeat constructor|].
  apply Forall_cons_iff in Hx as [Hyx Hx]. constructor; [auto|].
  apply Forall_app_2; [done|]. by apply Forall_singleton.
Qed.

Lemma next_step_inv c0 c c' : counter_inv c0 c → next_step c c' → counter_inv c0 c'.
Proof.
  intros [Hr Hl Hlast Hs] Hst.
  destruct Hst as [c t clock Hclk Ht|c t old cand Ht Heq|c t old cand Ht Hne]; simpl.
  - split; simpl; try done. apply map_Forall_insert_2; [|done]. simpl.
    destruct (candidate_range (cur c) clock Hr Hclk). done.
  - destruct (Hl _ _ Ht) as (Ho & Hc & Hlt). simpl in *. split; simpl; try done.
    + by apply map_Forall_delete.
    + by rewrite List.last_last.
    + intros Hmax. assert (Hmax' : MaxUint64 ∉ c0 :: issued c) by set_solver.
      destruct (Hs Hmax') as [Hsort Hle].
      assert (Hcur : cur c ∈ c0 :: issued c).
      { rewrite Hlast. destruct (issued c) as [|x l] using rev_ind; [set_solver|].
        rewrite List.last_last. set_solver. }
      assert (old < cand) by (destruct Hlt as [?|Heq2]; [done|]; exfalso; apply Hmax'; rewrite <-Heq2, <-Heq; exact Hcur).
      assert (Hlt' : Forall (λ v, v < cand) (c0 :: issued c)).
      { eapply Forall_impl; [|exact Hle]. simpl. intros. lia. }
      split; [by apply (StronglySorted_snoc (c0 :: issued c))|].
      rewrite app_comm_cons. apply Forall_app_2; [|by apply Forall_singleton].
      eapply Forall_impl; [|exact Hlt']. simpl. intros. lia.
  - split; simpl; try done. by apply map_Forall_delete.
Qed.

(** Versions are unique and increasing under any number of concurrent callers and
    any behaviour of the clock: the sequence of versions handed out is strictly
    increasing and above the initial counter, as long as 2^64-1 was never issued. *)
Theorem versions_strictly_increase c0 c :
  is_u64 c0 → rtc next_step (mkCounter c0 ∅ []) c → MaxUint64 ∉ c0 :: issued c →
  StronglySorted Z.lt (c0 :: issued c).
Proof.
  intros Hc0 Hr Hmax.
  assert (counter_inv c0 c) as [_ _ _ Hs]; [|by apply Hs].
  assert (Hi : counter_inv c0 (mkCounter c0 ∅ [])).
  { split; simpl; try done. intros _. split; [repeat constructor|by apply Forall_singleton]. }
  clear Hmax. induction Hr as [|x y z Hxy _ IH]; [done|]. apply IH. by eapply next_step_inv.
Qed.

Definition ex_clock : Z := 1700000000000000000.

Lemma versions_strictly_increase_witness :
  StronglySorted Z.lt [5; ex_clock; ex_clock + 1].
Proof.
  apply (versions_strictly_increase 5 (mkCounter (ex_clock + 1) ∅ [ex_clock; ex_clock + 1])).
  - done.
  - eapply rtc_l; [apply (ns_load _ 0%nat ex_clock); done|]. cbn.
    eapply rtc_l; [apply (ns_load _ 1%nat ex_clock); done|].
    eapply rtc_l; [apply (ns_swap _ 1%nat 5 ex_clock); reflexivity|].
    eapply rtc_l; [eapply (ns_retry _ 0%nat 5 ex_clock); [reflexivity|discriminate]|].
    eapply rtc_l; [apply (ns_load _ 0%nat 7); [done|reflexivity]|].
    eapply rtc_l; [apply (ns_swap _ 0%nat ex_clock (ex_clock + 1)); reflexivity|].
    apply rtc_refl.
  - apply (bool_decide_unpack (MaxUint64 ∉ [5; ex_clock; ex_clock + 1])). vm_compute. exact I.
Defined.

(** ** Handlers *)

Section handlers.
Context `{Replicator}.

Definition owns (key : string) : bool := (CheckOwnership key).1.1.

(** [Apply] never refuses the two write operations. *)
Lemma Apply_no_error s c : Op c = OpPut ∨ Op c = OpDelete → (Apply s c).2 = None.
Proof.
  intros Ho. rewrite Apply_eq. unfold applySwitch. destruct Ho as [Ho|Ho]; simpl; rewrite Ho.
  all: by case_match.
Qed.

Lemma loopAnswer_write m d s req :
  rOp req = OpPut ∨ rOp req = OpDelete →
  ∃ resp, loopAnswer m d s req = ((Apply s (cmdOf req)).1, resp) ∧
          (d = false → pErr resp = None).
Proof.
  intros Ho. unfold loopAnswer. pose proof (Apply_no_error s (cmdOf req) Ho) as Hn.
  destruct (rOp req =? OpGet) eqn:E; bool_to_prop; [by destruct Ho as [Ho|Ho]; rewrite Ho in E|].
  destruct (Apply s (cmdOf req)) as [s' e]. simpl in Hn. subst e.
  eexists. split; [done|]. simpl. intros ->. by case_decide.
Qed.

(** What [sendRequest] can do with a write. *)
Lemma sendRequest_write e srv req srv' resp :
  rOp req = OpPut ∨ rOp req = OpDelete →
  sendRequest e srv req = (srv', resp) →
  versionCounter srv' = versionCounter srv ∧
  (srvStore srv' = (Apply (srvStore srv) (cmdOf req)).1 ∨
   srvStore srv' = srvStore srv ∧ pErr resp ≠ None).
Proof.
  intros Ho. unfold sendRequest.
  destruct (loopAnswer_write (mode e) (match delivery e with Served d => d | _ => false end)
              (srvStore srv) req Ho) as (r & Hr & _).
  destruct (delivery e); rewrite ?Hr; intros [= <- <-]; simpl; auto.
Qed.

(** Every outcome of [Put].  A node that does not own the key refuses and changes
    nothing.  An owner draws one fresh version; then either the request failed
    before acknowledgement (nothing is replicated, and the write is applied or not),
    or the write is applied locally and replicated exactly once, with the key's
    vnode and the same version, and the caller sees success exactly when
    replication succeeded. *)
Theorem put_outcomes e srv key value srv' r calls :
  Put e srv key value = (srv', r, calls) →
  let ver := candidate (versionCounter srv) (now e) in
  let vn := GetVNodeForKey key in
  let applied := (Apply (srvStore srv) (mkCommand OpPut key value vn ver)).1 in
  (owns key = false ∧ srv' = srv ∧ r = inr FailedPrecondition ∧ calls = []) ∨
  (owns key = true ∧ versionCounter srv' = ver ∧
    ((calls = [] ∧ r = inr Internal ∧ (srvStore srv' = srvStore srv ∨ srvStore srv' = applied)) ∨
     (calls = [mkRepl Op_PUT key value vn ver] ∧ srvStore srv' = applied ∧
      r = match ReplicateToAll Op_PUT key value vn ver with
          | None => inl tt | Some _ => inr Internal end))).
Proof.
  unfold Put, owns. intros Hp. destruct (CheckOwnership key) as [[isOwner rep] owner]. simpl.
  destruct isOwner; simpl in Hp; [|simplify_eq; auto]. right. split; [done|].
  destruct (sendRequest _ _ _) as [srv1 resp] eqn:Es.
  apply sendRequest_write in Es as [Hv Hs]; [|by left]. simpl in Hv, Hs.
  destruct (pErr resp) eqn:Ee; [|destruct Hs as [Hs|[_ ?]]; [|done]].
  - simplify_eq. split; [done|]. left. split_and!; try done. tauto.
  - destruct (ReplicateToAll _ _ _ _ _); simplify_eq; (split; [done|]); by right.
Qed.

Lemma Put_ok e srv key value srv' call :
  Put e srv key value = (srv', inl tt, [call]) →
  ∃ ver, call = mkRepl Op_PUT key value (GetVNodeForKey key) ver ∧
    srvStore srv' = (Apply (srvStore srv) (mkCommand OpPut key value (GetVNodeForKey key) ver)).1.
Proof.
  unfold Put. intros Hp. destruct (CheckOwnership key) as [[[] rep] owner]; simpl in Hp; [|done].
  destruct (sendRequest _ _ _) as [srv1 resp] eqn:Es.
  apply sendRequest_write in Es as [_ Hs]; [|by left].
  destruct (pErr resp); [done|]. destruct Hs as [Hs|[_ ?]]; [|done].
  destruct (ReplicateToAll _ _ _ _ _); simplify_eq. eauto.
Qed.

(** Every outcome of [Delete], as for [Put]. *)
Theorem delete_outcomes e srv key srv' r calls :
  Delete e srv key = (srv', r, calls) →
  let ver := candidate (versionCounter srv) (now e) in
  let vn := GetVNodeForKey key in
  let applied := (Apply (srvStore srv) (mkCommand OpDelete key [] vn ver)).1 in
  (owns key = false ∧ srv' = srv ∧ r = inr FailedPrecondition ∧ calls = []) ∨
  (owns key = true ∧ versionCounter srv' = ver ∧
    ((calls = [] ∧ r = inr Internal ∧ (srvStore srv' = srvStore srv ∨ srvStore srv' = applied)) ∨
     (calls = [mkRepl Op_DELETE key [] vn ver] ∧ srvStore srv' = applied ∧
      r = match ReplicateToAll Op_DELETE key [] vn ver with
          | None => inl tt | Some _ => inr Internal end))).
Proof.
  unfold Delete, owns. intros Hp. destruct (CheckOwnership key) as [[isOwner rep] owner]. simpl.
  destruct isOwner; simpl in Hp; [|simplify_eq; auto]. right. split; [done|].
  destruct (sendRequest _ _ _) as [srv1 resp] eqn:Es.
  apply sendRequest_write in Es as [Hv Hs]; [|by right]. simpl in Hv, Hs.
  destruct (pErr resp) eqn:Ee; [|destruct Hs as [Hs|[_ ?]]; [|done]].
  - simplify_eq. split; [done|]. left. split_and!; try done. tauto.
  - destruct (ReplicateToAll _ _ _ _ _); simplify_eq; (split; [done|]); by right.
Qed.

(** [Get] serves the last-writer-wins map and honours the version bound: it never
    changes the node, an answer is the map's current cell and at least as new as the
    requested minimum, [NotFound] means the map has no live value for the key, and a
    stale node answers [FailedPrecondition] instead of an old value. *)
Theorem get_serves_lww e srv key minVersion :
  data_ok (srvStore srv) →
  (Get e srv key minVersion).1 = srv ∧
  match (Get e srv key minVersion).2 with
  | inl (val, ver) => lww_get (abs (srvStore srv)) key = inl (val, ver) ∧
                      (0 < minVersion → minVersion <= ver)
  | inr NotFound => lww_get (abs (srvStore srv)) key = inr ErrKeyNotFound
  | inr FailedPrecondition => ∃ val ver, lww_get (abs (srvStore srv)) key = inl (val, ver) ∧
                              ver < minVersion
  | inr _ => delivery e = CancelledBefore ∨ delivery e = CancelledAfter
  end.
Proof.
  intros Hd. rewrite <-(GetWithVersion_abs _ key Hd).
  assert (Hsrv : mkServer (srvStore srv) (versionCounter srv) = srv) by (by destruct srv).
  assert (He : ∀ er, GetWithVersion (srvStore srv) key = inr er → er = ErrKeyNotFound).
  { unfold GetWithVersion. intros er. repeat case_match; congruence. }
  unfold Get, sendRequest. destruct (delivery e) eqn:Ed; simpl.
  - unfold loopAnswer. simpl. unfold getResponse. simpl.
    destruct (GetWithVersion (srvStore srv) key) as [[val ver]|er]; simpl.
    + destruct ((0 <? minVersion) && (ver <? minVersion)) eqn:Em; simpl; (split; [done|]).
      * bool_to_prop. eauto.
      * split; [done|]. intros Hpos. apply andb_false_iff in Em as [?|?]; bool_to_prop; lia.
    + rewrite (He er eq_refl). done.
  - auto.
  - split; [done|]. auto.
Qed.

(** ** Replication on the receiving side *)

(** The command a replication request becomes. *)
Definition replCommand (req : ReplicationRequest) (ver : Z) : Command :=
  mkCommand (itemOp (reOp req)) (reKey req) (reValue req)
    (if reVnodeId req =? 0 then GetVNodeForKey (reKey req) else u16 (reVnodeId req)) ver.

Lemma Replicate_served e d srv req :
  delivery e = Served d → reOp req = Op_PUT ∨ reOp req = Op_DELETE → reVersion req ≠ 0 →
  (Replicate e srv req).1 =
    mkServer (Apply (srvStore srv) (replCommand req (reVersion req))).1 (versionCounter srv).
Proof.
  intros Hd Ho Hv. unfold Replicate, replCommand, sendRequest.
  rewrite Hd, (proj2 (Z.eqb_neq _ _) Hv).
  destruct Ho as [-> | ->]; simpl.
  all: match goal with |- context [loopAnswer ?m ?d ?s ?r] =>
         destruct (loopAnswer_write m d s r) as (resp & -> & _); [by auto|] end.
  all: simpl; by case_match.
Qed.

Lemma lww_apply_new a c :
  Version c ≠ 0 → lww_version a (Key c) <= Version c → Op c = OpPut ∨ Op c = OpDelete →
  lww_apply a c !! Key c = Some (Version c, if Op c =? OpPut then Some (Value c) else None).
Proof.
  intros Hv Hle Ho. unfold lww_apply. rewrite (proj2 (Z.eqb_neq _ _) Hv), (proj2 (Z.ltb_ge _ _) Hle).
  simpl. destruct Ho as [-> | ->]; simpl; by rewrite lookup_insert_eq.
Qed.

Lemma lww_apply_idem a c :
  Version c ≠ 0 → lww_apply (lww_apply a c) c = lww_apply a c.
Proof.
  intros Hv.
  assert (Heq : ∀ a, lww_apply a c =
    if Version c <? lww_version a (Key c) then a
    else if Op c =? OpPut then <[Key c := (Version c, Some (Value c))]> a
    else if Op c =? OpDelete then <[Key c := (Version c, None)]> a else a).
  { intros b. unfold lww_apply. by rewrite (proj2 (Z.eqb_neq _ _) Hv). }
  rewrite (Heq a). destruct (Version c <? lww_version a (Key c)) eqn:E; [by rewrite Heq, E|].
  destruct (Op c =? OpPut) eqn:E1; [|destruct (Op c =? OpDelete) eqn:E2; [|by rewrite Heq, E]].
  all: rewrite Heq, lww_version_insert, decide_True by done; simpl.
  all: rewrite Z.ltb_irrefl; by rewrite insert_insert_eq.
Qed.

(** A successful [Put] and its replication request give the coordinator and the
    replica the same cell.  When neither node already holds a newer version of the
    key, both end with the written value under the version the coordinator drew, and
    the replica files it under the same vnode. *)
Theorem put_reaches_replica e srv1 key value srv1' call e2 d srv2 :
  Put e srv1 key value = (srv1', inl tt, [call]) →
  delivery e2 = Served d →
  0 <= GetVNodeForKey key < 2 ^ 16 → reVersion call ≠ 0 →
  lww_version (abs (srvStore srv1)) key <= reVersion call →
  lww_version (abs (srvStore srv2)) key <= reVersion call →
  let srv2' := (Replicate e2 srv2 call).1 in
  abs (srvStore srv1') !! key = Some (reVersion call, Some value) ∧
  abs (srvStore srv2') !! key = Some (reVersion call, Some value) ∧
  srvStore srv2' = (Apply (srvStore srv2)
                      (mkCommand OpPut key value (GetVNodeForKey key) (reVersion call))).1.
Proof.
  intros Hput Hd Hvn Hver Hv1 Hv2 srv2'.
  apply Put_ok in Hput as (ver & -> & ->). simpl in *.
  unfold srv2'. rewrite (Replicate_served _ d) by auto. simpl.
  unfold replCommand. simpl.
  assert ((if GetVNodeForKey key =? 0 then GetVNodeForKey key else u16 (GetVNodeForKey key))
          = GetVNodeForKey key) as ->.
  { case_match; [done|]. unfold u16. by apply Z.mod_small. }
  rewrite !Apply_abs. split_and!; [..|done].
  all: by rewrite (lww_apply_new _ (mkCommand OpPut key value _ _)) by auto.
Qed.

(** Replication is idempotent: delivering a versioned request again (a retry, or the
    same write through a batch and a single call) leaves the replica's map unchanged. *)
Theorem replicate_idempotent e d srv req :
  delivery e = Served d → reOp req = Op_PUT ∨ reOp req = Op_DELETE → reVersion req ≠ 0 →
  let once := (Replicate e srv req).1 in
  abs (srvStore (Replicate e once req).1) = abs (srvStore once).
Proof.
  intros Hd Ho Hv once. unfold once. rewrite !(Replicate_served e d) by done. simpl.
  rewrite !Apply_abs. apply lww_apply_idem. simpl. done.
Qed.

(** ** Batches *)

Lemma loopAnswer_store m d s r : (loopAnswer m d s r).1 = (Apply s (cmdOf r)).1.
Proof.
  unfold loopAnswer. destruct (rOp r =? OpGet) eqn:E; bool_to_prop; simpl.
  - rewrite Apply_eq. unfold applySwitch. simpl. rewrite E. by case_match.
  - by destruct (Apply s (cmdOf r)).
Qed.

Lemma sendAll_store m d s reqs :
  (sendAll m d s reqs).1 = apply_all s (cmdOf <$> reqs) ∧
  length (sendAll m d s reqs).2 = length reqs.
Proof.
  revert s. induction reqs as [|r reqs IH]; intros s; [done|]. simpl.
  destruct (loopAnswer m d s r) as [s1 resp] eqn:E. apply (f_equal fst) in E.
  rewrite loopAnswer_store in E. simpl in E. subst s1.
  destruct (IH (Apply s (cmdOf r)).1) as [IH1 IH2].
  destruct (sendAll _ _ _ reqs) as [s2 resps]. simpl in *. subst. split; [done|]. lia.
Qed.

Definition batchCmds (req : option (list (option ReplicationRequest))) : list Command :=
  match req with Some items => cmdOf <$> pendingReqs items | None => [] end.

(** A replication batch is applied as a prefix of its items, in order, each item
    once and missing ones skipped; the handler reports success only when the whole
    batch was applied. *)
Theorem batch_applies_in_order e selects srv req :
  ∃ n, srvStore (applyReplicationBatch e selects srv req).1
         = apply_all (srvStore srv) (take n (batchCmds req)) ∧
       ((applyReplicationBatch e selects srv req).2 = None → (length (batchCmds req) <= n)%nat).
Proof.
  exists selects. unfold applyReplicationBatch. destruct req as [[|it items]|]; simpl.
  - rewrite take_nil. split; [done|simpl; lia].
  - set (l := pendingReqs (it :: items)).
    pose proof (sendAll_store (mode e) (match delivery e with Served d => d | _ => false end)
                  (srvStore srv) (take selects l)) as [Hs _].
    destruct (sendAll _ _ _ _) as [s resps]. simpl in *.
    rewrite Hs, <-fmap_take, length_fmap. split; [done|].
    destruct (selects <? length l)%nat eqn:E; [done|]. by bool_to_prop.
  - rewrite take_nil. split; [done|simpl; lia].
Qed.

(** The handler never applies more than it is asked to, whatever ends the stream. *)
Lemma applyReplicationBatch_all e srv b :
  srvStore (applyReplicationBatch e
              (match b with Some items => 2 * length items | None => 0 end) srv b).1
  = apply_all (srvStore srv) (batchCmds b).
Proof.
  unfold applyReplicationBatch. destruct b as [[|it items]|]; try done.
  set (l := it :: items). cbn [batchCmds].
  assert (Hle : (length (pendingReqs l) <= 2 * length l)%nat).
  { unfold pendingReqs. rewrite length_imap.
    enough (length (omap id l) <= length l)%nat by lia.
    generalize l. clear. intros l. induction l as [|[x|] l IH]; cbn; [lia..|].
    change (length (omap id l) <= S (length l))%nat. lia. }
  pose proof (sendAll_store (mode e) (match delivery e with Served d => d | _ => false end)
    (srvStore srv) (take (2 * length l) (pendingReqs l))) as [Hs _].
  rewrite take_ge in Hs by done. rewrite take_ge by done.
  destruct (sendAll _ _ _ _) as [s resps]. simpl in *. done.
Qed.

(** A replication stream that ends normally has acknowledged every batch, in order,
    with its item count and without error, and the replica has applied the
    concatenation of the batches; a failing batch ends the stream with exactly one
    error acknowledgement, after the batches before it. *)
Theorem stream_acks_every_batch e srv bs srv' acks r :
  ReplicateStream e srv bs = (srv', acks, r) →
  let count b := match b with Some items => u32 (len items) | None => 0 end in
  ∃ done, done `prefix_of` bs ∧
    srvStore srv' = apply_all (srvStore srv) (concat (batchCmds <$> done)) ∧
    match r with
    | inl _ => done = bs ∧ acks = (λ b, mkBatchAck (count b) false) <$> bs
    | inr _ => ∃ pre b, done = pre ++ [b] ∧
                 acks = ((λ b, mkBatchAck (count b) false) <$> pre) ++ [mkBatchAck (count b) true]
    end.
Proof.
  intros Hs count. revert srv acks Hs. induction bs as [|b bs IH]; intros srv acks Hs; simpl in Hs.
  - simplify_eq. by exists [].
  - pose proof (applyReplicationBatch_all e srv b) as Hb.
    destruct (applyReplicationBatch e _ srv b) as [srv1 err]. simpl in Hb.
    destruct err as [err|].
    + simplify_eq. exists [b]. split; [by exists bs|]. simpl. rewrite app_nil_r.
      split; [done|]. by exists [], b.
    + destruct (ReplicateStream e srv1 bs) as [[srv2 acks2] r2] eqn:E. simplify_eq.
      destruct (IH srv1 acks2 E) as (dn & Hpre & Hst & Hr). exists (b :: dn).
      split; [by apply prefix_cons|]. split; [simpl; by rewrite apply_all_app, <-Hb|].
      destruct r.
      * destruct Hr as [-> ->]. done.
      * destruct Hr as (pre & b' & -> & ->). by exists (b :: pre), b'.
Qed.

(** The streaming RPC does not enforce ownership: for a key the node does not own,
    [Put] is refused and leaves the node unchanged, while the same write sent through
    [StreamKV] is applied to the local store under a fresh version (and, having no
    replication call, stays on this node only). *)
Theorem stream_put_bypasses_ownership e d srv key value :
  owns key = false → delivery e = Served d →
  Put e srv key value = (srv, inr FailedPrecondition, []) ∧
  let ver := candidate (versionCounter srv) (now e) in
  srvStore (streamItem e srv Op_PUT key value).1
    = (Apply (srvStore srv) (mkCommand OpPut key value (GetVNodeForKey key) ver)).1.
Proof.
  unfold owns, Put, streamItem. intros Ho Hd.
  destruct (CheckOwnership key) as [[isOwner rep] owner]. simpl in *. subst. split; [done|].
  match goal with |- context [loopAnswer ?m ?d ?s ?r] =>
    destruct (loopAnswer_write m d s r) as (resp & -> & _); [by left|] end.
  done.
Qed.
End handlers.

(** ** Witnesses *)

#[local] Instance ex_replicator : Replicator := {|
  ReplicateToAll := λ _ _ _ _ _, None;
  CheckOwnership := λ key, (bool_decide (key = "mine"%string), false, "n2"%string);
  GetVNodeForKey := λ key, Z.of_nat (String.length key)
|}.

Definition ex_env : Env := mkEnv ex_clock (Served false) AckAfterFsync.
Definition ex_srv : Server := mkServer NewStore 5.

Lemma put_outcomes_witness : (Put ex_env ex_srv "mine" [x41]).1.2 = inl tt.
Proof.
  destruct (Put ex_env ex_srv "mine" [x41]) as [[srv' r] calls] eqn:E.
  pose proof (put_outcomes ex_env ex_srv "mine" [x41] srv' r calls E) as Hp. cbn zeta in Hp.
  destruct Hp as [[Ho _]|(_ & _ & [(Hc & _ & _)|(_ & _ & Hr)])].
  - discriminate Ho.
  - vm_compute in E. injection E as _ _ <-. discriminate Hc.
  - exact Hr.
Defined.

Lemma delete_outcomes_witness : (Delete ex_env ex_srv "other").1.2 = inr FailedPrecondition.
Proof.
  destruct (Delete ex_env ex_srv "other") as [[srv' r] calls] eqn:E.
  pose proof (delete_outcomes ex_env ex_srv "other" srv' r calls E) as Hp. cbn zeta in Hp.
  destruct Hp as [(_ & _ & Hr & _)|[Ho _]]; [exact Hr|discriminate Ho].
Defined.

Lemma get_serves_lww_witness :
  (Get ex_env ex_srv "mine" 3).1 = ex_srv ∧ lww_get (abs (srvStore ex_srv)) "mine" = inr ErrKeyNotFound.
Proof.
  destruct (get_serves_lww ex_env ex_srv "mine" 3) as [H1 H2]; [apply NewStore_data_ok|].
  split; [exact H1|exact H2].
Defined.

Definition ex_call : ReplicationRequest := mkRepl Op_PUT "mine" [x41] 4 ex_clock.
Definition ex_replica : Server := mkServer NewStore 9.

Lemma put_reaches_replica_witness :
  abs (srvStore (Put ex_env ex_srv "mine" [x41]).1.1) !! "mine"%string
    = Some (reVersion ex_call, Some [x41]) ∧
  abs (srvStore (Replicate ex_env ex_replica ex_call).1) !! "mine"%string
    = Some (reVersion ex_call, Some [x41]) ∧
  srvStore (Replicate ex_env ex_replica ex_call).1
    = (Apply (srvStore ex_replica)
         (mkCommand OpPut "mine" [x41] (GetVNodeForKey "mine") (reVersion ex_call))).1.
Proof.
  apply (put_reaches_replica ex_env ex_srv "mine" [x41] (Put ex_env ex_srv "mine" [x41]).1.1
           ex_call ex_env false ex_replica).
  all: try (vm_compute; congruence). split; vm_compute; congruence.
Defined.

Lemma replicate_idempotent_witness :
  let call := mkRepl Op_DELETE "k" [] 0 8 in
  let once := (Replicate ex_env ex_srv call).1 in
  abs (srvStore (Replicate ex_env once call).1) = abs (srvStore once).
Proof.
  apply (replicate_idempotent ex_env false ex_srv (mkRepl Op_DELETE "k" [] 0 8)).
  - reflexivity.
  - by right.
  - discriminate.
Defined.

Definition ex_batches : list (option (list (option ReplicationRequest))) :=
  [Some [Some (mkRepl Op_PUT "a" [x41] 1 7); None]; None].

Lemma stream_acks_every_batch_witness :
  (ReplicateStream ex_env ex_srv ex_batches).1.2 = [mkBatchAck 2 false; mkBatchAck 0 false].
Proof.
  destruct (ReplicateStream ex_env ex_srv ex_batches) as [[srv' acks] r] eqn:E.
  pose proof (stream_acks_every_batch ex_env ex_srv ex_batches srv' acks r E) as (dn & _ & _ & Hr).
  assert (Hok : r = inl tt) by (exact (eq_sym (f_equal snd E))).
  rewrite Hok in Hr. destruct Hr as [_ Hr]. exact Hr.
Defined.

Lemma stream_put_bypasses_ownership_witness :
  Put ex_env ex_srv "other" [x41] = (ex_srv, inr FailedPrecondition, []) ∧
  srvStore (streamItem ex_env ex_srv Op_PUT "other" [x41]).1
    = (Apply (srvStore ex_srv) (mkCommand OpPut "other" [x41] (GetVNodeForKey "other")
         (candidate (versionCounter ex_srv) (now ex_env)))).1.
Proof. apply (stream_put_bypasses_ownership ex_env false ex_srv); reflexivity. Defined.
