(* ===== verification/Placement.v ===== *)
(** * Placement of vnodes on nodes ([src/cluster/placement.go])

    The key space is cut into 1024 vnodes.  [AssignVNodes] moves as few vnodes as
    possible to reach given per-node counts; [GetNodesForKey] finds the vnode of a
    key with one multiplication.  The hash ([xxhash]) is a parameter. *)

From stdpp Require Import sorting.
From S2P Require Import Prelude.
From Stdlib Require Import Floats.SpecFloat.

Definition VNodeCount : Z := 1024.
Definition TokenBucketSize : Z := MaxUint64 / VNodeCount.

Record VNode := mkVNode {
  vID : Z;                  (* uint16 *)
  Token : Z;                (* uint64 *)
  Primary : string;
  Replicas : list string
}.

Record NodeInfo := mkNodeInfo {
  nID : string;
  Score : spec_float
}.

Record Placement := mkPlacement {
  Epoch : Z;
  Nodes : list NodeInfo;
  VNodes : list VNode
}.

Definition InitializeVNodes : list VNode :=
  (λ i, mkVNode (u16 (Z.of_nat i)) (u64 (Z.of_nat i * TokenBucketSize)) "" [])
    <$> seq 0 (Z.to_nat VNodeCount).

Definition setPrimary (v : VNode) (p : string) : VNode := mkVNode (vID v) (Token v) p (Replicas v).
Definition setVNodes (p : Placement) (vs : list VNode) : Placement := mkPlacement (Epoch p) (Nodes p) vs.

(** [bits.Mul64]: the high and the low word of the product. *)
Definition Mul64 (x y : Z) : Z * Z := (Z.shiftr (x * y) 64, u64 (x * y)).

(** Decimal digits, as [strconv.FormatUint(x, 10)]. *)
Fixpoint formatUint (fuel : nat) (x : Z) : string :=
  match fuel with
  | O => ""
  | S fuel =>
      let d := String (Ascii.ascii_of_nat (48 + Z.to_nat (x mod 10))) "" in
      if x <? 10 then d else (formatUint fuel (x / 10) ++ d)%string
  end.
Definition FormatUint (x : Z) : string := formatUint 20 x.

Definition string_le (s t : string) : Prop := String.leb s t = true.
#[export] Instance string_le_dec : RelDecision string_le.
Proof. intros s t. unfold string_le. apply _. Defined.

Section placement.
(** [xxhash.Sum64String] *)
Context (Sum64String : string → Z).

Definition HashKey (key : string) : Z := Sum64String key.

(** [None]: an index out of range. *)
Definition GetNodesForKey (p : Placement) (key : string) : option (string * list string) :=
  if negb (Z.of_nat (length (VNodes p)) =? VNodeCount) then Some (""%string, [])
  else
    let '(vnodeIdx, _) := Mul64 (HashKey key) VNodeCount in
    vnode ← VNodes p !! Z.to_nat vnodeIdx;
    Some (Primary vnode, Replicas vnode).

Definition GetVNodeIDForKey (p : Placement) (key : string) : option Z :=
  if negb (Z.of_nat (length (VNodes p)) =? VNodeCount) then Some 0
  else
    let '(vnodeIdx, _) := Mul64 (HashKey key) VNodeCount in
    vnode ← VNodes p !! Z.to_nat vnodeIdx;
    Some (vID vnode).

(** ** [AssignVNodes] *)

Definition countOf (m : gmap string Z) (n : string) : Z := default 0 (m !! n).

Definition countPrimaries (vs : list VNode) : gmap string Z :=
  foldl (λ m v, if decide (Primary v = ""%string) then m
                else <[Primary v := countOf m (Primary v) + 1]> m) ∅ vs.

(** The owner does not exist in the new map, or has too many. *)
Definition revoked (nodeCounts counts : gmap string Z) (owner : string) : bool :=
  match nodeCounts !! owner with
  | None => true
  | Some allowed => allowed <? countOf counts owner
  end.

(** Step 3: strip the primaries that are gone or over their allowance. *)
Fixpoint strip (nodeCounts : gmap string Z) (counts : gmap string Z) (vs : list VNode)
    : list VNode * gmap string Z * list Z :=
  match vs with
  | [] => ([], counts, [])
  | v :: vs =>
      let owner := Primary v in
      if decide (owner = ""%string) then
        let '(vs', counts', orphaned) := strip nodeCounts counts vs in
        (v :: vs', counts', vID v :: orphaned)
      else
        if revoked nodeCounts counts owner then
          let '(vs', counts', orphaned) :=
            strip nodeCounts (<[owner := countOf counts owner - 1]> counts) vs in
          (setPrimary v "" :: vs', counts', vID v :: orphaned)
        else
          let '(vs', counts', orphaned) := strip nodeCounts counts vs in
          (v :: vs', counts', orphaned)
  end.

(** Step 4 *)
Definition deficitsOf (nodeCounts counts : gmap string Z) : gmap string Z :=
  map_imap (λ nodeID target,
    let curr := countOf counts nodeID in
    if curr <? target then Some (target - curr) else None) nodeCounts.

Definition deficitTotal (deficits : gmap string Z) : Z := map_weight (λ _ d, d) deficits.

(** Step 5, the inner loop: rendezvous hashing among the nodes with a deficit left. *)
Definition bestStep (deficits : gmap string Z) (vnodeID : Z) (best : string * Z) (nodeID : string)
    : string * Z :=
  let '(bestNode, bestScore) := best in
  if countOf deficits nodeID <=? 0 then best
  else
    let score := Sum64String (nodeID ++ ":" ++ FormatUint vnodeID)%string in
    if bool_decide (bestNode = ""%string) || (bestScore <? score)
       || ((score =? bestScore) && String.ltb nodeID bestNode)
    then (nodeID, score) else best.

Definition findBest (deficits : gmap string Z) (ids : list string) (vnodeID : Z) : string :=
  (foldl (bestStep deficits vnodeID) (""%string, 0) ids).1.

(** The outer loop; [None] is a panic. *)
Fixpoint assignLoop (ids : list string) (deficits : gmap string Z) (vs : list VNode)
    (orphaned : list Z) : option (list VNode) :=
  match orphaned with
  | [] => Some vs
  | vnodeID :: orphaned =>
      let bestNode := findBest deficits ids vnodeID in
      if decide (bestNode = ""%string) then None
      else
        v ← vs !! Z.to_nat vnodeID;
        assignLoop ids (<[bestNode := countOf deficits bestNode - 1]> deficits)
          (<[Z.to_nat vnodeID := setPrimary v bestNode]> vs) orphaned
  end.

Definition AssignVNodes (p : Placement) (nodeCounts : gmap string Z) : option Placement :=
  let vs := if (length (VNodes p) =? 0)%nat then InitializeVNodes else VNodes p in
  let currentCounts := countPrimaries vs in
  let '(vs, currentCounts, orphanedVNodes) := strip nodeCounts currentCounts vs in
  let deficits := deficitsOf nodeCounts currentCounts in
  if negb (Z.of_nat (length orphanedVNodes) =? deficitTotal deficits) then None
  else
    let deficitIDs := merge_sort string_le (elements (dom deficits)) in
    vs ← assignLoop deficitIDs deficits vs orphanedVNodes;
    Some (setVNodes p vs).
End placement.

Arguments FormatUint : simpl never.

(** ** Key lookup *)

Section lookup.
Context (Sum64String : string → Z) (Hhash : ∀ k, is_u64 (Sum64String k)).

Definition vnodeIndex (key : string) : Z := Z.shiftr (Sum64String key) 54.

Lemma Mul64_index key :
  (Mul64 (HashKey Sum64String key) VNodeCount).1 = vnodeIndex key ∧ 0 <= vnodeIndex key < VNodeCount.
Proof using Hhash.
  pose proof (Hhash key) as Hr. unfold is_u64 in Hr. unfold Mul64, vnodeIndex, HashKey, VNodeCount. simpl fst.
  rewrite !Z.shiftr_div_pow2 by lia.
  change (2 ^ 64) with (2 ^ 54 * 1024). change 1024 with (2 ^ 10) at 1.
  split.
  - change (2 ^ 10) with 1024. by rewrite Z.div_mul_cancel_r by lia.
  - split; [apply Z.div_pos; lia|]. apply Z.div_lt_upper_bound; lia.
Qed.

(** Routing is total and uniform.  On an initialised ring every key is found, without
    an index error, at the vnode given by the top ten bits of its hash, so each of the
    1024 vnodes owns exactly one 2^54-wide slice of the hash space; [GetNodesForKey]
    and [GetVNodeIDForKey] agree on it. *)
Theorem key_lookup_total p key :
  length (VNodes p) = 1024%nat →
  ∃ v, VNodes p !! Z.to_nat (vnodeIndex key) = Some v ∧
       GetNodesForKey Sum64String p key = Some (Primary v, Replicas v) ∧
       GetVNodeIDForKey Sum64String p key = Some (vID v) ∧
       vnodeIndex key * 2 ^ 54 <= Sum64String key < (vnodeIndex key + 1) * 2 ^ 54.
Proof using Hhash.
  intros Hlen. destruct (Mul64_index key) as [Hidx Hr].
  destruct (lookup_lt_is_Some_2 (VNodes p) (Z.to_nat (vnodeIndex key))) as [v Hv].
  { rewrite Hlen. unfold VNodeCount in Hr. lia. }
  exists v. split; [done|]. unfold GetNodesForKey, GetVNodeIDForKey. rewrite Hlen.
  change (Z.of_nat 1024 =? VNodeCount) with true. cbn [negb].
  destruct (Mul64 _ _) as [hi lo]. cbn [fst] in Hidx. subst hi. rewrite Hv.
  split; [done|]. split; [done|]. unfold vnodeIndex. rewrite Z.shiftr_div_pow2 by lia.
  pose proof (Z.mul_div_le (Sum64String key) (2 ^ 54) ltac:(lia)).
  pose proof (Z.mul_succ_div_gt (Sum64String key) (2 ^ 54) ltac:(lia)). lia.
Qed.
End lookup.

(** The static [Token] of a vnode is not the boundary that routing uses: for every
    vnode but the first, the key space slice routed to vnode [i] starts at [i * 2^54],
    strictly above the "absolute starting boundary" stored in [Token]. *)
Theorem token_below_boundary i v :
  InitializeVNodes !! i = Some v → (0 < i)%nat → Token v < Z.of_nat i * 2 ^ 54.
Proof.
  unfold InitializeVNodes. intros (j & -> & Hj)%list_lookup_fmap_Some Hi.
  apply lookup_seq in Hj as [-> Hlt]. cbn [Token].
  change TokenBucketSize with (2 ^ 54 - 1). unfold VNodeCount in Hlt.
  unfold u64. rewrite Z.mod_small by lia. lia.
Qed.
