(* ===== verification/AssignProofs.v ===== *)
(** * [AssignVNodes] reaches its targets exactly and moves as little as possible *)

From stdpp Require Import sorting.
From S2P Require Import Prelude Placement.

(** ** Counting primaries *)

Definition is_primary (n : string) (v : VNode) : Z := if decide (Primary v = n) then 1 else 0.

(** Number of vnodes whose primary is [n]. *)
Fixpoint cnt (n : string) (vs : list VNode) : Z :=
  match vs with
  | [] => 0
  | v :: vs => is_primary n v + cnt n vs
  end.

Lemma is_primary_range n v : 0 <= is_primary n v <= 1.
Proof. unfold is_primary. case_decide; lia. Qed.

Lemma cnt_nonneg n vs : 0 <= cnt n vs.
Proof. induction vs as [|v vs IH]; simpl; [lia|]. pose proof (is_primary_range n v). lia. Qed.

Lemma cnt_insert n vs i v v' :
  vs !! i = Some v → cnt n (<[i := v']> vs) = cnt n vs - is_primary n v + is_primary n v'.
Proof.
  revert i. induction vs as [|x vs IH]; intros [|i] Hi; simplify_eq/=; [lia|].
  rewrite IH by done. lia.
Qed.

Lemma cnt_app n vs1 vs2 : cnt n (vs1 ++ vs2) = cnt n vs1 + cnt n vs2.
Proof. induction vs1 as [|v vs1 IH]; simpl; lia. Qed.

Lemma map_weight_const0 {A} (m : gmap string A) : map_weight (λ _ _, 0) m = 0.
Proof.
  induction m as [|k a m Hk IH] using map_ind; [apply map_weight_empty|].
  rewrite map_weight_insert_None by done. lia.
Qed.

Lemma map_weight_add {A} (f g : string → A → Z) (m : gmap string A) :
  map_weight (λ k a, f k a + g k a) m = map_weight f m + map_weight g m.
Proof.
  induction m as [|k a m Hk IH] using map_ind; [by rewrite !map_weight_empty|].
  rewrite !map_weight_insert_None by done. lia.
Qed.

Lemma map_weight_is_primary {A} (v : VNode) (m : gmap string A) :
  map_weight (λ n _, is_primary n v) m = match m !! Primary v with Some _ => 1 | None => 0 end.
Proof.
  induction m as [|k a m Hk IH] using map_ind; [by rewrite map_weight_empty, lookup_empty|].
  rewrite map_weight_insert_None by done. rewrite IH, lookup_insert. unfold is_primary.
  destruct (decide (k = Primary v)) as [->|]; [|by rewrite decide_False by congruence].
  rewrite decide_True by done. by rewrite Hk.
Qed.

(** Every vnode is unowned or owned by one of the nodes of [m]. *)
Lemma cnt_total {A} (m : gmap string A) vs :
  m !! ""%string = None →
  (∀ v, v ∈ vs → Primary v = ""%string ∨ is_Some (m !! Primary v)) →
  map_weight (λ n _, cnt n vs) m + cnt "" vs = Z.of_nat (length vs).
Proof.
  intros Hm. induction vs as [|v vs IH]; intros Hall; simpl length.
  - simpl. rewrite map_weight_const0. lia.
  - simpl cnt. rewrite map_weight_add, Nat2Z.inj_succ.
    rewrite <-IH by (intros; apply Hall; set_solver).
    enough (map_weight (λ n _, is_primary n v) m + is_primary "" v = 1) by lia.
    rewrite map_weight_is_primary. unfold is_primary.
    destruct (Hall v) as [Hp|[x Hp]]; [set_solver|..].
    + rewrite Hp, Hm. done.
    + rewrite Hp. simpl. case_decide; [congruence|lia].
Qed.

Lemma countPrimaries_acc m vs n :
  n ≠ ""%string →
  countOf (foldl (λ m v, if decide (Primary v = ""%string) then m
                         else <[Primary v := countOf m (Primary v) + 1]> m) m vs) n
  = countOf m n + cnt n vs.
Proof.
  intros Hn. revert m. induction vs as [|v vs IH]; intros m; simpl; [lia|].
  rewrite IH. unfold is_primary. case_decide as Hp.
  - rewrite decide_False by congruence. lia.
  - unfold countOf. rewrite lookup_insert. case_decide as Hv; subst; simpl; [|lia].
    destruct (m !! Primary v); simpl; lia.
Qed.

Lemma countPrimaries_cnt vs n : n ≠ ""%string → countOf (countPrimaries vs) n = cnt n vs.
Proof.
  intros Hn. unfold countPrimaries. rewrite countPrimaries_acc by done.
  unfold countOf. rewrite lookup_empty. simpl. lia.
Qed.

(** ** Stripping *)

(** [unassigned v v']: [v'] is [v], possibly with its primary removed. *)
Definition unassigned (v v' : VNode) : Prop := v' = v ∨ v' = setPrimary v "".

(** What is left of [c] vnodes of a node when [r] of them are still to be visited. *)
Definition kept (target : option Z) (c r : Z) : Z :=
  match target with
  | Some t => Z.max (c - r) (Z.min c t)
  | None => c - r
  end.

Lemma countOf_insert m n x n' :
  countOf (<[n := x]> m) n' = if decide (n = n') then x else countOf m n'.
Proof. unfold countOf. rewrite lookup_insert. by case_decide. Qed.

Lemma is_primary_ne n v : Primary v ≠ n → is_primary n v = 0.
Proof. intros. unfold is_primary. by rewrite decide_False. Qed.
Lemma is_primary_eq n v : Primary v = n → is_primary n v = 1.
Proof. intros. unfold is_primary. by rewrite decide_True. Qed.

Lemma strip_spec nodeCounts counts vs vs' counts' orphaned :
  strip nodeCounts counts vs = (vs', counts', orphaned) →
  Forall2 unassigned vs vs' ∧
  orphaned = vID <$> filter (λ v, Primary v = ""%string) vs' ∧
  ∀ n, n ≠ ""%string →
    countOf counts' n = kept (nodeCounts !! n) (countOf counts n) (cnt n vs) ∧
    cnt n vs' = cnt n vs - (countOf counts n - countOf counts' n).
Proof.
  revert counts vs' counts' orphaned.
  induction vs as [|v vs IH]; intros counts vs' counts' orphaned Hs; simpl in Hs.
  { simplify_eq. split; [done|]. split; [done|]. intros n _. unfold kept.
    split; [|simpl; lia]. simpl. case_match; lia. }
  destruct (decide (Primary v = ""%string)) as [Hv|Hv].
  - destruct (strip nodeCounts counts vs) as [[vs1 c1] o1] eqn:E. simplify_eq.
    destruct (IH _ _ _ _ E) as (Hu & -> & Hn). split; [by constructor; [left|]|].
    split; [by rewrite filter_cons_True|]. intros n Hne. simpl.
    rewrite is_primary_ne by congruence. apply (Hn n Hne).
  - destruct (revoked nodeCounts counts (Primary v)) eqn:Er; unfold revoked in Er.
    + destruct (strip nodeCounts _ vs) as [[vs1 c1] o1] eqn:E. simplify_eq.
      destruct (IH _ _ _ _ E) as (Hu & -> & Hn). split; [by constructor; [right|]|].
      split; [by rewrite filter_cons_True|]. intros n Hne. simpl.
      destruct (Hn n Hne) as [Hk Hc]. rewrite countOf_insert in Hk, Hc.
      pose proof (cnt_nonneg n vs). unfold kept in *.
      rewrite (is_primary_ne n (setPrimary v "")) by (simpl; congruence).
      destruct (decide (Primary v = n)) as [<-|].
      * rewrite (is_primary_eq _ v) by done.
        destruct (nodeCounts !! Primary v); bool_to_prop; lia.
      * rewrite (is_primary_ne n v) by done. split; [rewrite Hk|]; case_match; lia.
    + destruct (strip nodeCounts counts vs) as [[vs1 c1] o1] eqn:E. simplify_eq.
      destruct (IH _ _ _ _ E) as (Hu & -> & Hn). split; [by constructor; [left|]|].
      split; [by rewrite filter_cons_False|]. intros n Hne. simpl.
      destruct (Hn n Hne) as [Hk Hc]. pose proof (cnt_nonneg n vs). unfold kept in *.
      destruct (decide (Primary v = n)) as [<-|].
      * rewrite (is_primary_eq _ v) by done. destruct (nodeCounts !! Primary v); [|done].
        bool_to_prop. lia.
      * rewrite (is_primary_ne n v) by done. split; [rewrite Hk|]; case_match; lia.
Qed.

(** ** Assigning *)

Section assign.
Context (Sum64String : string → Z).

Lemma findBest_acc d vnodeID ids best score :
  let r := foldl (bestStep Sum64String d vnodeID) (best, score) ids in
  (r.1 = best ∨ r.1 ∈ ids ∧ 0 < countOf d r.1) ∧
  (best ≠ ""%string → r.1 ≠ ""%string ∨ r.1 ∈ ids) ∧
  (∀ n, n ∈ ids → 0 < countOf d n → n ≠ ""%string → ""%string ∉ ids → r.1 ≠ ""%string).
Proof.
  revert best score. induction ids as [|x ids IH]; intros best score; cbn [foldl].
  { simpl. split_and!; auto. intros n Hn. by apply elem_of_nil in Hn. }
  destruct (bestStep Sum64String d vnodeID (best, score) x) as [b s] eqn:E.
  assert (Hb : b = best ∧ (0 < countOf d x → best ≠ ""%string) ∨ b = x ∧ 0 < countOf d x).
  { unfold bestStep in E. case_match; bool_to_prop; [simplify_eq; left; split; [done|lia]|].
    case_match eqn:Eo; simplify_eq; [by right; split|left]. split; [done|]. intros _ ->.
    by rewrite bool_decide_true in Eo. }
  destruct (IH b s) as (H1 & H2 & H3). clear IH E. cbn zeta in *.
  generalize dependent (foldl (bestStep Sum64String d vnodeID) (b, s) ids).1. intros r H1 H2 H3.
  split_and!.
  - destruct Hb as [[-> _]|[-> Hx]]; [set_solver|]. destruct H1 as [->|?]; [right|]; set_solver.
  - intros Hne. destruct H1 as [->|[? _]]; [|set_solver].
    destruct Hb as [[-> _]|[-> _]]; [by left|set_solver].
  - intros n Hn Hd Hne Hnin. destruct (decide (r = ""%string)) as [Hr|]; [|done]. exfalso.
    assert (b = ""%string) as Hb0.
    { destruct (decide (b = ""%string)) as [|Hbne]; [done|]. destruct (H2 Hbne); [done|set_solver]. }
    apply elem_of_cons in Hn as [->|Hn].
    + destruct Hb as [[-> Hb]|[-> _]]; [by apply Hb|set_solver].
    + eapply H3; [done..| |done]. set_solver.
Qed.

(** While some node has a deficit left, one of them is chosen. *)
Lemma findBest_spec d ids vnodeID n :
  n ∈ ids → 0 < countOf d n → ""%string ∉ ids →
  let best := findBest Sum64String d ids vnodeID in
  best ≠ ""%string ∧ best ∈ ids ∧ 0 < countOf d best.
Proof.
  intros Hn Hd Hids best. unfold best, findBest.
  destruct (findBest_acc d vnodeID ids "" 0) as (H1 & _ & H3).
  assert (Hne := H3 n Hn Hd ltac:(set_solver) Hids). split; [done|].
  by destruct H1 as [|].
Qed.

Lemma deficit_left d :
  (∀ n, 0 <= countOf d n) → 0 < deficitTotal d → ∃ n, 0 < countOf d n.
Proof.
  unfold deficitTotal. induction d as [|k x d Hk IH] using map_ind; intros Hnn.
  - rewrite map_weight_empty. lia.
  - rewrite map_weight_insert_None by done. intros Hpos.
    destruct (decide (0 < x)) as [Hx|Hx]; [exists k; by rewrite countOf_insert, decide_True|].
    assert (∃ n, 0 < countOf d n) as [n Hn].
    { apply IH; [|lia]. intros n. specialize (Hnn n). rewrite countOf_insert in Hnn.
      case_decide; [|done]. subst. unfold countOf. by rewrite Hk. }
    exists n. rewrite countOf_insert. case_decide; [|done]. subst. unfold countOf in Hn. by rewrite Hk in Hn.
Qed.

Lemma deficitTotal_dec d n :
  0 < countOf d n → deficitTotal (<[n := countOf d n - 1]> d) = deficitTotal d - 1.
Proof.
  unfold deficitTotal, countOf. rewrite map_weight_insert. destruct (d !! n); simpl; lia.
Qed.

(** The vnode keeps its identity, its token and its replicas, and its primary if any. *)
Definition reassigned (v v' : VNode) : Prop :=
  v' = setPrimary v (Primary v') ∧ (Primary v ≠ ""%string → Primary v' = Primary v).

Lemma reassigned_refl v : reassigned v v.
Proof. split; [by destruct v|done]. Qed.

Lemma reassigned_trans v1 v2 v3 : reassigned v1 v2 → reassigned v2 v3 → reassigned v1 v3.
Proof.
  intros [-> H1] [-> H2]. split; [done|]. simpl in *. intros Hne. rewrite H2; auto. by rewrite H1.
Qed.

Lemma map_weight_countOf d n :
  (∀ m, 0 <= countOf d m) → countOf d n <= map_weight (λ _ x, x) d.
Proof.
  intros Hnn. unfold countOf. destruct (d !! n) as [x|] eqn:E; simpl.
  - apply (map_weight_ge' (λ _ x, x) d n x); [|done]. intros k y Hk. specialize (Hnn k).
    unfold countOf in Hnn. by rewrite Hk in Hnn.
  - apply map_weight_nonneg'. intros k y Hk. specialize (Hnn k). unfold countOf in Hnn.
    by rewrite Hk in Hnn.
Qed.

Lemma Forall2_reassigned_insert vs vs' i v v1 :
  vs !! i = Some v → Forall2 reassigned (<[i := v1]> vs) vs' → reassigned v v1 →
  Forall2 reassigned vs vs'.
Proof.
  intros Hi Hf Hv. apply Forall2_same_length_lookup. split.
  - rewrite <-(length_insert vs i v1). by eapply Forall2_length.
  - intros j x y Hx Hy. rewrite Forall2_same_length_lookup in Hf. destruct Hf as [_ Hf].
    destruct (decide (i = j)) as [->|Hne].
    + assert (x = v) as -> by congruence. eapply reassigned_trans; [done|]. eapply Hf; [|done].
      rewrite list_lookup_insert_eq; [done|]. by eapply lookup_lt_Some.
    + eapply Hf; [|done]. by rewrite list_lookup_insert_ne.
Qed.

Lemma assignLoop_spec ids d vs orphaned :
  ""%string ∉ ids → (∀ n, 0 < countOf d n → n ∈ ids) → (∀ n, 0 <= countOf d n) →
  NoDup (Z.to_nat <$> orphaned) →
  (∀ id, id ∈ orphaned → ∃ v, vs !! Z.to_nat id = Some v ∧ Primary v = ""%string) →
  Z.of_nat (length orphaned) = deficitTotal d →
  ∃ vs', assignLoop Sum64String ids d vs orphaned = Some vs' ∧
    Forall2 reassigned vs vs' ∧
    cnt "" vs' = cnt "" vs - Z.of_nat (length orphaned) ∧
    ∀ n, n ≠ ""%string → cnt n vs' = cnt n vs + countOf d n.
Proof.
  intros Hids. revert d vs. induction orphaned as [|id orphaned IH]; intros d vs Hin Hnn Hnd Hor Hlen.
  - exists vs. split; [done|]. split; [apply Forall_Forall2_diag, Forall_true; intros; apply reassigned_refl|].
    split; [simpl; lia|]. intros n _. simpl in Hlen.
    pose proof (map_weight_countOf d n Hnn). unfold deficitTotal in *. specialize (Hnn n). lia.
  - cbn [assignLoop]. cbn [length] in Hlen.
    destruct (deficit_left d Hnn) as [n Hn]; [lia|].
    destruct (findBest_spec d ids id n (Hin n Hn) Hn Hids) as (Hb & Hbin & Hbd).
    set (best := findBest Sum64String d ids id) in *.
    rewrite decide_False by done. destruct (Hor id) as (v & Hv & Hpv); [set_solver|].
    rewrite Hv. cbn [mbind option_bind]. cbn [fmap list_fmap] in Hnd.
    apply list.NoDup_cons in Hnd as [Hid Hnd].
    edestruct (IH (<[best := countOf d best - 1]> d) (<[Z.to_nat id := setPrimary v best]> vs))
      as (vs' & Ha & Hu & Hc0 & Hc).
    + intros m. rewrite countOf_insert. case_decide; [by subst|apply Hin].
    + intros m. rewrite countOf_insert. specialize (Hnn m). case_decide; lia.
    + done.
    + intros id' Hid'. rewrite list_lookup_insert_ne; [apply Hor; set_solver|].
      intros Heq. apply Hid. rewrite Heq. by apply list_elem_of_fmap_2.
    + rewrite deficitTotal_dec by done. lia.
    + exists vs'. split; [done|]. rewrite (cnt_insert _ _ _ v) in Hc0 by done.
      split; [|split].
      * eapply Forall2_reassigned_insert; [done..|]. by split.
      * rewrite (is_primary_eq _ v), (is_primary_ne _ (setPrimary v best)) in Hc0 by done. cbn [length]. lia.
      * intros m Hm. rewrite (Hc m Hm), (cnt_insert _ _ _ v), countOf_insert by done.
        rewrite (is_primary_ne m v) by congruence. unfold is_primary. simpl.
        repeat case_decide; subst; lia || congruence.
Qed.
End assign.

(** ** The ring *)

(** 1024 vnodes, each with its index as identifier. *)
Definition ring_ok (vs : list VNode) : Prop :=
  length vs = 1024%nat ∧ ∀ i v, vs !! i = Some v → vID v = Z.of_nat i.

Lemma InitializeVNodes_ring : ring_ok InitializeVNodes.
Proof.
  split; [done|]. unfold InitializeVNodes. intros i v (j & -> & Hj)%list_lookup_fmap_Some.
  apply lookup_seq in Hj as [-> Hlt]. unfold VNodeCount in Hlt. simpl.
  unfold u16. rewrite Z.mod_small; lia.
Qed.

Lemma ring_Forall2 (R : VNode → VNode → Prop) vs vs' :
  (∀ v v', R v v' → vID v' = vID v) → Forall2 R vs vs' → ring_ok vs → ring_ok vs'.
Proof.
  intros HR Hf [Hlen Hid]. split; [by rewrite <-(Forall2_length Hf)|].
  intros i v' Hv'. apply Forall2_same_length_lookup in Hf as [Hl Hf].
  destruct (lookup_lt_is_Some_2 vs i) as [v Hv].
  { rewrite Hl. by eapply lookup_lt_Some. }
  rewrite (HR v v') by eauto. eauto.
Qed.

Lemma unassigned_id v v' : unassigned v v' → vID v' = vID v.
Proof. by intros [-> | ->]. Qed.
Lemma reassigned_id v v' : reassigned v v' → vID v' = vID v.
Proof. by intros [-> _]. Qed.

(** The orphans are distinct positions of unowned vnodes. *)
Lemma ring_orphans vs :
  ring_ok vs →
  let orphaned := vID <$> filter (λ v, Primary v = ""%string) vs in
  NoDup (Z.to_nat <$> orphaned) ∧
  ∀ id, id ∈ orphaned → ∃ v, vs !! Z.to_nat id = Some v ∧ Primary v = ""%string.
Proof.
  intros [Hlen Hid] orphaned. split.
  - assert (Hseq : Z.to_nat <$> (vID <$> vs) = seq 0 (length vs)).
    { apply list_eq. intros i. rewrite !list_lookup_fmap.
      destruct (vs !! i) as [v|] eqn:E; simpl.
      - rewrite (Hid _ _ E), Nat2Z.id. symmetry. apply lookup_seq.
        split; [done|]. by eapply lookup_lt_Some.
      - symmetry. apply lookup_seq_ge. by apply lookup_ge_None. }
    eapply sublist_NoDup; [|do 2 apply fmap_sublist; apply sublist_filter].
    rewrite Hseq. apply NoDup_seq.
  - intros id (v & -> & Hv)%list_elem_of_fmap.
    apply list_elem_of_filter in Hv as [Hp (i & Hi)%list_elem_of_lookup].
    exists v. by rewrite (Hid _ _ Hi), Nat2Z.id.
Qed.

Lemma length_orphans vs :
  Z.of_nat (length (filter (λ v, Primary v = ""%string) vs)) = cnt "" vs.
Proof.
  induction vs as [|v vs IH]; [done|]. cbn [cnt]. unfold is_primary. case_decide.
  - rewrite filter_cons_True by done. cbn [length]. lia.
  - rewrite filter_cons_False by done. lia.
Qed.

(** ** Movement *)

(** Vnodes of [n] that keep their primary. *)
Fixpoint stay (n : string) (vs vs' : list VNode) : Z :=
  match vs, vs' with
  | v :: vs, v' :: vs' => (if decide (Primary v = n ∧ Primary v' = n) then 1 else 0) + stay n vs vs'
  | _, _ => 0
  end.

Lemma stay_le n vs vs' : stay n vs vs' <= cnt n vs ∧ stay n vs vs' <= cnt n vs'.
Proof.
  revert vs'. induction vs as [|v vs IH]; intros [|v' vs'].
  1-3: cbn [stay]; split; lia || apply cnt_nonneg.
  cbn [stay cnt]. destruct (IH vs'). unfold is_primary. repeat case_decide; intuition lia.
Qed.

Lemma stay_ge n vs vs1 vs' :
  n ≠ ""%string → Forall2 unassigned vs vs1 → Forall2 reassigned vs1 vs' →
  cnt n vs1 <= stay n vs vs'.
Proof.
  intros Hn Hu. revert vs'. induction Hu as [|v v1 vs vs1 Hv _ IH]; intros vs' Hr.
  - inversion Hr. simpl. lia.
  - inversion Hr as [|? v' ? vs2 [Hv' Hp] Hr2]; subst. cbn [stay cnt]. specialize (IH _ Hr2).
    unfold is_primary. destruct (decide (Primary v1 = n)) as [E|]; [|case_decide; lia].
    rewrite decide_True; [lia|]. destruct Hv as [-> | ->]; [|by simpl in E; congruence].
    split; [done|]. rewrite Hp; congruence.
Qed.

(** ** The theorem *)

Section assign_exact.
Context (Sum64String : string → Z).

Lemma cnt_elem v vs : v ∈ vs → 1 <= cnt (Primary v) vs.
Proof.
  induction vs as [|x vs IH]; intros Hv; [by apply elem_of_nil in Hv|]. cbn [cnt].
  pose proof (cnt_nonneg (Primary v) vs). pose proof (is_primary_range (Primary v) x).
  apply elem_of_cons in Hv as [->|Hv]; [rewrite is_primary_eq by done; lia|].
  specialize (IH Hv). lia.
Qed.

Lemma map_weight_imap {A} (w : string → Z → Z) (f : string → A → option Z) (m : gmap string A) :
  map_weight w (map_imap f m) = map_weight (λ k a, opt_weight w k (f k a)) m.
Proof.
  induction m as [|k a m Hk IH] using map_ind; [by rewrite map_imap_empty, !map_weight_empty|].
  rewrite map_weight_insert_None, <-IH by done. destruct (f k a) as [b|] eqn:E; simpl.
  - rewrite map_imap_insert_Some with (y := b) by done.
    apply map_weight_insert_None. rewrite map_lookup_imap, Hk. done.
  - rewrite map_imap_insert_None by done. rewrite delete_id; [lia|].
    by rewrite map_lookup_imap, Hk.
Qed.

Lemma map_weight_ext {A} (w1 w2 : string → A → Z) (m : gmap string A) :
  (∀ k a, m !! k = Some a → w1 k a = w2 k a) → map_weight w1 m = map_weight w2 m.
Proof.
  induction m as [|k a m Hk IH] using map_ind; intros Hw; [done|].
  rewrite !map_weight_insert_None by done. rewrite (Hw k a) by apply lookup_insert_eq.
  f_equal. apply IH. intros k' a' Hk'. apply Hw. rewrite lookup_insert_ne; congruence.
Qed.

Lemma map_weight_le {A} (w1 w2 : string → A → Z) (m : gmap string A) :
  (∀ k a, m !! k = Some a → w1 k a <= w2 k a) → map_weight w1 m <= map_weight w2 m.
Proof.
  induction m as [|k a m Hk IH] using map_ind; intros Hw; [done|].
  rewrite !map_weight_insert_None by done.
  pose proof (Hw k a (lookup_insert_eq _ _ _)). enough (map_weight w1 m <= map_weight w2 m) by lia.
  apply IH. intros k' a' Hk'. apply Hw. rewrite lookup_insert_ne; congruence.
Qed.

Lemma deficit_countOf nodeCounts counts n :
  countOf (deficitsOf nodeCounts counts) n
  = match nodeCounts !! n with Some t => Z.max 0 (t - countOf counts n) | None => 0 end.
Proof.
  unfold deficitsOf, countOf at 1. rewrite map_lookup_imap.
  destruct (nodeCounts !! n); simpl; [|done]. case_match; bool_to_prop; simpl; lia.
Qed.

(** Deficits after stripping add up to the number of orphans. *)
Lemma deficits_total nodeCounts counts vs :
  nodeCounts !! ""%string = None →
  (∀ n t, nodeCounts !! n = Some t → cnt n vs = countOf counts n ∧ cnt n vs <= t) →
  (∀ v, v ∈ vs → Primary v = ""%string ∨ is_Some (nodeCounts !! Primary v)) →
  map_weight (λ _ t, t) nodeCounts = Z.of_nat (length vs) →
  deficitTotal (deficitsOf nodeCounts counts) = cnt "" vs.
Proof.
  intros Hempty Hc Hall Hsum. unfold deficitTotal, deficitsOf. rewrite map_weight_imap.
  pose proof (cnt_total nodeCounts vs Hempty Hall) as Ht.
  rewrite (map_weight_ext _ (λ n t, t + (- cnt n vs))).
  - rewrite (map_weight_add (λ _ t, t) (λ n _, - cnt n vs)).
    enough (map_weight (λ n (_ : Z), - cnt n vs) nodeCounts + map_weight (λ n _, cnt n vs) nodeCounts = 0) by lia.
    rewrite <-map_weight_add, <-(map_weight_const0 nodeCounts). apply map_weight_ext. intros. lia.
  - intros n t Hn. destruct (Hc n t Hn) as [<- Hle]. case_match; bool_to_prop; simpl; lia.
Qed.

Lemma unassigned_reassigned vs vs1 vs' :
  Forall2 unassigned vs vs1 → Forall2 reassigned vs1 vs' →
  Forall2 (λ v v', v' = setPrimary v (Primary v')) vs vs'.
Proof.
  intros Hu. revert vs'. induction Hu as [|v v1 vs vs1 Hv _ IH]; intros vs' Hr; inversion Hr; subst;
    constructor; eauto.
  match goal with H : reassigned _ _ |- _ => destruct H as [-> _] end.
  destruct Hv as [-> | ->]; done.
Qed.

(** Where the targets are met after stripping. *)
Lemma strip_counts nodeCounts vs vs1 counts1 orphaned :
  strip nodeCounts (countPrimaries vs) vs = (vs1, counts1, orphaned) →
  (∀ n t, nodeCounts !! n = Some t → 0 <= t) →
  ∀ n, n ≠ ""%string →
    countOf counts1 n = cnt n vs1 ∧ cnt n vs1 = Z.min (cnt n vs) (countOf nodeCounts n).
Proof.
  intros Hs Hpos n Hn. destruct (strip_spec _ _ _ _ _ _ Hs) as (_ & _ & Hc).
  destruct (Hc n Hn) as [Hk Hc1]. rewrite countPrimaries_cnt in Hk, Hc1 by done.
  pose proof (cnt_nonneg n vs). unfold kept in Hk. unfold countOf at 2.
  destruct (nodeCounts !! n) as [t|] eqn:E; simpl; [pose proof (Hpos _ _ E)|]; lia.
Qed.

(** No panic, exact counts, and each node keeps as many of its vnodes as it may. *)
Lemma AssignVNodes_spec p nodeCounts :
  let old := if (length (VNodes p) =? 0)%nat then InitializeVNodes else VNodes p in
  ring_ok old →
  nodeCounts !! ""%string = None →
  (∀ n t, nodeCounts !! n = Some t → 0 <= t) →
  map_weight (λ _ t, t) nodeCounts = 1024 →
  ∃ p', AssignVNodes Sum64String p nodeCounts = Some p' ∧
    Epoch p' = Epoch p ∧ Nodes p' = Nodes p ∧ ring_ok (VNodes p') ∧
    Forall2 (λ v v', v' = setPrimary v (Primary v')) old (VNodes p') ∧
    (∀ v, v ∈ VNodes p' → is_Some (nodeCounts !! Primary v)) ∧
    (∀ n, n ≠ ""%string → cnt n (VNodes p') = countOf nodeCounts n) ∧
    (∀ n, n ≠ ""%string → stay n old (VNodes p') = Z.min (cnt n old) (countOf nodeCounts n)).
Proof.
  intros old Hring Hempty Hpos Hsum. unfold AssignVNodes. fold old.
  destruct (strip nodeCounts (countPrimaries old) old) as [[vs1 counts1] orphaned] eqn:Es.
  pose proof (strip_counts _ _ _ _ _ Es Hpos) as Hc1.
  destruct (strip_spec _ _ _ _ _ _ Es) as (Hu & -> & _).
  pose proof (ring_Forall2 _ _ _ unassigned_id Hu Hring) as Hring1.
  pose proof (ring_orphans vs1 Hring1) as [Hnd Hor].
  assert (Hown1 : ∀ v, v ∈ vs1 → Primary v = ""%string ∨ is_Some (nodeCounts !! Primary v)).
  { intros v Hv%cnt_elem. destruct (decide (Primary v = ""%string)) as [|Hn]; [by left|right].
    destruct (Hc1 _ Hn) as [_ E]. unfold countOf in E.
    destruct (nodeCounts !! Primary v); [done|]. simpl in E. lia. }
  assert (Hne : ∀ n t, nodeCounts !! n = Some t → n ≠ ""%string) by congruence.
  assert (Htot : deficitTotal (deficitsOf nodeCounts counts1) = cnt "" vs1).
  { apply deficits_total; [done| |done|by rewrite (proj1 Hring1)].
    intros n t Hn. destruct (Hc1 n (Hne _ _ Hn)) as [-> ->]. unfold countOf. rewrite Hn. simpl. lia. }
  rewrite length_fmap, length_orphans, Htot, Z.eqb_refl. cbn [negb].
  set (ids := merge_sort _ _).
  assert (Hids : ∀ n, n ∈ ids ↔ is_Some (deficitsOf nodeCounts counts1 !! n)).
  { intros n. unfold ids. by rewrite merge_sort_Permutation, elem_of_elements, elem_of_dom. }
  destruct (assignLoop_spec Sum64String ids (deficitsOf nodeCounts counts1) vs1
    (vID <$> filter (λ v, Primary v = ""%string) vs1)) as (vs' & -> & Hr & Hc0 & Hc'); try done.
  - rewrite Hids. unfold deficitsOf. rewrite map_lookup_imap, Hempty. by intros [? ?].
  - intros n Hn. apply Hids. unfold countOf in Hn. destruct (_ !! n); [done|]. simpl in Hn. lia.
  - intros n. rewrite deficit_countOf. case_match; lia.
  - by rewrite length_fmap, length_orphans.
  - rewrite length_fmap, length_orphans in Hc0.
    assert (Hcnt : ∀ n, n ≠ ""%string → cnt n vs' = countOf nodeCounts n).
    { intros n Hn. destruct (Hc1 n Hn) as [E1 E2]. rewrite (Hc' n Hn), deficit_countOf, E1.
      unfold countOf in *. destruct (nodeCounts !! n); simpl in *; [lia|].
      pose proof (cnt_nonneg n old). lia. }
    exists (setVNodes p vs'). split; [done|]. split; [done|]. split; [done|]. simpl.
    split; [by eapply ring_Forall2; [apply reassigned_id| |]|]. split_and!.
    + eapply unassigned_reassigned; done.
    + intros v Hv%cnt_elem. destruct (decide (Primary v = ""%string)) as [E|Hn]; [rewrite E in Hv; lia|].
      rewrite (Hcnt _ Hn) in Hv. unfold countOf in Hv. destruct (nodeCounts !! Primary v); [done|].
      simpl in Hv. lia.
    + done.
    + intros n Hn. pose proof (stay_ge n old vs1 vs' Hn Hu Hr). destruct (Hc1 n Hn) as [_ E].
      pose proof (stay_le n old vs') as [? ?]. rewrite (Hcnt n Hn) in *. lia.
Qed.

(** ** Minimality *)

(** Vnodes whose primary changes. *)
Fixpoint moved (vs vs' : list VNode) : Z :=
  match vs, vs' with
  | v :: vs, v' :: vs' => (if decide (Primary v = Primary v') then 0 else 1) + moved vs vs'
  | _, _ => 0
  end.

Lemma map_weight_both {A} (v v' : VNode) (m : gmap string A) :
  map_weight (λ n _, if decide (Primary v = n ∧ Primary v' = n) then 1 else 0) m
  = if decide (Primary v = Primary v') then match m !! Primary v' with Some _ => 1 | None => 0 end else 0.
Proof.
  destruct (decide (Primary v = Primary v')) as [E|E].
  - rewrite <-(map_weight_is_primary v' m). apply map_weight_ext. intros n a _. unfold is_primary.
    repeat case_decide; try lia; exfalso; naive_solver congruence.
  - etrans; [|apply (map_weight_const0 m)]. apply map_weight_ext. intros n a _.
    rewrite decide_False; [done|]. intros [? ?]. congruence.
Qed.

(** When every vnode ends with an owner of [m], the ones that do not move are counted
    node by node. *)
Lemma moved_stay {A} (m : gmap string A) vs vs' :
  length vs = length vs' → (∀ v, v ∈ vs' → is_Some (m !! Primary v)) →
  moved vs vs' + map_weight (λ n _, stay n vs vs') m = Z.of_nat (length vs).
Proof.
  revert vs'. induction vs as [|v vs IH]; intros [|v' vs'] Hlen Hall; try done.
  - simpl. rewrite map_weight_const0. done.
  - cbn [moved stay length]. rewrite map_weight_add, map_weight_both.
    specialize (IH vs' ltac:(simpl in Hlen; lia) ltac:(intros; apply Hall; set_solver)).
    destruct (Hall v') as [x Hx]; [set_solver|]. rewrite Hx. case_decide; lia.
Qed.

(** An assignment that keeps as many vnodes as each node may keep moves the fewest. *)
Lemma stay_max_moves_least nodeCounts old vs vs' :
  length old = length vs → length old = length vs' → nodeCounts !! ""%string = None →
  (∀ v, v ∈ vs' → is_Some (nodeCounts !! Primary v)) →
  (∀ n, n ≠ ""%string → stay n old vs' = Z.min (cnt n old) (countOf nodeCounts n)) →
  (∀ v, v ∈ vs → is_Some (nodeCounts !! Primary v)) →
  (∀ n, n ≠ ""%string → cnt n vs = countOf nodeCounts n) →
  moved old vs' <= moved old vs.
Proof.
  intros Hl Hl' Hempty Hown Hstay Hvs Hc.
  pose proof (moved_stay nodeCounts old vs' Hl' Hown). pose proof (moved_stay nodeCounts old vs Hl Hvs).
  enough (map_weight (λ n _, stay n old vs) nodeCounts
          <= map_weight (λ n _, stay n old vs') nodeCounts) by lia.
  apply map_weight_le. intros n t Hn.
  assert (Hne : n ≠ ""%string) by congruence. rewrite (Hstay n Hne), <-(Hc n Hne).
  pose proof (stay_le n old vs). lia.
Qed.

Lemma moved_refl vs : moved vs vs = 0.
Proof. induction vs; simpl; [done|]. rewrite decide_True by done. lia. Qed.

Lemma moved_nonneg vs vs' : 0 <= moved vs vs'.
Proof. revert vs'. induction vs as [|v vs IH]; intros [|v' vs']; simpl; try done. specialize (IH vs'). case_decide; lia. Qed.

Lemma moved_zero_eq vs vs' :
  Forall2 (λ v v', v' = setPrimary v (Primary v')) vs vs' → moved vs vs' <= 0 → vs' = vs.
Proof.
  induction 1 as [|v v' vs vs' Hv Hf IH]; [done|]. cbn [moved]. intros Hm.
  pose proof (moved_nonneg vs vs'). destruct (decide (Primary v = Primary v')) as [E|]; [|lia].
  rewrite IH by lia. f_equal. rewrite Hv, <-E. by destruct v.
Qed.

(** C3: [AssignVNodes] is exact and moves as little as possible.  For any hash function and
    any targets that add up to 1024, whatever the previous assignment was (including an
    empty ring), it does not panic; afterwards every node owns exactly its target number
    of vnodes and every vnode is owned; identifiers, tokens and replicas are untouched;
    and no other assignment that meets the same targets moves fewer vnodes. *)
Theorem assign_exact_and_minimal p nodeCounts :
  let old := if (length (VNodes p) =? 0)%nat then InitializeVNodes else VNodes p in
  ring_ok old →
  nodeCounts !! ""%string = None →
  (∀ n t, nodeCounts !! n = Some t → 0 <= t) →
  map_weight (λ _ t, t) nodeCounts = 1024 →
  ∃ p', AssignVNodes Sum64String p nodeCounts = Some p' ∧
    Forall2 (λ v v', v' = setPrimary v (Primary v')) old (VNodes p') ∧
    (∀ v, v ∈ VNodes p' → is_Some (nodeCounts !! Primary v)) ∧
    (∀ n, n ≠ ""%string → cnt n (VNodes p') = countOf nodeCounts n) ∧
    (∀ vs, length vs = 1024%nat → (∀ v, v ∈ vs → is_Some (nodeCounts !! Primary v)) →
       (∀ n, n ≠ ""%string → cnt n vs = countOf nodeCounts n) →
       moved old (VNodes p') <= moved old vs).
Proof.
  intros old Hring Hempty Hpos Hsum.
  destruct (AssignVNodes_spec p nodeCounts Hring Hempty Hpos Hsum)
    as (p' & Ha & _ & _ & [Hlen' _] & Hf & Hown & Hcnt & Hstay). fold old in Hstay, Hf.
  exists p'. split_and!; try done. intros vs Hlen Hvs Hc. destruct Hring as [Hl _].
  apply (stay_max_moves_least nodeCounts); try done; congruence.
Qed.
End assign_exact.

(** ** Witnesses *)

(** A stand-in for the hash: a polynomial of the bytes modulo 2^64. *)
Fixpoint ex_hash_acc (acc : Z) (s : string) : Z :=
  match s with
  | EmptyString => acc
  | String a s => ex_hash_acc (u64 (acc * 11400714819323198485 + Z.of_nat (Ascii.nat_of_ascii a))) s
  end.
Definition ex_hash (s : string) : Z := ex_hash_acc 0 s.

Lemma ex_hash_u64 k : is_u64 (ex_hash k).
Proof.
  unfold ex_hash. assert (Hacc : ∀ s acc, is_u64 acc → is_u64 (ex_hash_acc acc s)).
  { intros s. induction s as [|a s IH]; intros acc Hacc; [done|]. apply IH, u64_range. }
  by apply Hacc.
Qed.

Definition ex_targets : gmap string Z := {["n1"%string := 1000; "n2"%string := 24]}.
Definition ex_placement : Placement := mkPlacement 7 [] [].

Lemma assign_exact_and_minimal_witness :
  ∃ p', AssignVNodes ex_hash ex_placement ex_targets = Some p' ∧ cnt "n2" (VNodes p') = 24.
Proof.
  destruct (assign_exact_and_minimal ex_hash ex_placement ex_targets) as (p' & Ha & _ & _ & Hc & _).
  - apply InitializeVNodes_ring.
  - reflexivity.
  - intros n t. unfold ex_targets. rewrite lookup_insert_Some, lookup_singleton_Some. intros H.
    assert (t = 1000 ∨ t = 24) by naive_solver. lia.
  - reflexivity.
  - exists p'. split; [exact Ha|]. rewrite Hc by discriminate. reflexivity.
Defined.

Lemma key_lookup_total_witness :
  ∃ v, InitializeVNodes !! Z.to_nat (vnodeIndex ex_hash "user:1") = Some v ∧
       GetNodesForKey ex_hash (mkPlacement 1 [] InitializeVNodes) "user:1"
         = Some (Primary v, Replicas v).
Proof.
  destruct (key_lookup_total ex_hash ex_hash_u64 (mkPlacement 1 [] InitializeVNodes) "user:1")
    as (v & H1 & H2 & _); [reflexivity|]. exists v. split; [exact H1|exact H2].
Defined.

Lemma token_below_boundary_witness : 3 * TokenBucketSize < 3 * 2 ^ 54.
Proof.
  apply (token_below_boundary 3 (mkVNode 3 (3 * TokenBucketSize) "" [])); [|lia].
  vm_compute. reflexivity.
Defined.
