(* ===== verification/Float64.v ===== *)
(** * IEEE 754 binary64, as Go's [float64] on amd64

    The executable arithmetic of the Standard Library's [SpecFloat] at precision 53:
    every operation is correctly rounded to nearest-even, and no operations are
    fused.  Integers and decimal constants are converted with one rounding. *)

From S2P Require Import Prelude.
From Stdlib Require Export Floats.SpecFloat.

Definition f64 : Type := spec_float.

Definition fadd (x y : f64) : f64 := SFadd 53 1024 x y.
Definition fsub (x y : f64) : f64 := SFsub 53 1024 x y.
Definition fmul (x y : f64) : f64 := SFmul 53 1024 x y.
Definition fdiv (x y : f64) : f64 := SFdiv 53 1024 x y.

(** [float64(z)] for an integer [z]. *)
Definition of_Z (z : Z) : f64 := binary_normalize 53 1024 z 0 false.

(** The constant [p / q], for [p] and [q] below 2^53. *)
Definition ratio (p q : Z) : f64 := fdiv (of_Z p) (of_Z q).

Definition IsNaN (x : f64) : bool := match x with S754_nan => true | _ => false end.
Definition IsInf (x : f64) : bool := match x with S754_infinity _ => true | _ => false end.

Definition flt (x y : f64) : bool := SFltb x y.
Definition fle (x y : f64) : bool := SFleb x y.
Definition feq (x y : f64) : bool := SFeqb x y.

Definition f0 : f64 := S754_zero false.
Definition f1 : f64 := of_Z 1.

(** [int(math.Floor(x))] for a finite [x]; the conversion of a value outside [int64],
    of an infinity or of a NaN is [-2^63] on amd64. *)
Definition floorZ (x : f64) : Z :=
  match x with
  | S754_zero _ => 0
  | S754_finite s m e =>
      let z := if s then Z.neg m else Z.pos m in
      let r := if 0 <=? e then z * 2 ^ e else Z.div z (2 ^ (- e)) in
      if (- 2 ^ 63 <=? r) && (r <? 2 ^ 63) then r else - 2 ^ 63
  | _ => - 2 ^ 63
  end.

(** [math.Min] *)
Definition fmin (x y : f64) : f64 :=
  match x, y with
  | S754_infinity true, _ | _, S754_infinity true => S754_infinity true
  | S754_nan, _ | _, S754_nan => S754_nan
  | S754_zero s, S754_zero s' => S754_zero (s || s')
  | _, _ => if flt x y then x else y
  end.
