(* ===== verification/FloatError.v ===== *)
(** * Rounding error of binary64 operations

    Bounds on the relative error of addition, division and multiplication of non-negative
    binary64 numbers, proved from the definitions of [SpecFloat].  The bounds are a few
    units in the last place, which is all the weighted split of vnodes needs. *)

From S2P Require Import Prelude Float64.
From Stdlib Require Import QArith Qpower Qabs Lqa.

Local Open Scope Z_scope.

(** ** Powers of two *)

Definition p2 (e : Z) : Q := Qpower 2 e.

Lemma p2_pos e : (0 < p2 e)%Q.
Proof. apply Qpower_0_lt. reflexivity. Qed.

Lemma p2_add a b : (p2 (a + b) == p2 a * p2 b)%Q.
Proof. apply Qpower_plus. discriminate. Qed.

Lemma p2_Z n : 0 <= n → (p2 n == inject_Z (2 ^ n))%Q.
Proof. intros Hn. unfold p2. symmetry. by apply (Zpower_Qpower 2 n). Qed.

Lemma p2_ge1 n : 0 <= n → (1 <= p2 n)%Q.
Proof.
  intros Hn. rewrite p2_Z by done. change 1%Q with (inject_Z 1). rewrite <-Zle_Qle.
  pose proof (Z.pow_pos_nonneg 2 n). lia.
Qed.

Lemma p2_mono a b : a <= b → (p2 a <= p2 b)%Q.
Proof.
  intros Hab. replace b with (a + (b - a)) by lia. rewrite p2_add.
  pose proof (p2_pos a). pose proof (p2_ge1 (b - a) ltac:(lia)). nra.
Qed.

Lemma p2_shift m a b : a <= b → (inject_Z m * p2 b == inject_Z (m * 2 ^ (b - a)) * p2 a)%Q.
Proof.
  intros Hab. replace b with (a + (b - a)) at 1 by lia.
  rewrite p2_add, inject_Z_mult, <-p2_Z by lia. ring.
Qed.

(** ** Digits *)

Lemma digits2_bounds p :
  2 ^ (Zpos (digits2_pos p) - 1) <= Zpos p < 2 ^ Zpos (digits2_pos p).
Proof.
  induction p as [p IH|p IH|]; cbn [digits2_pos]; [| |done].
  all: set (d := Zpos (digits2_pos p)) in *; rewrite Pos2Z.inj_succ; fold d.
  all: replace (Z.succ d - 1) with d by lia; rewrite Z.pow_succ_r by (unfold d; lia).
  all: assert (2 ^ d = 2 * 2 ^ (d - 1)) by (rewrite <-Z.pow_succ_r by (unfold d; lia); f_equal; lia); lia.
Qed.

Lemma Zdigits2_bounds m : 0 < m → 2 ^ (Zdigits2 m - 1) <= m < 2 ^ Zdigits2 m ∧ 1 <= Zdigits2 m.
Proof. destruct m as [|p|p]; intros; try lia. simpl. split; [apply digits2_bounds|lia]. Qed.

Lemma Zdigits2_lower m k : 0 <= k → 2 ^ k <= m → k + 1 <= Zdigits2 m.
Proof.
  intros Hk Hm. pose proof (Z.pow_pos_nonneg 2 k). destruct (Zdigits2_bounds m) as [[_ Hlt] _]; [lia|].
  assert (2 ^ k < 2 ^ Zdigits2 m) as H1 by lia. apply Z.pow_lt_mono_r_iff in H1; [lia|lia|].
  destruct m; simpl; lia.
Qed.

(** ** Truncation *)

Definition fexp64 : Z → Z := fexp 53 1024.
Definition emin64 : Z := -1074.

Lemma fexp64_cases k : fexp64 k = k - 53 ∧ emin64 <= k - 53 ∨ fexp64 k = emin64 ∧ k - 53 <= emin64.
Proof. unfold fexp64, fexp, emin, emin64. lia. Qed.

Lemma shr_1_half r : 0 <= shr_m r → shr_m (shr_1 r) = shr_m r / 2.
Proof.
  destruct r as [m rr s]. simpl. intros Hm. destruct m as [|[p|p|]|p]; try done.
  - simpl. rewrite Pos2Z.inj_xI. rewrite (Z.mul_comm 2), Z.div_add_l by lia. rewrite Z.div_small by lia. lia.
  - simpl. rewrite Pos2Z.inj_xO. rewrite (Z.mul_comm 2), Z.div_mul by lia. done.
Qed.

Lemma iter_shr_1 (p : positive) r : 0 <= shr_m r → shr_m (SpecFloat.iter_pos shr_1 p r) = shr_m r / 2 ^ Zpos p.
Proof.
  revert r. induction p as [p IH|p IH|]; intros r Hr; cbn [SpecFloat.iter_pos].
  - assert (H2 : 0 < 2 ^ Zpos p) by (apply Z.pow_pos_nonneg; lia).
    assert (H1 : 0 <= shr_m (shr_1 r)) by (rewrite shr_1_half by done; apply Z.div_pos; lia).
    rewrite IH; rewrite IH by done; [|apply Z.div_pos; done]. rewrite shr_1_half, !Z.div_div by nia.
    f_equal. replace (Zpos p~1) with (1 + Zpos p + Zpos p) by lia. rewrite !Z.pow_add_r by lia. lia.
  - assert (H2 : 0 < 2 ^ Zpos p) by (apply Z.pow_pos_nonneg; lia).
    rewrite IH; rewrite IH by done; [|apply Z.div_pos; done]. rewrite Z.div_div by lia.
    f_equal. replace (Zpos p~0) with (Zpos p + Zpos p) by lia. by rewrite Z.pow_add_r by lia.
  - by rewrite shr_1_half.
Qed.

Lemma shr_fexp_spec m e l mrs e' :
  0 <= m → shr_fexp 53 1024 m e l = (mrs, e') →
  e' = Z.max e (fexp64 (Zdigits2 m + e)) ∧ shr_m mrs = m / 2 ^ (e' - e) ∧ (e' = e → loc_of_shr_record mrs = l).
Proof.
  intros Hm. unfold shr_fexp. fold fexp64. set (k := fexp64 (Zdigits2 m + e)).
  assert (Hr : shr_m (shr_record_of_loc m l) = m ∧ loc_of_shr_record (shr_record_of_loc m l) = l)
    by by destruct l as [|[]].
  destruct Hr as [Hr Hl]. unfold shr. destruct (k - e) as [|p|p] eqn:E; intros [= <- <-].
  - replace (Z.max e k) with e by lia. rewrite Z.sub_diag, Z.div_1_r. done.
  - split; [lia|]. rewrite iter_shr_1, Hr by lia. split; [do 2 f_equal; lia|lia].
  - replace (Z.max e k) with e by lia. rewrite Z.sub_diag, Z.div_1_r. done.
Qed.

Lemma trunc_bounds m e e' x :
  e <= e' → (inject_Z m * p2 e <= x)%Q → (x < inject_Z (m + 1) * p2 e)%Q →
  (inject_Z (m / 2 ^ (e' - e)) * p2 e' <= x)%Q ∧ (x < inject_Z (m / 2 ^ (e' - e) + 1) * p2 e')%Q.
Proof.
  intros He Hl Hu. rewrite !(p2_shift _ e e') by done. pose proof (p2_pos e) as Hp.
  assert (Hn : 0 < 2 ^ (e' - e)) by (apply Z.pow_pos_nonneg; lia).
  pose proof (Z.div_mod m (2 ^ (e' - e)) ltac:(lia)). pose proof (Z.mod_pos_bound m (2 ^ (e' - e)) Hn).
  split.
  - eapply Qle_trans; [|exact Hl]. apply Qmult_le_compat_r; [|by apply Qlt_le_weak]. rewrite <-Zle_Qle. nia.
  - eapply Qlt_le_trans; [exact Hu|]. apply Qmult_le_compat_r; [|by apply Qlt_le_weak]. rewrite <-Zle_Qle. nia.
Qed.

(** One unit in the last place of a 53-digit mantissa. *)
Definition ulp : Q := 1 # 4503599627370496.

Lemma p2_ulp : (p2 (-52) == ulp)%Q.
Proof. reflexivity. Qed.

Lemma ulp_small m e x : 0 < m → (inject_Z m * p2 e <= x)%Q → (p2 (Zdigits2 m + e - 53) <= ulp * x)%Q.
Proof.
  intros Hm Hx. destruct (Zdigits2_bounds m Hm) as [[Hl _] Hd].
  replace (Zdigits2 m + e - 53) with (-52 + ((Zdigits2 m - 1) + e)) by lia. rewrite !p2_add, p2_ulp.
  apply Qmult_le_l; [reflexivity|]. eapply Qle_trans; [|exact Hx].
  apply Qmult_le_compat_r; [|apply Qlt_le_weak, p2_pos]. rewrite p2_Z by lia. by rewrite <-Zle_Qle.
Qed.

Lemma round_choice m l : round_nearest_even m l = m ∨ round_nearest_even m l = m + 1.
Proof. destruct l as [|[]]; simpl; try case_match; auto. Qed.

#[export] Instance location_eq_dec : EqDecision location.
Proof. solve_decision. Defined.

(** The first step of rounding: truncate and choose a neighbour. *)
Lemma first_round m e l x mrs e1 :
  0 <= m → (inject_Z m * p2 e <= x)%Q → (x < inject_Z (m + 1) * p2 e)%Q →
  (l = loc_Exact → x == inject_Z m * p2 e)%Q → l = loc_Exact ∨ e <= fexp64 (Zdigits2 m + e) →
  shr_fexp 53 1024 m e l = (mrs, e1) →
  let r := round_nearest_even (shr_m mrs) (loc_of_shr_record mrs) in
  0 <= r ∧ emin64 <= e1 ∧
  ∃ u, (0 <= u)%Q ∧ (x - u <= inject_Z r * p2 e1)%Q ∧ (inject_Z r * p2 e1 <= x + u)%Q ∧
    ((u <= ulp * x)%Q ∨ (u <= p2 emin64)%Q ∧ ¬ (l = loc_Exact ∧ emin64 <= e)).
Proof.
  intros Hm Hl Hu Hex Hc Hs r. destruct (shr_fexp_spec m e l mrs e1 Hm Hs) as (He1 & Hm1 & Hloc).
  pose proof (p2_pos e) as Hpe. pose proof (p2_pos e1) as Hpe1.
  assert (Hx0 : (0 <= x)%Q).
  { eapply Qle_trans; [|exact Hl]. apply Qmult_le_0_compat; [|by apply Qlt_le_weak].
    change 0%Q with (inject_Z 0). by rewrite <-Zle_Qle. }
  destruct (trunc_bounds m e e1 x ltac:(lia) Hl Hu) as [Hl1 Hu1]. rewrite <-Hm1 in Hl1, Hu1.
  assert (Hm1pos : 0 <= shr_m mrs) by (rewrite Hm1; apply Z.div_pos; [done|apply Z.pow_pos_nonneg; lia]).
  destruct (round_choice (shr_m mrs) (loc_of_shr_record mrs)) as [Hr|Hr]; fold r in Hr.
  all: split; [lia|]; split; [pose proof (fexp64_cases (Zdigits2 m + e)); lia|].
  all: rewrite inject_Z_plus in Hu1; change (inject_Z 1) with 1%Q in Hu1.
  all: destruct (decide (l = loc_Exact ∧ e1 = e)) as [[-> ->]|Hne];
    [exists 0%Q; assert (Hre : r = m) by (unfold r; rewrite Hloc, Hm1, Z.sub_diag, Z.div_1_r by done; done);
     rewrite Hre, (Hex eq_refl); unfold ulp; (split; [apply Qle_refl|]); split; [lra|]; split; [lra|];
     left; rewrite (Hex eq_refl) in Hx0; lra|].
  all: exists (p2 e1); rewrite Hr, ?inject_Z_plus; change (inject_Z 1) with 1%Q.
  all: split; [by apply Qlt_le_weak|]; split; [lra|]; split; [lra|].
  all: assert (Hfe : e1 = fexp64 (Zdigits2 m + e)) by (destruct (decide (e1 = e)); [destruct Hc; [tauto|lia]|lia]).
  all: destruct (fexp64_cases (Zdigits2 m + e)) as [[Hk Hk']|[Hk Hk']];
    [left; rewrite Hfe, Hk; apply ulp_small; [|done]; destruct m; simpl in *; lia|right].
  all: rewrite Hfe, Hk; split; [apply Qle_refl|]; intros [-> ?]; apply Hne; split; [done|]; lia.
Qed.

(** The second step: renormalise after a carry. *)
Lemma second_round r e1 mrs e2 :
  0 <= r → emin64 <= e1 → shr_fexp 53 1024 r e1 loc_Exact = (mrs, e2) →
  let z := (inject_Z r * p2 e1)%Q in
  let y := (inject_Z (shr_m mrs) * p2 e2)%Q in
  0 <= shr_m mrs ∧ emin64 <= e2 ∧ (z - ulp * z <= y)%Q ∧ (y <= z)%Q.
Proof.
  intros Hr He Hs z y. destruct (shr_fexp_spec r e1 _ mrs e2 Hr Hs) as (He2 & Hm2 & _).
  pose proof (p2_pos e1) as Hp.
  assert (Hz0 : (0 <= z)%Q).
  { apply Qmult_le_0_compat; [|by apply Qlt_le_weak]. change 0%Q with (inject_Z 0). by rewrite <-Zle_Qle. }
  split; [rewrite Hm2; apply Z.div_pos; [done|apply Z.pow_pos_nonneg; lia]|]. split; [lia|].
  destruct (trunc_bounds r e1 e2 z ltac:(lia)) as [Hl Hu]; [apply Qle_refl| |].
  { unfold z. rewrite inject_Z_plus. change (inject_Z 1) with 1%Q. lra. }
  rewrite <-Hm2 in Hl, Hu. fold y in Hl. split; [|exact Hl].
  rewrite inject_Z_plus in Hu. change (inject_Z 1) with 1%Q in Hu.
  destruct (decide (e2 = e1)) as [->|Hne].
  - rewrite Z.sub_diag, Z.div_1_r in Hm2. unfold y. rewrite Hm2. fold z. unfold ulp. lra.
  - destruct (fexp64_cases (Zdigits2 r + e1)) as [[Hk _]|[Hk _]]; [|lia].
    assert (H2 : (p2 e2 <= ulp * z)%Q).
    { replace e2 with (Zdigits2 r + e1 - 53) by lia. apply ulp_small; [|apply Qle_refl].
      destruct r; simpl in *; lia. }
    unfold y in *. lra.
Qed.

(** The value of a non-negative finite number. *)
Definition represents (f : f64) (y : Q) : Prop :=
  match f with
  | S754_zero _ => (y == 0)%Q
  | S754_finite false m e => (y == inject_Z (Zpos m) * p2 e)%Q ∧ emin64 <= e
  | _ => False
  end.

(** [y] approximates [x] up to four units in the last place (and [t]). *)
Definition near (t x y : Q) : Prop := (x - 4 * ulp * x - t <= y)%Q ∧ (y <= x + 4 * ulp * x + t)%Q.

#[export] Instance near_proper : Proper (Qeq ==> Qeq ==> Qeq ==> iff) near.
Proof. intros t t' Ht x x' Hx y y' Hy. unfold near. by rewrite Ht, Hx, Hy. Qed.

Definition tiny : Q := p2 (-1072).

Lemma tiny_emin : (tiny == 4 * p2 emin64)%Q.
Proof. unfold tiny, emin64. change (-1072) with (2 + -1074). rewrite p2_add. reflexivity. Qed.

Lemma round_aux_spec m e l x :
  0 <= m → (inject_Z m * p2 e <= x)%Q → (x < inject_Z (m + 1) * p2 e)%Q →
  (l = loc_Exact → x == inject_Z m * p2 e)%Q → l = loc_Exact ∨ e <= fexp64 (Zdigits2 m + e) →
  ∃ y, near (if bool_decide (l = loc_Exact ∧ emin64 <= e) then 0 else tiny) x y ∧
    (binary_round_aux 53 1024 false m e l = S754_infinity false ∧ (p2 970 <= y)%Q ∨
     represents (binary_round_aux 53 1024 false m e l) y).
Proof.
  intros Hm Hl Hu Hex Hc. unfold binary_round_aux.
  destruct (shr_fexp 53 1024 m e l) as [mrs1 e1] eqn:E1.
  destruct (first_round m e l x mrs1 e1 Hm Hl Hu Hex Hc E1) as (Hr & He1 & u & Hu0 & Hz1 & Hz2 & Hbound).
  set (r := round_nearest_even (shr_m mrs1) (loc_of_shr_record mrs1)) in *.
  destruct (shr_fexp 53 1024 r e1 loc_Exact) as [mrs2 e2] eqn:E2.
  destruct (second_round r e1 mrs2 e2 Hr He1 E2) as (Hm2 & He2 & Hy1 & Hy2).
  exists (inject_Z (shr_m mrs2) * p2 e2)%Q. split.
  - pose proof (p2_pos emin64). pose proof tiny_emin as Ht. unfold near, ulp in *.
    destruct Hbound as [Hb|[Hb Hn]].
    + case_bool_decide; rewrite ?Ht; lra.
    + rewrite bool_decide_false by done. rewrite Ht. lra.
  - destruct (shr_m mrs2) as [|p|p] eqn:Es; [right; simpl; ring| |lia].
    destruct (e2 <=? 1024 - 53) eqn:Ele; bool_to_prop; [right; simpl; split; [reflexivity|done]|left].
    split; [done|]. pose proof (p2_pos e2).
    assert (H970 : (p2 970 <= p2 e2)%Q) by (apply p2_mono; lia). eapply Qle_trans; [exact H970|].
    rewrite <-(Qmult_1_l (p2 e2)) at 1. apply Qmult_le_compat_r; [|by apply Qlt_le_weak].
    change 1%Q with (inject_Z 1). rewrite <-Zle_Qle. lia.
Qed.

(** ** Operations *)

Lemma represents_nonneg f y : represents f y → (0 <= y)%Q.
Proof.
  destruct f as [| | |[] m e]; simpl; try done; [intros ->; apply Qle_refl|]. intros [-> _].
  apply Qmult_le_0_compat; [done|apply Qlt_le_weak, p2_pos].
Qed.

Lemma near_refl x : (0 <= x)%Q → near 0 x x.
Proof. intros Hx. unfold near, ulp. split; lra. Qed.

Lemma represents_Qeq f x y : (x == y)%Q → represents f x → represents f y.
Proof. destruct f as [| | |[] m e]; simpl; try done; intros <-; done. Qed.

Lemma iter_xO m d : Zpos (Pos.iter xO m d) = Zpos m * 2 ^ Zpos d.
Proof.
  induction d as [|d IH] using Pos.peano_ind; [simpl; lia|].
  rewrite Pos.iter_succ, Pos2Z.inj_xO, IH, Pos2Z.inj_succ, Z.pow_succ_r by lia. ring.
Qed.

Lemma shl_align_value m e e' :
  (inject_Z (Zpos (shl_align m e e').1) * p2 (Z.min e e') == inject_Z (Zpos m) * p2 e)%Q ∧
  (shl_align m e e').2 = Z.min e e'.
Proof.
  unfold shl_align. destruct (e' - e) as [|d|d] eqn:E; simpl; [replace (Z.min e e') with e by lia; done..|].
  replace (Z.min e e') with e' by lia. split; [|done]. rewrite iter_xO, (p2_shift (Zpos m) e' e) by lia.
  do 3 f_equal. replace (e - e') with (Zpos d) by lia. reflexivity.
Qed.

Lemma fadd_spec f g x y :
  represents f x → represents g y →
  ∃ z, near 0 (x + y) z ∧ (fadd f g = S754_infinity false ∧ (p2 970 <= z)%Q ∨ represents (fadd f g) z).
Proof.
  intros Hf Hg. pose proof (represents_nonneg _ _ Hf) as Hx. pose proof (represents_nonneg _ _ Hg) as Hy.
  unfold fadd. destruct f as [sf| | |[] mf ef]; try done; destruct g as [sg| | |[] mg eg]; try done.
  - exists (x + y)%Q. split; [apply near_refl; lra|right].
    change (x == 0)%Q in Hf. change (y == 0)%Q in Hg.
    destruct sf, sg; change (x + y == 0)%Q; rewrite Hf, Hg; reflexivity.
  - exists (x + y)%Q. split; [apply near_refl; lra|right]. eapply (represents_Qeq _ y); [|exact Hg].
    change (x == 0)%Q in Hf. rewrite Hf. ring.
  - exists (x + y)%Q. split; [apply near_refl; lra|right]. eapply (represents_Qeq _ x); [|exact Hf].
    change (y == 0)%Q in Hg. rewrite Hg. ring.
  - cbn [SFadd cond_Zopp]. destruct Hf as [Hxf Hef], Hg as [Hyg Heg]. set (ez := Z.min ef eg).
    destruct (shl_align_value mf ef ez) as [Hvf _]. destruct (shl_align_value mg eg ez) as [Hvg _].
    replace (Z.min ef ez) with ez in Hvf by lia. replace (Z.min eg ez) with ez in Hvg by lia.
    set (pf := (shl_align mf ef ez).1) in *. set (pg := (shl_align mg eg ez).1) in *.
    change (Zpos pf + Zpos pg) with (Zpos (pf + pg)). cbn [binary_normalize]. unfold binary_round.
    fold fexp64. set (k := fexp64 (Zpos (digits2_pos (pf + pg)) + ez)).
    destruct (shl_align_value (pf + pg) ez k) as [Hv Hez].
    destruct (shl_align (pf + pg) ez k) as [mz e'] eqn:Es. simpl in Hv, Hez. subst e'.
    assert (Hsum : (x + y == inject_Z (Zpos mz) * p2 (Z.min ez k))%Q).
    { rewrite Hv, Hxf, Hyg, <-Hvf, <-Hvg, Pos2Z.inj_add, inject_Z_plus. ring. }
    assert (Hemin : emin64 <= Z.min ez k) by (pose proof (fexp64_cases (Zpos (digits2_pos (pf + pg)) + ez)); lia).
    destruct (round_aux_spec (Zpos mz) (Z.min ez k) loc_Exact (x + y)) as (z & Hz & Hres);
      [lia|rewrite Hsum; apply Qle_refl| |by intros _|by left|].
    { rewrite Hsum, inject_Z_plus. change (inject_Z 1) with 1%Q. pose proof (p2_pos (Z.min ez k)). lra. }
    rewrite bool_decide_true in Hz by done. exists z. split; [done|]. exact Hres.
Qed.

Lemma fmul_finite_spec mf ef mg eg :
  ∃ z, near tiny (inject_Z (Zpos mf) * p2 ef * (inject_Z (Zpos mg) * p2 eg)) z ∧
    (fmul (S754_finite false mf ef) (S754_finite false mg eg) = S754_infinity false ∧ (p2 970 <= z)%Q ∨
     represents (fmul (S754_finite false mf ef) (S754_finite false mg eg)) z).
Proof.
  set (x := (inject_Z (Zpos mf) * p2 ef * (inject_Z (Zpos mg) * p2 eg))%Q).
  assert (Hx : (x == inject_Z (Zpos (mf * mg)) * p2 (ef + eg))%Q).
  { unfold x. rewrite Pos2Z.inj_mul, inject_Z_mult, p2_add. ring. }
  pose proof (p2_pos (ef + eg)) as Hp. pose proof (p2_pos emin64) as Hpm.
  destruct (round_aux_spec (Zpos (mf * mg)) (ef + eg) loc_Exact x) as (z & Hz & Hres);
    [lia|rewrite Hx; apply Qle_refl| |by intros _|by left|].
  { rewrite Hx, inject_Z_plus. change (inject_Z 1) with 1%Q. lra. }
  exists z. split; [|exact Hres]. pose proof tiny_emin as Ht. unfold near in *.
  case_bool_decide; [|done]. rewrite Ht. split; lra.
Qed.

Lemma new_location_exact nb k : new_location nb k = loc_Exact → k = 0.
Proof.
  unfold new_location, new_location_even, new_location_odd.
  repeat case_match; bool_to_prop; done.
Qed.

(** The quotient of the mantissas has enough digits, or its exponent is the smallest one. *)
Lemma div_digits m1 e1 m2 e2 :
  let e' := Z.min (fexp64 (Zpos (digits2_pos m1) + e1 - (Zpos (digits2_pos m2) + e2))) (e1 - e2) in
  let q := Zpos m1 * 2 ^ (e1 - e2 - e') / Zpos m2 in
  e' <= fexp64 (Zdigits2 q + e').
Proof.
  intros e' q. set (d1 := Zpos (digits2_pos m1)) in *. set (d2 := Zpos (digits2_pos m2)) in *.
  set (E := d1 + e1 - (d2 + e2)) in *. set (s := e1 - e2 - e') in *.
  destruct (decide (e' <= emin64)) as [Hle|Hgt].
  { pose proof (fexp64_cases (Zdigits2 q + e')). lia. }
  assert (Hfe : fexp64 E = E - 53) by (pose proof (fexp64_cases E); lia).
  assert (Hpow : 2 ^ (d1 + s - 1 - d2) <= q).
  { apply Z.div_le_lower_bound; [lia|]. pose proof (digits2_bounds m1) as [H1 _]. pose proof (digits2_bounds m2) as [_ H2].
    fold d1 in H1. fold d2 in H2. assert (0 < 2 ^ s) by (apply Z.pow_pos_nonneg; lia).
    assert (Hprod : 2 ^ d2 * 2 ^ (d1 + s - 1 - d2) = 2 ^ (d1 - 1) * 2 ^ s)
      by (rewrite <-!Z.pow_add_r by lia; f_equal; lia).
    assert (0 < 2 ^ (d1 + s - 1 - d2)) by (apply Z.pow_pos_nonneg; lia). nia. }
  pose proof (Zdigits2_lower q (d1 + s - 1 - d2) ltac:(lia) Hpow).
  pose proof (fexp64_cases (Zdigits2 q + e')). lia.
Qed.

Lemma fdiv_finite_spec mf ef mg eg :
  let x := (inject_Z (Zpos mf) * p2 ef / (inject_Z (Zpos mg) * p2 eg))%Q in
  ∃ z, near tiny x z ∧
    (fdiv (S754_finite false mf ef) (S754_finite false mg eg) = S754_infinity false ∧ (p2 970 <= z)%Q ∨
     represents (fdiv (S754_finite false mf ef) (S754_finite false mg eg)) z).
Proof.
  intros x. unfold fdiv. cbn [SFdiv xorb]. unfold SFdiv_core_binary. cbn [Zdigits2]. fold fexp64.
  set (e' := Z.min _ _). set (s := ef - eg - e').
  assert (Hs : 0 <= s) by lia.
  replace (match s with Z0 => Zpos mf | Zpos _ => Z.shiftl (Zpos mf) s | Zneg _ => 0 end)
    with (Zpos mf * 2 ^ s) by (destruct s; rewrite ?Z.shiftl_mul_pow2 by lia; lia).
  pose proof (Z_div_mod (Zpos mf * 2 ^ s) (Zpos mg) ltac:(lia)) as Hdm.
  destruct (Z.div_eucl (Zpos mf * 2 ^ s) (Zpos mg)) as [q r] eqn:Eq. destruct Hdm as [Hdm Hr].
  assert (Hq : q = Zpos mf * 2 ^ s / Zpos mg) by (unfold Z.div; by rewrite Eq).
  assert (Hq0 : 0 <= q) by (rewrite Hq; apply Z.div_pos; [|lia]; apply Z.mul_nonneg_nonneg; [lia|apply Z.pow_nonneg; lia]).
  pose proof (p2_pos e') as Hpe. pose proof (p2_pos eg) as Hpg.
  assert (Hmg : (0 < inject_Z (Zpos mg))%Q) by done.
  assert (Hx : (x * inject_Z (Zpos mg) == inject_Z (Zpos mf * 2 ^ s) * p2 e')%Q).
  { unfold x. rewrite inject_Z_mult, <-p2_Z by done.
    assert (Hpp : (p2 ef == p2 eg * (p2 s * p2 e'))%Q) by (rewrite <-!p2_add; unfold s; f_equiv; lia).
    rewrite Hpp. field. split; [apply Qnot_eq_sym, Qlt_not_eq, Hpg|done]. }
  assert (Hlow : (inject_Z q * p2 e' <= x)%Q).
  { apply (Qmult_le_r _ _ (inject_Z (Zpos mg)) Hmg). rewrite Hx, <-Qmult_assoc, (Qmult_comm (p2 e')), Qmult_assoc, <-inject_Z_mult.
    apply Qmult_le_compat_r; [|by apply Qlt_le_weak]. rewrite <-Zle_Qle. lia. }
  assert (Hup : (x < inject_Z (q + 1) * p2 e')%Q).
  { apply (Qmult_lt_r _ _ (inject_Z (Zpos mg)) Hmg). rewrite Hx, <-Qmult_assoc, (Qmult_comm (p2 e')), Qmult_assoc, <-inject_Z_mult.
    apply Qmult_lt_r; [done|]. rewrite <-Zlt_Qlt. lia. }
  destruct (round_aux_spec q e' (new_location (Zpos mg) r) x Hq0 Hlow Hup) as (z & Hz & Hres).
  { intros Hl%new_location_exact. subst r. apply (Qmult_inj_r _ _ (inject_Z (Zpos mg))); [done|].
    rewrite Hx, Hdm, Z.add_0_r, inject_Z_mult. ring. }
  { right. rewrite Hq. apply div_digits. }
  exists z. split; [|exact Hres]. pose proof tiny_emin as Ht. pose proof (p2_pos emin64). unfold near in *.
  case_bool_decide; [|done]. rewrite Ht. split; lra.
Qed.

Lemma floorZ_spec f y :
  represents f y → (y < p2 62)%Q → (inject_Z (floorZ f) <= y)%Q ∧ (y < inject_Z (floorZ f) + 1)%Q ∧ 0 <= floorZ f.
Proof.
  intros Hf Hy. destruct f as [| | |[] m e]; try done.
  { change (y == 0)%Q in Hf. rewrite Hf in Hy |- *. split_and!; done. }
  destruct Hf as [Hv He]. cbn [floorZ]. set (r := if 0 <=? e then Zpos m * 2 ^ e else Zpos m / 2 ^ (- e)).
  assert (Hr : (inject_Z r <= y)%Q ∧ (y < inject_Z r + 1)%Q ∧ 0 <= r).
  { unfold r. destruct (0 <=? e) eqn:E; bool_to_prop.
    - rewrite Hv, inject_Z_mult, <-p2_Z by done. split; [apply Qle_refl|]. split; [lra|].
      apply Z.mul_nonneg_nonneg; [lia|apply Z.pow_nonneg; lia].
    - pose proof (trunc_bounds (Zpos m) e 0 y ltac:(lia)) as Ht. rewrite Z.sub_0_l in Ht.
      destruct Ht as [H1 H2]; [rewrite Hv; apply Qle_refl|rewrite Hv, inject_Z_plus; change (inject_Z 1) with 1%Q; pose proof (p2_pos e); lra|].
      change (p2 0) with 1%Q in *. rewrite Qmult_1_r in H1, H2. rewrite inject_Z_plus in H2.
      split; [done|]. split; [exact H2|]. apply Z.div_pos; [lia|apply Z.pow_pos_nonneg; lia]. }
  destruct Hr as (H1 & H2 & H3).
  assert (Hlt : r < 2 ^ 63).
  { assert ((inject_Z r < inject_Z (2 ^ 62))%Q) as Hq by (eapply Qle_lt_trans; [exact H1|]; by rewrite <-p2_Z).
    rewrite <-Zlt_Qlt in Hq. lia. }
  rewrite (proj2 (Z.leb_le _ _)), (proj2 (Z.ltb_lt _ _)) by lia. done.
Qed.
