(* ===== verification/Score.v ===== *)
(** * Node scores, target counts and replica choice
    ([src/cluster/score.go], [src/cluster/placement.go]) *)

From stdpp Require Import sorting.
From S2P Require Import Prelude Float64 Placement.

Record NodeMetrics := mkMetrics {
  NodeID : string;
  AvgRTT : f64;
  CPUCores : Z;
  MemGB : Z;
  BandwidthMbps : Z;
  DiskGB : Z;
  CPUUsage : f64;
  MemUsage : f64;
  NetUsage : f64;
  DiskUsage : f64
}.

Definition WeightRTT : f64 := ratio 31 100.
Definition WeightCPU : f64 := ratio 15 100.
Definition WeightMEM : f64 := ratio 16 100.
Definition WeightNET : f64 := ratio 24 100.
Definition WeightDisk : f64 := ratio 14 100.
Definition eps : f64 := ratio 1 1000000000.

Definition maxInt (v fallback : Z) : Z := if 0 <? v then v else fallback.

Definition clampMetric (v : f64) : f64 :=
  if IsNaN v || IsInf v then f0
  else if flt v f0 then f0
  else if flt f1 v then f1
  else v.

(** [x <= 0 || math.IsNaN(x) || math.IsInf(x, 0)] *)
Definition bad (x : f64) : bool := fle x f0 || IsNaN x || IsInf x.
Definition orElse (x fallback : f64) : f64 := if bad x then fallback else x.

(** ** [CalculateScores] *)

Record Totals := mkTotals { tRTT : f64; tCPU : f64; tMem : f64; tNet : f64; tDisk : f64 }.

Definition totals (metrics : list NodeMetrics) : Totals :=
  foldl (λ t m, mkTotals
    (fadd (tRTT t) (orElse (AvgRTT m) f1))
    (fadd (tCPU t) (of_Z (maxInt (CPUCores m) 1)))
    (fadd (tMem t) (of_Z (maxInt (MemGB m) 1)))
    (fadd (tNet t) (of_Z (maxInt (BandwidthMbps m) 1)))
    (fadd (tDisk t) (of_Z (maxInt (DiskGB m) 1))))
    (mkTotals f0 f0 f0 f0 f0) metrics.

Record Averages := mkAverages { aRTT : f64; aCPU : f64; aMem : f64; aNet : f64; aDisk : f64 }.

Definition averages (metrics : list NodeMetrics) : Averages :=
  let n := of_Z (Z.of_nat (length metrics)) in
  let t := totals metrics in
  mkAverages (orElse (fdiv (tRTT t) n) f1) (orElse (fdiv (tCPU t) n) f1)
    (orElse (fdiv (tMem t) n) f1) (orElse (fdiv (tNet t) n) f1) (orElse (fdiv (tDisk t) n) f1).

Definition score (a : Averages) (m : NodeMetrics) : f64 :=
  let rtt := orElse (AvgRTT m) (aRTT a) in
  let rsCPU := orElse (fdiv (of_Z (maxInt (CPUCores m) 1)) (aCPU a)) f1 in
  let rsMEM := orElse (fdiv (of_Z (maxInt (MemGB m) 1)) (aMem a)) f1 in
  let rsNET := orElse (fdiv (of_Z (maxInt (BandwidthMbps m) 1)) (aNet a)) f1 in
  let rsDisk := orElse (fdiv (of_Z (maxInt (DiskGB m) 1)) (aDisk a)) f1 in
  let diskPenalty :=
    fdiv f1 (fsub (ratio 101 100) (fmin (clampMetric (DiskUsage m)) (ratio 99 100))) in
  fadd (fadd (fadd (fadd
    (fmul WeightRTT (fdiv rtt (fadd (aRTT a) eps)))
    (fmul WeightCPU (fdiv (clampMetric (CPUUsage m)) rsCPU)))
    (fmul WeightMEM (fdiv (clampMetric (MemUsage m)) rsMEM)))
    (fmul WeightNET (fdiv (clampMetric (NetUsage m)) rsNET)))
    (fmul WeightDisk (fdiv diskPenalty rsDisk)).

Definition CalculateScores (metrics : list NodeMetrics) : list NodeInfo :=
  let a := averages metrics in
  (λ m, mkNodeInfo (NodeID m) (score a m)) <$> metrics.

(** ** [GetTargetVNodeCount] *)

Record alloc := mkAlloc { aID : string; base : Z; frac : f64 }.

Definition weight (n : NodeInfo) : f64 :=
  let s := Score n in
  let s := if flt s f0 || IsNaN s || IsInf s then f1 else s in
  fdiv f1 (fadd s eps).

Definition totalWeight (nodes : list NodeInfo) : f64 :=
  foldl (λ t n, fadd t (weight n)) f0 nodes.

(** The fallback when the weights are unusable: an even split. *)
Definition evenCounts (nodes : list NodeInfo) : gmap string Z :=
  let each := VNodeCount / Z.of_nat (length nodes) in
  let rem := VNodeCount mod Z.of_nat (length nodes) in
  foldl (λ m (p : nat * NodeInfo), <[nID p.2 := if Z.of_nat p.1 <? rem then each + 1 else each]> m) ∅
    (imap pair nodes).

Definition allocOf (total : f64) (n : NodeInfo) : alloc :=
  let ideal := fmul (fdiv (weight n) total) (of_Z VNodeCount) in
  let b := floorZ ideal in
  mkAlloc (nID n) b (fsub ideal (of_Z b)).

(** [sort.Slice]'s order: larger fraction first, then smaller identifier. *)
Definition allocLess (a b : alloc) : bool :=
  if feq (frac a) (frac b) then String.ltb (aID a) (aID b) else flt (frac b) (frac a).
Definition allocLe (a b : alloc) : Prop := allocLess b a = false.
#[export] Instance allocLe_dec : RelDecision allocLe.
Proof. intros a b. unfold allocLe. apply _. Defined.

(** [counts[allocs[i].id]++] for [i] below [rest]; [None]: index out of range. *)
Fixpoint giveRest (counts : gmap string Z) (rest : nat) (allocs : list alloc) : option (gmap string Z) :=
  match rest with
  | O => Some counts
  | S rest =>
      match allocs with
      | [] => None
      | a :: allocs => giveRest (<[aID a := countOf counts (aID a) + 1]> counts) rest allocs
      end
  end.

Definition GetTargetVNodeCount (nodes : list NodeInfo) : option (gmap string Z) :=
  if (length nodes =? 0)%nat then Some ∅
  else
    let total := totalWeight nodes in
    if bad total then Some (evenCounts nodes)
    else
      let allocs := allocOf total <$> nodes in
      let assigned := foldr (λ a s, base a + s) 0 allocs in
      let allocs := merge_sort allocLe allocs in
      let rest := VNodeCount - assigned in
      let counts := foldl (λ m a, <[aID a := base a]> m) ∅ allocs in
      giveRest counts (Z.to_nat rest) allocs.

(** ** The targets add up *)

Fixpoint sumZ (l : list Z) : Z := match l with [] => 0 | x :: l => x + sumZ l end.

Definition nonneg (m : gmap string Z) : Prop := ∀ k c, m !! k = Some c → 0 <= c.

Section table.
Context {E : Type} (key : E → string) (val : E → Z).

(** Filling a table from a list of entries with distinct keys. *)
Definition fill (m : gmap string Z) (l : list E) : gmap string Z :=
  foldl (λ m e, <[key e := val e]> m) m l.

Lemma fill_weight m l :
  NoDup (key <$> l) → (∀ e, e ∈ l → m !! key e = None) →
  map_weight (λ _ x, x) (fill m l) = map_weight (λ _ x, x) m + sumZ (val <$> l).
Proof.
  unfold fill. revert m. induction l as [|e l IH]; intros m Hnd Hm; csimpl; [lia|].
  rewrite fmap_cons in Hnd. apply list.NoDup_cons in Hnd as [He Hnd]. rewrite IH; [| done |].
  - rewrite map_weight_insert_None by (apply Hm; set_solver). lia.
  - intros e' He'. rewrite lookup_insert_ne; [apply Hm; set_solver|].
    intros Heq. apply He. rewrite Heq. by apply list_elem_of_fmap_2.
Qed.

Lemma fill_nonneg m l :
  nonneg m → (∀ e, e ∈ l → 0 <= val e) → nonneg (fill m l).
Proof.
  unfold fill. revert m. induction l as [|e l IH]; intros m Hm Hl; [done|]. simpl. apply IH.
  - intros k c. rewrite lookup_insert. case_decide; [|apply Hm]. intros [= <-]. apply Hl. set_solver.
  - intros e' He'. apply Hl. set_solver.
Qed.

Lemma fill_dom m l k : is_Some (fill m l !! k) ↔ is_Some (m !! k) ∨ k ∈ key <$> l.
Proof.
  unfold fill. revert m. induction l as [|e l IH]; intros m; simpl; [set_solver|].
  rewrite IH, lookup_insert_is_Some, elem_of_cons.
  destruct (decide (key e = k)); naive_solver.
Qed.
End table.

Lemma sumZ_Permutation l l' : l ≡ₚ l' → sumZ l = sumZ l'.
Proof. induction 1; simpl; lia. Qed.

Lemma foldr_base l : foldr (λ a s, base a + s) 0 l = sumZ (base <$> l).
Proof. induction l as [|a l IH]; csimpl; [done|]. by rewrite IH. Qed.

Lemma giveRest_sum counts rest allocs :
  (rest <= length allocs)%nat →
  ∃ counts', giveRest counts rest allocs = Some counts' ∧
    map_weight (λ _ x, x) counts' = map_weight (λ _ x, x) counts + Z.of_nat rest ∧
    (nonneg counts → nonneg counts') ∧
    (Forall (λ a, is_Some (counts !! aID a)) allocs →
     ∀ k, is_Some (counts' !! k) ↔ is_Some (counts !! k)).
Proof.
  revert counts allocs. induction rest as [|rest IH]; intros counts [|a allocs] Hr; simpl in *; try lia.
  - exists counts. split; [done|]. split; [lia|by split].
  - exists counts. split; [done|]. split; [lia|by split].
  - destruct (IH (<[aID a := countOf counts (aID a) + 1]> counts) allocs) as (c' & -> & Hw & Hn & Hd); [lia|].
    exists c'. split; [done|]. split; [|split].
    + rewrite Hw, map_weight_insert. unfold countOf. destruct (counts !! aID a); simpl; lia.
    + intros Hc. apply Hn. intros k c. rewrite lookup_insert. case_decide; [|apply Hc].
      intros [= <-]. unfold countOf. destruct (counts !! aID a) eqn:E; simpl; [|lia].
      apply Hc in E. lia.
    + intros Hf k. apply Forall_cons_iff in Hf as [Ha Hf]. rewrite Hd.
      * rewrite lookup_insert_is_Some. destruct (decide (aID a = k)); naive_solver.
      * eapply Forall_impl; [|exact Hf]. intros b Hb. apply lookup_insert_is_Some.
        destruct (decide (aID a = aID b)); naive_solver.
Qed.

Lemma evenCounts_fill nodes :
  let each := VNodeCount / Z.of_nat (length nodes) in
  let rem := VNodeCount mod Z.of_nat (length nodes) in
  evenCounts nodes = fill (λ p : nat * NodeInfo, nID p.2)
    (λ p, if Z.of_nat p.1 <? rem then each + 1 else each) ∅ (imap pair nodes).
Proof. done. Qed.

(** [each] to all and one more to the first [rem]. *)
Lemma even_sum (each rem : Z) (nodes : list NodeInfo) k :
  sumZ ((λ p : nat * NodeInfo, if Z.of_nat p.1 <? rem then each + 1 else each)
          <$> imap (λ i n, ((k + i)%nat, n)) nodes)
  = each * Z.of_nat (length nodes)
    + Z.max 0 (Z.min rem (Z.of_nat (k + length nodes)) - Z.of_nat k).
Proof.
  revert k. induction nodes as [|n nodes IH]; intros k; cbn [imap fmap list_fmap sumZ length]; [simpl; lia|].
  rewrite (imap_ext _ (λ i n, ((S k + i)%nat, n)) nodes) by (intros; simpl; f_equal; lia).
  rewrite IH. simpl. rewrite Nat.add_0_r. case_match; bool_to_prop; lia.
Qed.

(** The targets cover exactly the nodes and add up to 1024.  The even split always does;
    the weighted split does whenever the units left after rounding down ([rest]) are
    between zero and the number of nodes. *)
Definition rounding_ok (nodes : list NodeInfo) : Prop :=
  let allocs := allocOf (totalWeight nodes) <$> nodes in
  bad (totalWeight nodes) = true ∨
  0 <= VNodeCount - sumZ (base <$> allocs) <= Z.of_nat (length nodes) ∧ Forall (λ a, 0 <= base a) allocs.

#[export] Instance rounding_ok_dec nodes : Decision (rounding_ok nodes).
Proof. unfold rounding_ok. apply _. Defined.

Definition targets_ok (nodes : list NodeInfo) (counts : gmap string Z) : Prop :=
  map_weight (λ _ c, c) counts = VNodeCount ∧ nonneg counts ∧
  ∀ k, is_Some (counts !! k) ↔ k ∈ nID <$> nodes.

Lemma evenCounts_ok nodes :
  nodes ≠ [] → NoDup (nID <$> nodes) → targets_ok nodes (evenCounts nodes).
Proof.
  intros Hne Hnd. assert (0 < Z.of_nat (length nodes)) by (destruct nodes; simpl; [done|lia]).
  pose proof (Z_div_mod_eq_full VNodeCount (Z.of_nat (length nodes))).
  pose proof (Z.mod_pos_bound VNodeCount (Z.of_nat (length nodes)) ltac:(lia)).
  assert (Hkeys : (λ p : nat * NodeInfo, nID p.2) <$> imap pair nodes = nID <$> nodes).
  { apply list_eq. intros i. rewrite !list_lookup_fmap, list_lookup_imap. by destruct (nodes !! i). }
  unfold targets_ok. rewrite evenCounts_fill. split_and!.
  - rewrite fill_weight; [|by rewrite Hkeys|intros; apply lookup_empty].
    rewrite map_weight_empty, (imap_ext _ (λ i n, ((0 + i)%nat, n)) nodes) by done.
    rewrite even_sum. lia.
  - apply fill_nonneg; [by intros k c ?%lookup_empty_Some|]. intros p _.
    pose proof (Z.div_pos VNodeCount (Z.of_nat (length nodes)) ltac:(done) ltac:(lia)).
    case_match; lia.
  - intros k. rewrite fill_dom, Hkeys, lookup_empty. split; [intros [[? ?]|?]; done|by right].
Qed.

Lemma GetTargetVNodeCount_sum nodes :
  nodes ≠ [] → NoDup (nID <$> nodes) → rounding_ok nodes →
  ∃ counts, GetTargetVNodeCount nodes = Some counts ∧ targets_ok nodes counts.
Proof.
  intros Hne Hnd Hrest. unfold GetTargetVNodeCount.
  destruct (length nodes =? 0)%nat eqn:El; bool_to_prop; [by destruct nodes|].
  destruct (bad (totalWeight nodes)) eqn:Ebad; [eauto using evenCounts_ok|].
  destruct Hrest as [?|[Hrest Hbase]]; [congruence|].
  set (allocs := allocOf (totalWeight nodes) <$> nodes) in *.
  rewrite foldr_base. set (sorted := merge_sort allocLe allocs).
  assert (Hp : sorted ≡ₚ allocs) by apply merge_sort_Permutation.
  assert (Hids : aID <$> allocs = nID <$> nodes) by (unfold allocs; by rewrite <-list_fmap_compose).
  assert (Hlen : length sorted = length nodes) by (rewrite Hp; apply length_fmap).
  destruct (giveRest_sum (fill aID base ∅ sorted) (Z.to_nat (VNodeCount - sumZ (base <$> allocs))) sorted)
    as (counts & Hg & Hw & Hn & Hd); [lia|].
  exists counts. split; [exact Hg|]. split_and!.
  - rewrite Hw, fill_weight, map_weight_empty; [|by rewrite Hp, Hids|intros; apply lookup_empty].
    rewrite (sumZ_Permutation (base <$> sorted) (base <$> allocs)) by (by rewrite Hp). lia.
  - apply Hn, fill_nonneg; [by intros k c ?%lookup_empty_Some|].
    intros a Ha. rewrite Hp in Ha. by apply (proj1 (list.Forall_forall _ _) Hbase).
  - intros k. rewrite Hd; [rewrite fill_dom, Hp, Hids, lookup_empty; split; [intros [[? ?]|?]; done|by right]|].
    apply list.Forall_forall. intros a Ha. apply fill_dom. right. by apply list_elem_of_fmap_2.
Qed.
