(* ===== verification/Targets.v ===== *)
(** * The weighted split of vnodes adds up

    [GetTargetVNodeCount] divides 1024 vnodes in proportion to floating-point weights, rounds
    each share down and hands out the rest by largest fraction.  With the error bounds of
    [FloatError], the shares left over are between zero and the number of nodes for every
    valid list of scores, so the index never runs out and the targets add up to 1024. *)

From S2P Require Import Prelude Float64 FloatError Placement Score.
From Stdlib Require Import QArith Qpower Lqa.

Local Open Scope Z_scope.

(** Up to this many nodes the accumulated rounding error stays below one vnode. *)
Definition maxNodes : Z := 2 ^ 20.

(** The exponent is one binary64 has. *)
Definition valid64 (f : f64) : Prop :=
  match f with S754_finite _ _ e => emin64 <= e | _ => True end.

Definition good (f : f64) : Prop := f = S754_infinity false ∨ ∃ x, represents f x.

(** ** Weights *)

Lemma eps_value : eps = S754_finite false 4835703278458517 (-82).
Proof. vm_compute. reflexivity. Qed.
Lemma f1_value : f1 = S754_finite false 4503599627370496 (-52).
Proof. vm_compute. reflexivity. Qed.
Lemma f1024_value : of_Z VNodeCount = S754_finite false 4503599627370496 (-42).
Proof. vm_compute. reflexivity. Qed.

Lemma weight_good n : valid64 (Score n) → good (weight n).
Proof.
  intros Hv. unfold weight. set (s := if flt (Score n) f0 || IsNaN (Score n) || IsInf (Score n) then f1 else Score n).
  assert (Hs : ∃ x, represents s x).
  { assert (H1 : ∃ x, represents f1 x) by (rewrite f1_value; eexists; cbn [represents]; by split; [reflexivity|]).
    unfold s. destruct (Score n) as [sg|sg| |[] m e].
    - exists 0%Q. reflexivity.
    - destruct sg; exact H1.
    - exact H1.
    - exact H1.
    - exists (inject_Z (Zpos m) * p2 e)%Q. split; [reflexivity|exact Hv]. }
  destruct Hs as [x Hx].
  assert (He : represents eps (inject_Z 4835703278458517 * p2 (-82))) by (rewrite eps_value; cbn [represents]; by split; [reflexivity|]).
  pose proof (represents_nonneg _ _ Hx) as Hx0.
  destruct (fadd_spec s eps x _ Hx He) as (z & Hz & [[-> _]|Hr]).
  - right. exists 0%Q. rewrite f1_value. reflexivity.
  - assert (Hz0 : (0 < z)%Q).
    { destruct Hz as [Hz _]. unfold ulp in Hz. pose proof (p2_pos (-82)).
      assert (0 < inject_Z 4835703278458517 * p2 (-82))%Q by (apply Qmult_lt_0_compat; done). lra. }
    revert Hr. generalize (fadd s eps) as g. intros g Hr.
    destruct g as [sg| | |[] m e]; [|by destruct Hr..|].
    { exfalso. change (z == 0)%Q in Hr. rewrite Hr in Hz0. by apply Qlt_irrefl in Hz0. }
    rewrite f1_value. destruct (fdiv_finite_spec 4503599627370496 (-52) m e) as (w & _ & [[-> _]|Hw]); [by left|right; eauto].
Qed.

(** ** The total weight *)

Lemma fadd_inf f : good f → fadd (S754_infinity false) f = S754_infinity false.
Proof. intros [-> |[x Hx]]; [done|]. by destruct f as [| | |[] m e]. Qed.

Lemma fold_inf fs : Forall good fs → foldl fadd (S754_infinity false) fs = S754_infinity false.
Proof. induction 1 as [|f fs Hf _ IH]; [done|]. cbn [foldl]. by rewrite fadd_inf. Qed.

Fixpoint sumQ (l : list Q) : Q := match l with [] => 0 | x :: l => x + sumQ l end.

(** [t] approximates the exact sum [s] after [k] additions. *)
Definition sum_near (k : nat) (s t : Q) : Prop :=
  let c := (inject_Z (Z.of_nat k) * (8 * ulp))%Q in (s - c * s <= t)%Q ∧ (t <= s + c * s)%Q.

Lemma count_small k : Z.of_nat k <= maxNodes → (inject_Z (Z.of_nat k) * (8 * ulp) <= 1 # 536870912)%Q.
Proof.
  intros Hk. assert ((inject_Z (Z.of_nat k) <= inject_Z maxNodes)%Q) as H by by rewrite <-Zle_Qle.
  unfold ulp. change (inject_Z maxNodes) with (1048576 # 1)%Q in H. lra.
Qed.

Lemma count_nonneg k : (0 <= inject_Z (Z.of_nat k) * (8 * ulp))%Q.
Proof. apply Qmult_le_0_compat; [change 0%Q with (inject_Z 0); rewrite <-Zle_Qle; lia|done]. Qed.

Lemma sum_near_step k s t w z :
  Z.of_nat k <= maxNodes → (0 <= s)%Q → (0 <= w)%Q →
  sum_near k s t → near 0 (t + w) z → sum_near (S k) (s + w) z.
Proof.
  intros Hk Hs Hw [H1 H2] [H3 H4]. pose proof (count_small k Hk) as Hc. unfold sum_near.
  replace (Z.of_nat (S k)) with (Z.of_nat k + 1) by lia. rewrite inject_Z_plus. change (inject_Z 1) with 1%Q.
  pose proof (count_nonneg k) as Hk0.
  set (c := (inject_Z (Z.of_nat k) * (8 * ulp))%Q) in *.
  assert (Hc1 : ((inject_Z (Z.of_nat k) + 1) * (8 * ulp) == c + 8 * ulp)%Q) by (unfold c; ring).
  rewrite Hc1. clear Hc1. cbv zeta.
  assert (Hcw : (0 <= c * w)%Q) by by apply Qmult_le_0_compat.
  assert (Hcs : (c * s <= (1 # 536870912) * s)%Q) by by apply Qmult_le_compat_r.
  assert (Hcs0 : (0 <= c * s)%Q) by by apply Qmult_le_0_compat.
  assert (Hsplit : ((c + 8 * ulp) * (s + w) == c * s + c * w + 8 * ulp * (s + w))%Q) by ring.
  rewrite Hsplit. unfold ulp in *. split; lra.
Qed.

Lemma fold_spec fs ws k a s :
  Forall2 represents fs ws → represents a s → (0 <= s)%Q →
  ∀ s0, sum_near k s0 s → (0 <= s0)%Q → Z.of_nat (k + length fs) <= maxNodes →
  foldl fadd a fs = S754_infinity false ∨
  ∃ t, represents (foldl fadd a fs) t ∧ sum_near (k + length fs) (s0 + sumQ ws) t.
Proof.
  intros Hf. revert k a s. induction Hf as [|f w fs ws Hw Hf IH]; intros k a s Ha Hs s0 Hn Hs0 Hk.
  { right. exists s. split; [done|]. simpl. rewrite Nat.add_0_r. unfold sum_near in *. rewrite Qplus_0_r. done. }
  cbn [foldl]. pose proof (represents_nonneg _ _ Hw) as Hw0.
  destruct (fadd_spec a f s w Ha Hw) as (z & Hz & [[-> _]|Hr]).
  { left. apply fold_inf. clear -Hf. induction Hf; constructor; [right; eauto|done]. }
  assert (Hz0 := represents_nonneg _ _ Hr). simpl in Hk.
  destruct (IH (S k) (fadd a f) z Hr Hz0 (s0 + w)%Q) as [?|(t & Ht & Hst)]; [|lra|lia|by left|right].
  { apply (sum_near_step k s0 s w z); [lia|done|done|done|done]. }
  exists t. split; [done|]. cbn [length sumQ]. rewrite <-Nat.add_succ_comm. unfold sum_near in *.
  by rewrite Qplus_assoc.
Qed.

(** ** Shares *)

Lemma tiny_small : (0 < tiny)%Q ∧ (tiny <= 1 # 1152921504606846976)%Q.
Proof.
  split; [apply p2_pos|]. unfold tiny. eapply Qle_trans; [apply (p2_mono _ (-60)); lia|]. discriminate.
Qed.

Lemma big_970 : (1000000 < p2 970)%Q.
Proof. reflexivity. Qed.

(** The ideal share of a node with weight [w] out of [t]. *)
Lemma ideal_spec fw ft w t :
  represents fw w → represents ft t → (0 < t)%Q → (w <= 2 * t)%Q →
  ∃ i, represents (fmul (fdiv fw ft) (of_Z VNodeCount)) i ∧
    (1024 * (w / t) - 16384 * ulp * (w / t) - 2048 * tiny <= i)%Q ∧
    (i <= 1024 * (w / t) + 16384 * ulp * (w / t) + 2048 * tiny)%Q ∧ (i < p2 62)%Q.
Proof.
  intros Hw Ht Ht0 Hwt. pose proof (represents_nonneg _ _ Hw) as Hw0. rewrite f1024_value.
  destruct tiny_small as [Hty0 Hty]. pose proof big_970 as Hbig.
  assert (H62 : (10000 < p2 62)%Q) by reflexivity.
  destruct ft as [| | |[] mt et]; try done.
  { exfalso. change (t == 0)%Q in Ht. rewrite Ht in Ht0. done. }
  destruct fw as [sw| | |[] mw ew]; try done.
  { change (w == 0)%Q in Hw. exists 0%Q. split; [destruct sw; reflexivity|].
    assert (Hq : (w / t == 0)%Q) by (rewrite Hw; unfold Qdiv; ring). rewrite !Hq. split_and!; lra. }
  destruct Hw as [Hwv _], Ht as [Htv _].
  destruct (fdiv_finite_spec mw ew mt et) as (d & Hd & Hres). rewrite <-Hwv, <-Htv in Hd.
  assert (Hq2 : (w / t <= 2)%Q) by (apply Qle_shift_div_r; [done|lra]).
  assert (Hq0 : (0 <= w / t)%Q) by (apply Qle_shift_div_l; [done|lra]).
  set (q := (w / t)%Q) in *. destruct Hd as [Hd1 Hd2]. unfold ulp in *.
  destruct Hres as [[_ Hinf]|Hr]; [exfalso; lra|].
  destruct (fdiv _ _) as [sd| | |[] md ed]; try done.
  { change (d == 0)%Q in Hr. exists 0%Q. split; [destruct sd; reflexivity|]. rewrite Hr in Hd1, Hd2. split_and!; lra. }
  destruct Hr as [Hdv _].
  destruct (fmul_finite_spec md ed 4503599627370496 (-42)) as (i & Hi & Hres).
  assert (H1024 : (inject_Z (Zpos md) * p2 ed * (inject_Z 4503599627370496 * p2 (-42)) == d * 1024)%Q).
  { rewrite <-Hdv. apply Qmult_comp; reflexivity. }
  unfold near in Hi. rewrite H1024 in Hi. unfold ulp in Hi. destruct Hi as [Hi1 Hi2].
  destruct Hres as [[_ Hinf]|Hr]; [exfalso; lra|]. exists i. split; [exact Hr|]. split_and!; lra.
Qed.

(** A share, rounded down. *)
Definition share (ft fw : f64) : Z := floorZ (fmul (fdiv fw ft) (of_Z VNodeCount)).

Lemma shares_spec ft t fs ws :
  represents ft t → (0 < t)%Q → Forall2 represents fs ws → Forall (λ w, w <= 2 * t)%Q ws →
  let n := inject_Z (Z.of_nat (length fs)) in
  let q := (sumQ ws / t)%Q in
  let b := inject_Z (sumZ (share ft <$> fs)) in
  (b <= 1024 * q + 16384 * ulp * q + n * (2048 * tiny))%Q ∧
  (1024 * q - 16384 * ulp * q - n * (2048 * tiny) - n <= b)%Q ∧
  (fs ≠ [] → (1024 * q - 16384 * ulp * q - n * (2048 * tiny) - n < b)%Q) ∧
  Forall (λ f, 0 <= share ft f) fs.
Proof.
  intros Ht Ht0 Hf Hws n q b. subst n q b. induction Hf as [|f w fs ws Hw Hf IH].
  { assert (Hq : (sumQ [] / t == 0)%Q) by (unfold Qdiv; simpl; ring). cbn [length fmap list_fmap sumZ]. rewrite !Hq.
    change (inject_Z (Z.of_nat 0)) with 0%Q. change (inject_Z 0) with 0%Q.
    split; [lra|]. split; [lra|]. split; [done|constructor]. }
  apply Forall_cons_iff in Hws as [Hw2 Hws]. destruct (IH Hws) as (H1 & H2 & _ & H4).
  destruct (ideal_spec f ft w t Hw Ht Ht0 Hw2) as (i & Hi & Hlo & Hhi & Hlt).
  destruct (floorZ_spec _ _ Hi Hlt) as (F1 & F2 & F3). fold (share ft f) in F1, F2, F3.
  rewrite fmap_cons. cbn [length sumZ sumQ]. rewrite Nat2Z.inj_succ.
  replace (Z.succ (Z.of_nat (length fs))) with (Z.of_nat (length fs) + 1) by lia.
  rewrite !inject_Z_plus. change (inject_Z 1) with 1%Q.
  assert (Hq : ((w + sumQ ws) / t == w / t + sumQ ws / t)%Q) by (unfold Qdiv; ring). rewrite !Hq.
  set (n := inject_Z (Z.of_nat (length fs))) in *. set (q := (sumQ ws / t)%Q) in *. set (q1 := (w / t)%Q) in *.
  assert (Hn : ((n + 1) * (2048 * tiny) == n * (2048 * tiny) + 2048 * tiny)%Q) by ring. rewrite !Hn.
  assert (Hu : (16384 * ulp * (q1 + q) == 16384 * ulp * q1 + 16384 * ulp * q)%Q) by ring. rewrite !Hu.
  split; [lra|]. split; [lra|]. split; [intros _; lra|]. by constructor.
Qed.

Lemma sumQ_nonneg fs ws : Forall2 represents fs ws → (0 <= sumQ ws)%Q ∧ Forall (λ w, w <= sumQ ws)%Q ws.
Proof.
  induction 1 as [|f w fs ws Hw _ [IH1 IH2]]; [split; [apply Qle_refl|constructor]|].
  pose proof (represents_nonneg _ _ Hw). cbn [sumQ]. split; [lra|]. constructor; [lra|].
  eapply Forall_impl; [|exact IH2]. intros x Hx. simpl in Hx. lra.
Qed.

(** ** The rest fits *)

Lemma good_split (fs : list f64) :
  Forall good fs → (∃ ws, Forall2 represents fs ws) ∨ S754_infinity false ∈ fs.
Proof.
  induction 1 as [|f fs [-> |[x Hx]] _ IH]; [left; by exists []|by right; left|].
  destruct IH as [[ws Hws]|Hin]; [left; exists (x :: ws); by constructor|by right; right].
Qed.

Lemma fold_inf_elem fs a :
  good a → Forall good fs → S754_infinity false ∈ fs → foldl fadd a fs = S754_infinity false.
Proof.
  intros Ha Hf. revert a Ha. induction Hf as [|f fs Hf Hfs IH]; intros a Ha Hin; [by apply elem_of_nil in Hin|].
  cbn [foldl]. apply elem_of_cons in Hin as [<-|Hin].
  - assert (Hinf : fadd a (S754_infinity false) = S754_infinity false)
      by (destruct Ha as [-> |[x Hx]]; [done|by destruct a as [| | |[] m e]]).
    rewrite Hinf. by apply fold_inf.
  - apply IH; [|done]. destruct Ha as [-> |[x Hx]]; [rewrite fadd_inf by done; by left|].
    destruct Hf as [-> |[y Hy]]; [left; by destruct a as [| | |[] m e]|].
    destruct (fadd_spec a f x y Hx Hy) as (z & _ & [[-> _]|Hr]); [by left|right; eauto].
Qed.

Lemma totalWeight_fold nodes : totalWeight nodes = foldl fadd f0 (weight <$> nodes).
Proof. unfold totalWeight. generalize f0. induction nodes as [|n l IH]; intros a; [done|]. simpl. apply IH. Qed.

Lemma ratio_bounds s t c :
  (0 < t)%Q → (0 <= s)%Q → (0 <= c)%Q → (c <= 1 # 536870912)%Q → (s - c * s <= t)%Q → (t <= s + c * s)%Q →
  (s <= 2 * t)%Q ∧ (1 - (1 # 536870912) <= s / t)%Q ∧ (s / t <= 1 + (1 # 268435456))%Q.
Proof.
  intros Ht Hs Hc0 Hc H1 H2.
  assert (Hcs : (c * s <= (1 # 536870912) * s)%Q) by by apply Qmult_le_compat_r.
  split; [lra|]. split; [apply Qle_shift_div_l; [done|lra]|apply Qle_shift_div_r; [done|lra]].
Qed.

Lemma rounding_always_ok nodes :
  Forall (λ n, valid64 (Score n)) nodes → Z.of_nat (length nodes) <= maxNodes → rounding_ok nodes.
Proof.
  intros Hv Hlen. unfold rounding_ok. destruct (bad (totalWeight nodes)) eqn:Eb; [by left|right].
  assert (Hg : Forall good (weight <$> nodes)).
  { apply Forall_fmap. eapply Forall_impl; [|exact Hv]. intros n. apply weight_good. }
  rewrite totalWeight_fold in *. assert (H0 : represents f0 0) by done.
  destruct (good_split _ Hg) as [[ws Hws]|Hin];
    [|by rewrite (fold_inf_elem _ f0 ltac:(right; eauto) Hg Hin) in Eb].
  destruct (fold_spec (weight <$> nodes) ws 0 f0 0 Hws H0 ltac:(done) 0%Q) as [Hinf|(t & Ht & Hn)].
  { split; simpl; discriminate. }
  { discriminate. }
  { by rewrite length_fmap. }
  { by rewrite Hinf in Eb. }
  set (ft := foldl fadd f0 (weight <$> nodes)) in *.
  assert (Ht0 : (0 < t)%Q).
  { pose proof (represents_nonneg _ _ Ht). destruct ft as [| | |[] m e]; try done.
    destruct Ht as [-> _]. apply Qmult_lt_0_compat; [done|apply p2_pos]. }
  destruct (sumQ_nonneg _ _ Hws) as [Hs0 Hws1].
  pose proof (count_small (0 + length (weight <$> nodes)) ltac:(rewrite length_fmap; done)) as Hc.
  unfold sum_near in Hn. rewrite Qplus_0_l in Hn. destruct Hn as [Hn1 Hn2].
  destruct (ratio_bounds (sumQ ws) t _ Ht0 Hs0 (count_nonneg _) Hc Hn1 Hn2)
    as (Hst & Hq1 & Hq2).
  destruct (shares_spec ft t (weight <$> nodes) ws Ht Ht0 Hws) as (B1 & B2 & B3 & B4).
  { eapply Forall_impl; [|exact Hws1]. intros w Hw. simpl in Hw. lra. }
  assert (Hbase : base <$> (allocOf ft <$> nodes) = share ft <$> (weight <$> nodes)).
  { rewrite <-!list_fmap_compose. done. }
  rewrite Hbase. split; [|apply Forall_fmap; exact (proj1 (Forall_fmap _ _ _) B4)].
  rewrite length_fmap in B1, B2, B3. set (B := sumZ _) in *. set (q := (sumQ ws / t)%Q) in *.
  destruct tiny_small as [Hty0 Hty].
  assert (Hnt : (inject_Z (Z.of_nat (length nodes)) * (2048 * tiny) <= 1 # 1000)%Q).
  { assert (inject_Z (Z.of_nat (length nodes)) <= inject_Z maxNodes)%Q as Hm by by rewrite <-Zle_Qle.
    change (inject_Z maxNodes) with (1048576 # 1)%Q in Hm.
    eapply Qle_trans; [apply Qmult_le_compat_r; [exact Hm|lra]|]. lra. }
  unfold ulp in *. change VNodeCount with 1024. split.
  - assert (HB : (inject_Z B < inject_Z 1025)%Q) by (change (inject_Z 1025) with (1025 # 1)%Q; lra).
    rewrite <-Zlt_Qlt in HB. lia.
  - assert (HB : (inject_Z (1023 - Z.of_nat (length nodes)) < inject_Z B)%Q).
    { replace (1023 - Z.of_nat (length nodes)) with (1023 + - Z.of_nat (length nodes)) by lia.
      rewrite inject_Z_plus, inject_Z_opp. change (inject_Z 1023) with (1023 # 1)%Q. lra. }
    rewrite <-Zlt_Qlt in HB. lia.
Qed.

(** ** Computed scores are valid *)

Lemma shr_fexp_exponent m e l : emin64 <= (shr_fexp 53 1024 m e l).2.
Proof.
  unfold shr_fexp. fold fexp64. pose proof (fexp64_cases (Zdigits2 m + e)) as Hk.
  unfold shr. destruct (fexp64 (Zdigits2 m + e) - e) eqn:E; simpl; lia.
Qed.

Lemma round_aux_valid s m e l : valid64 (binary_round_aux 53 1024 s m e l).
Proof.
  unfold binary_round_aux. destruct (shr_fexp 53 1024 m e l) as [mrs1 e1].
  pose proof (shr_fexp_exponent (round_nearest_even (shr_m mrs1) (loc_of_shr_record mrs1)) e1 loc_Exact) as He.
  destruct (shr_fexp _ _ _ e1 _) as [mrs2 e2]. simpl in He.
  destruct (shr_m mrs2); [done| |done]. by case_match.
Qed.

Lemma normalize_valid m e s : valid64 (binary_normalize 53 1024 m e s).
Proof.
  unfold binary_normalize, binary_round. destruct m; [done|..].
  all: destruct (shl_align _ _ _); apply round_aux_valid.
Qed.

Lemma fmul_valid f g : valid64 (fmul f g).
Proof. unfold fmul, SFmul. destruct f, g; try done. apply round_aux_valid. Qed.

Lemma fadd_valid f g : valid64 f → valid64 g → valid64 (fadd f g).
Proof.
  intros Hf Hg. unfold fadd, SFadd. destruct f, g; try done; try (by repeat case_match).
  apply normalize_valid.
Qed.

Lemma score_valid a m : valid64 (score a m).
Proof. unfold score. do 4 (apply fadd_valid; [|apply fmul_valid]). apply fmul_valid. Qed.

Lemma CalculateScores_valid metrics : Forall (λ n, valid64 (Score n)) (CalculateScores metrics).
Proof. apply Forall_fmap, Forall_true. intros m. apply score_valid. Qed.

(** C29: the targets always add up.  For any list of distinct nodes with valid scores (zero,
    negative, infinite and NaN scores included, up to 2^20 nodes) [GetTargetVNodeCount] does not
    panic and gives every node, and no other, a non-negative target; the targets add up to 1024. *)
Theorem targets_add_up nodes :
  nodes ≠ [] → NoDup (nID <$> nodes) → Forall (λ n, valid64 (Score n)) nodes →
  Z.of_nat (length nodes) <= maxNodes →
  ∃ counts, GetTargetVNodeCount nodes = Some counts ∧
    map_weight (λ _ c, c) counts = 1024 ∧ (∀ n c, counts !! n = Some c → 0 <= c) ∧
    (∀ n, is_Some (counts !! n) ↔ n ∈ nID <$> nodes).
Proof.
  intros Hne Hnd Hv Hlen.
  destruct (GetTargetVNodeCount_sum nodes Hne Hnd (rounding_always_ok nodes Hv Hlen)) as (counts & Hc & Hw & Hn & Hd).
  exists counts. split_and!; done.
Qed.

(** ** Witness *)

Definition ex_targets_nodes : list NodeInfo :=
  [mkNodeInfo "a" (ratio 7 10); mkNodeInfo "b" (S754_infinity false); mkNodeInfo "c" (ratio 1 3); mkNodeInfo "d" S754_nan].

Lemma targets_add_up_witness :
  ∃ counts, GetTargetVNodeCount ex_targets_nodes = Some counts ∧ map_weight (λ _ c, c) counts = 1024.
Proof.
  destruct (targets_add_up ex_targets_nodes) as (counts & Hc & Hw & _).
  - discriminate.
  - apply (bool_decide_unpack (NoDup _)). vm_compute. exact I.
  - repeat constructor; vm_compute; discriminate.
  - vm_compute. discriminate.
  - exists counts. split; [exact Hc|exact Hw].
Defined.
