(* ===== verification/Replicas.v ===== *)
(** * Replica choice ([AssignReplicas] of [src/cluster/placement.go]) *)

From stdpp Require Import sorting.
From S2P Require Import Prelude Float64 Placement Score AssignProofs.

Record candidate := mkCandidate { cID : string; cScore : f64 }.

(** Last writer wins, as in the Go map. *)
Definition statsMap (metrics : list NodeMetrics) : gmap string NodeMetrics :=
  foldl (λ m x, <[NodeID x := x]> m) ∅ metrics.

Definition setReplicas (v : VNode) (rs : list string) : VNode :=
  mkVNode (vID v) (Token v) (Primary v) rs.

(** [sort.Slice]'s order: lower score first, then smaller identifier. *)
Definition candLess (a b : candidate) : bool :=
  if feq (cScore a) (cScore b) then String.ltb (cID a) (cID b) else flt (cScore a) (cScore b).
Definition candLe (a b : candidate) : Prop := candLess b a = false.
#[export] Instance candLe_dec : RelDecision candLe.
Proof. intros a b. unfold candLe. apply _. Defined.

Section replicas.
Context (Sum64String : string → Z).

Definition rttOf (rttMatrix : gmap string (gmap string f64)) (primaryID nodeID : string) : f64 :=
  match rttMatrix !! primaryID with
  | Some row =>
      match row !! nodeID with
      | Some val => if flt f0 val then val else of_Z 1000
      | None => of_Z 1000
      end
  | None => of_Z 1000
  end.

Definition suitability (rtt : f64) (m : NodeMetrics) (vnodeID : Z) (nodeID : string) : f64 :=
  let bwPenalty := fdiv f1 (fsub (ratio 101 100) (NetUsage m)) in
  let capFactor := fdiv f1 (fadd (of_Z (BandwidthMbps m)) eps) in
  let baseSuitability := fmul (fmul rtt bwPenalty) capFactor in
  let hashVal := Sum64String (FormatUint vnodeID ++ ":" ++ nodeID)%string in
  let jitterModifier := fadd f1 (fdiv (of_Z (hashVal mod 1000)) (of_Z 10000)) in
  fmul baseSuitability jitterModifier.

Definition candidates (nodes : list NodeInfo) (stats : gmap string NodeMetrics)
    (rttMatrix : gmap string (gmap string f64)) (v : VNode) : list candidate :=
  omap (λ node,
    if decide (nID node = Primary v) then None
    else match stats !! nID node with
         | None => None
         | Some m =>
             Some (mkCandidate (nID node)
                     (suitability (rttOf rttMatrix (Primary v) (nID node)) m (vID v) (nID node)))
         end) nodes.

Definition assignOne (nodes : list NodeInfo) (stats : gmap string NodeMetrics)
    (rttMatrix : gmap string (gmap string f64)) (rf : Z) (v : VNode) : VNode :=
  if decide (Primary v = ""%string) then v
  else setReplicas v
         (cID <$> take (Z.to_nat (rf - 1)) (merge_sort candLe (candidates nodes stats rttMatrix v))).

Definition AssignReplicas (p : Placement) (metrics : list NodeMetrics)
    (rttMatrix : gmap string (gmap string f64)) (rf : Z) : Placement :=
  if rf <=? 1 then setVNodes p ((λ v, setReplicas v []) <$> VNodes p)
  else setVNodes p (assignOne (Nodes p) (statsMap metrics) rttMatrix rf <$> VNodes p).

(** ** Properties *)

(** Nodes that may hold a replica of a vnode of [primary]. *)
Definition eligible (nodes : list NodeInfo) (stats : gmap string NodeMetrics) (primary : string)
    : list string :=
  filter (λ n, n ≠ primary ∧ is_Some (stats !! n)) (nID <$> nodes).

Lemma candidates_eligible nodes stats rttMatrix v :
  cID <$> candidates nodes stats rttMatrix v = eligible nodes stats (Primary v).
Proof.
  unfold candidates, eligible. induction nodes as [|n nodes IH]; [done|].
  rewrite fmap_cons, filter_cons. cbn [omap list_omap].
  destruct (decide (nID n = Primary v)) as [E|E].
  - rewrite decide_False by tauto. exact IH.
  - destruct (stats !! nID n) as [m|] eqn:Em.
    + rewrite decide_True by (split; [done|by eexists]). csimpl. by rewrite <-IH.
    + rewrite decide_False by (intros [_ [? ?]]; congruence). exact IH.
Qed.

(** The replica list of an owned vnode. *)
Definition replicas_ok (nodes : list NodeInfo) (stats : gmap string NodeMetrics) (rf : Z) (v : VNode)
    : Prop :=
  NoDup (Replicas v) ∧ (Primary v ∉ Replicas v) ∧
  (∀ r, r ∈ Replicas v → r ∈ (nID <$> nodes) ∧ is_Some (stats !! r)) ∧
  Z.of_nat (length (Replicas v))
  = Z.min (rf - 1) (Z.of_nat (length (eligible nodes stats (Primary v)))).

Lemma assignOne_ok nodes stats rttMatrix rf v :
  NoDup (nID <$> nodes) → 1 < rf → Primary v ≠ ""%string →
  replicas_ok nodes stats rf (assignOne nodes stats rttMatrix rf v).
Proof.
  intros Hnd Hrf Hp. unfold assignOne. rewrite decide_False by done.
  set (cs := candidates nodes stats rttMatrix v). set (sorted := merge_sort candLe cs).
  assert (Hperm : cID <$> sorted ≡ₚ eligible nodes stats (Primary v)).
  { unfold sorted. rewrite merge_sort_Permutation. unfold cs. by rewrite candidates_eligible. }
  assert (Hsub : ∀ r, r ∈ cID <$> take (Z.to_nat (rf - 1)) sorted → r ∈ eligible nodes stats (Primary v)).
  { intros r Hr. rewrite <-Hperm. rewrite fmap_take in Hr. eapply elem_of_take in Hr as (i & Hi & _).
    by eapply list_elem_of_lookup_2. }
  unfold replicas_ok. cbn [Replicas Primary setReplicas]. split_and!.
  - rewrite fmap_take. eapply sublist_NoDup; [|apply sublist_take].
    rewrite Hperm. unfold eligible. by apply list.NoDup_filter.
  - intros Hin%Hsub. unfold eligible in Hin. apply list_elem_of_filter in Hin as [[? _] _]. done.
  - intros r Hr%Hsub. unfold eligible in Hr. apply list_elem_of_filter in Hr as [[_ ?] ?]. done.
  - rewrite length_fmap, length_take, <-(Permutation_length Hperm), length_fmap. lia.
Qed.

(** Replica sets are well formed.  With replication factor [rf] above one and distinct
    node identifiers, every owned vnode gets replicas that are pairwise distinct, never
    its primary, always nodes with known metrics, and as many as the factor asks for
    or as there are eligible nodes; unowned vnodes and all primaries, identifiers and
    tokens are untouched.  With a factor of at most one every replica list is emptied. *)
Theorem replicas_well_formed p metrics rttMatrix rf :
  NoDup (nID <$> Nodes p) →
  let p' := AssignReplicas p metrics rttMatrix rf in
  Epoch p' = Epoch p ∧ Nodes p' = Nodes p ∧
  Forall2 (λ v v',
    v' = setReplicas v (Replicas v') ∧
    (if rf <=? 1 then Replicas v' = []
     else if decide (Primary v = ""%string) then v' = v
     else replicas_ok (Nodes p) (statsMap metrics) rf v')) (VNodes p) (VNodes p').
Proof.
  intros Hnd p'. unfold p', AssignReplicas. destruct (rf <=? 1) eqn:E; simpl.
  all: (split; [done|]); (split; [done|]); apply Forall2_fmap_r, Forall_Forall2_diag, Forall_true; intros v; unfold compose.
  - done.
  - bool_to_prop. destruct (decide (Primary v = ""%string)) as [Hp|Hp].
    + assert (assignOne (Nodes p) (statsMap metrics) rttMatrix rf v = v) as ->
        by (unfold assignOne; by rewrite decide_True).
      split; [by destruct v|done].
    + split; [unfold assignOne; by rewrite decide_False|by apply assignOne_ok].
Qed.
End replicas.

(** ** Witnesses *)

Definition ex_metrics (id : string) (rtt bw : Z) : NodeMetrics :=
  mkMetrics id (of_Z rtt) 4 16 bw 200 (ratio 1 2) (ratio 1 4) (ratio 1 10) (ratio 3 10).
Definition ex_all_metrics : list NodeMetrics :=
  [ex_metrics "n1" 10 1000; ex_metrics "n2" 30 1000; ex_metrics "n3" 12 100].
Definition ex_nodes : list NodeInfo := CalculateScores ex_all_metrics.

Lemma replicas_well_formed_witness :
  let p := mkPlacement 3 ex_nodes [mkVNode 0 0 "n1" []; mkVNode 1 5 "" []] in
  let p' := AssignReplicas ex_hash p ex_all_metrics ∅ 2 in
  Epoch p' = 3 ∧ Nodes p' = ex_nodes ∧
  Forall2 (λ v v',
    v' = setReplicas v (Replicas v') ∧
    (if 2 <=? 1 then Replicas v' = []
     else if decide (Primary v = ""%string) then v' = v
     else replicas_ok (Nodes p) (statsMap ex_all_metrics) 2 v')) (VNodes p) (VNodes p').
Proof.
  apply (replicas_well_formed ex_hash (mkPlacement 3 ex_nodes [mkVNode 0 0 "n1" []; mkVNode 1 5 "" []])).
  apply (bool_decide_unpack (NoDup (nID <$> ex_nodes))). vm_compute. exact I.
Defined.
