(* ===== verification/RaftFSM.v ===== *)
(** * The replicated placement ([src/cluster/raft.go])

    Raft itself is a library; the state machine it drives, its snapshots and the
    restore path are the program's.  A log entry is modelled by what
    [json.Unmarshal] makes of it. *)

From S2P Require Import Prelude Placement.

(** A raft log entry after decoding. *)
Inductive raftEntry :=
  | EntryUndecodable
  | EntryUnknown (type : string)
  | EntryBadPayload                  (* ["install_placement"], payload undecodable *)
  | EntryInstall (p : Placement).

Inductive fsmError := ErrDecode | ErrUnknownType | ErrDecodePayload.

(** [placement] and the sequence of placements handed to [onApply]. *)
Record placementFSM := mkFSM {
  fsmPlacement : option Placement;
  delivered : list Placement
}.

Definition newPlacementFSM : placementFSM := mkFSM None [].

Definition install (f : placementFSM) (p : Placement) : placementFSM :=
  mkFSM (Some p) (delivered f ++ [p]).

Definition fsmApply (f : placementFSM) (l : raftEntry) : placementFSM * option fsmError :=
  match l with
  | EntryUndecodable => (f, Some ErrDecode)
  | EntryUnknown _ => (f, Some ErrUnknownType)
  | EntryBadPayload => (f, Some ErrDecodePayload)
  | EntryInstall p =>
      match fsmPlacement f with
      | Some cur => if Epoch p <=? Epoch cur then (f, None) else (install f p, None)
      | None => (install f p, None)
      end
  end.

(** The zero value a snapshot holds when no placement was installed. *)
Definition zeroPlacement : Placement := mkPlacement 0 [] [].

Definition Snapshot (f : placementFSM) : Placement := default zeroPlacement (fsmPlacement f).

(** [Persist]: what is done with the sink, given whether the encoder and [Close] succeed. *)
Inductive sinkOp := SinkWrite (s : Placement) | SinkCancel | SinkClose.
Definition Persist (s : Placement) (encodeOk closeOk : bool) : list sinkOp * bool :=
  if encodeOk then ([SinkWrite s; SinkClose], closeOk) else ([SinkWrite s; SinkCancel], false).

(** The snapshot raft keeps: a sink that was closed; a cancelled one is discarded. *)
Definition kept (ops : list sinkOp) : option Placement :=
  match ops with [SinkWrite s; SinkClose] => Some s | _ => None end.

Definition Restore (f : placementFSM) (s : Placement) : placementFSM :=
  mkFSM (Some s) (delivered f ++ [s]).

Definition currentPlacement (f : placementFSM) : option Placement := fsmPlacement f.

Definition fsm_run (f : placementFSM) (log : list raftEntry) : placementFSM :=
  foldl (λ f l, (fsmApply f l).1) f log.

(** ** Epochs *)

(** The installed placement is the last one delivered, and epochs increase. *)
Record fsm_inv (f : placementFSM) : Prop := {
  fi_last : list.last (delivered f) = fsmPlacement f;
  fi_sorted : ∀ i p q, delivered f !! i = Some p → delivered f !! S i = Some q → Epoch p < Epoch q
}.

Lemma install_inv f p :
  fsm_inv f → (∀ cur, fsmPlacement f = Some cur → Epoch cur < Epoch p) → fsm_inv (install f p).
Proof.
  intros [Hl Hs] Hlt. split; simpl; [by rewrite last_snoc|].
  intros i a b Ha Hb. destruct (decide (S i < length (delivered f))%nat) as [Hi|Hi].
  - rewrite lookup_app_l in Ha, Hb by lia. eauto.
  - assert (S i = length (delivered f)) as Heq.
    { apply lookup_lt_Some in Hb. rewrite length_app in Hb. simpl in Hb. lia. }
    rewrite Heq, list_lookup_middle in Hb by done. simplify_eq.
    rewrite lookup_app_l in Ha by lia. apply Hlt. rewrite <-Hl, last_lookup, <-Heq. done.
Qed.

Lemma fsmApply_inv f l : fsm_inv f → fsm_inv (fsmApply f l).1.
Proof.
  intros Hf. destruct l as [| | |p]; try done. simpl.
  destruct (fsmPlacement f) as [cur|] eqn:E; [case_match; bool_to_prop; [done|]|].
  all: apply install_inv; [done|]; intros; simplify_eq; done.
Qed.

Lemma fsm_run_inv f log : fsm_inv f → fsm_inv (fsm_run f log).
Proof.
  revert f. induction log as [|l log IH]; intros f Hf; [done|]. simpl. by apply IH, fsmApply_inv.
Qed.

(** Placement epochs only go up.  Whatever entries raft delivers (undecodable ones,
    duplicates and stale proposals of a former leader included), the placements handed
    to the node have strictly increasing epochs, and the installed one is the last
    of them: no proposal with an epoch that was already reached takes effect. *)
Theorem placement_epochs_increase log :
  let f := fsm_run newPlacementFSM log in
  list.last (delivered f) = fsmPlacement f ∧
  ∀ i p q, delivered f !! i = Some p → delivered f !! S i = Some q → Epoch p < Epoch q.
Proof.
  intros f. destruct (fsm_run_inv newPlacementFSM log) as [Hl Hs]; [by split|]. done.
Qed.

(** ** Snapshots *)

(** The current placement alone decides what a log does. *)
Lemma fsm_run_placement f g log :
  fsmPlacement f = fsmPlacement g → fsmPlacement (fsm_run f log) = fsmPlacement (fsm_run g log).
Proof.
  revert f g. induction log as [|l log IH]; intros f g Hfg; [done|]. simpl. apply IH.
  destruct l as [| | |p]; try done. simpl. rewrite Hfg.
  destruct (fsmPlacement g) as [cur|] eqn:E; [case_match|]; simpl; congruence.
Qed.

(** Log compaction is transparent once a placement exists: a node that restores the
    snapshot taken after [log1] and then applies [log2] has the same placement as one
    that applied the whole log. *)
Theorem restore_then_replay log1 log2 p :
  fsmPlacement (fsm_run newPlacementFSM log1) = Some p →
  fsmPlacement (fsm_run (Restore newPlacementFSM (Snapshot (fsm_run newPlacementFSM log1))) log2)
  = fsmPlacement (fsm_run newPlacementFSM (log1 ++ log2)).
Proof.
  intros Hp. unfold fsm_run at 3. rewrite foldl_app. apply fsm_run_placement. simpl.
  unfold Snapshot. by rewrite Hp.
Qed.

(** A snapshot is kept whole or not at all; one that was written successfully restores the placement. *)
Lemma persist_restores f g e c :
  (Persist (Snapshot f) e c).2 = true → fsmPlacement f ≠ None →
  ∃ s, kept (Persist (Snapshot f) e c).1 = Some s ∧ fsmPlacement (Restore g s) = fsmPlacement f.
Proof.
  unfold Persist. destruct e; [|done]. intros _ Hf. exists (Snapshot f). split; [done|]. unfold Snapshot. cbn.
  by destruct (fsmPlacement f).
Qed.

(** A snapshot taken before any placement was installed is not transparent: restoring
    it gives the node a placement with no vnodes (where the running node has none), so
    a node that reads [nil] as "not yet placed" no longer sees that. *)
Theorem restore_of_empty_installs_zero log1 :
  fsmPlacement (fsm_run newPlacementFSM log1) = None →
  let f := Restore newPlacementFSM (Snapshot (fsm_run newPlacementFSM log1)) in
  fsmPlacement f = Some zeroPlacement ∧ delivered f = [zeroPlacement].
Proof. unfold Snapshot. intros ->. done. Qed.

Definition ex_p1 : Placement := mkPlacement 1 [] [].
Definition ex_p2 : Placement := mkPlacement 2 [] [].

Lemma restore_then_replay_witness :
  fsmPlacement (fsm_run (Restore newPlacementFSM (Snapshot (fsm_run newPlacementFSM [EntryInstall ex_p1])))
                  [EntryInstall ex_p2; EntryInstall ex_p1])
  = fsmPlacement (fsm_run newPlacementFSM [EntryInstall ex_p1; EntryInstall ex_p2; EntryInstall ex_p1]).
Proof. apply (restore_then_replay [EntryInstall ex_p1] [EntryInstall ex_p2; EntryInstall ex_p1] ex_p1). reflexivity. Defined.

Lemma restore_of_empty_installs_zero_witness :
  let f := Restore newPlacementFSM (Snapshot (fsm_run newPlacementFSM [EntryUndecodable])) in
  fsmPlacement f = Some zeroPlacement ∧ delivered f = [zeroPlacement].
Proof. apply (restore_of_empty_installs_zero [EntryUndecodable]). reflexivity. Defined.
