(* ===== verification/Quorum.v ===== *)
(** * Quorum replication ([ReplicateToAll] and the ownership queries of
    [src/cluster/replication.go])

    The workers that carry a replication request to a target are modelled by the
    outcome they report; the order of the reports, the moment the caller's context
    ends and the placement obtained by a forced refresh are arguments. *)

From S2P Require Import Prelude Placement AssignProofs.

(** What [select] in the collecting loop receives. *)
Inductive QEvent :=
  | Report (target : string) (ok : bool)
  | CtxDoneEv.

Inductive QResult :=
  | QOk                (* quorum reached *)
  | QLocalOnly         (* "local_only": success without any remote copy *)
  | QNoMemberlist
  | QNotReady          (* "placement_not_ready" *)
  | QImpossible        (* "quorum_impossible" *)
  | QNotReached.       (* "quorum_not_reached" *)

Definition effectiveRF (rf members : Z) : Z := Z.min (Z.max rf 1) members.
Definition requiredAcks (rf members : Z) : Z := effectiveRF rf members / 2 + 1.

(** The loop that counts acknowledgements; [None] while it still waits. *)
Fixpoint collect (required acks remaining : Z) (evs : list QEvent) : option QResult :=
  if remaining <=? 0 then Some QNotReached
  else
    match evs with
    | [] => None
    | CtxDoneEv :: _ => Some QNotReached
    | Report _ ok :: evs =>
        let remaining := remaining - 1 in
        let acks := if ok then acks + 1 else acks in
        if ok && (required <=? acks) then Some QOk
        else if acks + remaining <? required then Some QNotReached
        else collect required acks remaining evs
    end.

Section quorum.
Context (Sum64String : string → Z).

(** The fields of [Replicator] these functions read; [leader] is [None] without raft. *)
Record ReplState := mkRepl_ {
  rID : string;
  ReplicationFactor : Z;
  memberCount : option Z;       (* [None]: memberlist is nil *)
  placement : option Placement;
  leader : option bool
}.

(** Replicas of the key's vnode, without this node, each once, in order. *)
Fixpoint dedup (seen : list string) (self : string) (l : list string) : list string :=
  match l with
  | [] => []
  | x :: l =>
      if bool_decide (x = ""%string) || bool_decide (x = self) || bool_decide (x ∈ seen)
      then dedup seen self l
      else x :: dedup (x :: seen) self l
  end.

Definition resolveTargets (self : string) (pl : option Placement) (key : string) : list string :=
  match pl with
  | None => []
  | Some p =>
      if negb (Z.of_nat (length (VNodes p)) =? VNodeCount) then []
      else match GetNodesForKey Sum64String p key with
           | None => []
           | Some (_, replicas) => dedup [] self replicas
           end
  end.

(** [refreshed] is the placement after the forced [UpdatePlacement]. *)
Definition targetsFor (r : ReplState) (refreshed : option Placement) (key : string) : list string :=
  let targets := resolveTargets (rID r) (placement r) key in
  match targets, leader r with
  | [], Some true => resolveTargets (rID r) refreshed key
  | _, _ => targets
  end.

Definition ReplicateToAll (r : ReplState) (refreshed : option Placement) (key : string)
    (evs : list QEvent) : option QResult :=
  match memberCount r with
  | None => Some QNoMemberlist
  | Some members =>
      if members <=? 0 then Some QOk
      else
        let acks := 1 in
        let required := requiredAcks (ReplicationFactor r) members in
        if required <=? acks then Some QOk
        else
          let targets := targetsFor r refreshed key in
          let n := Z.of_nat (length targets) in
          if (n =? 0) && (1 <? members) then Some QNotReady
          else if n =? 0 then Some QLocalOnly
          else if acks + n <? required then Some QImpossible
          else collect required acks n evs
  end.

Definition CheckOwnership (r : ReplState) (key : string) : option (bool * bool * string) :=
  match placement r with
  | None => Some (true, false, ""%string)
  | Some p =>
      '(owner, replicas) ← GetNodesForKey Sum64String p key;
      Some (bool_decide (owner = rID r), bool_decide (rID r ∈ replicas), owner)
  end.

Definition GetVNodeForKey (r : ReplState) (key : string) : option Z :=
  match placement r with
  | None => Some 0
  | Some p => GetVNodeIDForKey Sum64String p key
  end.

(** ** The collecting loop *)

(** Targets that reported success, and all that reported. *)
Fixpoint okReports (evs : list QEvent) : list string :=
  match evs with
  | [] => []
  | Report t true :: evs => t :: okReports evs
  | _ :: evs => okReports evs
  end.
Fixpoint reporters (evs : list QEvent) : list string :=
  match evs with
  | [] => []
  | Report t _ :: evs => t :: reporters evs
  | CtxDoneEv :: evs => reporters evs
  end.

Lemma okReports_reporters evs : okReports evs `sublist_of` reporters evs.
Proof.
  induction evs as [|[t []|] evs IH]; simpl; [done|by apply sublist_skip|by apply sublist_cons|done].
Qed.

Lemma okReports_length evs : (length (okReports evs) <= length evs)%nat.
Proof. induction evs as [|[t []|] evs IH]; simpl; lia. Qed.

Lemma collect_ok required acks remaining evs :
  acks < required → collect required acks remaining evs = Some QOk →
  required <= acks + Z.of_nat (length (okReports evs)).
Proof.
  revert acks remaining. induction evs as [|[t ok|] evs IH]; intros acks remaining Ha; cbn [collect].
  - by case_match.
  - case_match; [done|]. destruct ok; cbn [andb].
    + change (okReports (Report t true :: evs)) with (t :: okReports evs). cbn [length].
      destruct (required <=? acks + 1) eqn:E; bool_to_prop; [lia|]. case_match; [done|].
      intros Hc. apply IH in Hc; lia.
    + change (okReports (Report t false :: evs)) with (okReports evs). case_match; [done|].
      intros Hc. by eapply IH.
  - by case_match.
Qed.

(** With every target reporting, the outcome depends only on the number of acks. *)
Lemma collect_complete required acks evs :
  acks < required → Forall (λ e, e ≠ CtxDoneEv) evs →
  collect required acks (Z.of_nat (length evs)) evs
  = Some (if required <=? acks + Z.of_nat (length (okReports evs)) then QOk else QNotReached).
Proof.
  revert acks. induction evs as [|[t ok|] evs IH]; intros acks Ha Hf; cbn [collect].
  - simpl. rewrite Z.add_0_r. by rewrite (proj2 (Z.leb_gt _ _) Ha).
  - apply Forall_cons_iff in Hf as [_ Hf]. cbn [length].
    rewrite (proj2 (Z.leb_gt _ _)) by lia.
    replace (Z.of_nat (S (length evs)) - 1) with (Z.of_nat (length evs)) by lia.
    pose proof (okReports_length evs) as Hle.
    destruct ok; cbn [andb].
    + change (okReports (Report t true :: evs)) with (t :: okReports evs). cbn [length].
      destruct (required <=? acks + 1) eqn:E; bool_to_prop; [by rewrite (proj2 (Z.leb_le _ _)) by lia|].
      case_match; bool_to_prop; [by rewrite (proj2 (Z.leb_gt _ _)) by lia|].
      rewrite IH by (done || lia).
      by replace (acks + 1 + Z.of_nat (length (okReports evs)))
        with (acks + Z.of_nat (S (length (okReports evs)))) by lia.
    + change (okReports (Report t false :: evs)) with (okReports evs).
      case_match; bool_to_prop; [by rewrite (proj2 (Z.leb_gt _ _)) by lia|]. by apply IH.
  - by apply Forall_cons_iff in Hf as [? _].
Qed.

Lemma dedup_spec seen self l :
  NoDup (dedup seen self l) ∧
  ∀ x, x ∈ dedup seen self l → x ≠ ""%string ∧ x ≠ self ∧ (x ∉ seen) ∧ x ∈ l.
Proof.
  revert seen. induction l as [|y l IH]; intros seen; simpl.
  - split; [constructor|]. intros x Hx. by apply elem_of_nil in Hx.
  - case_match eqn:E.
    + destruct (IH seen) as [Hnd Hin]. split; [done|]. intros x Hx. destruct (Hin x Hx); set_solver.
    + apply orb_false_iff in E as [[E1 E2]%orb_false_iff E3]. bool_to_prop.
      destruct (IH (y :: seen)) as [Hnd Hin]. split.
      * apply list.NoDup_cons. split; [|done]. intros Hy. destruct (Hin y Hy) as (_ & _ & Hn & _). set_solver.
      * intros x [->|Hx]%elem_of_cons; [set_solver|]. destruct (Hin x Hx) as (? & ? & ? & ?). set_solver.
Qed.

Lemma resolveTargets_spec self pl key :
  NoDup (resolveTargets self pl key) ∧ self ∉ resolveTargets self pl key.
Proof.
  unfold resolveTargets. destruct pl as [p|]; [|split; [constructor|set_solver]].
  case_match; [split; [constructor|set_solver]|].
  destruct (GetNodesForKey _ _ _) as [[? replicas]|]; [|split; [constructor|set_solver]].
  destruct (dedup_spec [] self replicas) as [Hnd Hin]. split; [done|].
  intros Hs. by destruct (Hin _ Hs) as (_ & ? & _).
Qed.

Lemma targetsFor_spec r refreshed key :
  NoDup (targetsFor r refreshed key) ∧ rID r ∉ targetsFor r refreshed key.
Proof.
  unfold targetsFor. destruct (resolveTargets_spec (rID r) (placement r) key) as [H1 H2].
  destruct (resolveTargets (rID r) (placement r) key), (leader r) as [[]|]; try done.
  apply resolveTargets_spec.
Qed.

(** The copies of a successful write: this node and the targets that acknowledged. *)
Definition holders (r : ReplState) (evs : list QEvent) : gset string :=
  {[rID r]} ∪ list_to_set (okReports evs).

Lemma majority rf members : effectiveRF rf members < 2 * requiredAcks rf members.
Proof.
  unfold requiredAcks. pose proof (Z.mod_pos_bound (effectiveRF rf members) 2 ltac:(lia)).
  pose proof (Z_div_mod_eq_full (effectiveRF rf members) 2). lia.
Qed.

Lemma success_holders r refreshed key evs members :
  memberCount r = Some members → 0 < members →
  NoDup (reporters evs) → reporters evs ⊆ targetsFor r refreshed key →
  ReplicateToAll r refreshed key evs = Some QOk →
  requiredAcks (ReplicationFactor r) members <= Z.of_nat (size (holders r evs)).
Proof.
  intros Hm Hpos Hnd Hsub Hr. unfold ReplicateToAll in Hr. rewrite Hm in Hr.
  rewrite (proj2 (Z.leb_gt _ _) Hpos) in Hr.
  assert (Hsize : Z.of_nat (size (holders r evs)) = 1 + Z.of_nat (length (okReports evs))).
  { unfold holders. destruct (targetsFor_spec r refreshed key) as [_ Hself].
    rewrite size_union, size_singleton.
    - rewrite size_list_to_set; [lia|]. eapply sublist_NoDup; [done|apply okReports_reporters].
    - apply disjoint_singleton_l. rewrite elem_of_list_to_set. intros Hin. apply Hself, Hsub.
      eapply elem_of_sublist; [exact Hin|apply okReports_reporters]. }
  rewrite Hsize. destruct (requiredAcks _ _ <=? 1) eqn:E1; bool_to_prop; [lia|].
  repeat case_match; try done. apply collect_ok in Hr; lia.
Qed.

(** A write reported as replicated is on a majority.  Whenever [ReplicateToAll]
    returns success in a cluster, the distinct nodes that hold the write (this node
    and the targets that acknowledged, each reporting at most once) are at least
    [effectiveRF/2 + 1], a strict majority of the effective replication factor. *)
Theorem success_means_majority r refreshed key evs members :
  memberCount r = Some members → 0 < members →
  NoDup (reporters evs) → reporters evs ⊆ targetsFor r refreshed key →
  ReplicateToAll r refreshed key evs = Some QOk →
  requiredAcks (ReplicationFactor r) members <= Z.of_nat (size (holders r evs)) ∧
  effectiveRF (ReplicationFactor r) members < 2 * Z.of_nat (size (holders r evs)).
Proof.
  intros Hm Hpos Hnd Hsub Hr. pose proof (success_holders _ _ _ _ _ Hm Hpos Hnd Hsub Hr).
  pose proof (majority (ReplicationFactor r) members). lia.
Qed.


(** The outcome is decided by the acknowledgements alone.  When every target reports
    (in any order) before the caller's context ends, the write is reported as
    replicated exactly when this node and the acknowledging targets make a quorum;
    otherwise it is reported as not reached.  The early exits never change the verdict. *)
Theorem verdict_counts_acks r refreshed key evs members :
  memberCount r = Some members → 1 < members →
  1 < requiredAcks (ReplicationFactor r) members →
  targetsFor r refreshed key ≠ [] →
  requiredAcks (ReplicationFactor r) members <= 1 + Z.of_nat (length (targetsFor r refreshed key)) →
  Forall (λ e, e ≠ CtxDoneEv) evs → length evs = length (targetsFor r refreshed key) →
  ReplicateToAll r refreshed key evs
  = Some (if requiredAcks (ReplicationFactor r) members <=? 1 + Z.of_nat (length (okReports evs))
          then QOk else QNotReached).
Proof.
  intros Hm Hmem Hreq Hne Himp Hf Hlen. unfold ReplicateToAll. rewrite Hm.
  rewrite (proj2 (Z.leb_gt _ _)) by lia. rewrite (proj2 (Z.leb_gt _ _) Hreq).
  assert (0 < Z.of_nat (length (targetsFor r refreshed key))) by (destruct (targetsFor _ _ _); simpl in *; [done|lia]).
  rewrite (proj2 (Z.eqb_neq _ _)) by lia. cbn [andb]. rewrite (proj2 (Z.ltb_ge _ _)) by lia.
  rewrite <-Hlen. apply collect_complete; [lia|done].
Qed.

Lemma required_two rf members : 0 < members → 1 < requiredAcks rf members → 1 < members.
Proof.
  unfold requiredAcks, effectiveRF. intros Hp Hr.
  destruct (decide (members = 1)) as [->|]; [|lia]. rewrite Z.min_r in Hr by lia. done.
Qed.

Lemma not_local_only r refreshed key evs :
  ReplicateToAll r refreshed key evs ≠ Some QLocalOnly.
Proof.
  unfold ReplicateToAll. destruct (memberCount r) as [members|]; [|done].
  destruct (members <=? 0) eqn:E0; bool_to_prop; [done|].
  destruct (requiredAcks _ _ <=? 1) eqn:E1; bool_to_prop; [done|].
  destruct (Z.of_nat _ =? 0) eqn:E2; cbn [andb].
  - rewrite (proj2 (Z.ltb_lt _ _)); [done|]. by eapply required_two.
  - case_match; [done|]. clear. generalize 1. generalize (Z.of_nat (length (targetsFor r refreshed key))).
    induction evs as [|[t ok|] evs IH]; intros rem a; cbn [collect]; repeat case_match; try done; apply IH.
Qed.

(** No silent local-only write: when a quorum needs a remote copy and the placement
    gives no target, the answer is the error "placement not ready"; the branch that
    reports success for a purely local write is never taken. *)
Theorem no_targets_is_an_error r refreshed key evs members :
  memberCount r = Some members → 1 < requiredAcks (ReplicationFactor r) members →
  ReplicateToAll r refreshed key evs ≠ Some QLocalOnly ∧
  (0 < members → targetsFor r refreshed key = [] →
   ReplicateToAll r refreshed key evs = Some QNotReady).
Proof.
  intros Hm Hreq. split; [apply not_local_only|]. intros Hpos Ht. unfold ReplicateToAll.
  rewrite Hm, Ht. rewrite (proj2 (Z.leb_gt _ _) Hpos), (proj2 (Z.leb_gt _ _) Hreq). cbn [length].
  by rewrite (proj2 (Z.ltb_lt _ _) (required_two _ _ Hpos Hreq)).
Qed.
End quorum.

(** ** Witnesses *)

(** A ring whose vnodes all have primary [n1] and replicas [n2] and [n3]. *)
Definition ex_ring : Placement :=
  mkPlacement 4 [] ((λ v, mkVNode (vID v) (Token v) "n1" ["n2"; "n3"]) <$> InitializeVNodes).
Definition ex_n1 : ReplState := mkRepl_ "n1" 3 (Some 3) (Some ex_ring) (Some false).
Definition ex_n2 : ReplState := mkRepl_ "n2" 3 (Some 3) (Some ex_ring) None.
Definition ex_evs1 : list QEvent := [Report "n3" false; Report "n2" true].
Definition ex_evs2 : list QEvent := [Report "n3" true].

Lemma ex_targets1 : targetsFor ex_hash ex_n1 None "k" = ["n2"; "n3"]%string.
Proof. vm_compute. reflexivity. Qed.
Lemma ex_targets2 : targetsFor ex_hash ex_n2 None "k" = ["n3"]%string.
Proof. vm_compute. reflexivity. Qed.

Lemma success_means_majority_witness :
  requiredAcks 3 3 <= Z.of_nat (size (holders ex_n1 ex_evs1)) ∧
  effectiveRF 3 3 < 2 * Z.of_nat (size (holders ex_n1 ex_evs1)).
Proof.
  apply (success_means_majority ex_hash ex_n1 None "k" ex_evs1 3); try reflexivity.
  - apply (bool_decide_unpack (NoDup _)). vm_compute. exact I.
  - rewrite ex_targets1. simpl. set_solver.
Defined.


Lemma verdict_counts_acks_witness :
  ReplicateToAll ex_hash ex_n1 None "k" ex_evs1 = Some QOk.
Proof.
  rewrite (verdict_counts_acks ex_hash ex_n1 None "k" ex_evs1 3); rewrite ?ex_targets1; try done.
  repeat constructor; discriminate.
Defined.

Lemma no_targets_is_an_error_witness :
  let r := mkRepl_ "n1" 3 (Some 3) None (Some false) in
  ReplicateToAll ex_hash r None "k" ex_evs1 ≠ Some QLocalOnly ∧
  (0 < 3 → targetsFor ex_hash r None "k" = [] →
   ReplicateToAll ex_hash r None "k" ex_evs1 = Some QNotReady).
Proof. apply (no_targets_is_an_error ex_hash (mkRepl_ "n1" 3 (Some 3) None (Some false))); reflexivity. Defined.
