(* ===== verification/WritePath.v ===== *)
(** * A client write, end to end

    The RPC server calls the replicator through an interface; here the quorum
    replication of [Quorum] implements it, which gives what a successful [Put] means
    for the cluster. *)

From S2P Require Import Prelude Store StoreSpec WalCodec WalWriter EventLoop Placement AssignProofs Server ServerProofs Quorum.
From Stdlib.Strings Require Import Byte.

Section write_path.
Context (Sum64String : string → Z) (Hhash : ∀ k, is_u64 (Sum64String k)).

(** The [Replicator] a node offers to its RPC server; [evs key] are the reports of the
    replication workers for a write of [key]. *)
Definition quorumReplicator (r : ReplState) (refreshed : option Placement) (evs : string → list QEvent)
    : Replicator := {|
  Server.ReplicateToAll := λ _ key _ _ _,
    match Quorum.ReplicateToAll Sum64String r refreshed key (evs key) with
    | Some QOk | Some QLocalOnly => None
    | _ => Some "replication failed"%string
    end;
  Server.CheckOwnership := λ key,
    default (false, false, ""%string) (Quorum.CheckOwnership Sum64String r key);
  Server.GetVNodeForKey := λ key, default 0 (Quorum.GetVNodeForKey Sum64String r key)
|}.

Lemma owner_is_primary r key rep owner :
  Quorum.CheckOwnership Sum64String r key = Some (true, rep, owner) →
  placement r = None ∨
  ∃ p, placement r = Some p ∧ (length (VNodes p) = 1024%nat →
    ∃ v, VNodes p !! Z.to_nat (vnodeIndex Sum64String key) = Some v ∧ Primary v = rID r).
Proof using Hhash.
  unfold Quorum.CheckOwnership. destruct (placement r) as [p|]; [|by left]. intros Hc. right.
  exists p. split; [done|]. intros Hlen. destruct (Mul64_index Sum64String Hhash key) as [Hidx _].
  unfold GetNodesForKey in Hc. rewrite Hlen in Hc.
  change (Z.of_nat 1024 =? VNodeCount) with true in Hc. cbn [negb] in Hc.
  destruct (Mul64 _ _) as [hi lo]. cbn [fst] in Hidx. subst hi.
  destruct (VNodes p !! _) as [v|] eqn:Ev; [|done]. exists v. split; [done|].
  cbn in Hc. simplify_eq. match goal with H : bool_decide _ = true |- _ => by apply bool_decide_eq_true in H end.
Qed.

End write_path.

