(* ===== verification/Migration.v ===== *)
(** * Moving vnodes between nodes

    [ApplyPlacementFromRaft] and [transferVNodeFrom] of [src/cluster/replication.go],
    [TransferVNode] of [src/core/rpc.go], and the applier and dropper callbacks that
    [src/cmd/server/main.go] installs. *)

From S2P Require Import Prelude Text Store StoreSpec WalCodec WalWriter EventLoop Placement Server ServerProofs.
From Stdlib.Strings Require Import Byte.

(** ** The transfer protocol *)

Record VNodeTransferResp := mkTransferResp {
  trVnodeId : Z;
  trPlacementEpoch : Z;
  trKey : string;
  trValue : list byte;
  trVersion : Z;
  trEmptyEntries : bool;
  trError : string;
  trTombstone : bool
}.

(** [TransferVNode]: the responses sent for a request, the end marker last. *)
Definition TransferVNode (s : Store) (reqVnode epoch : Z) : list VNodeTransferResp :=
  let vnodeID := u16 reqVnode in
  ((λ e, mkTransferResp vnodeID epoch (eKey e) (eValue e) (eVersion e) false "" (eTombstone e))
     <$> Entries (SnapshotVNode s vnodeID))
  ++ [mkTransferResp vnodeID epoch "" [] 0 true "" false].

(** What [stream.Recv] yields. *)
Inductive RecvResult := Received (r : VNodeTransferResp) | RecvEOF | RecvErr.

Inductive TransferErr := ErrNoApplier | ErrNoClient | ErrStream | ErrSource | ErrApply.

Definition transferCommand (resp : VNodeTransferResp) : Command :=
  mkCommand (if trTombstone resp then OpDelete else OpPut) (trKey resp) (trValue resp)
    (u16 (trVnodeId resp)) (trVersion resp).

(** The receiving loop; [apply] is the transfer applier.  When the list ends the stream
    has timed out. *)
Fixpoint receive {S : Type} (apply : S → Command → S * bool) (s : S) (recvs : list RecvResult)
    : S * option TransferErr :=
  match recvs with
  | [] => (s, Some ErrStream)
  | RecvEOF :: _ => (s, None)
  | RecvErr :: _ => (s, Some ErrStream)
  | Received resp :: recvs =>
      if bool_decide (trError resp ≠ ""%string) then (s, Some ErrSource)
      else if trEmptyEntries resp then (s, None)
      else
        let '(s', ok) := apply s (transferCommand resp) in
        if ok : bool then receive apply s' recvs else (s', Some ErrApply)
  end.

(** [src]: the stream of the source node, [None] when no client or stream can be
    opened. *)
Definition transferVNodeFrom {S : Type} (applier : option (S → Command → S * bool)) (s : S)
    (src : option (list RecvResult)) : S * option TransferErr :=
  match applier, src with
  | None, _ => (s, Some ErrNoApplier)
  | Some _, None => (s, Some ErrNoClient)
  | Some apply, Some recvs => receive apply s recvs
  end.

(** ** The callbacks of [main] *)

(** The transfer applier: one request through the event loop. *)
Definition transferApplier (e : Env) (srv : Server) (cmd : Command) : Server * bool :=
  let '(srv', resp) :=
    sendRequest e srv (mkRequest (Op cmd) (Key cmd) (Value cmd) (VNodeID cmd) (Version cmd) 0) in
  (srv', match pErr resp with None => true | Some _ => false end).

(** The transfer dropper: delete every key through the event loop, under fresh
    versions, then drop what is left. *)
Fixpoint dropKeys (e : Env) (srv : Server) (vnodeID : Z) (keys : list string) : Server * bool :=
  match keys with
  | [] => (srv, true)
  | key :: keys =>
      let '(srv, ver) := NextVersion (now e) srv in
      let '(srv, resp) := sendRequest e srv (mkRequest OpDelete key [] vnodeID ver 0) in
      match pErr resp with
      | None => dropKeys e srv vnodeID keys
      | Some _ => (srv, false)
      end
  end.

Definition transferDropper (e : Env) (srv : Server) (vnodeID : Z) : Server * bool :=
  let '(srv, ok) := dropKeys e srv vnodeID (GetKeysForVNode (srvStore srv) vnodeID) in
  if ok : bool
  then (mkServer (DeleteVNodeData (srvStore srv) vnodeID) (versionCounter srv), true)
  else (srv, false).

(** ** [ApplyPlacementFromRaft] *)

Inductive Delta := Lost | Gained | ChangedReplicas | AddedReplica | Unchanged.

#[export] Instance Delta_eq_dec : EqDecision Delta.
Proof. solve_decision. Defined.

(** The case analysis of one vnode; the replica lists are read by index and can be out
    of range ([None]: a panic). *)
Definition classify (self oldOwner newOwner : string) (oldReplicas newReplicas : option (list string))
    : option Delta :=
  if bool_decide (oldOwner = self) && negb (bool_decide (newOwner = self)) then Some Lost
  else if negb (bool_decide (oldOwner = self)) && bool_decide (newOwner = self) then Some Gained
  else
    o ← oldReplicas; n ← newReplicas;
    if bool_decide (oldOwner = newOwner) && bool_decide (oldOwner = self) then
      Some (if bool_decide (o = n) then Unchanged else ChangedReplicas)
    else
      Some (if negb (bool_decide (self ∈ o)) && bool_decide (self ∈ n) then AddedReplica else Unchanged).

(** [map[uint16]string] of primaries, by vnode identifier. *)
Definition ownerMap (vs : list VNode) : gmap Z string :=
  foldl (λ m v, <[vID v := Primary v]> m) ∅ vs.

Definition replicasAt (p : Placement) (vnodeID : Z) : option (list string) :=
  Replicas <$> VNodes p !! Z.to_nat vnodeID.

(** The deltas of every vnode of the new placement. *)
Definition deltas (self : string) (oldPl p : Placement) : option (list (Z * Delta)) :=
  let oldMap := ownerMap (VNodes oldPl) in
  let newMap := ownerMap (VNodes p) in
  mapM (λ '(vnodeID, newOwner),
    d ← classify self (default ""%string (oldMap !! vnodeID)) newOwner
          (replicasAt oldPl vnodeID) (replicasAt p vnodeID);
    Some (vnodeID, d)) (map_to_list newMap).

(** Sources tried for a gained vnode, in order. *)
Definition addSources (self : string) (acc l : list string) : list string :=
  foldl (λ acc n,
    if bool_decide (n ≠ ""%string) && negb (bool_decide (n = self)) && negb (bool_decide (n ∈ acc))
    then acc ++ [n] else acc) acc l.

Definition gainedSources (self oldOwner : string) (oldReplicas newReplicas : list string) : list string :=
  let start := if bool_decide (oldOwner ≠ ""%string) && negb (bool_decide (oldOwner = self))
               then [oldOwner] else [] in
  addSources self (addSources self start oldReplicas) newReplicas.

Definition addedSources (self owner : string) (newReplicas : list string) : list string :=
  let start := if bool_decide (owner ≠ ""%string) && negb (bool_decide (owner = self))
               then [owner] else [] in
  addSources self start newReplicas.

(** Try the sources until one transfer succeeds. *)
Fixpoint tryTransfers {S : Type} (transfer : S → string → S * option TransferErr) (s : S)
    (sources : list string) : S * bool :=
  match sources with
  | [] => (s, false)
  | src :: sources =>
      match transfer s src with
      | (s', None) => (s', true)
      | (s', Some _) => tryTransfers transfer s' sources
      end
  end.

(** ** The migration goroutine *)

Record MigState := mkMig {
  mgServer : Server;
  migrationSource : gmap Z string
}.

(** The preferred source of a vnode while it catches up; a blank name removes it. *)
Definition setMigrationSource (vnodeID : Z) (source : string) (ms : gmap Z string) : gmap Z string :=
  if decide (TrimSpace source = ""%string) then delete vnodeID ms else <[vnodeID := source]> ms.
Definition clearMigrationSource (vnodeID : Z) (ms : gmap Z string) : gmap Z string := delete vnodeID ms.

(** What the node's surroundings do during a migration: [streams src v] is the stream
    opened to [src] for vnode [v], [applyEnv] and [dropEnv] the environments of the two
    callbacks. *)
Record MigEnv := mkMigEnv {
  streams : string → Z → option (list RecvResult);
  applyEnv : Env;
  dropEnv : Env;
  hasDropper : bool
}.

Definition transferFrom (me : MigEnv) (vnodeID : Z) (srv : Server) (src : string)
    : Server * option TransferErr :=
  transferVNodeFrom (Some (transferApplier (applyEnv me))) srv (streams me src vnodeID).

Definition migrateGained (me : MigEnv) (self : string) (oldMap : gmap Z string) (oldPl p : Placement)
    (st : MigState) (vnodeID : Z) : MigState :=
  let candidates := gainedSources self (default ""%string (oldMap !! vnodeID))
                      (default [] (replicasAt oldPl vnodeID)) (default [] (replicasAt p vnodeID)) in
  let ms := match candidates with
            | [] => migrationSource st
            | src :: _ => setMigrationSource vnodeID src (migrationSource st)
            end in
  let '(srv, success) := tryTransfers (transferFrom me vnodeID) (mgServer st) candidates in
  mkMig srv (if success : bool then clearMigrationSource vnodeID ms else ms).

Definition migrateAdded (me : MigEnv) (self : string) (newMap : gmap Z string) (p : Placement)
    (st : MigState) (vnodeID : Z) : MigState :=
  let candidates := addedSources self (default ""%string (newMap !! vnodeID))
                      (default [] (replicasAt p vnodeID)) in
  mkMig (tryTransfers (transferFrom me vnodeID) (mgServer st) candidates).1 (migrationSource st).

Definition migrateLost (me : MigEnv) (st : MigState) (vnodeID : Z) : MigState :=
  mkMig (if hasDropper me then (transferDropper (dropEnv me) (mgServer st) vnodeID).1 else mgServer st)
    (clearMigrationSource vnodeID (migrationSource st)).

Definition withDelta (d : Delta) (ds : list (Z * Delta)) : list Z :=
  (filter (λ x, x.2 = d) ds).*1.

(** [None]: an index out of range while comparing replica sets. *)
Definition ApplyPlacementFromRaft (me : MigEnv) (self : string) (oldPl : option Placement) (p : Placement)
    (st : MigState) : option (Placement * MigState) :=
  match oldPl with
  | None => Some (p, st)
  | Some oldPl =>
      ds ← deltas self oldPl p;
      let oldMap := ownerMap (VNodes oldPl) in
      let newMap := ownerMap (VNodes p) in
      let st := foldl (migrateGained me self oldMap oldPl p) st (withDelta Gained ds) in
      let st := foldl (migrateAdded me self newMap p) st (withDelta AddedReplica ds) in
      let st := foldl (migrateLost me) st (withDelta Lost ds) in
      Some (p, st)
  end.

(** ** A complete transfer *)

(** The commands of a snapshot. *)
Definition snapshotCmds (s : Store) (v : Z) : list Command :=
  (λ e, mkCommand (if eTombstone e then OpDelete else OpPut) (eKey e) (eValue e) v (eVersion e))
    <$> Entries (SnapshotVNode s v).

(** The receiver applies exactly the snapshot. *)
Lemma receive_snapshot {S} (apply : S → Command → S * bool) (f : S → Command → S) src v epoch s :
  0 <= v < 2 ^ 16 →
  (∀ s c, Op c = OpPut ∨ Op c = OpDelete → apply s c = (f s c, true)) →
  receive apply s (Received <$> TransferVNode src v epoch) = (foldl f s (snapshotCmds src v), None).
Proof.
  intros Hv Hap. unfold TransferVNode, snapshotCmds.
  assert (u16 v = v) as -> by (unfold u16; by apply Z.mod_small). revert s.
  induction (Entries (SnapshotVNode src v)) as [|e es IH]; intros s; [done|].
  cbn [fmap list_fmap app receive]. rewrite bool_decide_false by (simpl; tauto).
  cbn [trEmptyEntries]. rewrite Hap by (unfold transferCommand; simpl; case_match; auto).
  cbn [foldl]. unfold transferCommand at 1. cbn.
  assert (u16 v = v) as -> by (unfold u16; by apply Z.mod_small). apply IH.
Qed.

(** The entry of a key that holds a cell. *)
Definition entryOf (s : Store) (k : string) : SnapshotEntry :=
  match abs s !! k with
  | Some (ver, Some val) => mkEntry k val ver false
  | Some (ver, None) => mkEntry k [] ver true
  | None => mkEntry k [] 0 true
  end.

Lemma abs_live vn s k :
  index_ok vn s → live s k → ∃ val, storage s !! k = Some val ∧
    mTombstone (metaOf s k) = false ∧ abs s !! k = Some (mVersion (metaOf s k), Some val).
Proof.
  intros Hix Hl. destruct (proj2 (ix_storage _ _ Hix k) Hl) as [val Hv].
  destruct Hl as (m & Hm & Ht). exists val. rewrite lookup_abs. unfold metaOf. rewrite Hm. simpl.
  by rewrite Ht, Hv.
Qed.

Lemma abs_dead s k : dead s k → abs s !! k = Some (mVersion (metaOf s k), None).
Proof. intros (m & Hm & Ht). rewrite lookup_abs. unfold metaOf. rewrite Hm. simpl. by rewrite Ht. Qed.

(** A snapshot is the list of the vnode's cells, live keys first. *)
Lemma snapshot_eq vn s v X :
  index_ok vn s → vNodeIdx s !! v = Some X →
  Entries (SnapshotVNode s v)
  = entryOf s <$> (elements X ++ elements (setOf (tombstoneIdx s) v)).
Proof.
  intros Hix HX. unfold SnapshotVNode. rewrite HX. cbn [Entries]. rewrite fmap_app. f_equal.
  - assert (Hl : ∀ k, k ∈ elements X → live s k).
    { intros k Hk. apply (ix_data _ _ Hix v). erewrite setOf_lookup by done. set_solver. }
    induction (elements X) as [|k l IH]; [done|]. rewrite fmap_cons. cbn [omap list_omap].
    destruct (abs_live vn s k Hix) as (val & Hv & Ht & Ha); [apply Hl; set_solver|].
    rewrite Hv. cbn. unfold entryOf at 1. rewrite Ha, Ht. f_equal. apply IH. intros; apply Hl; set_solver.
  - apply list_fmap_ext. intros i k Hk%list_elem_of_lookup_2. unfold entryOf.
    rewrite abs_dead; [done|]. apply (ix_tombs _ _ Hix v). set_solver.
Qed.

Lemma snapshot_keys vn s v X :
  index_ok vn s → vNodeIdx s !! v = Some X →
  let keys := elements X ++ elements (setOf (tombstoneIdx s) v) in
  NoDup keys ∧ ∀ k, k ∈ keys ↔ vn k = v ∧ is_Some (abs s !! k).
Proof.
  intros Hix HX keys. split.
  - apply list.NoDup_app. split; [apply NoDup_elements|]. split; [|apply NoDup_elements].
    intros k Hk Hk'. rewrite elem_of_elements in Hk, Hk'. rewrite <-(setOf_lookup _ _ _ HX) in Hk.
    apply (ix_data _ _ Hix) in Hk as [_ Hl]. apply (ix_tombs _ _ Hix) in Hk' as [_ Hd].
    by eapply live_not_dead.
  - intros k. unfold keys. rewrite elem_of_app, !elem_of_elements.
    rewrite <-(setOf_lookup _ _ _ HX), (ix_data _ _ Hix), (ix_tombs _ _ Hix), lookup_abs.
    unfold live, dead. destruct (meta s !! k) as [m|]; simpl.
    + destruct (mTombstone m) eqn:E; split; try naive_solver.
      all: intros [Hv _]; [right|left]; eauto.
    + split; [naive_solver|]. by intros [_ [? ?]].
Qed.

(** Applying versioned writes with distinct keys decides every key independently. *)
Lemma lww_apply_ne a c k : Key c ≠ k → lww_apply a c !! k = a !! k.
Proof.
  intros Hk. unfold lww_apply. repeat case_goal; try done; by rewrite lookup_insert_ne.
Qed.

Lemma lww_foldl_ne a l k : k ∉ (Key <$> l) → foldl lww_apply a l !! k = a !! k.
Proof.
  revert a. induction l as [|c l IH]; intros a Hk; [done|]. rewrite fmap_cons in Hk. simpl.
  rewrite IH by set_solver. apply lww_apply_ne. set_solver.
Qed.

(** The cell of a key after its newest writer is merged in. *)
Definition cellVersion (c : option cell) : Z :=
  match c with Some (ver, _) => ver | None => 0 end.
Definition merge (cur new : option cell) : option cell :=
  match new with
  | None => cur
  | Some (ver, x) => if ver <? cellVersion cur then cur else new
  end.

Lemma lww_version_cell a k : lww_version a k = cellVersion (a !! k).
Proof. unfold lww_version. by destruct (a !! k) as [[? ?]|]. Qed.

Definition entryCmd (v : Z) (e : SnapshotEntry) : Command :=
  mkCommand (if eTombstone e then OpDelete else OpPut) (eKey e) (eValue e) v (eVersion e).

Lemma lww_apply_entry a s v k ver x :
  abs s !! k = Some (ver, x) → ver ≠ 0 →
  lww_apply a (entryCmd v (entryOf s k)) !! k = merge (a !! k) (abs s !! k).
Proof.
  intros Hk Hver.
  assert (Hc : entryCmd v (entryOf s k)
    = mkCommand (if x is Some _ then OpPut else OpDelete) k (default [] x) v ver).
  { unfold entryOf. rewrite Hk. by destruct x. }
  assert (Hk' : (abs s !! k : option cell) = Some (ver, x)) by exact Hk.
  rewrite Hc, Hk'. unfold lww_apply, merge. cbn [Version Key Op Value].
  rewrite lww_version_cell, (proj2 (Z.eqb_neq _ _) Hver). cbn [negb andb].
  destruct (ver <? cellVersion (a !! k)); [done|].
  destruct x as [val|]; simpl; by rewrite lookup_insert_eq.
Qed.

Lemma lww_apply_entries a s v keys k :
  NoDup keys → (∀ k, k ∈ keys → ∃ ver x, abs s !! k = Some (ver, x) ∧ ver ≠ 0) →
  foldl lww_apply a (entryCmd v <$> (entryOf s <$> keys)) !! k
  = if decide (k ∈ keys) then merge (a !! k) (abs s !! k) else a !! k.
Proof.
  revert a. induction keys as [|k0 keys IH]; intros a Hnd Hall.
  - rewrite decide_False by set_solver. done.
  - apply list.NoDup_cons in Hnd as [Hk0 Hnd]. rewrite !fmap_cons. cbn [foldl].
    rewrite IH by (done || intros; apply Hall; set_solver).
    destruct (Hall k0) as (ver & x & Ha & Hver); [set_solver|].
    assert (Hkey : Key (entryCmd v (entryOf s k0)) = k0)
      by (unfold entryOf; rewrite Ha; by destruct x).
    destruct (decide (k = k0)) as [->|Hne].
    + rewrite decide_False, decide_True by set_solver. by eapply lww_apply_entry.
    + rewrite lww_apply_ne by congruence.
      destruct (decide (k ∈ keys)); [rewrite decide_True by set_solver|rewrite decide_False by set_solver]; done.
Qed.

Section transfer.
Context (vn : string → Z).

(** The transfer applier as a state transformer, when the event loop serves it. *)
Lemma transferApplier_served e srv c :
  delivery e = Served false → Op c = OpPut ∨ Op c = OpDelete →
  transferApplier e srv c = (mkServer (Apply (srvStore srv) c).1 (versionCounter srv), true).
Proof.
  intros Hd Ho. unfold transferApplier, sendRequest. rewrite Hd.
  set (req := mkRequest _ _ _ _ _ _). assert (Hc : cmdOf req = c) by (by destruct c).
  destruct (loopAnswer_write (mode e) false (srvStore srv) req) as (resp & -> & Hn); [done|].
  by rewrite Hc, (Hn eq_refl).
Qed.

End transfer.

Lemma lww_put_new a k val v ver :
  ver ≠ 0 → lww_version a k <= ver →
  lww_apply a (mkCommand OpPut k val v ver) !! k = Some (ver, Some val).
Proof. intros. apply (lww_apply_new a (mkCommand OpPut k val v ver)); auto. Qed.

Lemma lww_put_stale a k val v ver :
  ver ≠ 0 → ver < lww_version a k → lww_apply a (mkCommand OpPut k val v ver) = a.
Proof.
  intros Hv Hlt. unfold lww_apply. cbn [Version Key].
  by rewrite (proj2 (Z.eqb_neq _ _) Hv), (proj2 (Z.ltb_lt _ _) Hlt).
Qed.

Lemma lww_del_new a k v ver :
  ver ≠ 0 → lww_version a k <= ver →
  lww_apply a (mkCommand OpDelete k [] v ver) !! k = Some (ver, None).
Proof. intros. apply (lww_apply_new a (mkCommand OpDelete k [] v ver)); auto. Qed.

Lemma lww_version_new k : lww_version (abs NewStore) k = 0.
Proof. rewrite lww_version_cell, lookup_abs. simpl. by rewrite lookup_empty. Qed.

(** ** Dropping a vnode *)

(** The deletions the dropper logs, from the version counter [ctr] on. *)
Fixpoint dropCmds (clock ctr v : Z) (keys : list string) : list Command :=
  match keys with
  | [] => []
  | k :: keys => let ver := Server.candidate ctr clock in
                 mkCommand OpDelete k [] v ver :: dropCmds clock ver v keys
  end.

Lemma dropKeys_served e srv v keys :
  delivery e = Served false →
  ∃ ctr, dropKeys e srv v keys
         = (mkServer (apply_all (srvStore srv) (dropCmds (now e) (versionCounter srv) v keys)) ctr, true).
Proof.
  intros Hd. revert srv. induction keys as [|k keys IH]; intros [s ctr]; simpl; [eauto|].
  unfold sendRequest. rewrite Hd. simpl.
  destruct (loopAnswer_write (mode e) false s
    (mkRequest OpDelete k [] v (Server.candidate ctr (now e)) 0)) as (resp & Hr & Hn); [by right|].
  rewrite Hr, (Hn eq_refl). destruct (IH (mkServer (Apply s (mkCommand OpDelete k [] v (Server.candidate ctr (now e)))).1
    (Server.candidate ctr (now e)))) as [ctr' Hk].
  exists ctr'. exact Hk.
Qed.

Lemma dropCmds_keys clock ctr v keys : Key <$> dropCmds clock ctr v keys = keys.
Proof. revert ctr. induction keys as [|k keys IH]; intros ctr; csimpl; [done|]. by rewrite IH. Qed.

Lemma dropCmds_routed vn clock ctr v keys :
  (∀ k, k ∈ keys → vn k = v) → Forall (routed vn) (dropCmds clock ctr v keys).
Proof.
  revert ctr. induction keys as [|k keys IH]; intros ctr Hk; [by constructor|]. constructor.
  - unfold routed. simpl. symmetry. apply Hk. set_solver.
  - apply IH. intros. apply Hk. set_solver.
Qed.

Lemma apply_all_index vn s l :
  Forall (routed vn) l → index_ok vn s → index_ok vn (apply_all s l).
Proof.
  intros Hl. revert s. induction Hl as [|c l Hc _ IH]; intros s Hs; [done|].
  apply IH. by apply Apply_index.
Qed.

Lemma vnode_keys vn s v k : index_ok vn s → k ∈ GetKeysForVNode s v → vn k = v.
Proof.
  intros Hix. unfold GetKeysForVNode. destruct (vNodeIdx s !! v) as [X|] eqn:E; [|set_solver].
  rewrite elem_of_elements, <-(setOf_lookup _ _ _ E). by intros [? _]%(ix_data _ _ Hix).
Qed.

(** What the dropper leaves: nothing of the vnode, everything of the others. *)
Lemma dropper_erases vn e srv v :
  index_ok vn (srvStore srv) → delivery e = Served false →
  let srv' := (transferDropper e srv v).1 in
  index_ok vn (srvStore srv') ∧
  ∀ k, abs (srvStore srv') !! k = if decide (vn k = v) then None else abs (srvStore srv) !! k.
Proof.
  intros Hix Hd srv'. unfold srv', transferDropper.
  set (keys := GetKeysForVNode (srvStore srv) v).
  destruct (dropKeys_served e srv v keys Hd) as [ctr ->]. cbn [fst srvStore].
  set (s1 := apply_all (srvStore srv) (dropCmds (now e) (versionCounter srv) v keys)).
  assert (Hk : ∀ k, k ∈ keys → vn k = v) by (intros k Hk; by eapply vnode_keys).
  assert (Hix1 : index_ok vn s1) by (apply apply_all_index; [by apply dropCmds_routed|done]).
  split; [by apply DeleteVNodeData_index|].
  intros k. rewrite lookup_abs, (DeleteVNodeData_meta vn s1 v Hix1), (DeleteVNodeData_storage vn s1 v Hix1).
  destruct (decide (vn k = v)) as [E|E]; [done|]. rewrite <-lookup_abs.
  unfold s1. rewrite apply_all_abs. apply lww_foldl_ne. rewrite dropCmds_keys. naive_solver.
Qed.

(** C39: a primary that becomes a replica erases its copy.  When a new placement demotes
    this node from primary to replica of a vnode (what a short-term role swap does),
    the vnode is classified as lost, and the clean-up then removes every cell of it,
    although the new placement counts this node among the vnode's copies. *)
Theorem demoted_primary_erases_replica vn me self newOwner oldReplicas newReplicas st v :
  newOwner ≠ self → self ∈ newReplicas →
  index_ok vn (srvStore (mgServer st)) → hasDropper me = true → delivery (dropEnv me) = Served false →
  classify self self newOwner oldReplicas (Some newReplicas) = Some Lost ∧
  ∀ k, vn k = v → abs (srvStore (mgServer (migrateLost me st v))) !! k = None.
Proof.
  intros Hne Hin Hix Hdrop Hd. split.
  - unfold classify. by rewrite bool_decide_true, bool_decide_false.
  - intros k Hk. unfold migrateLost. rewrite Hdrop. simpl.
    destruct (dropper_erases vn (dropEnv me) (mgServer st) v Hix Hd) as [_ He].
    rewrite He. by rewrite decide_True.
Qed.

(** The dropper's deletions come back with the log.  The dropper logs a deletion of
    every key under a fresh version and then forgets the deletions in memory only.
    After a restart, replay brings them back: a later transfer of the vnode to this node
    is ignored as stale and the key stays missing, where the same transfer without the
    restart restores the value. *)
Theorem restart_after_drop_blocks_transfer vn h k v clock ctr val ver :
  let s := apply_all NewStore h in
  let ds := dropCmds clock ctr v [k] in
  let d := Server.candidate ctr clock in
  let c := mkCommand OpPut k val v ver in
  index_ok vn s → vn k = v → GetKeysForVNode s v = [k] →
  lww_version (abs s) k <= d → 0 < ver < d →
  abs (Apply (apply_all NewStore (h ++ ds)) c).1 !! k = Some (d, None) ∧
  abs (Apply (DeleteVNodeData (apply_all s ds) v) c).1 !! k = Some (ver, Some val).
Proof.
  intros s ds d c Hix Hk Hkeys Hle Hver. rewrite apply_all_app, !Apply_abs. fold s.
  assert (Hd : (abs (apply_all s ds) !! k : option cell) = Some (d, None)).
  { rewrite apply_all_abs. unfold ds. simpl.
    apply lww_del_new; [|done]. fold d. lia. }
  assert (Hix1 : index_ok vn (apply_all s ds)).
  { apply apply_all_index; [|done]. apply dropCmds_routed. intros k' Hk'. set_solver. }
  assert (Hgone : (abs (DeleteVNodeData (apply_all s ds) v) !! k : option cell) = None).
  { rewrite lookup_abs, (DeleteVNodeData_meta vn _ v Hix1), decide_True by done. done. }
  split.
  - unfold c. rewrite lww_put_stale; [done|lia|]. rewrite lww_version_cell, Hd. simpl. lia.
  - apply lww_put_new; [lia|]. rewrite lww_version_cell, Hgone. simpl. lia.
Qed.

(** Deletions of a vnode without live data are not transferred.  A node that only ever
    saw a deletion of a key has the deletion marker but no index entry for the vnode, so
    its transfer stream is empty and a receiver with an older value keeps it. *)
Theorem transfer_can_miss_deletions e k val v ver1 ver2 epoch ctr :
  0 < ver1 < ver2 → 0 <= v < 2 ^ 16 → delivery e = Served false →
  let src := apply_all NewStore [mkCommand OpDelete k [] v ver2] in
  let dst := mkServer (apply_all NewStore [mkCommand OpPut k val v ver1]) ctr in
  abs src !! k = Some (ver2, None) ∧
  let r := transferVNodeFrom (Some (transferApplier e)) dst
             (Some (Received <$> TransferVNode src v epoch)) in
  r = (dst, None) ∧ lww_get (abs (srvStore r.1)) k = inl (val, ver1).
Proof.
  intros Hv Hr Hd src dst.
  assert (Hsnap : TransferVNode src v epoch = [mkTransferResp v epoch "" [] 0 true "" false]).
  { unfold TransferVNode, src. assert (u16 v = v) as -> by (unfold u16; by apply Z.mod_small).
    unfold apply_all. simpl. unfold Apply. simpl. rewrite (proj2 (Z.eqb_neq _ _)) by lia.
    rewrite (proj2 (Z.ltb_ge _ _)) by (unfold metaOf; simpl; rewrite lookup_empty; simpl; lia).
    unfold applySwitch. simpl. unfold applyDelete. simpl. unfold removeKey. by rewrite lookup_empty. }
  split.
  - unfold src. rewrite apply_all_abs. apply lww_del_new; [lia|]. rewrite lww_version_new. lia.
  - rewrite Hsnap. intros r. assert (Hrd : r = (dst, None)) by done. split; [done|].
    rewrite Hrd. unfold lww_get, dst. cbn [fst srvStore].
    rewrite apply_all_abs. cbn [foldl]. rewrite lww_put_new; [done|lia|]. rewrite lww_version_new. lia.
Qed.

(** ** Witnesses *)

Definition ex_vn (k : string) : Z := Z.of_nat (String.length k).
Definition ex_hist : list Command :=
  [mkCommand OpPut "abc" [x41] 3 5; mkCommand OpDelete "xyz" [] 3 6].
Definition ex_src : Store := apply_all NewStore ex_hist.
Definition ex_dst : Server := mkServer (apply_all NewStore [mkCommand OpPut "xyz" [x42] 3 2]) 9.

Lemma ex_src_index : index_ok ex_vn ex_src.
Proof. apply apply_all_index; [repeat constructor|apply NewStore_index]. Qed.

Lemma ex_src_versions k ver x : ex_vn k = 3 → abs ex_src !! k = Some (ver, x) → ver ≠ 0.
Proof.
  intros _. unfold ex_src. rewrite apply_all_abs. unfold ex_hist. cbn [foldl].
  destruct (decide (k = "xyz"%string)) as [->|H1]; [by intros [= <- _]|].
  destruct (decide (k = "abc"%string)) as [->|H2]; [by intros [= <- _]|].
  rewrite !lww_apply_ne by (simpl; congruence). rewrite lookup_abs. done.
Qed.


Definition ex_mig : MigState := mkMig (mkServer ex_src 9) ∅.
Definition ex_mig_env : MigEnv := mkMigEnv (λ _ _, None) ex_env ex_env true.

Lemma demoted_primary_erases_replica_witness :
  classify "n1" "n1" "n2" (Some ["n2"]) (Some ["n1"]) = Some Lost ∧
  ∀ k, ex_vn k = 3 → abs (srvStore (mgServer (migrateLost ex_mig_env ex_mig 3))) !! k = None.
Proof.
  apply (demoted_primary_erases_replica ex_vn ex_mig_env "n1" "n2" (Some ["n2"]) ["n1"] ex_mig 3)%string.
  - discriminate.
  - apply list_elem_of_singleton. reflexivity.
  - apply ex_src_index.
  - reflexivity.
  - reflexivity.
Defined.

Lemma restart_after_drop_blocks_transfer_witness :
  let s := apply_all NewStore ex_hist in
  let ds := dropCmds 100 9 3 ["abc"%string] in
  let c := mkCommand OpPut "abc" [x41] 3 5 in
  abs (Apply (apply_all NewStore (ex_hist ++ ds)) c).1 !! "abc"%string = Some (100, None) ∧
  abs (Apply (DeleteVNodeData (apply_all s ds) 3) c).1 !! "abc"%string = Some (5, Some [x41]).
Proof.
  apply (restart_after_drop_blocks_transfer ex_vn ex_hist "abc" 3 100 9 [x41] 5).
  - apply ex_src_index.
  - reflexivity.
  - vm_compute. reflexivity.
  - vm_compute. discriminate.
  - split; reflexivity.
Defined.

Lemma transfer_can_miss_deletions_witness :
  let src := apply_all NewStore [mkCommand OpDelete "k" [] 7 9] in
  let dst := mkServer (apply_all NewStore [mkCommand OpPut "k" [x41] 7 4]) 1 in
  abs src !! "k"%string = Some (9, None) ∧
  let r := transferVNodeFrom (Some (transferApplier ex_env)) dst
             (Some (Received <$> TransferVNode src 7 2)) in
  r = (dst, None) ∧ lww_get (abs (srvStore r.1)) "k" = inl ([x41], 4).
Proof. apply (transfer_can_miss_deletions ex_env "k" [x41] 7 4 9 2 1); [lia|lia|reflexivity]. Defined.
