(* ===== verification/Rebalance.v ===== *)
(** * Metrics, scores and placement updates ([src/cluster/replication.go])

    The leader turns gossiped metrics into scores and proposes placements: a long-term
    rebalancing with hysteresis ([UpdatePlacement]) and short-term role swaps away from
    degraded primaries ([UpdatePlacementShortTerm]). *)

From stdpp Require Import sorting.
From S2P Require Import Prelude Float64 Placement AssignProofs Score Targets Replicas.

(** ** Gossiped metrics *)

Record MetricsState := mkMetricsState {
  msMetrics : list NodeMetrics;
  msRTT : gmap string (gmap string f64);
  metricEMA : gmap string NodeMetrics
}.

Definition clampUnit (v : f64) : f64 :=
  if flt v f0 then f0 else if flt f1 v then f1 else v.

Definition quarter : f64 := ratio 1 4.
Definition threeQuarters : f64 := ratio 3 4.

(** [alpha*raw + (1-alpha)*prev] with [alpha = 0.25] *)
Definition ema (raw prev : f64) : f64 := fadd (fmul quarter raw) (fmul threeQuarters prev).

Definition clampAll (raw : NodeMetrics) : NodeMetrics :=
  mkMetrics (NodeID raw) (AvgRTT raw) (CPUCores raw) (MemGB raw) (BandwidthMbps raw) (DiskGB raw)
    (clampUnit (CPUUsage raw)) (clampUnit (MemUsage raw)) (clampUnit (NetUsage raw)) (clampUnit (DiskUsage raw)).

Definition smoothWith (raw prev : NodeMetrics) : NodeMetrics :=
  mkMetrics (NodeID raw)
    (if flt f0 (AvgRTT raw)
     then if fle (AvgRTT prev) f0 then AvgRTT raw else ema (AvgRTT raw) (AvgRTT prev)
     else AvgRTT prev)
    (if CPUCores raw <=? 0 then CPUCores prev else CPUCores raw)
    (if MemGB raw <=? 0 then MemGB prev else MemGB raw)
    (if BandwidthMbps raw <=? 0 then BandwidthMbps prev else BandwidthMbps raw)
    (if DiskGB raw <=? 0 then DiskGB prev else DiskGB raw)
    (ema (CPUUsage raw) (CPUUsage prev)) (ema (MemUsage raw) (MemUsage prev))
    (ema (NetUsage raw) (NetUsage prev)) (ema (DiskUsage raw) (DiskUsage prev)).

Definition smoothMetricsLocked (emas : gmap string NodeMetrics) (raw : NodeMetrics)
    : gmap string NodeMetrics * NodeMetrics :=
  let raw := clampAll raw in
  match emas !! NodeID raw with
  | None => (<[NodeID raw := raw]> emas, raw)
  | Some prev => let s := smoothWith raw prev in (<[NodeID raw := s]> emas, s)
  end.

Record GossipMetricsMessage := mkGossip {
  gType : string;
  gNodeID : string;
  gMetrics : NodeMetrics;
  gRTT : gmap string f64;
  gTime : Z
}.

(** Replace the node's entry, or append it. *)
Fixpoint upsert (l : list NodeMetrics) (m : NodeMetrics) : list NodeMetrics :=
  match l with
  | [] => [m]
  | x :: l => if decide (NodeID x = NodeID m) then m :: l else x :: upsert l m
  end.

Definition HandleMetricsMessage (st : MetricsState) (msg : option GossipMetricsMessage) : MetricsState :=
  match msg with
  | None => st
  | Some msg =>
      if decide (NodeID (gMetrics msg) = ""%string) then st
      else
        let '(emas, smoothed) := smoothMetricsLocked (metricEMA st) (gMetrics msg) in
        let row := default ∅ (msRTT st !! NodeID smoothed) in
        mkMetricsState (upsert (msMetrics st) smoothed)
          (<[NodeID smoothed := gRTT msg ∪ row]> (msRTT st)) emas
  end.

(** ** [UpdatePlacement] *)

Inductive UpdateResult :=
  | NoUpdate
  | UpdatePanic
  | Proposed (p : Placement).

Definition sortedCopy (l : list string) : list string := merge_sort string_le l.

Definition activeMetrics (members : list string) (ms : list NodeMetrics) : list NodeMetrics :=
  filter (λ m, NodeID m ∈ members) ms.

(** Drift between two rings: moved primaries, changed replica sets. *)
Fixpoint drift (vs prev : list VNode) : Z * Z :=
  match vs, prev with
  | v :: vs, w :: prev =>
      let '(p, r) := drift vs prev in
      (p + (if bool_decide (Primary v = Primary w) then 0 else 1),
       r + (if bool_decide (sortedCopy (Replicas w) = sortedCopy (Replicas v)) then 0 else 1))
  | _, _ => (0, 0)
  end.

Definition primaryThreshold : Z := Z.quot (VNodeCount * 12) 100.
Definition replicaThreshold (rf : Z) : Z := Z.quot (VNodeCount * (rf - 1)) 5.

Section update.
Context (Sum64String : string → Z).

(** The new ring before hysteresis; [None]: a panic. *)
Definition recompute (active : list NodeMetrics) (rtt : gmap string (gmap string f64))
    (prev : option Placement) (rf : Z) : option Placement :=
  let scores := CalculateScores active in
  let prevEpoch := match prev with Some p => Epoch p | None => 0 end in
  let prevVNodes := match prev with
                    | Some p => if Z.of_nat (length (VNodes p)) =? VNodeCount then VNodes p else []
                    | None => []
                    end in
  let pl := mkPlacement prevEpoch scores prevVNodes in
  counts ← GetTargetVNodeCount scores;
  pl ← AssignVNodes Sum64String pl counts;
  Some (AssignReplicas Sum64String pl active rtt rf).

Definition setEpoch (p : Placement) (e : Z) : Placement := mkPlacement e (Nodes p) (VNodes p).

(** [leader]: raft is absent or this node leads; [members]: the node identifiers of the
    gossip members ([None]: no memberlist). *)
Definition UpdatePlacement (leader : bool) (members : option (list string)) (st : MetricsState)
    (prev : option Placement) (rf : Z) : UpdateResult :=
  if negb leader then NoUpdate
  else match members with
  | None | Some [] => NoUpdate
  | Some members =>
      let active := activeMetrics members (msMetrics st) in
      if (length active =? 0)%nat then NoUpdate
      else match recompute active (msRTT st) prev rf with
      | None => UpdatePanic
      | Some pl =>
          match prev with
          | Some pr =>
              if Z.of_nat (length (VNodes pr)) =? VNodeCount then
                let '(movedPrimary, movedReplica) := drift (VNodes pl) (VNodes pr) in
                if (movedPrimary <? primaryThreshold) && (movedReplica <? replicaThreshold rf)
                then NoUpdate
                else Proposed (setEpoch pl (Epoch pr +u64 1))
              else Proposed (setEpoch pl 1)
          | None => Proposed (setEpoch pl 1)
          end
      end
  end.
End update.

Lemma drift_nonneg vs vs' : 0 <= (drift vs vs').2.
Proof.
  revert vs'. induction vs as [|v vs IH]; intros [|v' vs']; try done. cbn [drift].
  specialize (IH vs'). destruct (drift vs vs') as [p r]. simpl in *. case_match; lia.
Qed.

(** ** One entry per node *)

Definition metrics_inv (st : MetricsState) : Prop :=
  NoDup (NodeID <$> msMetrics st) ∧ Forall (λ m, NodeID m ≠ ""%string) (msMetrics st).

Lemma upsert_ids l m :
  NodeID <$> upsert l m = if decide (NodeID m ∈ NodeID <$> l) then NodeID <$> l else (NodeID <$> l) ++ [NodeID m].
Proof.
  induction l as [|x l IH]; [by rewrite decide_False by set_solver|]. cbn [upsert].
  rewrite fmap_cons. destruct (decide (NodeID x = NodeID m)) as [E|E].
  - rewrite decide_True by set_solver. csimpl. by rewrite E.
  - rewrite fmap_cons, IH. repeat case_decide; set_solver.
Qed.

Lemma smooth_id emas raw : NodeID (smoothMetricsLocked emas raw).2 = NodeID raw.
Proof. unfold smoothMetricsLocked. by case_match. Qed.

Lemma HandleMetricsMessage_inv st msg : metrics_inv st → metrics_inv (HandleMetricsMessage st msg).
Proof.
  intros [Hnd Hne]. destruct msg as [msg|]; [|done]. unfold HandleMetricsMessage.
  case_decide as Hid; [done|]. pose proof (smooth_id (metricEMA st) (gMetrics msg)) as Hs.
  destruct (smoothMetricsLocked _ _) as [emas sm]. simpl in Hs.
  split; cbn [msMetrics].
  - rewrite upsert_ids. case_decide as Hin; [done|]. apply list.NoDup_app. split; [done|].
    split; [|apply NoDup_singleton]. intros x Hx. rewrite list_elem_of_singleton. intros ->. done.
  - apply list.Forall_forall. intros x Hx. rewrite list.Forall_forall in Hne.
    assert (NodeID x ∈ NodeID <$> upsert (msMetrics st) sm) as Hin by by apply list_elem_of_fmap_2.
    rewrite upsert_ids in Hin. case_decide; [|apply elem_of_app in Hin as [Hin|Hin%list_elem_of_singleton]].
    + apply list_elem_of_fmap in Hin as (y & -> & Hy). by apply Hne.
    + apply list_elem_of_fmap in Hin as (y & -> & Hy). by apply Hne.
    + congruence.
Qed.

(** Gossip keeps one entry per node.  However many messages arrive, in whatever order
    and with whatever content, the leader's metrics never hold two entries for the same
    node nor an anonymous one; this is what the placement computation relies on. *)
Theorem gossip_keeps_nodes_distinct st msgs :
  metrics_inv st → metrics_inv (foldl HandleMetricsMessage st msgs).
Proof.
  revert st. induction msgs as [|msg msgs IH]; intros st Hst; [done|]. simpl.
  by apply IH, HandleMetricsMessage_inv.
Qed.

(** ** Proposed placements are valid *)

Definition vnode_valid (active : list NodeMetrics) (rf : Z) (v : VNode) : Prop :=
  Primary v ∈ (NodeID <$> active) ∧
  if rf <=? 1 then Replicas v = []
  else replicas_ok (CalculateScores active) (statsMap active) rf v.

Lemma score_ids active : nID <$> CalculateScores active = NodeID <$> active.
Proof. unfold CalculateScores. by rewrite <-list_fmap_compose. Qed.

Section valid.
Context (Sum64String : string → Z).

(** The ring that rebalancing starts from. *)
Definition prev_ok (prev : option Placement) : Prop :=
  ∀ p, prev = Some p → length (VNodes p) = 1024%nat → ring_ok (VNodes p).

Lemma prev_ring prev :
  prev_ok prev →
  let prevVNodes := match prev with
                    | Some p => if Z.of_nat (length (VNodes p)) =? VNodeCount then VNodes p else []
                    | None => []
                    end in
  ring_ok (if (length prevVNodes =? 0)%nat then InitializeVNodes else prevVNodes).
Proof.
  intros Hp pv. unfold pv. destruct prev as [p|]; [|apply InitializeVNodes_ring].
  destruct (Z.of_nat (length (VNodes p)) =? VNodeCount) eqn:E; [|apply InitializeVNodes_ring].
  bool_to_prop. assert (length (VNodes p) = 1024%nat) as Hl by (unfold VNodeCount in E; lia).
  rewrite Hl. by apply Hp.
Qed.

Lemma scores_round active : Z.of_nat (length active) <= maxNodes → rounding_ok (CalculateScores active).
Proof.
  intros Hl. apply rounding_always_ok; [apply CalculateScores_valid|].
  unfold CalculateScores. by rewrite length_fmap.
Qed.

Lemma active_length members ms :
  Z.of_nat (length ms) <= maxNodes → Z.of_nat (length (activeMetrics members ms)) <= maxNodes.
Proof. pose proof (length_filter (λ m, NodeID m ∈ members) ms). unfold activeMetrics. lia. Qed.

Lemma recompute_valid active rtt prev rf :
  NoDup (NodeID <$> active) → Forall (λ m, NodeID m ≠ ""%string) active → active ≠ [] →
  prev_ok prev → Z.of_nat (length active) <= maxNodes →
  ∃ p, recompute Sum64String active rtt prev rf = Some p ∧ Nodes p = CalculateScores active ∧
       ring_ok (VNodes p) ∧ Forall (vnode_valid active rf) (VNodes p).
Proof.
  intros Hnd Hne Hact Hprev Hround%scores_round. unfold recompute.
  destruct (GetTargetVNodeCount_sum (CalculateScores active)) as (counts & -> & Hsum & Hnn & Hdom);
    [by destruct active|by rewrite score_ids|done|]. cbn [mbind option_bind].
  set (pl := mkPlacement _ _ _).
  assert (Hempty : counts !! ""%string = None).
  { apply eq_None_not_Some. rewrite Hdom, score_ids. intros (m & Hm & Hin)%list_elem_of_fmap.
    by apply (proj1 (list.Forall_forall _ _) Hne m Hin). }
  destruct (AssignVNodes_spec Sum64String pl counts (prev_ring prev Hprev) Hempty Hnn Hsum)
    as (p1 & -> & _ & Hnodes & Hring & _ & Hown & _). cbn [mbind option_bind].
  assert (Hnodes1 : Nodes p1 = CalculateScores active) by (by rewrite Hnodes).
  eexists. split; [done|]. unfold AssignReplicas.
  assert (Hown1 : ∀ v, v ∈ VNodes p1 → Primary v ∈ (NodeID <$> active) ∧ Primary v ≠ ""%string).
  { intros v Hv. specialize (Hown v Hv). split; [by rewrite <-score_ids, <-Hdom|].
    intros E. rewrite E, Hempty in Hown. by destruct Hown. }
  destruct (rf <=? 1) eqn:Erf; (split; [done|]); cbn [VNodes setVNodes]; split.
  - eapply (ring_Forall2 (λ v v', v' = setReplicas v [])); [by intros v v' ->| |exact Hring].
    apply Forall2_fmap_r, Forall_Forall2_diag, Forall_true. done.
  - apply Forall_fmap, list.Forall_forall. intros v Hv. unfold compose, vnode_valid. rewrite Erf.
    split; [exact (proj1 (Hown1 v Hv))|done].
  - bool_to_prop. eapply (ring_Forall2 (λ v v', vID v' = vID v)); [done| |exact Hring].
    apply Forall2_fmap_r, Forall_Forall2_diag, Forall_true. intros v. unfold compose, assignOne. by case_decide.
  - apply Forall_fmap, list.Forall_forall. intros v Hv. unfold compose, vnode_valid. rewrite Erf.
    destruct (Hown1 v Hv) as [Hin Hp]. bool_to_prop. rewrite Hnodes1. split.
    + unfold assignOne. by rewrite decide_False.
    + apply assignOne_ok; [by rewrite score_ids|lia|done].
Qed.

Lemma active_nonempty (l : list NodeMetrics) : (length l =? 0)%nat = false → l ≠ [].
Proof. intros. by destruct l. Qed.

(** The outcomes of [UpdatePlacement]. *)
Lemma UpdatePlacement_outcome leader members st prev rf :
  metrics_inv st → prev_ok prev →
  Z.of_nat (length (msMetrics st)) <= maxNodes →
  UpdatePlacement Sum64String leader members st prev rf ≠ UpdatePanic ∧
  ∀ p, UpdatePlacement Sum64String leader members st prev rf = Proposed p →
    ring_ok (VNodes p) ∧
    Forall (vnode_valid (activeMetrics (default [] members) (msMetrics st)) rf) (VNodes p) ∧
    match prev with
    | Some pr =>
        if Z.of_nat (length (VNodes pr)) =? VNodeCount then
          Epoch p = Epoch pr +u64 1 ∧
          (primaryThreshold <= (drift (VNodes p) (VNodes pr)).1 ∨
           replicaThreshold rf <= (drift (VNodes p) (VNodes pr)).2)
        else Epoch p = 1
    | None => Epoch p = 1
    end.
Proof.
  intros [Hnd Hne] Hprev Hround. unfold UpdatePlacement.
  destruct leader; [|done]. destruct members as [[|mem members]|]; try done. cbn [default negb] in *.
  set (active := activeMetrics (mem :: members) (msMetrics st)) in *.
  destruct (length active =? 0)%nat eqn:El; [done|].
  assert (Hsub : active `sublist_of` msMetrics st) by apply sublist_filter.
  destruct (recompute_valid active (msRTT st) prev rf) as (pl & -> & _ & Hring & Hval); try done.
  { eapply sublist_NoDup; [exact Hnd|]. by apply fmap_sublist. }
  { apply list.Forall_forall. intros m Hm. apply (proj1 (list.Forall_forall _ _) Hne).
    by eapply elem_of_sublist. }
  { by apply active_nonempty. }
  { by apply active_length. }
  destruct prev as [pr|]; [|by split; [|intros p [= <-]]].
  destruct (Z.of_nat (length (VNodes pr)) =? VNodeCount); [|by split; [|intros p [= <-]]].
  destruct (drift (VNodes pl) (VNodes pr)) as [dp dr] eqn:Ed.
  destruct ((dp <? primaryThreshold) && (dr <? replicaThreshold rf)) eqn:Eh; (split; [done|]); intros p [= <-].
  split; [done|]. split; [done|]. split; [done|]. simpl. rewrite Ed. simpl.
  apply andb_false_iff in Eh as [?|?]; bool_to_prop; [by left|by right].
Qed.

(** C35: rebalancing proposes only valid placements.  From distinct metrics, any previous
    placement and whatever hash function (up to 2^20 nodes), [UpdatePlacement] does not panic; a
    proposal has the next epoch, 1024 vnodes in index order, every primary an active
    member and every replica set well formed; and it is made only when the drift from
    the previous ring reaches a threshold. *)
Theorem update_placement_valid leader members st prev rf :
  metrics_inv st → prev_ok prev →
  Z.of_nat (length (msMetrics st)) <= maxNodes →
  UpdatePlacement Sum64String leader members st prev rf ≠ UpdatePanic ∧
  ∀ p, UpdatePlacement Sum64String leader members st prev rf = Proposed p →
    ring_ok (VNodes p) ∧
    Forall (vnode_valid (activeMetrics (default [] members) (msMetrics st)) rf) (VNodes p) ∧
    match prev with
    | Some pr =>
        if Z.of_nat (length (VNodes pr)) =? VNodeCount then
          Epoch p = Epoch pr +u64 1 ∧
          (primaryThreshold <= (drift (VNodes p) (VNodes pr)).1 ∨
           replicaThreshold rf <= (drift (VNodes p) (VNodes pr)).2)
        else Epoch p = 1
    | None => Epoch p = 1
    end.
Proof. apply UpdatePlacement_outcome. Qed.

(** Every node owns its target number of vnodes and there are no replicas to place. *)
Definition settled (active : list NodeMetrics) (vs : list VNode) : Prop :=
  ∃ counts, GetTargetVNodeCount (CalculateScores active) = Some counts ∧
    (∀ v, v ∈ vs → is_Some (counts !! Primary v)) ∧
    (∀ n, n ≠ ""%string → cnt n vs = countOf counts n) ∧
    Forall (λ v, Replicas v = []) vs.

Lemma recompute_settled active rtt pr :
  NoDup (NodeID <$> active) → Forall (λ m, NodeID m ≠ ""%string) active → active ≠ [] →
  ring_ok (VNodes pr) → Z.of_nat (length active) <= maxNodes → settled active (VNodes pr) →
  recompute Sum64String active rtt (Some pr) 1
  = Some (mkPlacement (Epoch pr) (CalculateScores active) (VNodes pr)).
Proof.
  intros Hnd Hne Hact Hring Hround%scores_round (counts & Hc & Hown & Hcnt & Hrep). unfold recompute.
  destruct (GetTargetVNodeCount_sum (CalculateScores active)) as (counts' & Hc' & Hsum & Hnn & Hdom);
    [by destruct active|by rewrite score_ids|done|]. rewrite Hc in Hc'. simplify_eq. rewrite Hc.
  cbn [mbind option_bind]. rewrite (proj1 Hring). cbn [Z.of_nat]. rewrite Z.eqb_refl.
  assert (Hempty : counts' !! ""%string = None).
  { apply eq_None_not_Some. rewrite Hdom, score_ids. intros (m & Hm & Hin)%list_elem_of_fmap.
    by apply (proj1 (list.Forall_forall _ _) Hne m Hin). }
  set (pl := mkPlacement _ _ _).
  assert (Hold : (if (length (VNodes pl) =? 0)%nat then InitializeVNodes else VNodes pl) = VNodes pr).
  { unfold pl. cbn [VNodes]. by rewrite (proj1 Hring). }
  destruct (AssignVNodes_spec Sum64String pl counts')
    as (p1 & -> & He & Hn & Hring1 & Hf & Hown1 & _ & Hstay); rewrite ?Hold in *; try done.
  cbn [mbind option_bind].
  assert (Hvs : VNodes p1 = VNodes pr).
  { apply (moved_zero_eq _ _ Hf). rewrite <-(moved_refl (VNodes pr)).
    destruct Hring as [Hl _], Hring1 as [Hl1 _].
    apply (stay_max_moves_least Sum64String counts'); try done; congruence. }
  unfold AssignReplicas, setVNodes. simpl. rewrite He, Hn, Hvs. do 2 f_equal.
  rewrite <-(list_fmap_id (VNodes pr)) at 2. apply list_fmap_ext. intros i v Hv. simpl.
  apply list_elem_of_lookup_2 in Hv. apply (proj1 (list.Forall_forall _ _) Hrep) in Hv.
  destruct v. simpl in *. by subst.
Qed.

(** Hysteresis is off when there are no replicas.  With replication factor one the
    replica threshold is zero and no drift is below it: even when the recomputed ring is
    identical to the current one, every evaluation of a leader commits a new epoch. *)
Theorem no_hysteresis_without_replicas members st pr :
  metrics_inv st → ring_ok (VNodes pr) →
  let active := activeMetrics members (msMetrics st) in
  active ≠ [] → Z.of_nat (length (msMetrics st)) <= maxNodes → settled active (VNodes pr) →
  UpdatePlacement Sum64String true (Some members) st (Some pr) 1
  = Proposed (mkPlacement (Epoch pr +u64 1) (CalculateScores active) (VNodes pr)).
Proof.
  intros [Hnd Hne] Hring active Hact Hround Hset. unfold UpdatePlacement.
  assert (members ≠ []) by (intros ->; apply Hact, elem_of_nil_inv;
    intros x [Hx _]%list_elem_of_filter; by apply elem_of_nil in Hx).
  destruct members as [|mem members]; [done|]. cbn [negb]. fold active.
  assert (Hsub : active `sublist_of` msMetrics st) by apply sublist_filter.
  destruct (length active =? 0)%nat eqn:El; [bool_to_prop; by destruct active|].
  rewrite recompute_settled; try done.
  - rewrite (proj1 Hring). cbn [VNodes]. destruct (drift (VNodes pr) (VNodes pr)) as [dp dr] eqn:Ed.
    simpl. assert (0 <= dr) by (change dr with (dp, dr).2; rewrite <-Ed; apply drift_nonneg).
    change (replicaThreshold 1) with 0. rewrite (proj2 (Z.ltb_ge dr 0)) by done.
    by rewrite andb_false_r.
  - eapply sublist_NoDup; [exact Hnd|]. by apply fmap_sublist.
  - apply list.Forall_forall. intros m Hm. apply (proj1 (list.Forall_forall _ _) Hne).
    by eapply elem_of_sublist.
  - by apply active_length.
Qed.
End valid.

(** ** Witnesses *)

Definition ex_gossip : list (option GossipMetricsMessage) :=
  [None; Some (mkGossip "metrics" "n1" (ex_metrics "n1" 10 1000) ∅ 1); Some (mkGossip "metrics" "n2" (ex_metrics "n2" 30 1000) {["n1"%string := of_Z 7]} 2);
   Some (mkGossip "metrics" "n1" (ex_metrics "n1" 18 1000) ∅ 3); Some (mkGossip "metrics" "" (ex_metrics "" 18 1000) ∅ 4)].
Definition ex_msempty : MetricsState := mkMetricsState [] ∅ ∅.
Definition ex_msstate : MetricsState := foldl HandleMetricsMessage ex_msempty ex_gossip.

Lemma gossip_keeps_nodes_distinct_witness :
  metrics_inv ex_msstate ∧ (NodeID <$> msMetrics ex_msstate) = ["n1"; "n2"]%string.
Proof.
  split; [|vm_compute; reflexivity]. apply (gossip_keeps_nodes_distinct ex_msempty ex_gossip).
  split; constructor.
Defined.

Lemma ex_msstate_inv : metrics_inv ex_msstate.
Proof.
  split; [apply (bool_decide_unpack (NoDup _))|apply (bool_decide_unpack (Forall _ _))]; vm_compute; exact I.
Qed.

Lemma proposed_inv r :
  (match r with Proposed _ => true | _ => false end) = true → ∃ p, r = Proposed p.
Proof. destruct r; eauto; discriminate. Qed.

Definition ex_update : UpdateResult :=
  UpdatePlacement ex_hash true (Some ["n1"; "n2"]%string) ex_msstate None 2.

Lemma ex_update_proposed : ∃ p, ex_update = Proposed p.
Proof. apply proposed_inv. vm_compute. reflexivity. Qed.

Lemma update_placement_valid_witness :
  ∃ p, ex_update = Proposed p ∧ ring_ok (VNodes p) ∧ Epoch p = 1.
Proof.
  destruct (update_placement_valid ex_hash true (Some ["n1"; "n2"]%string) ex_msstate None 2) as [_ Hp].
  - exact ex_msstate_inv.
  - intros p E. discriminate E.
  - vm_compute. discriminate.
  - destruct ex_update_proposed as [p E]. exists p. split; [exact E|].
    destruct (Hp p E) as (Hr & _ & He). split; [exact Hr|exact He].
Defined.

(** A one-node cluster whose ring is already where it should be. *)
Definition ex_single : MetricsState := mkMetricsState [ex_metrics "n1" 10 1000] ∅ ∅.
Definition ex_ring1 : list VNode := (λ v, setPrimary v "n1") <$> InitializeVNodes.

Lemma cnt_all_same p vs n :
  Forall (λ v, Primary v = p) vs → cnt n vs = if decide (n = p) then Z.of_nat (length vs) else 0.
Proof.
  induction 1 as [|v vs Hv _ IH]; [by case_decide|]. cbn [cnt length]. rewrite IH.
  unfold is_primary. repeat case_decide; subst; try done; lia.
Qed.

Lemma ex_ring1_primary : Forall (λ v, Primary v = "n1"%string) ex_ring1.
Proof. apply Forall_fmap, Forall_true. done. Qed.

Lemma ex_ring1_ok : ring_ok ex_ring1.
Proof.
  eapply (ring_Forall2 (λ v v', vID v' = vID v)); [done| |exact InitializeVNodes_ring].
  apply Forall2_fmap_r, Forall_Forall2_diag, Forall_true. done.
Qed.

Lemma ex_ring1_settled : settled (msMetrics ex_single) ex_ring1.
Proof.
  exists {["n1"%string := 1024]}. split_and!.
  - vm_compute. reflexivity.
  - intros v Hv. apply (proj1 (list.Forall_forall _ _) ex_ring1_primary) in Hv. rewrite Hv. by eexists.
  - intros n _. rewrite (cnt_all_same _ _ n ex_ring1_primary). unfold countOf.
    case_decide; [subst; by rewrite lookup_singleton_eq|by rewrite lookup_singleton_ne].
  - apply (bool_decide_unpack (Forall _ _)). vm_compute. exact I.
Qed.

Lemma no_hysteresis_without_replicas_witness :
  UpdatePlacement ex_hash true (Some ["n1"%string]) ex_single (Some (mkPlacement 7 [] ex_ring1)) 1
  = Proposed (mkPlacement 8 (CalculateScores (msMetrics ex_single)) ex_ring1).
Proof.
  apply (no_hysteresis_without_replicas ex_hash ["n1"%string] ex_single (mkPlacement 7 [] ex_ring1)).
  - split; [apply (bool_decide_unpack (NoDup _))|apply (bool_decide_unpack (Forall _ _))]; vm_compute; exact I.
  - exact ex_ring1_ok.
  - discriminate.
  - vm_compute. discriminate.
  - exact ex_ring1_settled.
Defined.
