(* ===== verification/ShortTerm.v ===== *)
(** * Short-term role swaps ([UpdatePlacementShortTerm] of [src/cluster/replication.go]) *)

From S2P Require Import Prelude Float64 Placement AssignProofs Score Replicas Rebalance.

Definition averageRTT (metrics : list NodeMetrics) : f64 :=
  let '(total, count) :=
    foldl (λ '(t, c) m, if flt f0 (AvgRTT m) then (fadd t (AvgRTT m), c + 1) else (t, c))
      (f0, 0) metrics in
  if count =? 0 then f0 else fdiv total (of_Z count).

Definition isSeverelyDegraded (m : NodeMetrics) (clusterAvgRTT : f64) : bool :=
  if fle (ratio 90 100) (CPUUsage m) then true
  else if fle (ratio 90 100) (DiskUsage m) then true
  else
    let rttThreshold :=
      if flt f0 clusterAvgRTT then
        let candidate := fmul (of_Z 2) clusterAvgRTT in
        if flt (of_Z 120) candidate then candidate else of_Z 120
      else of_Z 120 in
    flt f0 (AvgRTT m) && fle rttThreshold (AvgRTT m).

(** One pass over the active metrics: the nodes degraded now, the nodes whose streak has
    reached six ([sustainedDegraded]) and the streaks. *)
Definition streakStep (avg : f64) (acc : gset string * gset string * gmap string Z) (m : NodeMetrics)
    : gset string * gset string * gmap string Z :=
  let '(degradedNow, sus, streak) := acc in
  let now := isSeverelyDegraded m avg in
  let degradedNow := if now then {[NodeID m]} ∪ degradedNow else degradedNow ∖ {[NodeID m]} in
  let streak := <[NodeID m := if now then countOf streak (NodeID m) + 1 else 0]> streak in
  let sus := if 6 <=? countOf streak (NodeID m) then {[NodeID m]} ∪ sus else sus in
  (degradedNow, sus, streak).

Definition streakPass (active : list NodeMetrics) (streak : gmap string Z)
    : gset string * gset string * gmap string Z :=
  foldl (streakStep (averageRTT active)) (∅, ∅, streak) active.

(** The inner loop: best replica so far, as its index, identifier and score. *)
Definition bestReplicaStep (scoreByID : gmap string f64) (degradedNow : gset string)
    (acc : option nat * string * f64) (ir : nat * string) : option nat * string * f64 :=
  let '(bestIdx, bestID, bestScore) := acc in
  let '(idx, replicaID) := ir in
  if decide (replicaID ∈ degradedNow) then acc
  else match scoreByID !! replicaID with
       | None => acc
       | Some replicaScore =>
           if flt replicaScore (fmul bestScore (ratio 90 100))
           then (Some idx, replicaID, replicaScore) else acc
       end.

(** One vnode: swap the primary with the chosen replica. *)
Definition swapOne (scoreByID : gmap string f64) (degradedNow sus : gset string) (v : VNode)
    : VNode * bool :=
  if bool_decide (Primary v = ""%string) || (length (Replicas v) =? 0)%nat then (v, false)
  else if negb (bool_decide (Primary v ∈ sus)) then (v, false)
  else match scoreByID !! Primary v with
       | None => (v, false)
       | Some s =>
           let '(bestIdx, bestID, _) :=
             foldl (bestReplicaStep scoreByID degradedNow) (None, Primary v, s)
               (imap pair (Replicas v)) in
           match bestIdx with
           | Some idx =>
               if bool_decide (bestID = Primary v) then (v, false)
               else (mkVNode (vID v) (Token v) bestID (<[idx := Primary v]> (Replicas v)), true)
           | None => (v, false)
           end
       end.

Fixpoint swapAll (scoreByID : gmap string f64) (degradedNow sus : gset string) (vs : list VNode)
    : list VNode * Z :=
  match vs with
  | [] => ([], 0)
  | v :: vs =>
      let '(v', swapped) := swapOne scoreByID degradedNow sus v in
      let '(vs', n) := swapAll scoreByID degradedNow sus vs in
      (v' :: vs', if swapped : bool then n + 1 else n)
  end.

Definition shortThreshold : Z := Z.max 1 (Z.quot (VNodeCount * 1) 100).

(** The new streaks and the proposal. *)
Definition UpdatePlacementShortTerm (leader : bool) (members : option (list string)) (st : MetricsState)
    (streak : gmap string Z) (prev : option Placement) : gmap string Z * UpdateResult :=
  if negb leader then (streak, NoUpdate)
  else match prev with
  | None => (streak, NoUpdate)
  | Some pr =>
      if negb (Z.of_nat (length (VNodes pr)) =? VNodeCount) then (streak, NoUpdate)
      else match members with
      | None | Some [] => (streak, NoUpdate)
      | Some members =>
          let active := activeMetrics members (msMetrics st) in
          if (length active =? 0)%nat then (streak, NoUpdate)
          else
            let scores := CalculateScores active in
            let scoreByID := foldl (λ m n, <[nID n := Score n]> m) ∅ scores in
            let '(degradedNow, sustainedDegraded, streak) := streakPass active streak in
            let '(nextVNodes, swaps) := swapAll scoreByID degradedNow sustainedDegraded (VNodes pr) in
            if swaps =? 0 then (streak, NoUpdate)
            else if swaps <? shortThreshold then (streak, NoUpdate)
            else (streak, Proposed (mkPlacement (Epoch pr +u64 1) scores nextVNodes))
      end
  end.

(** ** Swaps permute the copies of a vnode *)

Lemma best_in_range scoreByID degradedNow l k acc :
  let '(i0, id0, s0) := acc in
  (∀ i, i0 = Some i → (i < k)%nat) →
  let '(i, id, _) := foldl (bestReplicaStep scoreByID degradedNow) acc (imap (λ i r, ((k + i)%nat, r)) l) in
  (i = i0 ∧ id = id0) ∨
  ∃ j, i = Some j ∧ (k <= j)%nat ∧ l !! (j - k)%nat = Some id ∧ (id ∉ degradedNow) ∧ is_Some (scoreByID !! id).
Proof.
  destruct acc as [[i0 id0] s0]. intros Hi0. revert k i0 id0 s0 Hi0.
  induction l as [|r l IH]; intros k i0 id0 s0 Hi0; [by left|].
  cbn [imap foldl]. rewrite (imap_ext _ (λ i r, ((S k + i)%nat, r)) l) by (intros; simpl; f_equal; lia).
  rewrite Nat.add_0_r.
  assert (Hstep : (∃ s1, bestReplicaStep scoreByID degradedNow (i0, id0, s0) (k, r) = (i0, id0, s1)) ∨
    (∃ s1, bestReplicaStep scoreByID degradedNow (i0, id0, s0) (k, r) = (Some k, r, s1) ∧
           (r ∉ degradedNow) ∧ is_Some (scoreByID !! r))).
  { unfold bestReplicaStep. case_decide; [left; eauto|].
    destruct (scoreByID !! r) as [sc|]; [|left; eauto]. case_match; [right|left]; eauto. }
  destruct Hstep as [[s1 ->]|(s1 & -> & Hr & Hs)].
  - specialize (IH (S k) i0 id0 s1 ltac:(intros i Hi; specialize (Hi0 i Hi); lia)).
    destruct (foldl _ _ _) as [[i id] s]. destruct IH as [?|(j & ? & ? & ? & ? & ?)]; [by left|right].
    exists j. split_and!; try done; [lia|]. replace (j - k)%nat with (S (j - S k)) by lia. done.
  - specialize (IH (S k) (Some k) r s1 ltac:(intros i [= <-]; lia)).
    destruct (foldl _ _ _) as [[i id] s]. right. destruct IH as [[-> ->]|(j & ? & ? & ? & ? & ?)].
    + exists k. rewrite Nat.sub_diag. split_and!; done || lia.
    + exists j. split_and!; try done; [lia|]. replace (j - k)%nat with (S (j - S k)) by lia. done.
Qed.

Lemma insert_swap_Permutation (l : list string) j x y :
  l !! j = Some y → y :: <[j := x]> l ≡ₚ x :: l.
Proof.
  intros Hj. rewrite (insert_take_drop l j x) by by eapply lookup_lt_Some.
  rewrite <-(take_drop_middle l j y Hj) at 3. rewrite <-!Permutation_middle. apply Permutation_swap.
Qed.

Definition copies (v : VNode) : list string := Primary v :: Replicas v.

Lemma swapOne_spec scoreByID degradedNow sus v v' b :
  swapOne scoreByID degradedNow sus v = (v', b) →
  vID v' = vID v ∧ Token v' = Token v ∧ copies v' ≡ₚ copies v ∧
  (if b then Primary v' ≠ Primary v ∧ (Primary v ∈ sus) ∧ (Primary v' ∉ degradedNow) ∧
             is_Some (scoreByID !! Primary v') else v' = v).
Proof.
  unfold swapOne. intros H. case_hyp H; [by simplify_eq|]. clear Heqb0.
  case_hyp H; [by simplify_eq|]. bool_to_prop.
  destruct (scoreByID !! Primary v) as [s|]; [|by simplify_eq].
  pose proof (best_in_range scoreByID degradedNow (Replicas v) 0 (None, Primary v, s)) as Hb.
  cbn beta iota in Hb. specialize (Hb ltac:(done)).
  change (imap (λ i r, ((0 + i)%nat, r)) (Replicas v)) with (imap pair (Replicas v)) in Hb.
  destruct (foldl _ _ _) as [[i id] sc]. destruct i as [j|]; [|by simplify_eq].
  case_hyp H; [by simplify_eq|]. bool_to_prop. simplify_eq. cbn [vID Token Primary].
  destruct Hb as [[? _]|(j' & [= <-] & _ & Hj & Hnd & Hs)]; [done|].
  rewrite Nat.sub_0_r in Hj. split_and!; try done.
  unfold copies. cbn [Primary Replicas]. by apply insert_swap_Permutation.
Qed.

(** What a swap pass does to one vnode. *)
Definition swap_ok (scoreByID : gmap string f64) (degradedNow sus : gset string) (v v' : VNode) : Prop :=
  vID v' = vID v ∧ Token v' = Token v ∧ copies v' ≡ₚ copies v ∧
  (v' = v ∨ Primary v' ≠ Primary v ∧ (Primary v ∈ sus) ∧ (Primary v' ∉ degradedNow) ∧
            is_Some (scoreByID !! Primary v')).

Lemma swapAll_spec scoreByID degradedNow sus vs vs' n :
  swapAll scoreByID degradedNow sus vs = (vs', n) →
  Forall2 (swap_ok scoreByID degradedNow sus) vs vs' ∧ n = (drift vs' vs).1.
Proof.
  revert vs' n. induction vs as [|v vs IH]; intros vs' n Hs; simpl in Hs; [by simplify_eq|].
  destruct (swapOne _ _ _ v) as [v' b] eqn:E1. destruct (swapAll _ _ _ vs) as [ws k] eqn:E2.
  destruct (IH _ _ eq_refl) as [Hf ->]. destruct (swapOne_spec _ _ _ _ _ _ E1) as (H1 & H2 & H3 & H4).
  simplify_eq. split.
  - constructor; [|done]. unfold swap_ok. split_and!; try done. destruct b; [right|left]; done.
  - cbn [drift]. destruct (drift ws vs) as [dp dr]. simpl. destruct b; [|subst; rewrite bool_decide_true by done; lia].
    rewrite bool_decide_false by tauto. lia.
Qed.

(** ** Streaks *)

(** The verdicts passed on a node, in order, over one evaluation. *)
Definition verdicts (n : string) (active : list NodeMetrics) : list bool :=
  (λ m, isSeverelyDegraded m (averageRTT active)) <$> filter (λ m, NodeID m = n) active.

(** The length of the run of [true] at the end of a history of verdicts. *)
Fixpoint runLength (run : Z) (h : list bool) : Z :=
  match h with [] => run | b :: h => runLength (if b then run + 1 else 0) h end.

Lemma runLength_app run h1 h2 : runLength run (h1 ++ h2) = runLength (runLength run h1) h2.
Proof. revert run. induction h1; intros; simpl; auto. Qed.

Lemma runLength_suffix h : 0 <= runLength 0 h ∧ ∃ pre, h = pre ++ replicate (Z.to_nat (runLength 0 h)) true.
Proof.
  induction h as [|b h IH] using rev_ind; [split; [done|by exists []]|].
  rewrite runLength_app. destruct IH as [H0 [pre Hpre]]. cbn [runLength]. destruct b; [|split; [done|]].
  - split; [lia|]. exists pre. rewrite Hpre at 1. rewrite <-app_assoc. f_equal.
    rewrite Z2Nat.inj_add, Nat.add_1_r by lia. by rewrite replicate_S_end.
  - eexists. by rewrite app_nil_r.
Qed.

Lemma streak_fold avg l d s st n :
  let '(_, s', st') := foldl (streakStep avg) (d, s, st) l in
  countOf st' n = runLength (countOf st n) ((λ m, isSeverelyDegraded m avg) <$> filter (λ m, NodeID m = n) l).
Proof.
  revert d s st. induction l as [|m l IH]; intros d s st; [done|]. cbn [foldl].
  destruct (streakStep avg (d, s, st) m) as [[d1 s1] st1] eqn:E.
  specialize (IH d1 s1 st1). destruct (foldl _ _ _) as [[d' s'] st'].
  rewrite IH. unfold streakStep in E. simplify_eq. rewrite filter_cons.
  unfold countOf. destruct (decide (NodeID m = n)) as [<-|Hne]; [|by rewrite lookup_insert_ne].
  rewrite fmap_cons. cbn [runLength]. by rewrite lookup_insert_eq.
Qed.

(** Streaks after a history of evaluations. *)
Definition streaks (history : list (list NodeMetrics)) : gmap string Z :=
  foldl (λ st active, (streakPass active st).2) ∅ history.

Definition allVerdicts (n : string) (history : list (list NodeMetrics)) : list bool :=
  mjoin (verdicts n <$> history).

Lemma streaks_count n history : countOf (streaks history) n = runLength 0 (allVerdicts n history).
Proof.
  unfold allVerdicts, streaks. induction history as [|a h IH] using rev_ind; [done|].
  rewrite foldl_app, fmap_app, join_app, runLength_app, <-IH. cbn [foldl fmap list_fmap].
  set (st := foldl _ ∅ h). unfold streakPass.
  pose proof (streak_fold (averageRTT a) a ∅ ∅ st n) as Hf. destruct (foldl _ _ a) as [[? ?] ?].
  simpl in *. by rewrite app_nil_r.
Qed.

(** With one entry per node, the sustained set is read off the final streaks. *)
Lemma sustained_fold avg l d s st n :
  NoDup (NodeID <$> l) → (n ∈ s → 6 <= countOf st n ∧ n ∉ (NodeID <$> l)) →
  let '(_, s', st') := foldl (streakStep avg) (d, s, st) l in
  n ∈ s' → 6 <= countOf st' n.
Proof.
  revert d s st. induction l as [|m l IH]; intros d s st Hnd Hs; [naive_solver|].
  rewrite fmap_cons in Hnd, Hs. apply list.NoDup_cons in Hnd as [Hm Hnd]. cbn [foldl].
  destruct (streakStep avg (d, s, st) m) as [[d1 s1] st1] eqn:E.
  apply IH; [done|]. unfold streakStep in E. simplify_eq. set (c := if isSeverelyDegraded m avg then _ else _).
  intros Hn. assert (Hor : n = NodeID m ∧ 6 <= c ∨ n ∈ s).
  { unfold countOf in Hn. rewrite lookup_insert_eq in Hn. simpl in Hn. case_match; [|by right].
    bool_to_prop. apply elem_of_union in Hn as [Hn%elem_of_singleton|Hn]; [left|right]; done. }
  unfold countOf. destruct Hor as [[-> Hc]|Hin].
  - rewrite lookup_insert_eq. done.
  - destruct (Hs Hin) as [H1 H2]. apply not_elem_of_cons in H2 as [H2 H3].
    rewrite lookup_insert_ne by done. done.
Qed.

(** Only lastingly degraded nodes are demoted.  Whatever the history of evaluations,
    a node is in the sustained set of the latest one only if its last six verdicts, over
    the evaluations in which its metrics took part, were all "severely degraded". *)
Theorem sustained_means_six_in_a_row history active n :
  NoDup (NodeID <$> active) →
  n ∈ (streakPass active (streaks history)).1.2 →
  ∃ earlier, allVerdicts n (history ++ [active]) = earlier ++ replicate 6 true.
Proof.
  intros Hnd Hn. pose proof (streaks_count n (history ++ [active])) as Hc.
  unfold streaks in Hc. rewrite foldl_app in Hc. cbn [foldl] in Hc. fold (streaks history) in Hc.
  pose proof (sustained_fold (averageRTT active) active ∅ ∅ (streaks history) n Hnd) as Hs.
  unfold streakPass in *. destruct (foldl _ _ active) as [[d s] st]. cbn [fst snd] in *.
  specialize (Hs ltac:(set_solver) Hn).
  destruct (runLength_suffix (allVerdicts n (history ++ [active]))) as [_ [pre Hpre]].
  rewrite <-Hc in Hpre. exists (pre ++ replicate (Z.to_nat (countOf st n) - 6) true).
  rewrite Hpre, <-app_assoc, <-replicate_add. do 2 f_equal. lia.
Qed.

Lemma scores_domain (active : list NodeMetrics) n :
  is_Some (foldl (λ (m : gmap string f64) s, <[nID s := Score s]> m) ∅ (CalculateScores active) !! n) →
  n ∈ NodeID <$> active.
Proof.
  rewrite <-score_ids. generalize (CalculateScores active) as l. intros l.
  induction l as [|x l IH] using rev_ind; [intros [? Hx]; simpl in Hx; by rewrite lookup_empty in Hx|].
  rewrite foldl_app, fmap_app. cbn [foldl]. rewrite elem_of_app. intros Hs.
  destruct (decide (nID x = n)) as [<-|Hne]; [right; left|left].
  rewrite lookup_insert_ne in Hs by done. auto.
Qed.

(** What a short-term proposal looks like. *)
Lemma short_proposal leader members st streak pr streak' p :
  ring_ok (VNodes pr) →
  UpdatePlacementShortTerm leader members st streak (Some pr) = (streak', Proposed p) →
  let active := activeMetrics (default [] members) (msMetrics st) in
  let '(degradedNow, sustainedDegraded, _) := streakPass active streak in
  Epoch p = Epoch pr +u64 1 ∧ ring_ok (VNodes p) ∧
  Forall2 (λ v v',
    vID v' = vID v ∧ Token v' = Token v ∧ copies v' ≡ₚ copies v ∧
    (v' = v ∨ Primary v' ≠ Primary v ∧ (Primary v' ∈ Replicas v) ∧ (Primary v ∈ sustainedDegraded) ∧
              (Primary v' ∉ degradedNow) ∧ (Primary v' ∈ NodeID <$> active)))
    (VNodes pr) (VNodes p) ∧
  shortThreshold <= (drift (VNodes p) (VNodes pr)).1.
Proof.
  intros Hring Hu active. unfold UpdatePlacementShortTerm in Hu.
  case_hyp Hu; [done|]. case_hyp Hu; [done|]. destruct members as [[|mem members]|]; try done.
  change (default [] (Some (mem :: members))) with (mem :: members) in active.
  fold active in Hu. case_hyp Hu; [done|].
  destruct (streakPass active streak) as [[d s] st'].
  destruct (swapAll _ _ _ _) as [vs' swaps] eqn:Es. apply swapAll_spec in Es as [Hf ->].
  case_hyp Hu; [done|]. case_hyp Hu; [done|]. bool_to_prop. simplify_eq. simpl. split; [done|].
  split; [eapply ring_Forall2; [|exact Hf|done]; by intros ?? (? & _)|]. split; [|done].
  eapply Forall2_impl; [|exact Hf]. intros v v' (H1 & H2 & H3 & H4). split_and!; try done.
  destruct H4 as [?|(Hne & Hsus & Hnd & Hsc)]; [by left|right]. split_and!; try done.
  - assert (Primary v' ∈ copies v) as Hin by (rewrite <-H3; left). unfold copies in Hin.
    by apply elem_of_cons in Hin as [?|?].
  - by apply scores_domain.
Qed.

(** C36: short-term proposals only swap roles.  A proposal has the next epoch and a ring
    that keeps every vnode's identifier, token and set of copies: a vnode is either
    untouched or its primary, sustained as degraded, gives its role to one of its own
    replicas that is not degraded now and has a score; the swaps reach the threshold. *)
Theorem short_term_swaps_roles leader members st streak pr streak' p :
  ring_ok (VNodes pr) →
  UpdatePlacementShortTerm leader members st streak (Some pr) = (streak', Proposed p) →
  let active := activeMetrics (default [] members) (msMetrics st) in
  let '(degradedNow, sustainedDegraded, _) := streakPass active streak in
  Epoch p = Epoch pr +u64 1 ∧ ring_ok (VNodes p) ∧
  Forall2 (λ v v',
    vID v' = vID v ∧ Token v' = Token v ∧ copies v' ≡ₚ copies v ∧
    (v' = v ∨ Primary v' ≠ Primary v ∧ (Primary v' ∈ Replicas v) ∧ (Primary v ∈ sustainedDegraded) ∧
              (Primary v' ∉ degradedNow) ∧ (Primary v' ∈ NodeID <$> active)))
    (VNodes pr) (VNodes p) ∧
  shortThreshold <= (drift (VNodes p) (VNodes pr)).1.
Proof. apply short_proposal. Qed.

(** ** Witnesses *)

(** A leader that has already seen [n1] overloaded five times. *)
Definition ex_hot : NodeMetrics :=
  mkMetrics "n1" (of_Z 10) 4 16 1000 200 (ratio 95 100) (ratio 9 10) (ratio 1 10) (ratio 3 10).
Definition ex_cool : NodeMetrics := ex_metrics "n2" 12 1000.
Definition ex_short_state : MetricsState := mkMetricsState [ex_hot; ex_cool] ∅ ∅.
Definition ex_short_ring : list VNode :=
  (λ v, mkVNode (vID v) (Token v) "n1" ["n2"%string]) <$> InitializeVNodes.

Lemma sustained_means_six_in_a_row_witness :
  ∃ earlier, allVerdicts "n1" (replicate 5 [ex_hot; ex_cool] ++ [[ex_hot; ex_cool]]) = earlier ++ replicate 6 true.
Proof.
  apply (sustained_means_six_in_a_row (replicate 5 [ex_hot; ex_cool]) [ex_hot; ex_cool] "n1").
  - apply (bool_decide_unpack (NoDup _)). vm_compute. exact I.
  - apply (bool_decide_unpack (_ ∈ _)). vm_compute. exact I.
Defined.

Definition ex_short_result : gmap string Z * UpdateResult :=
  UpdatePlacementShortTerm true (Some ["n1"; "n2"]%string) ex_short_state {["n1"%string := 5]}
    (Some (mkPlacement 4 [] ex_short_ring)).

Lemma ex_short_ring_ok : ring_ok ex_short_ring.
Proof.
  eapply (ring_Forall2 (λ v v', vID v' = vID v)); [done| |exact InitializeVNodes_ring].
  apply Forall2_fmap_r, Forall_Forall2_diag, Forall_true. done.
Qed.

Lemma ex_short_proposed : ∃ p, ex_short_result.2 = Proposed p.
Proof. apply proposed_inv. vm_compute. reflexivity. Qed.

Lemma short_term_swaps_roles_witness :
  ∃ p, ex_short_result.2 = Proposed p ∧ Epoch p = 5 ∧ ring_ok (VNodes p).
Proof.
  destruct ex_short_proposed as [p E]. exists p. split; [exact E|].
  pose proof (short_term_swaps_roles true (Some ["n1"; "n2"]%string) ex_short_state {["n1"%string := 5]}
    (mkPlacement 4 [] ex_short_ring) ex_short_result.1 p ex_short_ring_ok) as H.
  rewrite <-E in H. specialize (H (surjective_pairing ex_short_result)). cbv zeta in H.
  destruct (streakPass _ _) as [[d s] st]. destruct H as (He & Hr & _). split; [|exact Hr].
  rewrite He. reflexivity.
Defined.
