(* ===== verification/ControlPlane.v ===== *)
(** * Placements across the cluster ([src/cluster/raft.go], [src/cluster/replication.go])

    The control plane composed: leaders compute proposals from the placement they have installed
    ([UpdatePlacement], [UpdatePlacementShortTerm]) and hand them to raft; every node applies the
    committed entries at its own pace to its [placementFSM], restarts, and restores snapshots; the
    state machine's callback installs a placement in the node's replicator, which decides which keys
    the node accepts.

    Raft is a library.  What is used of it is its contract: the committed entries form one list that
    only grows (its index is a [uint64]), every node applies a prefix of it in order, and a snapshot is
    taken of a state machine that has applied a prefix.  A leader that has been replaced but does not
    know it can propose too, so any node may propose at any time, with whatever metrics and members it
    sees. *)

From S2P Require Import Prelude Store StoreSpec WalCodec WalWriter EventLoop Server Placement AssignProofs.
From S2P Require Import Score Targets Replicas RaftFSM Quorum WritePath Rebalance ShortTerm ServerProofs.
From Stdlib.Strings Require Import Byte.

(** A node: its state machine, the number of entries it has applied, and the placement its
    replicator has installed. *)
Record Member := mkMember {
  cpFSM : placementFSM;
  cpApplied : nat;
  cpPlacement : option Placement
}.

Record Plane := mkPlane {
  cpLog : list raftEntry;            (* committed entries *)
  cpMembers : gmap string Member
}.

(** The callback [ApplyPlacementFromRaft] installs what the state machine has just delivered. *)
Definition onApply (before after : placementFSM) (installed : option Placement) : option Placement :=
  match list.last (drop (length (delivered before)) (delivered after)) with
  | Some p => Some p
  | None => installed
  end.

Section plane.
Context (Sum64String : string → Z).

(** The proposals a node makes from the placement it has installed. *)
Inductive proposes (prev : option Placement) : Placement → Prop :=
  | proposes_long leader members st rf p :
      metrics_inv st → Z.of_nat (length (msMetrics st)) <= maxNodes →
      UpdatePlacement Sum64String leader members st prev rf = Proposed p → proposes prev p
  | proposes_short leader members st streak streak' p :
      UpdatePlacementShortTerm leader members st streak prev = (streak', Proposed p) → proposes prev p.

Definition snapshotAt (log : list raftEntry) (i : nat) : Placement :=
  Snapshot (fsm_run newPlacementFSM (take i log)).

Inductive plane_step : Plane → Plane → Prop :=
  | cp_propose c n m p :
      cpMembers c !! n = Some m → proposes (cpPlacement m) p →
      Z.of_nat (length (cpLog c)) + 1 < 2 ^ 64 →
      plane_step c (mkPlane (cpLog c ++ [EntryInstall p]) (cpMembers c))
  | cp_garbage c l :
      (∀ p, l ≠ EntryInstall p) →
      plane_step c (mkPlane (cpLog c ++ [l]) (cpMembers c))
  | cp_apply c n m l :
      cpMembers c !! n = Some m → cpLog c !! cpApplied m = Some l →
      let f := (fsmApply (cpFSM m) l).1 in
      plane_step c (mkPlane (cpLog c)
        (<[n := mkMember f (S (cpApplied m)) (onApply (cpFSM m) f (cpPlacement m))]> (cpMembers c)))
  | cp_restore c n m i :
      (* the leader sends a snapshot to a node that lags behind *)
      cpMembers c !! n = Some m → (cpApplied m <= i <= length (cpLog c))%nat →
      let f := Restore (cpFSM m) (snapshotAt (cpLog c) i) in
      plane_step c (mkPlane (cpLog c) (<[n := mkMember f i (onApply (cpFSM m) f (cpPlacement m))]> (cpMembers c)))
  | cp_boot c n :
      (* a node starts, or restarts without a snapshot *)
      plane_step c (mkPlane (cpLog c) (<[n := mkMember newPlacementFSM 0 None]> (cpMembers c)))
  | cp_boot_snapshot c n i :
      (* a node restarts from a snapshot *)
      (i <= length (cpLog c))%nat →
      let f := Restore newPlacementFSM (snapshotAt (cpLog c) i) in
      plane_step c (mkPlane (cpLog c) (<[n := mkMember f i (onApply newPlacementFSM f None)]> (cpMembers c))).

Definition noPlane : Plane := mkPlane [] ∅.

(** ** Invariant *)

(** The placement after applying a list of entries. *)
Definition view (l : list raftEntry) : option Placement := fsmPlacement (fsm_run newPlacementFSM l).

(** A state machine agrees with a prefix of the log; a snapshot of nothing restores an empty placement. *)
Definition agrees (o v : option Placement) : Prop := o = v ∨ v = None ∧ o = Some zeroPlacement.

Record member_ok (log : list raftEntry) (m : Member) : Prop := {
  mo_applied : (cpApplied m <= length log)%nat;
  mo_view : agrees (fsmPlacement (cpFSM m)) (view (take (cpApplied m) log));
  mo_installed : cpPlacement m = fsmPlacement (cpFSM m)
}.

(** Committed placements are complete rings, and their epochs are at most the number of entries. *)
Definition log_ok (log : list raftEntry) : Prop :=
  ∀ i p, log !! i = Some (EntryInstall p) → ring_ok (VNodes p) ∧ 1 <= Epoch p <= Z.of_nat i + 1.

Record plane_inv (c : Plane) : Prop := {
  pi_log : log_ok (cpLog c);
  pi_members : ∀ n m, cpMembers c !! n = Some m → member_ok (cpLog c) m
}.

Lemma fsm_run_snoc f l e : fsm_run f (l ++ [e]) = (fsmApply (fsm_run f l) e).1.
Proof. unfold fsm_run. by rewrite foldl_app. Qed.

(** The placement of a prefix is one of its entries. *)
Lemma view_entry l p : view l = Some p → ∃ i, l !! i = Some (EntryInstall p).
Proof.
  unfold view. revert p. induction l as [|e l IH] using rev_ind; intros p; [done|]. rewrite fsm_run_snoc.
  assert (Hold : fsmPlacement (fsm_run newPlacementFSM l) = Some p → ∃ i, (l ++ [e]) !! i = Some (EntryInstall p)).
  { intros [i Hi]%IH. exists i. by apply lookup_app_l_Some. }
  assert (Hnew : e = EntryInstall p → ∃ i, (l ++ [e]) !! i = Some (EntryInstall p)).
  { intros ->. exists (length l). by apply list_lookup_middle. }
  destruct e as [| | |q]; try exact Hold. cbn [fsmApply].
  destruct (fsmPlacement (fsm_run newPlacementFSM l)) as [cur|] eqn:E; [destruct (Epoch q <=? Epoch cur)|]; cbn;
    rewrite ?E; intros [= <-]; auto.
Qed.

(** More entries keep the placement or replace it by one with a higher epoch. *)
Lemma view_app l l' p : view l = Some p → ∃ q, view (l ++ l') = Some q ∧ (q = p ∨ Epoch p < Epoch q).
Proof.
  intros Hp. induction l' as [|e l' IH] using rev_ind; [rewrite app_nil_r; eauto|]. destruct IH as (q & Hq & Hle).
  rewrite app_assoc. unfold view in *. rewrite fsm_run_snoc. destruct e as [| | |r]; try by exists q.
  cbn [fsmApply]. rewrite Hq. destruct (Epoch r <=? Epoch q) eqn:E; cbn; [by exists q|]. bool_to_prop.
  exists r. split; [done|]. right. destruct Hle as [->|]; lia.
Qed.

Lemma views_agree log i j p q :
  view (take i log) = Some p → view (take j log) = Some q → Epoch p = Epoch q → p = q.
Proof.
  assert (Hwlog : ∀ i j p q, (i <= j)%nat → view (take i log) = Some p → view (take j log) = Some q → Epoch p = Epoch q → p = q).
  { clear. intros i j p q Hij Hp Hq He. assert (Ht : take j log = take i log ++ take (j - i) (drop i log)).
    { rewrite take_take_drop. f_equal. lia. }
    rewrite Ht in Hq. destruct (view_app _ (take (j - i) (drop i log)) _ Hp) as (q' & Hq' & [->|Hlt]); [congruence|].
    rewrite Hq in Hq'. injection Hq' as <-. lia. }
  intros Hp Hq He. destruct (decide (i <= j)%nat); [by eapply Hwlog|symmetry]. eapply Hwlog; [|done..]. lia.
Qed.

(** ** Steps *)

Lemma fsmApply_cases f e : (fsmApply f e).1 = f ∨ ∃ p, (fsmApply f e).1 = install f p.
Proof. destruct e as [| | |p]; cbn [fsmApply]; [by left..|]. repeat case_match; eauto. Qed.

Lemma onApply_apply f e : onApply f (fsmApply f e).1 (fsmPlacement f) = fsmPlacement (fsmApply f e).1.
Proof.
  unfold onApply. destruct (fsmApply_cases f e) as [->|[p ->]]; [by rewrite drop_all|].
  cbn [delivered install]. by rewrite drop_app_length.
Qed.

Lemma onApply_restore f s o : onApply f (Restore f s) o = Some s.
Proof. unfold onApply. cbn [delivered Restore]. by rewrite drop_app_length. Qed.

Lemma agrees_apply f l e :
  agrees (fsmPlacement f) (view l) → (∀ p, e = EntryInstall p → 1 <= Epoch p) →
  agrees (fsmPlacement (fsmApply f e).1) (view (l ++ [e])).
Proof.
  intros [Heq|[Hv Hz]] He; unfold view in *; rewrite fsm_run_snoc.
  - left. by apply (fsm_run_placement f (fsm_run newPlacementFSM l) [e]).
  - destruct e as [| | |p]; cbn [fsmApply]; rewrite ?Hv, ?Hz; [by right..|]. left.
    specialize (He p eq_refl). rewrite (proj2 (Z.leb_gt _ _)) by (cbn; lia). done.
Qed.

Lemma agrees_snapshot log i : agrees (Some (snapshotAt log i)) (view (take i log)).
Proof. unfold snapshotAt, Snapshot, view. destruct (fsmPlacement _); [by left|by right]. Qed.

Lemma member_ok_grows log x m : member_ok log m → member_ok (log ++ [x]) m.
Proof.
  intros [H1 H2 H3]. split; [rewrite length_app; lia| |done]. by rewrite take_app_le.
Qed.

(** What a node has installed: nothing, the empty placement, or a committed ring. *)
Lemma installed_ok log m pr :
  log_ok log → member_ok log m → cpPlacement m = Some pr →
  pr = zeroPlacement ∨ ring_ok (VNodes pr) ∧ 1 <= Epoch pr <= Z.of_nat (length log).
Proof.
  intros Hlog [Ha Hv Hi] Hpr. rewrite Hi in Hpr. destruct Hv as [Hv|[_ Hv]]; [right|left; congruence].
  rewrite Hpr in Hv. symmetry in Hv. apply view_entry in Hv as [i Hi']. apply lookup_take_Some in Hi' as [Hi' Hlt].
  destruct (Hlog i pr Hi'). apply lookup_lt_Some in Hi'. split; [done|lia].
Qed.

(** A proposal is a complete ring with the next epoch. *)
Lemma proposal_ok log m p :
  log_ok log → member_ok log m → Z.of_nat (length log) + 1 < 2 ^ 64 → proposes (cpPlacement m) p →
  ring_ok (VNodes p) ∧ 1 <= Epoch p <= Z.of_nat (length log) + 1.
Proof.
  intros Hlog Hm Hlen Hp. assert (Hnext : ∀ pr, cpPlacement m = Some pr →
    length (VNodes pr) = 1024%nat → ring_ok (VNodes pr) ∧ 1 <= Epoch pr +u64 1 <= Z.of_nat (length log) + 1).
  { intros pr Hpr Hl. destruct (installed_ok log m pr Hlog Hm Hpr) as [->|[Hr He]]; [done|]. split; [done|].
    unfold u64. rewrite Z.mod_small by lia. lia. }
  destruct Hp as [leader members st rf p Hst Hlen' Hu|leader members st streak streak' p Hu].
  - destruct (UpdatePlacement_outcome Sum64String leader members st (cpPlacement m) rf Hst) as [_ Hout];
      [intros pr Hpr Hl; by apply Hnext|done|]. destruct (Hout p Hu) as (Hr & _ & He). split; [done|].
    destruct (cpPlacement m) as [pr|]; [|lia]. destruct (Z.of_nat (length (VNodes pr)) =? VNodeCount) eqn:E; [|lia].
    bool_to_prop. unfold VNodeCount in E. destruct He as [-> _]. by apply Hnext; [|lia].
  - destruct (cpPlacement m) as [pr|] eqn:Epr; [|unfold UpdatePlacementShortTerm in Hu; by destruct (negb leader)].
    assert (Hl : length (VNodes pr) = 1024%nat).
    { unfold UpdatePlacementShortTerm in Hu. destruct (negb leader); [done|].
      destruct (Z.of_nat (length (VNodes pr)) =? VNodeCount) eqn:E; [|done]. bool_to_prop. unfold VNodeCount in E. lia. }
    destruct (Hnext pr eq_refl Hl) as [Hr He]. pose proof (short_proposal _ _ _ _ _ _ _ Hr Hu) as Hs. cbv zeta in Hs.
    destruct (streakPass _ _) as [[? ?] ?]. destruct Hs as (-> & Hr' & _). done.
Qed.

Lemma plane_step_inv c c' : plane_inv c → plane_step c c' → plane_inv c'.
Proof.
  intros [Hlog Hmem] Hs. assert (Hgrow : ∀ l, (∀ p, l = EntryInstall p → ring_ok (VNodes p) ∧ 1 <= Epoch p <= Z.of_nat (length (cpLog c)) + 1) →
    plane_inv (mkPlane (cpLog c ++ [l]) (cpMembers c))).
  { intros l Hl. split; cbn; [|intros n m Hm; by eapply member_ok_grows, Hmem].
    intros i p [Hi|[Hge Hi]]%lookup_app_Some; [by apply Hlog|].
    destruct (i - length (cpLog c))%nat eqn:E; [|done]. injection Hi as ->. destruct (Hl p eq_refl). split; [done|lia]. }
  assert (Hset : ∀ n m, member_ok (cpLog c) m → plane_inv (mkPlane (cpLog c) (<[n := m]> (cpMembers c)))).
  { intros n m Hm. split; [done|]. cbn. intros n' m' [[_ <-]|[_ Hn']]%lookup_insert_Some; [done|by eapply Hmem]. }
  destruct Hs as [c n m p Hm Hp Hlen|c l Hl|c n m l Hm Hl f|c n m i Hm Hi f|c n|c n i Hi f].
  - apply Hgrow. intros p' [= <-]. apply (proposal_ok (cpLog c) m); [done|by eapply Hmem|done|done].
  - apply Hgrow. intros p ->. by destruct (Hl p).
  - apply Hset. destruct (Hmem n m Hm) as [H1 H2 H3]. apply lookup_lt_Some in Hl as Hlt. split; cbn; [lia| |].
    + rewrite (take_S_r _ _ l) by done. apply agrees_apply; [done|]. intros p ->. destruct (Hlog _ p Hl) as [_ ?]. lia.
    + rewrite H3. apply onApply_apply.
  - apply Hset. split; cbn; [lia|apply agrees_snapshot|apply onApply_restore].
  - apply Hset. split; cbn; [lia|by left|done].
  - apply Hset. split; cbn; [lia|apply agrees_snapshot|done].
Qed.

Lemma plane_reach_inv c : rtc plane_step noPlane c → plane_inv c.
Proof.
  intros Hr. eapply rtc_preserves; [exact plane_step_inv| |exact Hr]. split; cbn.
  - intros i p Hi. by rewrite lookup_nil in Hi.
  - intros n m Hm. by rewrite lookup_empty in Hm.
Qed.

(** ** Agreement *)

(** C18: nodes that work under the same epoch work under the same placement, and at most one of them
    accepts a key.  For every history of proposals by whatever nodes, entries applied at different
    speeds, restarts and snapshots: an installed placement is a complete ring or the empty one; two
    nodes whose installed placements have equal epochs have installed equal placements; and then no
    two of them take the writes of the same key. *)
Theorem one_primary_per_epoch c n1 n2 m1 m2 p1 p2 :
  rtc plane_step noPlane c →
  cpMembers c !! n1 = Some m1 → cpMembers c !! n2 = Some m2 →
  cpPlacement m1 = Some p1 → cpPlacement m2 = Some p2 → Epoch p1 = Epoch p2 →
  p1 = p2 ∧ (p1 = zeroPlacement ∨ ring_ok (VNodes p1)) ∧
  ∀ rf members lead key rep1 rep2 o1 o2,
    Quorum.CheckOwnership Sum64String (mkRepl_ n1 rf members (cpPlacement m1) lead) key = Some (true, rep1, o1) →
    Quorum.CheckOwnership Sum64String (mkRepl_ n2 rf members (cpPlacement m2) lead) key = Some (true, rep2, o2) → n1 = n2.
Proof.
  intros Hr Hn1 Hn2 Hp1 Hp2 He. apply plane_reach_inv in Hr as [Hlog Hmem].
  pose proof (Hmem _ _ Hn1) as Hm1. pose proof (Hmem _ _ Hn2) as Hm2.
  pose proof (installed_ok _ _ _ Hlog Hm1 Hp1) as Hok1. pose proof (installed_ok _ _ _ Hlog Hm2 Hp2) as Hok2.
  assert (Heq : p1 = p2).
  { destruct Hok1 as [->|[_ ?]], Hok2 as [->|[_ ?]]; [done|cbn in He; lia|cbn in He; lia|].
    destruct Hm1 as [_ [Hv1|[_ Hv1]] Hi1]; [|rewrite Hi1, Hv1 in Hp1; injection Hp1 as <-; cbn in *; lia].
    destruct Hm2 as [_ [Hv2|[_ Hv2]] Hi2]; [|rewrite Hi2, Hv2 in Hp2; injection Hp2 as <-; cbn in *; lia].
    eapply views_agree; [..|exact He]; [by rewrite <-Hv1, <-Hi1|by rewrite <-Hv2, <-Hi2]. }
  split; [done|]. split; [tauto|]. intros rf members lead key rep1 rep2 o1 o2. unfold Quorum.CheckOwnership.
  cbn [placement rID]. rewrite Hp1, Hp2, Heq. destruct (GetNodesForKey Sum64String p2 key) as [[owner reps]|]; [|done].
  cbn. intros [= H1 _ _] [= H2 _ _]. apply bool_decide_eq_true in H1, H2. congruence.
Qed.


(** A node that has not installed a placement yet accepts every key, and with a replication factor of
    one it acknowledges the write on its own. *)
Theorem unplaced_node_accepts_every_key n members lead e srv key value evs :
  0 < members → delivery e = Served false →
  (Put (H := quorumReplicator Sum64String (mkRepl_ n 1 (Some members) None lead) None (λ _, evs)) e srv key value).1.2 = inl tt.
Proof.
  intros Hm Hd. unfold Put. cbn [Server.CheckOwnership Server.GetVNodeForKey quorumReplicator].
  unfold Quorum.CheckOwnership, Quorum.GetVNodeForKey. cbn [placement default negb NextVersion]. unfold sendRequest. rewrite Hd.
  destruct (loopAnswer_write (mode e) false (srvStore (NextVersion (now e) srv).1)
    (mkRequest OpPut key value 0 (Server.candidate (versionCounter srv) (now e)) 0)) as (resp & Hl & Hok); [by left|].
  cbn [NextVersion fst srvStore] in Hl. unfold id. cbn [srvStore negb]. rewrite Hl, (Hok eq_refl).
  cbn [Server.ReplicateToAll quorumReplicator]. unfold Quorum.ReplicateToAll. cbn [memberCount ReplicationFactor].
  rewrite (proj2 (Z.leb_gt _ _) Hm).
  assert (Hreq : requiredAcks 1 members = 1) by (unfold requiredAcks, effectiveRF; rewrite Z.min_l by lia; reflexivity).
  by rewrite Hreq.
Qed.
End plane.

(** ** Witnesses *)

(** Two nodes start, [n1] proposes the first placement and both apply it; [n3] starts later from a
    snapshot. *)
Definition ex_installed (p : Placement) : Member := mkMember (install newPlacementFSM p) 1 (Some p).

Lemma ex_plane_reach : ∃ c p, rtc (plane_step ex_hash) noPlane c ∧ cpLog c = [EntryInstall p] ∧
  cpMembers c !! "n1"%string = Some (ex_installed p) ∧ cpMembers c !! "n2"%string = Some (ex_installed p).
Proof.
  destruct ex_update_proposed as [p Hp].
  set (m0 := mkMember newPlacementFSM 0 None).
  set (c2 := mkPlane [] (<["n2"%string := m0]> (<["n1"%string := m0]> ∅))).
  set (c3 := mkPlane [EntryInstall p] (cpMembers c2)).
  set (c4 := mkPlane [EntryInstall p] (<["n1"%string := ex_installed p]> (cpMembers c3))).
  exists (mkPlane [EntryInstall p] (<["n2"%string := ex_installed p]> (cpMembers c4))), p.
  split; [|split; [done|split; cbn; [by rewrite lookup_insert_ne, lookup_insert_eq by done|by rewrite lookup_insert_eq]]].
  eapply rtc_l; [apply (cp_boot ex_hash noPlane "n1")|]. eapply rtc_l; [apply (cp_boot ex_hash _ "n2")|].
  eapply rtc_l.
  { apply (cp_propose ex_hash c2 "n1" m0 p).
    - cbn. by rewrite lookup_insert_ne, lookup_insert_eq by done.
    - apply (proposes_long ex_hash None true (Some ["n1"; "n2"]%string) ex_msstate 2 p ex_msstate_inv); [vm_compute; discriminate|exact Hp].
    - done. }
  eapply rtc_l.
  { apply (cp_apply ex_hash c3 "n1" m0 (EntryInstall p)); [|done]. cbn. by rewrite lookup_insert_ne, lookup_insert_eq by done. }
  apply rtc_once. apply (cp_apply ex_hash c4 "n2" m0 (EntryInstall p)); [|done].
  cbn. by rewrite lookup_insert_ne, lookup_insert_eq by done.
Qed.

Lemma one_primary_per_epoch_witness :
  ∃ c m1 m2 p, cpMembers c !! "n1"%string = Some m1 ∧ cpMembers c !! "n2"%string = Some m2 ∧
    cpPlacement m1 = Some p ∧ (p = zeroPlacement ∨ ring_ok (VNodes p)) ∧
    ∀ key rep1 rep2 o1 o2,
      Quorum.CheckOwnership ex_hash (mkRepl_ "n1" 3 (Some 2) (cpPlacement m1) None) key = Some (true, rep1, o1) →
      Quorum.CheckOwnership ex_hash (mkRepl_ "n2" 3 (Some 2) (cpPlacement m2) None) key = Some (true, rep2, o2) → False.
Proof.
  destruct ex_plane_reach as (c & p & Hr & _ & H1 & H2). exists c, (ex_installed p), (ex_installed p), p.
  destruct (one_primary_per_epoch ex_hash c "n1" "n2" (ex_installed p) (ex_installed p) p p Hr H1 H2 eq_refl eq_refl eq_refl)
    as (_ & Hok & Hone). split; [exact H1|]. split; [exact H2|]. split; [reflexivity|]. split; [exact Hok|].
  intros key rep1 rep2 o1 o2 E1 E2. discriminate (Hone 3 (Some 2) None key rep1 rep2 o1 o2 E1 E2).
Defined.


Lemma unplaced_node_accepts_every_key_witness :
  (Put (H := quorumReplicator ex_hash (mkRepl_ "n9" 1 (Some 3) None None) None (λ _, [])) ex_env ex_srv "k" [x41]).1.2 = inl tt.
Proof. apply unplaced_node_accepts_every_key; [lia|reflexivity]. Defined.
