(* ===== verification/Aliasing.v ===== *)
(** * Swapping roles in place ([src/cluster/replication.go])

    [UpdatePlacementShortTerm] works on a copy of the installed ring and writes primaries and replicas in
    place, while other goroutines read the installed placement through a pointer.  A slice is a reference
    to an array: copying the vnodes alone would share their replica arrays.  Here rings and replica lists
    live in a heap; [cloneVNodes] and the swap loop are translated with their reads and writes, and shown
    to compute what [ShortTerm] says without touching anything that existed before. *)

From S2P Require Import Prelude Float64 Placement AssignProofs Score Replicas Rebalance ShortTerm.

(** A vnode in memory: its replicas are a slice, [None] when nil. *)
Record SVNode := mkSV { svID : Z; svToken : Z; svPrimary : string; svReplicas : option positive }.

Record Heap := mkHeap {
  strs : gmap positive (list string);      (* arrays of node identifiers *)
  rings : gmap positive (list SVNode)      (* arrays of vnodes *)
}.

(** ** Reading *)

Definition replicasOf (h : Heap) (sv : SVNode) : list string :=
  match svReplicas sv with None => [] | Some l => default [] (strs h !! l) end.
Definition vnodeAt (h : Heap) (sv : SVNode) : VNode := mkVNode (svID sv) (svToken sv) (svPrimary sv) (replicasOf h sv).
Definition ringAt (h : Heap) (r : positive) : list VNode := vnodeAt h <$> default [] (rings h !! r).

(** ** [cloneVNodes] *)

Definition setReplicas (sv : SVNode) (s : option positive) : SVNode := mkSV (svID sv) (svToken sv) (svPrimary sv) s.

(** [append([]string(nil), src[i].Replicas...)]: nothing appended to nil stays nil. *)
Definition cloneOne (h : Heap) (sv : SVNode) : Heap * SVNode :=
  match replicasOf h sv with
  | [] => (h, setReplicas sv None)
  | xs => let l := fresh (dom (strs h)) in (mkHeap (<[l := xs]> (strs h)) (rings h), setReplicas sv (Some l))
  end.

Fixpoint cloneAll (h : Heap) (vs : list SVNode) : Heap * list SVNode :=
  match vs with
  | [] => (h, [])
  | sv :: vs => let '(h, sv') := cloneOne h sv in let '(h, vs') := cloneAll h vs in (h, sv' :: vs')
  end.

(** [None]: nil, for an empty ring. *)
Definition cloneVNodes (h : Heap) (r : positive) : Heap * option positive :=
  match default [] (rings h !! r) with
  | [] => (h, None)
  | vs => let r' := fresh (dom (rings h)) in
          let '(h, vs') := cloneAll h vs in (mkHeap (strs h) (<[r' := vs']> (rings h)), Some r')
  end.

(** ** The swap loop *)

Section swap.
Context (scoreByID : gmap string f64) (degradedNow sus : gset string).

Definition setPrimaryAt (h : Heap) (r : positive) (i : nat) (sv : SVNode) (id : string) : Heap :=
  mkHeap (strs h) (alter (<[i := mkSV (svID sv) (svToken sv) id (svReplicas sv)]>) r (rings h)).
Definition setReplicaAt (h : Heap) (l : positive) (idx : nat) (id : string) : Heap :=
  mkHeap (alter (<[idx := id]>) l (strs h)) (rings h).

(** One turn: the loop body on [&nextVNodes[i]]. *)
Definition swapInPlace (r : positive) (h : Heap) (i : nat) : Heap * bool :=
  match default [] (rings h !! r) !! i with
  | None => (h, false)
  | Some sv =>
      let replicas := replicasOf h sv in
      if bool_decide (svPrimary sv = ""%string) || (length replicas =? 0)%nat then (h, false)
      else if negb (bool_decide (svPrimary sv ∈ sus)) then (h, false)
      else match scoreByID !! svPrimary sv with
           | None => (h, false)
           | Some s =>
               let '(bestIdx, bestID, _) :=
                 foldl (bestReplicaStep scoreByID degradedNow) (None, svPrimary sv, s) (imap pair replicas) in
               match bestIdx, svReplicas sv with
               | Some idx, Some l =>
                   if bool_decide (bestID = svPrimary sv) then (h, false)
                   else (setReplicaAt (setPrimaryAt h r i sv bestID) l idx (svPrimary sv), true)
               | _, _ => (h, false)
               end
           end
  end.

Fixpoint swapLoop (r : positive) (h : Heap) (ixs : list nat) : Heap * Z :=
  match ixs with
  | [] => (h, 0)
  | i :: ixs =>
      let '(h, swapped) := swapInPlace r h i in
      let '(h, n) := swapLoop r h ixs in (h, if swapped : bool then n + 1 else n)
  end.

(** [nextVNodes := cloneVNodes(prev.VNodes)] and the loop over it. *)
Definition nextVNodes (h : Heap) (prev : positive) : Heap * option positive * Z :=
  let '(h, r) := cloneVNodes h prev in
  match r with
  | None => (h, None, 0)
  | Some r => let '(h, swaps) := swapLoop r h (seq 0 (length (default [] (rings h !! r)))) in (h, Some r, swaps)
  end.

(** ** Ownership *)

Definition locs (vs : list SVNode) : list positive := omap svReplicas vs.

(** Slices point to allocated arrays. *)
Definition heap_ok (h : Heap) : Prop :=
  ∀ r vs l, rings h !! r = Some vs → l ∈ locs vs → is_Some (strs h !! l).

(** [h] extends [h0]: what was allocated is unchanged. *)
Definition extends (h0 h : Heap) : Prop := strs h0 ⊆ strs h ∧ rings h0 ⊆ rings h.

(** Ring [r] with elements [vs] was allocated after [h0] and shares no array. *)
Record owned (h0 h : Heap) (r : positive) (vs : list SVNode) : Prop := {
  ow_extends : extends h0 h;
  ow_ring : rings h !! r = Some vs;
  ow_new : rings h0 !! r = None;
  ow_distinct : NoDup (locs vs);
  ow_locs : ∀ l, l ∈ locs vs → strs h0 !! l = None ∧ is_Some (strs h !! l)
}.

Lemma locs_elem vs i sv l : vs !! i = Some sv → svReplicas sv = Some l → l ∈ locs vs.
Proof. intros Hi Hl. apply list_elem_of_omap. exists sv. eauto using list_elem_of_lookup_2. Qed.

(** What existed before reads as before. *)
Lemma extends_ringAt h0 h r : heap_ok h0 → extends h0 h → is_Some (rings h0 !! r) → ringAt h r = ringAt h0 r.
Proof.
  intros Hok [Hs Hr] [vs Hvs]. unfold ringAt. rewrite (lookup_weaken _ _ _ _ Hvs Hr), Hvs. cbn.
  apply list_fmap_ext. intros i sv Hi. unfold vnodeAt, replicasOf. destruct (svReplicas sv) as [l|] eqn:El; [|done].
  destruct (Hok r vs l Hvs) as [xs Hx]; [by eapply locs_elem|]. by rewrite (lookup_weaken _ _ _ _ Hx Hs), Hx.
Qed.

(** ** Cloning *)

Definition allocated (h : Heap) (vs : list SVNode) : Prop := ∀ l, l ∈ locs vs → is_Some (strs h !! l).

Lemma vnodeAt_weaken h h' vs : strs h ⊆ strs h' → allocated h vs → vnodeAt h' <$> vs = vnodeAt h <$> vs.
Proof.
  intros Hs Ha. apply list_fmap_ext. intros i sv Hi. unfold vnodeAt, replicasOf.
  destruct (svReplicas sv) as [l|] eqn:El; [|done]. destruct (Ha l) as [xs Hx]; [by eapply locs_elem|].
  by rewrite (lookup_weaken _ _ _ _ Hx Hs), Hx.
Qed.

Lemma allocated_weaken h h' vs : strs h ⊆ strs h' → allocated h vs → allocated h' vs.
Proof. intros Hs Ha l Hl. destruct (Ha l Hl) as [xs Hx]. exists xs. by eapply lookup_weaken. Qed.

Lemma cloneOne_spec h sv h' sv' : cloneOne h sv = (h', sv') →
  strs h ⊆ strs h' ∧ rings h' = rings h ∧ vnodeAt h' sv' = vnodeAt h sv ∧
  (∀ l, svReplicas sv' = Some l → strs h !! l = None ∧ is_Some (strs h' !! l)).
Proof.
  unfold cloneOne. destruct (replicasOf h sv) as [|x xs] eqn:Ex; intros [= <- <-].
  - split_and!; [done|done| |done]. unfold vnodeAt. by rewrite Ex.
  - set (l := fresh (dom (strs h))). assert (Hl : strs h !! l = None) by apply not_elem_of_dom, is_fresh.
    split_and!; [by apply insert_subseteq|done| |].
    + unfold vnodeAt at 1, replicasOf. cbn. rewrite lookup_insert_eq. unfold vnodeAt. by rewrite Ex.
    + cbn. intros ? [= <-]. split; [done|]. rewrite lookup_insert_eq. by eexists.
Qed.

Lemma cloneAll_spec h vs h' vs' : cloneAll h vs = (h', vs') → allocated h vs →
  strs h ⊆ strs h' ∧ rings h' = rings h ∧ vnodeAt h' <$> vs' = vnodeAt h <$> vs ∧ NoDup (locs vs') ∧
  (∀ l, l ∈ locs vs' → strs h !! l = None ∧ is_Some (strs h' !! l)).
Proof.
  revert h h' vs'. induction vs as [|sv vs IH]; intros h h' vs'; cbn [cloneAll].
  { intros [= <- <-] _. split_and!; [done|done|done|constructor|by intros l ?%elem_of_nil]. }
  destruct (cloneOne h sv) as [h1 sv'] eqn:E1. destruct (cloneAll h1 vs) as [h2 ws] eqn:E2. intros [= <- <-] Ha.
  destruct (cloneOne_spec _ _ _ _ E1) as (Hs1 & Hr1 & Hv1 & Hl1).
  assert (Ha' : allocated h vs). { intros l Hl. apply Ha. unfold locs. cbn. case_match; [by right|done]. }
  destruct (IH _ _ _ E2 (allocated_weaken _ _ _ Hs1 Ha')) as (Hs2 & Hr2 & Hv2 & Hd2 & Hl2).
  assert (Hsv : ∀ l, svReplicas sv' = Some l → strs h !! l = None ∧ is_Some (strs h2 !! l) ∧ l ∉ locs ws).
  { intros l Hl. destruct (Hl1 l Hl) as [Hn [xs Hx]]. split_and!; [done|exists xs; by eapply lookup_weaken|].
    intros Hin. destruct (Hl2 l Hin). congruence. }
  assert (Hold : ∀ l, l ∈ locs ws → strs h !! l = None).
  { intros l Hl. destruct (Hl2 l Hl) as [Hn _]. destruct (strs h !! l) as [xs|] eqn:E; [|done].
    by rewrite (lookup_weaken _ _ _ _ E Hs1) in Hn. }
  split_and!.
  - by etrans.
  - congruence.
  - rewrite !fmap_cons, Hv2, (vnodeAt_weaken h h1 vs Hs1 Ha'), <-Hv1. f_equal. unfold vnodeAt, replicasOf.
    destruct (svReplicas sv') as [l|] eqn:El; [|done]. destruct (Hl1 l eq_refl) as [_ [xs Hx]].
    by rewrite (lookup_weaken _ _ _ _ Hx Hs2), Hx.
  - unfold locs. cbn. destruct (svReplicas sv') as [l|] eqn:El; [|done]. constructor; [|done]. by apply Hsv.
  - unfold locs. cbn. intros l Hl. destruct (svReplicas sv') as [l'|] eqn:El.
    + apply elem_of_cons in Hl as [->|Hl]; [by destruct (Hsv l' eq_refl) as (? & ? & _)|].
      split; [by apply Hold|by apply Hl2].
    + split; [by apply Hold|by apply Hl2].
Qed.

Lemma cloneVNodes_spec h r h' r' : heap_ok h → cloneVNodes h r = (h', Some r') →
  ∃ vs', owned h h' r' vs' ∧ ringAt h' r' = ringAt h r.
Proof.
  intros Hok. unfold cloneVNodes, ringAt. destruct (rings h !! r) as [vs|] eqn:Er; [|done]. cbn [default]; unfold Datatypes.id.
  destruct vs as [|sv vs]; [done|]. set (l := sv :: vs) in *. set (n := fresh (dom (rings h))).
  assert (Hn : rings h !! n = None) by apply not_elem_of_dom, is_fresh. clearbody n.
  cbv zeta. destruct (cloneAll h l) as [h1 vs'] eqn:Ec. intros [= <- <-].
  destruct (cloneAll_spec _ _ _ _ Ec) as (Hs & Hr & Hv & Hd & Hl); [intros x; by apply (Hok r)|].
  exists vs'. split.
  - split; cbn; try done; [split; cbn; [done|]|by rewrite lookup_insert_eq]. rewrite Hr. by apply insert_subseteq.
  - cbn. rewrite lookup_insert_eq. exact Hv.
Qed.

(** ** Swapping *)

Lemma locs_distinct vs i j sv sv' l :
  NoDup (locs vs) → vs !! i = Some sv → vs !! j = Some sv' → svReplicas sv = Some l → svReplicas sv' = Some l → i = j.
Proof.
  revert i j. induction vs as [|x vs IH]; intros [|i] [|j] Hd Hi Hj Hl Hl'; try done; simplify_eq/=.
  - unfold locs in Hd. cbn in Hd. rewrite Hl in Hd. apply list.NoDup_cons in Hd as [Hd _]. destruct Hd. by eapply locs_elem.
  - unfold locs in Hd. cbn in Hd. rewrite Hl' in Hd. apply list.NoDup_cons in Hd as [Hd _]. destruct Hd. by eapply locs_elem.
  - f_equal. apply IH; try done. unfold locs in Hd. cbn in Hd. destruct (svReplicas x); [|done]. by apply list.NoDup_cons in Hd as [_ ?].
Qed.

(** A write to an owned array. *)
Lemma owned_write h0 h r vs i sv l idx id id' :
  owned h0 h r vs → vs !! i = Some sv → svReplicas sv = Some l →
  let h' := setReplicaAt (setPrimaryAt h r i sv id) l idx id' in
  let vs' := <[i := mkSV (svID sv) (svToken sv) id (Some l)]> vs in
  owned h0 h' r vs' ∧
  ringAt h' r = <[i := mkVNode (svID sv) (svToken sv) id (<[idx := id']> (replicasOf h sv))]> (ringAt h r).
Proof.
  intros [[Hs Hr] Hring Hnew Hd Hl] Hi Hsl h' vs'.
  assert (Hin : l ∈ locs vs) by (by eapply locs_elem). destruct (Hl l Hin) as [Hl0 [xs Hx]].
  assert (Hring' : rings h' !! r = Some vs') by (unfold h', vs'; cbn; rewrite lookup_alter_eq, Hring, <-Hsl; done).
  assert (Hlocs : locs vs' = locs vs).
  { unfold vs', locs. rewrite <-(take_drop_middle vs i sv Hi) at 2.
    rewrite insert_take_drop by (by eapply lookup_lt_Some). rewrite !omap_app. f_equal. cbn. by rewrite Hsl. }
  assert (Hstr : ∀ l', l' ≠ l → strs h' !! l' = strs h !! l') by (intros l' Hne; unfold h'; cbn; by rewrite lookup_alter_ne).
  assert (Hx' : strs h' !! l = Some (<[idx := id']> xs)) by (unfold h'; cbn [strs setReplicaAt]; by rewrite lookup_alter_eq; cbn; rewrite Hx).
  split.
  - split; [split| |done| |].
    + apply map_subseteq_spec. intros k y Hk. rewrite Hstr; [by eapply lookup_weaken|]. intros ->. congruence.
    + apply map_subseteq_spec. intros k y Hk. unfold h'. cbn. rewrite lookup_alter_ne; [by eapply lookup_weaken|].
      intros ->. congruence.
    + done.
    + by rewrite Hlocs.
    + rewrite Hlocs. intros k Hk. destruct (Hl k Hk) as [H1 H2]. split; [done|].
      unfold h'. cbn. by rewrite lookup_alter_is_Some.
  - unfold ringAt. rewrite Hring', Hring. cbn [default]; unfold Datatypes.id. unfold vs'. apply list_eq. intros j.
    rewrite list_lookup_fmap. destruct (decide (i = j)) as [<-|Hne].
    + rewrite !list_lookup_insert_eq by (rewrite ?length_fmap; by eapply lookup_lt_Some).
      cbn [fmap option_fmap option_map]. unfold vnodeAt, replicasOf. cbn [svID svToken svPrimary svReplicas].
      by rewrite Hx', Hsl, Hx.
    + rewrite !list_lookup_insert_ne, list_lookup_fmap by done. destruct (vs !! j) as [sv'|] eqn:Ej; [|done]. cbn.
      f_equal. unfold vnodeAt, replicasOf. destruct (svReplicas sv') as [l'|] eqn:El'; [|done].
      rewrite Hstr; [done|]. intros ->. apply Hne. by eapply (locs_distinct vs i j).
Qed.

(** A turn of the loop on an owned ring is a turn of the pure loop. *)
Lemma swapInPlace_spec h0 h r vs i v :
  owned h0 h r vs → ringAt h r !! i = Some v →
  let '(h', swapped) := swapInPlace r h i in
  ∃ vs', owned h0 h' r vs' ∧ swapped = (swapOne scoreByID degradedNow sus v).2 ∧
    ringAt h' r = <[i := (swapOne scoreByID degradedNow sus v).1]> (ringAt h r).
Proof.
  intros Ho Hi. pose proof (ow_ring _ _ _ _ Ho) as Hring. unfold ringAt in Hi. rewrite Hring in Hi. cbn in Hi.
  rewrite list_lookup_fmap in Hi. destruct (vs !! i) as [sv|] eqn:Ei; [|done]. injection Hi as <-.
  assert (Hsame : ∃ vs', owned h0 h r vs' ∧ false = false ∧ ringAt h r = <[i := vnodeAt h sv]> (ringAt h r)).
  { exists vs. split_and!; [done..|]. symmetry. apply list_insert_id. unfold ringAt. rewrite Hring. cbn. by rewrite list_lookup_fmap, Ei. }
  unfold swapInPlace, swapOne. rewrite Hring. cbn [default]; unfold Datatypes.id. rewrite Ei.
  change (Replicas (vnodeAt h sv)) with (replicasOf h sv). change (Primary (vnodeAt h sv)) with (svPrimary sv).
  destruct (_ || _) eqn:E1; [exact Hsame|]. destruct (negb _); [exact Hsame|].
  destruct (scoreByID !! svPrimary sv) as [s|]; [|exact Hsame].
  destruct (foldl _ _ _) as [[bestIdx bestID] bs]. destruct bestIdx as [idx|]; [|exact Hsame].
  assert (Hnil : ∃ l, svReplicas sv = Some l).
  { destruct (svReplicas sv) as [l|] eqn:El; [by exists l|]. unfold replicasOf in E1. rewrite El in E1.
    by rewrite orb_true_r in E1. }
  destruct Hnil as [l Hl]. rewrite Hl. destruct (bool_decide (bestID = svPrimary sv)); [exact Hsame|].
  destruct (owned_write h0 h r vs i sv l idx bestID (svPrimary sv) Ho Ei Hl) as [Ho' Hr']. eexists. split_and!; [exact Ho'|done|exact Hr'].
Qed.

Lemma swapLoop_spec h0 r todo : ∀ before h vs,
  owned h0 h r vs → ringAt h r = before ++ todo →
  let '(h', n) := swapLoop r h (seq (length before) (length todo)) in
  ∃ vs', owned h0 h' r vs' ∧ n = (swapAll scoreByID degradedNow sus todo).2 ∧
    ringAt h' r = before ++ (swapAll scoreByID degradedNow sus todo).1.
Proof.
  induction todo as [|v todo IH]; intros before h vs Ho Hr; cbn [length seq swapLoop]; [by exists vs|].
  pose proof (swapInPlace_spec h0 h r vs (length before) v Ho) as Hone. rewrite Hr, list_lookup_middle in Hone by done.
  specialize (Hone eq_refl). destruct (swapInPlace r h (length before)) as [h1 b]. destruct Hone as (vs1 & Ho1 & -> & Hr1).
  cbn [swapAll]. destruct (swapOne scoreByID degradedNow sus v) as [v' b] eqn:Ev. cbn [fst snd] in *.
  rewrite insert_app_r_alt, Nat.sub_diag in Hr1 by lia. cbn in Hr1.
  specialize (IH (before ++ [v']) h1 vs1 Ho1). rewrite <-app_assoc in IH. specialize (IH Hr1).
  rewrite length_app, Nat.add_1_r in IH. destruct (swapLoop r h1 _) as [h2 n]. destruct IH as (vs2 & Ho2 & -> & Hr2).
  destruct (swapAll scoreByID degradedNow sus todo) as [todo' k]. cbn [fst snd] in *. exists vs2.
  rewrite <-app_assoc in Hr2. by destruct b.
Qed.

(** C21: computing a short-term proposal leaves the installed placement alone.  The ring it builds by
    writing through pointers is the ring of the pure swap pass with the same number of swaps, and every
    ring that existed before, the installed one first of all, reads as before: no goroutine that reads
    the installed placement sees a half-made proposal. *)
Theorem short_term_works_on_a_copy h prev r :
  heap_ok h → is_Some (rings h !! prev) → ringAt h prev ≠ [] → is_Some (rings h !! r) →
  ∃ h' next swaps, nextVNodes h prev = (h', Some next, swaps) ∧ rings h !! next = None ∧
    (ringAt h' next, swaps) = swapAll scoreByID degradedNow sus (ringAt h prev) ∧
    ringAt h' r = ringAt h r.
Proof.
  intros Hok Hprev Hne Hr. unfold nextVNodes. destruct (cloneVNodes h prev) as [h1 [next|]] eqn:Ec.
  - destruct (cloneVNodes_spec h prev h1 next Hok Ec) as (vs & Ho & Hring).
    pose proof (swapLoop_spec h next (ringAt h1 next) [] h1 vs Ho eq_refl) as Hl. cbn [length] in Hl.
    assert (Hlen : length (ringAt h1 next) = length (default [] (rings h1 !! next))) by (unfold ringAt; by rewrite length_fmap).
    rewrite Hlen in Hl. destruct (swapLoop next h1 _) as [h2 n]. destruct Hl as (vs' & Ho' & -> & Hr').
    exists h2, next, (swapAll scoreByID degradedNow sus (ringAt h1 next)).2. split_and!; [done|by apply (ow_new _ _ _ _ Ho)| |].
    + rewrite Hr', Hring. cbn [app]. symmetry. apply surjective_pairing.
    + apply extends_ringAt; [done|apply (ow_extends _ _ _ _ Ho')|done].
  - exfalso. apply Hne. unfold cloneVNodes in Ec. unfold ringAt. destruct (default [] (rings h !! prev)) as [|sv vs]; [done|].
    destruct (cloneAll h (sv :: vs)). done.
Qed.
End swap.

(** ** Witness *)

Definition ex_heap : Heap := mkHeap {[1%positive := ["n2"; "n3"]%string]} {[1%positive := [mkSV 0 0 "n1" (Some 1%positive)]]}.
Definition ex_scores : gmap string f64 := {["n1"%string := ratio 9 1; "n2"%string := ratio 7 1; "n3"%string := ratio 2 1]}.

Lemma ex_heap_ok : heap_ok ex_heap.
Proof.
  intros r vs l Hr Hl. cbn [rings ex_heap] in Hr. apply lookup_singleton_Some in Hr as [<- <-]. apply list_elem_of_singleton in Hl as ->. by eexists.
Qed.

Lemma short_term_works_on_a_copy_witness :
  ∃ h' next swaps, nextVNodes ex_scores ∅ {["n1"%string]} ex_heap 1 = (h', Some next, swaps) ∧ swaps = 1 ∧
    ringAt h' next = [mkVNode 0 0 "n3" ["n2"; "n1"]%string] ∧ ringAt h' 1 = [mkVNode 0 0 "n1" ["n2"; "n3"]%string].
Proof.
  destruct (short_term_works_on_a_copy ex_scores ∅ {["n1"%string]} ex_heap 1 1) as (h' & next & swaps & Hn & _ & Hs & Hr).
  - exact ex_heap_ok.
  - by eexists.
  - discriminate.
  - by eexists.
  - exists h', next, swaps. split; [exact Hn|]. vm_compute (swapAll _ _ _ _) in Hs. injection Hs as Hs1 Hs2.
    split; [exact Hs2|]. split; [exact Hs1|]. rewrite Hr. reflexivity.
Defined.
