(* ===== verification/Membership.v ===== *)
(** * Membership ([src/cluster/membership.go], [src/cluster/replication.go])

    Nodes gossip a metadata string from which peers learn their identifier and addresses;
    the raft leader reconciles the raft configuration with the gossip membership.  The
    gossip protocol (hashicorp/memberlist) and raft's configuration changes are inputs:
    the members seen, the servers configured, and whether a removal succeeded. *)

From Stdlib Require Import Ascii.
From S2P Require Import Prelude Text Float64 Placement Score Rebalance.

(** ** Metadata *)

Inductive metaErr := EmptyMeta | BadFormat | BadFields.

Definition parseMeta (meta : string) : (string * string) + metaErr :=
  let raw := TrimSpace meta in
  if decide (raw = ""%string) then inr EmptyMeta
  else
    let parts := Split raw in
    match parts with
    | p0 :: p1 :: _ =>
        if bool_decide (TrimSpace p0 = ""%string) || bool_decide (TrimSpace p1 = ""%string)
        then inr BadFields else inl (TrimSpace p0, TrimSpace p1)
    | _ => inr BadFormat
    end.

Definition parseMetaWithRaft (meta : string) : (string * string * string) + metaErr :=
  let raw := TrimSpace meta in
  if decide (raw = ""%string) then inr EmptyMeta
  else
    let parts := Split raw in
    match parts with
    | p0 :: p1 :: rest =>
        let nodeID := TrimSpace p0 in
        let rpcAddr := TrimSpace p1 in
        let raftAddr := match rest with p2 :: _ => TrimSpace p2 | [] => ""%string end in
        if bool_decide (nodeID = ""%string) || bool_decide (rpcAddr = ""%string) then inr BadFields
        else inl (nodeID, rpcAddr, raftAddr)
    | _ => match parseMeta meta with
           | inl (id, rpc) => inl (id, rpc, ""%string)
           | inr e => inr e
           end
    end.

(** [Node.NodeMeta] *)
Definition NodeMeta (ID RPCAddr RaftAddr : string) : string :=
  if decide (RaftAddr = ""%string) then (ID +:+ "," +:+ RPCAddr)%string
  else (ID +:+ "," +:+ RPCAddr +:+ "," +:+ RaftAddr)%string.

Definition setNodeRPCAddr (addrs : gmap string string) (nodeID rpcAddr : string) : gmap string string :=
  if bool_decide (TrimSpace nodeID = ""%string) || bool_decide (TrimSpace rpcAddr = ""%string) then addrs
  else <[nodeID := rpcAddr]> addrs.

(** A member as memberlist reports it. *)
Record Member := mkMember { mName : string; mMeta : string }.

(** The identifier under which placement tracks a member. *)
Definition memberID (m : Member) : string :=
  match parseMeta (mMeta m) with inl (id, _) => id | inr _ => mName m end.

(** ** Reconciliation *)

Inductive Suffrage := Voter | Nonvoter.

Definition Second : Z := 1000000000.
Definition Minute : Z := 60 * Second.

Record ReconState := mkRecon {
  deadRow : gmap string Z;                 (* when the node was first found missing, in ns *)
  nodeRPCAddrs : gmap string string;
  conns : gset string;                     (* nodes with a connection ([conns] and [peers]) *)
  reMetrics : MetricsState
}.

(** One call: what memberlist and raft report, the clock as read for each node, and
    whether raft accepted a removal. *)
Record Round := mkRound {
  rMembers : list Member;
  rServers : list (string * Suffrage);
  rNow : string → Z;
  rRemoveOk : string → bool
}.

Definition existingInRaft (r : Round) : gmap string Suffrage :=
  foldl (λ m s, <[s.1 := s.2]> m) ∅ (rServers r).

(** Members that take part in raft, with their addresses. *)
Definition raftMembers (ms : list Member) : list (string * string * string) :=
  omap (λ m, match parseMetaWithRaft (mMeta m) with
             | inl (id, rpc, raftAddr) =>
                 if decide (raftAddr = ""%string) then None else Some (id, rpc, raftAddr)
             | inr _ => None
             end) ms.

Definition seenInGossip (r : Round) : gset string :=
  list_to_set ((λ x, x.1.1) <$> raftMembers (rMembers r)).

(** The [AddVoter] calls. *)
Definition addedVoters (r : Round) : list (string * string) :=
  (λ x, (x.1.1, x.2)) <$> filter (λ x, existingInRaft r !! x.1.1 = None) (raftMembers (rMembers r)).

Definition graceFor (GracePeriod : Z) (s : Suffrage) : Z :=
  match s with
  | Nonvoter => 1 * Minute
  | Voter => if GracePeriod =? 0 then 5 * Minute else GracePeriod
  end.

Definition forgetNode (st : ReconState) (id : string) : ReconState :=
  let ms := reMetrics st in
  mkRecon (delete id (deadRow st)) (nodeRPCAddrs st) (conns st ∖ {[id]})
    (mkMetricsState (msMetrics ms) (delete id (msRTT ms)) (delete id (metricEMA ms))).

Definition setDeadRow (st : ReconState) (d : gmap string Z) : ReconState :=
  mkRecon d (nodeRPCAddrs st) (conns st) (reMetrics st).

Section reconcile.
(** The order in which Go iterates over the map of configured servers. *)
Context (order : gmap string Suffrage → list (string * Suffrage)).

(** One server of the raft configuration; the second component collects the
    [RemoveServer] calls. *)
Definition reconcileOne (self : string) (GracePeriod : Z) (r : Round)
    (acc : ReconState * list string) (s : string * Suffrage) : ReconState * list string :=
  let '(st, removed) := acc in
  let '(id, suffrage) := s in
  if decide (id = self) then acc
  else if decide (id ∈ seenInGossip r) then (setDeadRow st (delete id (deadRow st)), removed)
  else match deadRow st !! id with
  | None => (setDeadRow st (<[id := rNow r id]> (deadRow st)), removed)
  | Some firstSeenMissing =>
      if graceFor GracePeriod suffrage <? rNow r id - firstSeenMissing
      then (if rRemoveOk r id then forgetNode st id else st, removed ++ [id])
      else acc
  end.

Definition reconcileServers (self : string) (GracePeriod : Z) (r : Round) (st : ReconState)
    : ReconState * list string :=
  let addrs := foldl (λ m x, setNodeRPCAddr m x.1.1 x.1.2) (nodeRPCAddrs st) (raftMembers (rMembers r)) in
  foldl (reconcileOne self GracePeriod r)
    (mkRecon (deadRow st) addrs (conns st) (reMetrics st), [])
    (order (existingInRaft r)).

(** The whole call: [leader] is [None] without raft, [cfgOk] tells whether the configuration
    could be read.  The result has the new state, the [AddVoter] and [RemoveServer] calls,
    and the placement update at the end. *)
Definition ReconcileRaftWithMembership (Sum64String : string → Z) (self : string) (GracePeriod rf : Z)
    (leader : option bool) (cfgOk : bool) (prev : option Placement) (r : Round) (st : ReconState)
    : ReconState * list (string * string) * list string * UpdateResult :=
  match leader with
  | Some true =>
      if negb cfgOk then (st, [], [], NoUpdate)
      else
        let '(st', removed) := reconcileServers self GracePeriod r st in
        (st', addedVoters r, removed,
         UpdatePlacement Sum64String true (Some (memberID <$> rMembers r)) (reMetrics st') prev rf)
  | _ => (st, [], [], NoUpdate)
  end.

(** ** Removals respect the grace period *)

Context (Horder : ∀ m, order m ≡ₚ map_to_list m).

(** What one round does to a node's entry on death row, and whether it asks for its removal. *)
Definition deadNext (GracePeriod : Z) (r : Round) (id : string) (s : Suffrage) (d : option Z)
    : option Z * bool :=
  if decide (id ∈ seenInGossip r) then (None, false)
  else match d with
  | None => (Some (rNow r id), false)
  | Some t =>
      if graceFor GracePeriod s <? rNow r id - t then (if rRemoveOk r id then None else Some t, true)
      else (Some t, false)
  end.

Lemma reconcileOne_self self g r st rem s st' rem' :
  reconcileOne self g r (st, rem) (self, s) = (st', rem') → st' = st ∧ rem' = rem.
Proof. unfold reconcileOne. rewrite decide_True by done. by intros [= <- <-]. Qed.

Lemma reconcileOne_same self g r st rem id s st' rem' :
  id ≠ self → reconcileOne self g r (st, rem) (id, s) = (st', rem') →
  deadRow st' !! id = (deadNext g r id s (deadRow st !! id)).1 ∧
  rem' = if (deadNext g r id s (deadRow st !! id)).2 then rem ++ [id] else rem.
Proof.
  intros Hne. unfold reconcileOne, deadNext. rewrite decide_False by done.
  destruct (decide (id ∈ seenInGossip r)) as [Hs|Hs]; [intros [= <- <-]; simpl; by rewrite lookup_delete_eq|].
  destruct (deadRow st !! id) as [t|] eqn:E; [|intros [= <- <-]; simpl; by rewrite lookup_insert_eq].
  case_match; [|by intros [= <- <-]]. intros [= <- <-]. split; [|done]. simpl.
  destruct (rRemoveOk r id); simpl; [by rewrite lookup_delete_eq|done].
Qed.

Lemma reconcileOne_other self g r st rem id id' s st' rem' :
  id' ≠ id → reconcileOne self g r (st, rem) (id', s) = (st', rem') →
  deadRow st' !! id = deadRow st !! id ∧ (id ∈ rem' ↔ id ∈ rem).
Proof.
  intros Hne. unfold reconcileOne. repeat case_match; intros [= <- <-]; simpl; try done.
  all: rewrite ?lookup_delete_ne, ?lookup_insert_ne by done; split; [done|].
  all: rewrite ?elem_of_app, ?list_elem_of_singleton; naive_solver.
Qed.

Lemma reconcile_skip self g r id l st rem st' rem' :
  id ∉ l.*1 → foldl (reconcileOne self g r) (st, rem) l = (st', rem') →
  deadRow st' !! id = deadRow st !! id ∧ (id ∈ rem' ↔ id ∈ rem).
Proof.
  revert st rem. induction l as [|[id' s] l IH]; intros st rem Hid; [by intros [= <- <-]|].
  cbn [foldl]. rewrite fmap_cons in Hid. apply not_elem_of_cons in Hid as [Hne Hid]. simpl in Hne.
  destruct (reconcileOne self g r (st, rem) (id', s)) as [st1 rem1] eqn:E. intros Hf.
  destruct (IH _ _ Hid Hf) as [-> ->]. eapply reconcileOne_other; [|exact E]. congruence.
Qed.

Lemma reconcile_hit self g r id s l st rem st' rem' :
  NoDup l.*1 → (id, s) ∈ l → id ≠ self → foldl (reconcileOne self g r) (st, rem) l = (st', rem') →
  deadRow st' !! id = (deadNext g r id s (deadRow st !! id)).1 ∧
  (id ∈ rem' ↔ id ∈ rem ∨ (deadNext g r id s (deadRow st !! id)).2 = true).
Proof.
  revert st rem. induction l as [|[id' s'] l IH]; intros st rem Hnd Hin Hns Hf; [by apply elem_of_nil in Hin|].
  rewrite fmap_cons in Hnd. apply list.NoDup_cons in Hnd as [Hni Hnd]. simpl in Hni. cbn [foldl] in Hf.
  destruct (reconcileOne self g r (st, rem) (id', s')) as [st1 rem1] eqn:E.
  apply elem_of_cons in Hin as [[= <- <-]|Hin].
  - destruct (reconcile_skip _ _ _ _ _ _ _ _ _ Hni Hf) as [-> ->].
    destruct (reconcileOne_same _ _ _ _ _ _ _ _ _ Hns E) as [-> ->]. split; [done|].
    case_match; rewrite ?elem_of_app, ?list_elem_of_singleton; naive_solver.
  - assert (id' ≠ id) as Hne by (intros ->; apply Hni; by apply (list_elem_of_fmap_2 fst _ (id, s))).
    destruct (IH _ _ Hnd Hin Hns Hf) as [-> ->].
    destruct (reconcileOne_other _ _ _ _ _ _ _ _ _ _ Hne E) as [-> Hr]. by rewrite Hr.
Qed.

Lemma order_nodup m : NoDup (order m).*1.
Proof. rewrite Horder. apply NoDup_fst_map_to_list. Qed.

Lemma elem_of_order m id s : (id, s) ∈ order m ↔ m !! id = Some s.
Proof. rewrite Horder. apply elem_of_map_to_list. Qed.

(** The entry of a node on death row after a round. *)
Lemma reconcileServers_row self g r st id :
  id ≠ self →
  let '(st', removed) := reconcileServers self g r st in
  match existingInRaft r !! id with
  | Some s => deadRow st' !! id = (deadNext g r id s (deadRow st !! id)).1 ∧
              (id ∈ removed ↔ (deadNext g r id s (deadRow st !! id)).2 = true)
  | None => deadRow st' !! id = deadRow st !! id ∧ id ∉ removed
  end.
Proof.
  intros Hne. unfold reconcileServers. destruct (foldl _ _ _) as [st' removed] eqn:Ef.
  destruct (existingInRaft r !! id) as [s|] eqn:E.
  - destruct (reconcile_hit _ _ _ id s _ _ _ _ _ (order_nodup _) (proj2 (elem_of_order _ _ _) E) Hne Ef) as [H1 H2].
    split; [exact H1|]. rewrite H2, elem_of_nil. naive_solver.
  - apply (reconcile_skip _ _ _ id) in Ef as [-> ->]; [split; [done|apply not_elem_of_nil]|].
    intros ([id' s] & Heq & Hin)%list_elem_of_fmap. apply elem_of_order in Hin. simpl in Heq. congruence.
Qed.

Lemma reconcile_self g r self l st rem :
  self ∉ rem → self ∉ (foldl (reconcileOne self g r) (st, rem) l).2.
Proof.
  revert st rem. induction l as [|[id s] l IH]; intros st rem Hrem; [done|]. cbn [foldl].
  destruct (reconcileOne self g r (st, rem) (id, s)) as [st1 rem1] eqn:E. apply IH.
  destruct (decide (id = self)) as [->|Hne].
  - by apply reconcileOne_self in E as [_ ->].
  - by apply (reconcileOne_other self g r st rem self id s st1 rem1 Hne) in E as [_ ->].
Qed.

(** A configured server that gossip does not see, and one that it sees. *)
Definition missing (r : Round) (id : string) : Prop :=
  is_Some (existingInRaft r !! id) ∧ id ∉ seenInGossip r.
Definition present (r : Round) (id : string) : Prop :=
  is_Some (existingInRaft r !! id) ∧ id ∈ seenInGossip r.

(** First found missing at time [t], in some round, and never seen since. *)
Definition missing_since (rounds : list Round) (id : string) (t : Z) : Prop :=
  ∃ before rd after, rounds = before ++ rd :: after ∧ missing rd id ∧ rNow rd id = t ∧
    Forall (λ r, ¬ present r id) after.

Definition reconcileAll (self : string) (g : Z) (st : ReconState) (rounds : list Round) : ReconState :=
  foldl (λ st r, (reconcileServers self g r st).1) st rounds.

Lemma death_row_history self g st rounds id t :
  deadRow st = ∅ → id ≠ self → deadRow (reconcileAll self g st rounds) !! id = Some t →
  missing_since rounds id t.
Proof.
  intros Hst Hne. revert t. induction rounds as [|r rounds IH] using rev_ind; intros t.
  { unfold reconcileAll. simpl. by rewrite Hst, lookup_empty. }
  unfold reconcileAll. rewrite foldl_app. cbn [foldl]. fold (reconcileAll self g st rounds).
  set (st1 := reconcileAll self g st rounds) in *.
  pose proof (reconcileServers_row self g r st1 id Hne) as Hrow.
  destruct (reconcileServers self g r st1) as [st2 removed]. cbn [fst].
  assert (Hkeep : ∀ t, ¬ present r id → deadRow st1 !! id = Some t → missing_since (rounds ++ [r]) id t).
  { intros t' Hnp Ht. destruct (IH t' Ht) as (b & rd & a & -> & Hm & Hn & Ha).
    exists b, rd, (a ++ [r]). rewrite <-app_assoc. split_and!; try done. apply Forall_app_2; [done|by constructor]. }
  destruct (existingInRaft r !! id) as [s|] eqn:E; destruct Hrow as [-> _].
  - unfold deadNext. destruct (decide (id ∈ seenInGossip r)) as [|Hns]; [done|].
    assert (Hnp : ¬ present r id) by by intros [_ ?].
    destruct (deadRow st1 !! id) as [t0|] eqn:E0.
    + repeat case_match; simpl; try done; intros [= <-]; by apply Hkeep.
    + intros [= <-]. exists rounds, r, []. split_and!; try done.
  - apply Hkeep. intros [[? ?] _]. congruence.
Qed.

End reconcile.

(** ** Metadata round trip *)

(** An identifier or address that metadata can carry. *)
Definition field (s : string) : Prop := s ≠ ""%string ∧ (comma ∉ bytes s) ∧ trimmed (bytes s).

#[export] Instance field_dec s : Decision (field s).
Proof. unfold field, trimmed. apply _. Defined.

Lemma bytes_app s1 s2 : bytes (s1 +:+ s2) = bytes s1 ++ bytes s2.
Proof. induction s1 as [|a s1 IH]; [done|]. unfold bytes in *. simpl. by rewrite IH. Qed.

Lemma bytes_nonempty s : s ≠ ""%string → bytes s ≠ [].
Proof. by destruct s. Qed.

Lemma TrimSpace_trimmed s : trimmed (bytes s) → TrimSpace s = s.
Proof. intros H. unfold TrimSpace. by rewrite trimmed_trimBytes, str_bytes. Qed.

(** Metadata round trip.  For an identifier and addresses that are non-empty, free of
    commas and without surrounding space, peers decode from a node's metadata exactly what
    it encoded, with and without a raft address. *)
Theorem node_meta_round_trip id rpc raft :
  field id → field rpc → (raft = ""%string ∨ field raft) →
  parseMeta (NodeMeta id rpc raft) = inl (id, rpc) ∧
  parseMetaWithRaft (NodeMeta id rpc raft) = inl (id, rpc, raft).
Proof.
  intros (Hi & Hic & Hit) (Hr & Hrc & Hrt) Hraft.
  assert (Hraw : ∃ rest, bytes (NodeMeta id rpc raft) = bytes id ++ comma :: bytes rpc ++ rest ∧
     trimmed (bytes (NodeMeta id rpc raft)) ∧
     Split (NodeMeta id rpc raft) = id :: rpc :: (if decide (raft = ""%string) then [] else [raft])).
  { unfold NodeMeta, Split. destruct (decide (raft = ""%string)) as [->|Hne].
    - exists []. rewrite !bytes_app, app_nil_r. change (bytes ",") with [comma]. simpl. split_and!; [done| |].
      + apply trimmed_join; auto using bytes_nonempty.
      + rewrite splitBytes_app, splitBytes_none by done. simpl. by rewrite !str_bytes.
    - destruct Hraft as [?|(Hf & Hfc & Hft)]; [done|]. exists (comma :: bytes raft).
      rewrite !bytes_app. change (bytes ",") with [comma]. simpl. split_and!; [done| |].
      + apply trimmed_join; auto using bytes_nonempty; [by destruct (bytes rpc)|].
        apply trimmed_join; auto using bytes_nonempty.
      + rewrite !splitBytes_app, splitBytes_none by done. simpl. by rewrite !str_bytes. }
  destruct Hraw as (rest & Hb & Ht & Hs).
  assert (Hne : NodeMeta id rpc raft ≠ ""%string).
  { intros E. rewrite E in Hb. simpl in Hb. by destruct (bytes id). }
  unfold parseMeta, parseMetaWithRaft. rewrite (TrimSpace_trimmed _ Ht), decide_False, Hs by done.
  rewrite (TrimSpace_trimmed id), (TrimSpace_trimmed rpc) by done.
  rewrite !bool_decide_false by done. cbn [orb]. split; [done|]. rewrite decide_False by done.
  destruct (decide (raft = ""%string)) as [->|Hn]; [done|].
  destruct Hraft as [?|(_ & _ & Hft)]; [done|]. by rewrite (TrimSpace_trimmed raft).
Qed.

(** ** Witnesses *)

Definition ex_member (id : string) : Member := mkMember id (NodeMeta id "10.0.0.1:7000" "10.0.0.1:9000").
Definition ex_round (t : Z) (members : list string) : Round :=
  mkRound (ex_member <$> members) [("n1"%string, Voter); ("n2"%string, Voter); ("n3"%string, Nonvoter)]
    (λ _, t) (λ _, true).
Definition ex_recon : ReconState := mkRecon ∅ ∅ ∅ (mkMetricsState [] ∅ ∅).
Definition ex_rounds : list Round := [ex_round 0 ["n1"; "n2"; "n3"]%string; ex_round (10 * Second) ["n1"%string]].


Lemma ex_field s : bool_decide (field s) = true → field s.
Proof. apply bool_decide_eq_true. Qed.

Lemma node_meta_round_trip_witness :
  parseMeta (NodeMeta "n1" "10.0.0.1:7000" "10.0.0.1:9000") = inl ("n1", "10.0.0.1:7000")%string ∧
  parseMetaWithRaft (NodeMeta "n1" "10.0.0.1:7000" "10.0.0.1:9000")
  = inl ("n1", "10.0.0.1:7000", "10.0.0.1:9000")%string.
Proof.
  apply (node_meta_round_trip "n1" "10.0.0.1:7000" "10.0.0.1:9000").
  - apply ex_field. vm_compute. reflexivity.
  - apply ex_field. vm_compute. reflexivity.
  - right. apply ex_field. vm_compute. reflexivity.
Defined.
