(* ===== verification/RaftNode.v ===== *)
(** * The raft node ([src/cluster/raft.go])

    [RaftNode] wraps a hashicorp/raft instance: construction with its early returns, and the
    calls the rest of the program makes.  The instance is a parameter [R] with the library
    calls the wrapper uses; each of them returns the new instance and its error. *)

From S2P Require Import Prelude Text Float64 Placement Score Rebalance RaftFSM Membership.

Inductive raftErr := ErrNotLeader | ErrCantBootstrap | OtherRaftErr.
Inductive raftRole := Follower | CandidateRole | Leader | Shutdown.

(** ** Construction *)

(** [net.TCPAddr] as the code inspects it. *)
Record TCPAddr := mkTCP { tcpIP : option string; tcpUnspecified : bool; tcpPort : Z; tcpZone : string }.

(** The bind address that is handed to the transport. *)
Definition effectiveBind (bind adv : TCPAddr) : TCPAddr :=
  let b := if bool_decide (tcpIP bind = None) || tcpUnspecified bind
           then mkTCP (tcpIP adv) (tcpUnspecified adv) (tcpPort bind)
                  (if decide (tcpZone bind = ""%string) then tcpZone adv else tcpZone bind)
           else bind in
  if tcpPort b =? 0 then mkTCP (tcpIP b) (tcpUnspecified b) (tcpPort adv) (tcpZone b) else b.

Inductive newRaftErr :=
  | BindRequired | AdvertiseRequired | DataDirRequired | MkdirFailed | BoltFailed | LogCacheFailed
  | SnapshotsFailed | ResolveBind | ResolveAdvertise | TransportFailed | RaftFailed (e : raftErr).

Record RaftNode (R : Type) := mkRaftNode { rnID : string; rnRaft : option R; boltOpen : bool }.
Arguments mkRaftNode {R}. Arguments rnID {R}. Arguments rnRaft {R}. Arguments boltOpen {R}.

Record Library (R : Type) := mkLibrary {
  mkdirAll : string → bool;
  boltStore : string → bool;
  logCache : bool;
  snapshotStore : string → bool;
  resolveTCP : string → option TCPAddr;
  tcpTransport : TCPAddr → TCPAddr → bool;
  newRaft : string → R + raftErr;
  bootstrapCluster : R → list (string * string) → R * option raftErr;
  stateOf : R → raftRole;
  leaderOf : R → string;
  applyCmd : R → raftEntry → R * option raftErr;
  addVoter : R → string → string → R * option raftErr;
  removeServer : R → string → R * option raftErr;
  getConfiguration : R → list (string * Suffrage) + raftErr;
  shutdown : R → option raftErr;
  boltClose : bool
}.
Arguments mkdirAll {R}. Arguments boltStore {R}. Arguments logCache {R}. Arguments snapshotStore {R}.
Arguments resolveTCP {R}. Arguments tcpTransport {R}. Arguments newRaft {R}. Arguments bootstrapCluster {R}.
Arguments stateOf {R}. Arguments leaderOf {R}. Arguments applyCmd {R}. Arguments addVoter {R}.
Arguments removeServer {R}. Arguments getConfiguration {R}. Arguments shutdown {R}. Arguments boltClose {R}.

Section raftNode.
Context {R : Type} (lib : Library R).

Definition NewRaftNode (nodeID bindAddr advAddr dataDir : string) (bootstrap : bool) : RaftNode R + newRaftErr :=
  if decide (bindAddr = ""%string) then inr BindRequired
  else if decide (advAddr = ""%string) then inr AdvertiseRequired
  else if decide (dataDir = ""%string) then inr DataDirRequired
  else if negb (mkdirAll lib dataDir) then inr MkdirFailed
  else if negb (boltStore lib dataDir) then inr BoltFailed
  else if negb (logCache lib) then inr LogCacheFailed
  else if negb (snapshotStore lib dataDir) then inr SnapshotsFailed
  else match resolveTCP lib bindAddr, resolveTCP lib advAddr with
  | None, _ => inr ResolveBind
  | Some _, None => inr ResolveAdvertise
  | Some bind, Some adv =>
      if negb (tcpTransport lib (effectiveBind bind adv) adv) then inr TransportFailed
      else match newRaft lib nodeID with
      | inr e => inr (RaftFailed e)
      | inl r =>
          if bootstrap then
            match bootstrapCluster lib r [(nodeID, advAddr)] with
            | (r, None) | (r, Some ErrCantBootstrap) => inl (mkRaftNode nodeID (Some r) true)
            | (_, Some e) => inr (RaftFailed e)
            end
          else inl (mkRaftNode nodeID (Some r) true)
      end
  end.

(** ** Calls *)

Inductive nodeErr := NilPlacement | NotInitialized | RaftErr (e : raftErr) | BoltCloseFailed.

Definition setRaft (rn : RaftNode R) (r : R) : RaftNode R := mkRaftNode (rnID rn) (Some r) (boltOpen rn).

Definition RaftIsLeader (rn : RaftNode R) : bool :=
  match rnRaft rn with Some r => match stateOf lib r with Leader => true | _ => false end | None => false end.

Definition LeaderAddr (rn : RaftNode R) : string :=
  match rnRaft rn with Some r => leaderOf lib r | None => ""%string end.

Definition ApplyPlacement (p : option Placement) (rn : RaftNode R) : RaftNode R * option nodeErr :=
  match p with
  | None => (rn, Some NilPlacement)
  | Some p =>
      match rnRaft rn with
      | None => (rn, Some NotInitialized)
      | Some r => let '(r, e) := applyCmd lib r (EntryInstall p) in (setRaft rn r, RaftErr <$> e)
      end
  end.

(** [ErrNotLeader] is reported as success. *)
Definition quietNotLeader (e : option raftErr) : option nodeErr :=
  match e with
  | None | Some ErrNotLeader => None
  | Some e => Some (RaftErr e)
  end.

Definition AddVoter (id addr : string) (rn : RaftNode R) : RaftNode R * option nodeErr :=
  match rnRaft rn with
  | None => (rn, Some NotInitialized)
  | Some r => let '(r, e) := addVoter lib r id addr in (setRaft rn r, quietNotLeader e)
  end.

Definition RemoveServer (id : string) (rn : RaftNode R) : RaftNode R * option nodeErr :=
  match rnRaft rn with
  | None => (rn, Some NotInitialized)
  | Some r => let '(r, e) := removeServer lib r id in (setRaft rn r, quietNotLeader e)
  end.

Definition Configuration (rn : RaftNode R) : list (string * Suffrage) + nodeErr :=
  match rnRaft rn with
  | None => inr NotInitialized
  | Some r => match getConfiguration lib r with inl c => inl c | inr e => inr (RaftErr e) end
  end.

(** The raft instance is shut down before the file is closed. *)
Definition CloseBoltDB (rn : RaftNode R) : RaftNode R * option nodeErr :=
  match rnRaft rn with
  | None => (rn, Some NotInitialized)
  | Some r =>
      match shutdown lib r with
      | Some e => (rn, Some (RaftErr e))
      | None => if boltClose lib then (mkRaftNode (rnID rn) (Some r) false, None) else (rn, Some BoltCloseFailed)
      end
  end.

(** [Replicator.IsLeader]: without raft a node leads. *)
Definition IsLeader (rf : option (RaftNode R)) : bool :=
  match rf with None => true | Some rn => RaftIsLeader rn end.

(** ** Removals lost to a change of leader *)

(** A round whose removals go through [RemoveServer] of a raft node. *)
Definition roundOf (members : list Member) (now : string → Z) (rn : RaftNode R) : Round :=
  mkRound members (match Configuration rn with inl c => c | inr _ => [] end) now
    (λ id, match (RemoveServer id rn).2 with None => true | Some _ => false end).

(** A leader that loses its office while it reconciles gets [ErrNotLeader] from raft, which
    [RemoveServer] turns into success: the overdue server is taken off death row and its
    connection and metrics are dropped, although raft did not change the configuration. *)
Theorem removal_forgotten_on_stepdown self g members now rn r id s st since :
  rnRaft rn = Some r → (removeServer lib r id).2 = Some ErrNotLeader →
  id ≠ self → id ∉ seenInGossip (roundOf members now rn) →
  deadRow st !! id = Some since → graceFor g s < now id - since →
  (reconcileOne self g (roundOf members now rn) (st, []) (id, s)).1 = forgetNode st id.
Proof.
  intros Hr He Hne Hseen Hrow Hg. unfold reconcileOne. rewrite !decide_False by done. rewrite Hrow.
  cbn [rNow roundOf rRemoveOk]. rewrite (proj2 (Z.ltb_lt _ _)) by done. cbn [fst].
  unfold RemoveServer. rewrite Hr. destruct (removeServer lib r id) as [r' e]. simpl in He. by subst e.
Qed.

(** The transport never binds to an unspecified address or to port zero, unless the
    advertised address is such an address itself. *)
Lemma effectiveBind_usable bind adv :
  tcpIP adv ≠ None → tcpUnspecified adv = false → tcpPort adv ≠ 0 →
  let b := effectiveBind bind adv in tcpIP b ≠ None ∧ tcpUnspecified b = false ∧ tcpPort b ≠ 0.
Proof.
  intros Hi Hu Hp. unfold effectiveBind. destruct (bool_decide (tcpIP bind = None) || tcpUnspecified bind) eqn:E.
  - cbn [tcpPort]. destruct (tcpPort bind =? 0) eqn:Ep; bool_to_prop; done.
  - apply orb_false_iff in E as [E1 E2]. apply bool_decide_eq_false in E1.
    destruct (tcpPort bind =? 0) eqn:Ep; bool_to_prop; done.
Qed.

(** A node that is handed out can be used: its instance is set, and its calls never report
    that raft is not initialised. *)
Lemma NewRaftNode_initialised nodeID bind adv dir boot rn :
  NewRaftNode nodeID bind adv dir boot = inl rn →
  bind ≠ ""%string ∧ adv ≠ ""%string ∧ dir ≠ ""%string ∧ rnID rn = nodeID ∧ boltOpen rn = true ∧
  ∀ p id addr, (ApplyPlacement (Some p) rn).2 ≠ Some NotInitialized ∧
    (AddVoter id addr rn).2 ≠ Some NotInitialized ∧ (RemoveServer id rn).2 ≠ Some NotInitialized.
Proof.
  unfold NewRaftNode. do 3 (case_decide; [done|]). intros Hn. repeat (case_hyp Hn; try done); simplify_eq.
  all: unfold ApplyPlacement, AddVoter, RemoveServer; cbn [rnRaft]; split_and!; try done.
  all: intros p i a; destruct (applyCmd _ _ _) as [? []], (addVoter _ _ _ _) as [? [[]|]], (removeServer _ _ _) as [? [[]|]]; done.
Qed.
End raftNode.
