(* ===== verification/Collector.v ===== *)
(** * Local metrics ([src/cluster/metrics.go], the reporter of [src/cluster/replication.go])

    A collector holds the static capacities of the host and moving averages of the
    latencies to its peers; readings of the host are inputs ([None]: the reading failed).
    The reporter publishes metrics and triggers placement evaluations on three tickers. *)

From S2P Require Import Prelude Float64 FloatError Placement Score Targets Rebalance.
From Stdlib Require Import QArith Qpower Lqa.

Local Open Scope Z_scope.

(** ** Readings *)

Definition GiB : Z := 1024 * 1024 * 1024.

Definition detectCPUCores (c : option Z) : Z :=
  match c with Some c => if c <=? 0 then 1 else c | None => 1 end.

(** [detectMemGB] and [detectDiskGB] on the total number of bytes. *)
Definition detectGB (total : option Z) : Z :=
  match total with
  | Some total =>
      if total =? 0 then 1
      else let gb := total / GiB in if gb <=? 0 then 1 else gb
  | None => 1
  end.

Definition diffUint64 (cur prev : Z) : Z := if prev <=? cur then cur - prev else 0.

Definition clamp01 (v : f64) : f64 :=
  if IsNaN v || IsInf v then f0
  else if flt v f0 then f0
  else if flt f1 v then f1
  else v.

(** [readCPUUsage], [readMemUsage] and [readDiskUsage] on a percentage. *)
Definition readUsage (percent : option f64) : f64 :=
  match percent with Some p => clamp01 (fdiv p (of_Z 100)) | None => f0 end.

Record netSample := mkSample { rxBytes : Z; txBytes : Z; at_ : Z (* ns *) }.

Record MetricsCollector := mkCollector {
  mcNode : string;
  cpuCores : Z;
  memGB : Z;
  bandwidthMbps : Z;
  diskGB : Z;
  diskPath : string;
  lastRTT : gmap string f64;
  rttCount : gmap string Z;
  lastNetSample : option netSample
}.

Definition NewMetricsCollector (node : string) (bandwidth : Z) (path : string)
    (cores memTotal : option Z) (diskTotal : string → option Z) : MetricsCollector :=
  let path := if decide (path = ""%string) then "/"%string else path in
  mkCollector node (detectCPUCores cores) (detectGB memTotal)
    (if bandwidth <=? 0 then 100 else bandwidth) (detectGB (diskTotal path)) path ∅ ∅ None.

Definition setRTT (mc : MetricsCollector) (m : gmap string f64) (c : gmap string Z) : MetricsCollector :=
  mkCollector (mcNode mc) (cpuCores mc) (memGB mc) (bandwidthMbps mc) (diskGB mc) (diskPath mc) m c (lastNetSample mc).
Definition setNet (mc : MetricsCollector) (s : netSample) : MetricsCollector :=
  mkCollector (mcNode mc) (cpuCores mc) (memGB mc) (bandwidthMbps mc) (diskGB mc) (diskPath mc)
    (lastRTT mc) (rttCount mc) (Some s).

Definition RecordRTT (peerID : string) (latencyMS : f64) (mc : MetricsCollector) : MetricsCollector :=
  if bool_decide (peerID = ""%string) || fle latencyMS f0 || IsNaN latencyMS || IsInf latencyMS then mc
  else
    let avg := match lastRTT mc !! peerID with
               | Some old => fadd (fmul (ratio 8 10) old) (fmul (ratio 2 10) latencyMS)
               | None => latencyMS
               end in
    setRTT mc (<[peerID := avg]> (lastRTT mc)) (<[peerID := countOf (rttCount mc) peerID + 1]> (rttCount mc)).

(** [elapsed]: the milliseconds a connection took, if it was made. *)
Definition ProbePeerRTT (peerID rpcAddr : string) (elapsed : option Z) (mc : MetricsCollector) : MetricsCollector :=
  if bool_decide (peerID = ""%string) || bool_decide (rpcAddr = ""%string) then mc
  else match elapsed with Some ms => RecordRTT peerID (of_Z ms) mc | None => mc end.

(** [Duration.Seconds] *)
Definition Seconds (ns : Z) : f64 :=
  fadd (of_Z (Z.quot ns 1000000000)) (fdiv (of_Z (Z.rem ns 1000000000)) (of_Z 1000000000)).

(** [counters]: bytes received and sent, and the time of the reading. *)
Definition readNetUsage (counters : option netSample) (mc : MetricsCollector) : MetricsCollector * f64 :=
  match counters with
  | None => (mc, f0)
  | Some cur =>
      match lastNetSample mc with
      | None => (setNet mc cur, f0)
      | Some prev =>
          let dt := Seconds (at_ cur - at_ prev) in
          if fle dt f0 then (mc, f0)
          else
            let deltaRx := diffUint64 (rxBytes cur) (rxBytes prev) in
            let deltaTx := diffUint64 (txBytes cur) (txBytes prev) in
            let bitsPerSecond := fdiv (fmul (of_Z (deltaRx +u64 deltaTx)) (of_Z 8)) dt in
            let capacity := fmul (of_Z (bandwidthMbps mc)) (of_Z 1000000) in
            (setNet mc cur, if fle capacity f0 then f0 else clamp01 (fdiv bitsPerSecond capacity))
      end
  end.

Record Readings := mkReadings {
  cpuPercent : option f64; memPercent : option f64; diskPercent : option f64; netCounters : option netSample
}.

Section collector.
(** The order in which Go iterates over the map of latencies. *)
Context (order : gmap string f64 → list (string * f64)).

Definition meanRTT (rtt : gmap string f64) : f64 :=
  if (size rtt =? 0)%nat then f1
  else
    let sum := foldl fadd f0 (order rtt).*2 in
    let avg := fdiv sum (of_Z (Z.of_nat (size rtt))) in
    if fle avg f0 then f1 else avg.

Definition GetCurrentMetrics (rd : Readings) (mc : MetricsCollector) : MetricsCollector * NodeMetrics :=
  let avgRTT := meanRTT (lastRTT mc) in
  let '(mc', net) := readNetUsage (netCounters rd) mc in
  (mc', mkMetrics (mcNode mc) avgRTT (cpuCores mc) (memGB mc) (bandwidthMbps mc) (diskGB mc)
          (readUsage (cpuPercent rd)) (readUsage (memPercent rd)) net (readUsage (diskPercent rd))).

End collector.

(** ** The reporter *)

Record Reporter := mkReporter { initialPlacementDone : bool; metricsTick : Z }.
Inductive ticker := PublishTick | ShortEvalTick | LongEvalTick.
Inductive action := Publish (probePeers : bool) | EvalLong | EvalShort.

(** One iteration of the loop of [StartMetricsReporter]; [leads]: without raft, or leader. *)
Definition reporterStep (leads : bool) (t : ticker) (r : Reporter) : Reporter * list action :=
  match t with
  | PublishTick =>
      let tick := metricsTick r + 1 in
      let publish := Publish (Z.rem tick 3 =? 0) in
      if negb (initialPlacementDone r) && leads
      then (mkReporter true tick, [publish; EvalLong])
      else (mkReporter (initialPlacementDone r) tick, [publish])
  | ShortEvalTick => (r, if leads then [EvalShort] else [])
  | LongEvalTick => (r, if leads then [EvalLong] else [])
  end.

(** ** Published metrics are well typed *)

Lemma SFcompare_swap (x y : f64) : SFcompare y x = CompOpp <$> SFcompare x y.
Proof.
  destruct x as [[]|[]| |[] m e], y as [[]|[]| |[] m' e']; try done; simpl.
  all: rewrite (Z.compare_antisym e e'); destruct (e ?= e'); simpl; try done.
  all: change (Pos.compare_cont Eq) with Pos.compare; rewrite (Pos.compare_antisym m m'); by destruct (m ?= m')%positive.
Qed.

(** A fraction: between zero and one, and not a NaN. *)
Definition unit_ok (f : f64) : Prop := fle f0 f = true ∧ fle f f1 = true.

Lemma clamp01_unit v : unit_ok (clamp01 v).
Proof.
  unfold clamp01. destruct (IsNaN v || IsInf v) eqn:En; [done|].
  destruct (flt v f0) eqn:E0; [done|]. destruct (flt f1 v) eqn:E1; [done|].
  unfold unit_ok, fle, flt, SFleb, SFltb in *. rewrite (SFcompare_swap v f0), (SFcompare_swap f1 v).
  assert (H0 : is_Some (SFcompare v f0)) by (destruct v as [| | |[]]; simpl in *; done || by eexists).
  assert (H1 : is_Some (SFcompare f1 v)) by (rewrite f1_value; destruct v as [| | |[]]; simpl in *; done || by eexists).
  destruct H0 as [c0 H0], H1 as [c1 H1]. rewrite H0 in E0 |- *. rewrite H1 in E1 |- *.
  by destruct c0, c1.
Qed.

Lemma fmul_good f g : good f → good g → (∃ m e, f = S754_finite false m e) → good (fmul f g).
Proof.
  intros _ Hg (m & e & ->). destruct Hg as [-> |[y Hy]]; [by left|].
  destruct g as [sg| | |[] mg eg]; try done; [right; exists 0%Q; destruct sg; reflexivity|].
  destruct (fmul_finite_spec m e mg eg) as (z & _ & [[-> _]|Hr]); [by left|right; eauto].
Qed.

Lemma fadd_good f g : good f → good g → good (fadd f g).
Proof.
  intros Hf Hg. destruct Hf as [-> |[x Hx]]; [rewrite fadd_inf by done; by left|].
  destruct Hg as [-> |[y Hy]]; [left; by destruct f as [| | |[] m e]|].
  destruct (fadd_spec f g x y Hx Hy) as (z & _ & [[-> _]|Hr]); [by left|right; eauto].
Qed.

Lemma fdiv_good f m e : good f → good (fdiv f (S754_finite false m e)).
Proof.
  intros [-> |[x Hx]]; [by left|]. destruct f as [sf| | |[] mf ef]; try done;
    [right; exists 0%Q; destruct sf; reflexivity|].
  destruct (fdiv_finite_spec mf ef m e) as (z & _ & [[-> _]|Hr]); [by left|right; eauto].
Qed.

Lemma fold_good fs a : good a → Forall good fs → good (foldl fadd a fs).
Proof. intros Ha Hf. revert a Ha. induction Hf; intros a Ha; cbn [foldl]; auto using fadd_good. Qed.

(** A positive count is converted to a positive finite number. *)
Lemma of_Z_finite n : 0 < n → n < 2 ^ 63 → ∃ m e, of_Z n = S754_finite false m e.
Proof.
  intros Hn Hlt. destruct n as [|p|p]; try lia. unfold of_Z. cbn [binary_normalize]. unfold binary_round. fold fexp64.
  set (k := fexp64 _). destruct (shl_align_value p 0 k) as [Hv He]. destruct (shl_align p 0 k) as [mz ez]. simpl in Hv, He. subst ez.
  change (p2 0) with 1%Q in Hv. rewrite Qmult_1_r in Hv.
  assert (Hx : (inject_Z (Zpos mz) * p2 (Z.min 0 k) == inject_Z (Zpos p))%Q) by exact Hv.
  pose proof (p2_pos (Z.min 0 k)) as Hp.
  destruct (round_aux_spec (Zpos mz) (Z.min 0 k) loc_Exact (inject_Z (Zpos p))) as (z & Hz & Hres);
    [lia|rewrite Hx; apply Qle_refl|rewrite inject_Z_plus; change (inject_Z 1) with 1%Q; lra|by rewrite Hx|by left|].
  assert (H1 : (1 <= inject_Z (Zpos p))%Q) by (change 1%Q with (inject_Z 1); rewrite <-Zle_Qle; lia).
  assert (H2 : (inject_Z (Zpos p) <= 9223372036854775808 # 1)%Q)
    by (change (9223372036854775808 # 1)%Q with (inject_Z (2 ^ 63)); rewrite <-Zle_Qle; lia).
  destruct tiny_small as [Ht0 Ht]. unfold near, ulp in Hz.
  assert (Hbig : (100000000000000000000 < p2 970)%Q) by reflexivity.
  assert (Hzb : (0 < z)%Q ∧ (z < 100000000000000000000)%Q) by (case_bool_decide; lra).
  destruct Hzb as [Hz0 Hz1]. destruct Hres as [[_ Hinf]|Hr]; [exfalso; lra|].
  revert Hr. generalize (binary_round_aux 53 1024 false (Zpos mz) (Z.min 0 k) loc_Exact) as f. intros f Hr.
  destruct f as [sf| | |[] m e]; [|by destruct Hr..|by eexists _, _].
  exfalso. change (z == 0)%Q in Hr. rewrite Hr in Hz0. by apply Qlt_irrefl in Hz0.
Qed.

Lemma good_positive f : good f → fle f f0 = false → flt f0 f = true.
Proof. intros [-> |[x Hx]]; [done|]. destruct f as [| | |[] m e]; done. Qed.

(** What happens to a collector: probes with measured (whole, non-negative) milliseconds,
    recorded latencies and readings of the host. *)
Inductive collector_step : MetricsCollector → MetricsCollector → Prop :=
  | step_record peer latency mc : valid64 latency → collector_step mc (RecordRTT peer latency mc)
  | step_probe peer addr elapsed mc : collector_step mc (ProbePeerRTT peer addr elapsed mc)
  | step_read counters mc : collector_step mc (readNetUsage counters mc).1.

Definition collector_ok (node : string) (mc : MetricsCollector) : Prop :=
  mcNode mc = node ∧ 1 <= cpuCores mc ∧ 1 <= memGB mc ∧ 1 <= bandwidthMbps mc ∧ 1 <= diskGB mc ∧
  map_Forall (λ _ f, good f) (lastRTT mc).

Lemma detectGB_pos t : 1 <= detectGB t.
Proof. unfold detectGB. repeat case_match; bool_to_prop; lia. Qed.

Lemma NewMetricsCollector_ok node bw path cores mem disk :
  collector_ok node (NewMetricsCollector node bw path cores mem disk).
Proof.
  unfold NewMetricsCollector, collector_ok. simpl. split_and!; auto using detectGB_pos.
  - unfold detectCPUCores. repeat case_match; bool_to_prop; lia.
  - case_match; bool_to_prop; lia.
  - intros k f Hk. by rewrite lookup_empty in Hk.
Qed.

Lemma latency_good f : valid64 f → fle f f0 = false → IsNaN f = false → IsInf f = false → good f.
Proof.
  intros Hv Hl Hn Hi. destruct f as [| | |[] m e]; try done. right. eexists. split; [reflexivity|exact Hv].
Qed.

Lemma RecordRTT_ok node peer latency mc :
  valid64 latency → collector_ok node mc → collector_ok node (RecordRTT peer latency mc).
Proof.
  intros Hv Hok. unfold RecordRTT. case_match eqn:Eg; [done|].
  apply orb_false_iff in Eg as [Eg Ei]. apply orb_false_iff in Eg as [Eg En]. apply orb_false_iff in Eg as [_ El].
  pose proof (latency_good latency Hv El En Ei) as Hg. destruct Hok as (H1 & H2 & H3 & H4 & H5 & H6).
  unfold collector_ok. cbn [setRTT mcNode cpuCores memGB bandwidthMbps diskGB lastRTT].
  split_and!; try done. apply map_Forall_insert_2; [|done].
  destruct (lastRTT mc !! peer) as [old|] eqn:Eo; [|done]. apply H6 in Eo.
  assert (H8 : good (ratio 8 10) ∧ ∃ m e, ratio 8 10 = S754_finite false m e).
  { assert (ratio 8 10 = S754_finite false 7205759403792794 (-53)) as -> by (vm_compute; reflexivity).
    split; [right; eexists; cbn [represents]; by split; [reflexivity|]|by eexists _, _]. }
  assert (H9 : good (ratio 2 10) ∧ ∃ m e, ratio 2 10 = S754_finite false m e).
  { assert (ratio 2 10 = S754_finite false 7205759403792794 (-55)) as -> by (vm_compute; reflexivity).
    split; [right; eexists; cbn [represents]; by split; [reflexivity|]|by eexists _, _]. }
  apply fadd_good; apply fmul_good; try done; [apply H8|apply H8|apply H9|apply H9].
Qed.

Lemma collector_step_ok node mc mc' : collector_ok node mc → collector_step mc mc' → collector_ok node mc'.
Proof.
  intros Hok Hs. destruct Hs as [peer latency mc Hv|peer addr elapsed mc|counters mc].
  - by apply RecordRTT_ok.
  - unfold ProbePeerRTT. repeat case_match; try done. apply RecordRTT_ok; [|done]. apply normalize_valid.
  - unfold readNetUsage. repeat case_match; done.
Qed.

Lemma readNetUsage_unit counters mc : unit_ok (readNetUsage counters mc).2.
Proof. unfold readNetUsage. repeat case_match; simpl; try done; apply clamp01_unit. Qed.

Lemma readUsage_unit p : unit_ok (readUsage p).
Proof. unfold readUsage. case_match; [apply clamp01_unit|done]. Qed.

Lemma meanRTT_positive order rtt :
  (∀ m, order m ≡ₚ map_to_list m) → map_Forall (λ _ f, good f) rtt → Z.of_nat (size rtt) < 2 ^ 63 →
  flt f0 (meanRTT order rtt) = true.
Proof.
  intros Ho Hg Hsz. unfold meanRTT. destruct (size rtt =? 0)%nat eqn:E0; bool_to_prop; [done|].
  destruct (of_Z_finite (Z.of_nat (size rtt))) as (m & e & ->); [lia|done|].
  set (avg := fdiv _ _). destruct (fle avg f0) eqn:El; [done|]. apply good_positive; [|done].
  apply fdiv_good, fold_good; [right; by exists 0%Q|]. apply Forall_fmap. rewrite Ho.
  apply list.Forall_forall. intros [k f] Hk%elem_of_map_to_list. by apply (Hg k).
Qed.

(** C31: published metrics are well typed.  Whatever the readings of the host (failures, absurd
    percentages, NaN and infinities included) and the history of latency measurements, the metrics
    a node publishes carry its identifier, positive capacities, a positive latency and utilisations
    between zero and one. *)
Theorem metrics_well_typed order node bw path cores mem disk mc rd :
  (∀ m, order m ≡ₚ map_to_list m) →
  rtc collector_step (NewMetricsCollector node bw path cores mem disk) mc →
  Z.of_nat (size (lastRTT mc)) < 2 ^ 63 →
  let m := (GetCurrentMetrics order rd mc).2 in
  NodeID m = node ∧ flt f0 (AvgRTT m) = true ∧
  1 <= CPUCores m ∧ 1 <= MemGB m ∧ 1 <= BandwidthMbps m ∧ 1 <= DiskGB m ∧
  unit_ok (CPUUsage m) ∧ unit_ok (MemUsage m) ∧ unit_ok (NetUsage m) ∧ unit_ok (DiskUsage m).
Proof.
  intros Ho Hreach Hsz m.
  assert (Hok : collector_ok node mc).
  { clear Hsz m. pose proof (NewMetricsCollector_ok node bw path cores mem disk) as Hinit. revert Hinit.
    induction Hreach as [|mc1 mc2 mc3 Hs _ IH]; [done|]. intros H1. apply IH. by eapply collector_step_ok. }
  destruct Hok as (H1 & H2 & H3 & H4 & H5 & H6). unfold m, GetCurrentMetrics.
  pose proof (readNetUsage_unit (netCounters rd) mc) as Hn. destruct (readNetUsage _ mc) as [mc' net]. simpl in *.
  split_and!; auto using readUsage_unit, meanRTT_positive.
Qed.

(** ** Reporter schedule *)

Fixpoint reporterRun (ts : list (bool * ticker)) (r : Reporter) : list action :=
  match ts with
  | [] => []
  | (leads, t) :: ts => let '(r', acts) := reporterStep leads t r in acts ++ reporterRun ts r'
  end.

(** A node that never leads never evaluates placements. *)
Lemma followers_do_not_evaluate ts r :
  Forall (λ x, x.1 = false) ts → Forall (λ a, ∃ b, a = Publish b) (reporterRun ts r).
Proof.
  intros Hf. revert r. induction Hf as [|[leads t] ts Hl _ IH]; intros r; [constructor|]. simpl in Hl. subst leads.
  cbn [reporterRun]. destruct (reporterStep false t r) as [r' acts] eqn:E. apply Forall_app_2; [|apply IH].
  destruct t; simpl in E; rewrite ?andb_false_r in E; simplify_eq; repeat constructor. by eexists.
Qed.

(** ** Witness *)

Definition ex_collector : MetricsCollector :=
  NewMetricsCollector "n1" 0 "" (Some 8) (Some (16 * GiB)) (λ _, None).
Definition ex_readings : Readings :=
  mkReadings (Some S754_nan) (Some (of_Z 250)) None (Some (mkSample 10 20 5)).

Definition ex_collector2 : MetricsCollector :=
  RecordRTT "n2" (of_Z 7) (ProbePeerRTT "n3" "c:1" (Some 12) ex_collector).

Lemma metrics_well_typed_witness :
  flt f0 (AvgRTT (GetCurrentMetrics map_to_list ex_readings ex_collector2).2) = true.
Proof.
  refine (proj1 (proj2 (metrics_well_typed map_to_list "n1" 0 "" (Some 8) (Some (16 * GiB)) (λ _, None)
    ex_collector2 ex_readings _ _ _))).
  - intros m. reflexivity.
  - eapply rtc_l; [apply (step_probe "n3" "c:1" (Some 12))|]. eapply rtc_l; [|apply rtc_refl].
    apply (step_record "n2" (of_Z 7)). apply normalize_valid.
  - vm_compute. reflexivity.
Defined.
