(* ===== verification/Gossip.v ===== *)
(** * Gossip of metrics ([src/cluster/membership.go], [metrics.go], [replication.go])

    A node measures itself, handles its own metrics and queues them as a gossip broadcast;
    peers decode what arrives and handle it in the same way.  A message on the wire is
    modelled by what [json.Unmarshal] makes of it; [json.Marshal] refuses floating-point
    numbers that are not finite.  The queue of broadcasts belongs to memberlist. *)

From S2P Require Import Prelude Text Float64 Placement Score Replicas Rebalance Membership Collector.

(** ** Messages *)

Inductive Payload := Undecodable | Decoded (msg : GossipMetricsMessage).

Inductive decodeErr := BadJSON | UnknownType (type : string).

Definition finite (f : f64) : bool := negb (IsNaN f || IsInf f).

(** The numbers of a message that [json.Marshal] has to print. *)
Definition floatsOf (m : NodeMetrics) (rtt : gmap string f64) : list f64 :=
  [AvgRTT m; CPUUsage m; MemUsage m; NetUsage m; DiskUsage m] ++ (map_to_list rtt).*2.

Definition EncodeGossipMetricsMessage (now : Z) (m : NodeMetrics) (rtt : gmap string f64) : option Payload :=
  if forallb finite (floatsOf m rtt) then Some (Decoded (mkGossip "metrics" (NodeID m) m rtt now)) else None.

Definition DecodeGossipMetricsMessage (b : Payload) : GossipMetricsMessage + decodeErr :=
  match b with
  | Undecodable => inr BadJSON
  | Decoded msg => if decide (gType msg = "metrics"%string) then inl msg else inr (UnknownType (gType msg))
  end.

(** [Node.NotifyMsg] with the replicator's handler installed; [None]: no handler yet. *)
Definition NotifyMsg (b : Payload) (st : option MetricsState) : option MetricsState :=
  match DecodeGossipMetricsMessage b with
  | inr _ => st
  | inl msg => (λ st, HandleMetricsMessage st (Some msg)) <$> st
  end.

(** ** Broadcasts *)

Inductive queueErr := EmptyMessage | NoQueue.

Section broadcast.
Context {Q A : Type} `{EqDecision A} (QueueBroadcast : Q → list A → Q) (GetBroadcastsOf : Q → Z → Z → list (list A)).

(** [messageBroadcast.Invalidates]; [None]: the other broadcast has another type. *)
Definition Invalidates (msg : list A) (other : option (list A)) : bool :=
  match other with Some o => bool_decide (msg = o) | None => false end.

Definition QueueBroadcastMessage (msg : list A) (broadcasts : option Q) : option Q * option queueErr :=
  if (length msg =? 0)%nat then (broadcasts, Some EmptyMessage)
  else match broadcasts with
       | None => (None, Some NoQueue)
       | Some q => (Some (QueueBroadcast q msg), None)
       end.

Definition GetBroadcasts (overhead limit : Z) (broadcasts : option Q) : list (list A) :=
  match broadcasts with None => [] | Some q => GetBroadcastsOf q overhead limit end.
End broadcast.

(** ** Publishing *)

(** One probed member: what gossip knows of it and how long a connection took. *)
Definition probeMember (self : string) (acc : MetricsCollector * gmap string string) (m : Member * option Z)
    : MetricsCollector * gmap string string :=
  let '(mc, addrs) := acc in
  match parseMeta (mMeta m.1) with
  | inr _ => acc
  | inl (peerID, rpcAddr) =>
      let addrs := setNodeRPCAddr addrs peerID rpcAddr in
      if decide (peerID = self) then (mc, addrs)
      else (ProbePeerRTT peerID rpcAddr m.2 mc, addrs)
  end.

Record Publisher := mkPublisher {
  puCollector : option MetricsCollector;
  puAddrs : gmap string string;
  puMetrics : MetricsState
}.

(** [ml]: the members, without a memberlist [None]; [hasGossip]: a broadcaster is installed.
    The second component is what is handed to the broadcaster. *)
Definition publishLocalMetrics (order : gmap string f64 → list (string * f64)) (self : string)
    (probePeers : bool) (ml : option (list (Member * option Z))) (hasGossip : bool) (rd : Readings) (now now' : Z)
    (p : Publisher) : Publisher * option Payload :=
  match puCollector p with
  | None => (p, None)
  | Some mc =>
      let '(mc, addrs) :=
        if probePeers then foldl (probeMember self) (mc, puAddrs p) (default [] ml) else (mc, puAddrs p) in
      let '(mc, m) := GetCurrentMetrics order rd mc in
      let msg := mkGossip "metrics" (NodeID m) m (lastRTT mc) now in
      let st := HandleMetricsMessage (puMetrics p) (Some msg) in
      (mkPublisher (Some mc) addrs st,
       if hasGossip then EncodeGossipMetricsMessage now' m (lastRTT mc) else None)
  end.

(** ** Peers track the publisher *)

(** What a node knows about node [id]: its smoothed metrics and its latencies. *)
Definition nodeView (st : MetricsState) (id : string) : option NodeMetrics * option (gmap string f64) :=
  (metricEMA st !! id, msRTT st !! id).

Lemma smoothMetricsLocked_id emas m : NodeID (smoothMetricsLocked emas m).2 = NodeID m.
Proof. unfold smoothMetricsLocked. by case_match. Qed.

Lemma handle_other st msg id : NodeID (gMetrics msg) ≠ id → nodeView (HandleMetricsMessage st (Some msg)) id = nodeView st id.
Proof.
  intros Hne. unfold HandleMetricsMessage. case_decide; [done|].
  pose proof (smoothMetricsLocked_id (metricEMA st) (gMetrics msg)) as Hid.
  destruct (smoothMetricsLocked _ _) as [emas s] eqn:E. simpl in Hid. unfold nodeView. cbn [metricEMA msRTT].
  rewrite lookup_insert_ne by congruence. f_equal. unfold smoothMetricsLocked in E.
  destruct (metricEMA st !! NodeID (clampAll (gMetrics msg))); injection E as <- _; by rewrite lookup_insert_ne.
Qed.

Lemma handle_same st st' msg msg' id :
  nodeView st id = nodeView st' id → NodeID (gMetrics msg) = id → gMetrics msg = gMetrics msg' → gRTT msg = gRTT msg' →
  nodeView (HandleMetricsMessage st (Some msg)) id = nodeView (HandleMetricsMessage st' (Some msg')) id.
Proof.
  intros Hv <- Hm Hr. unfold HandleMetricsMessage. rewrite <-Hm, <-Hr. case_decide; [done|].
  injection Hv as He Hrt. set (m := gMetrics msg) in *. unfold smoothMetricsLocked.
  change (NodeID (clampAll m)) with (NodeID m). rewrite He.
  destruct (metricEMA st' !! NodeID m); unfold nodeView; cbn [metricEMA msRTT];
    change (NodeID (smoothWith (clampAll m) _)) with (NodeID m); change (NodeID (clampAll m)) with (NodeID m);
    by rewrite !lookup_insert_eq, Hrt.
Qed.

(** A run of messages, as handled by one node. *)
Definition handleAll (st : MetricsState) (msgs : list GossipMetricsMessage) : MetricsState :=
  foldl (λ st msg, HandleMetricsMessage st (Some msg)) st msgs.

(** Messages of other nodes do not matter for what is known about [id]. *)
Lemma handleAll_own st st' msgs id :
  nodeView st id = nodeView st' id →
  nodeView (handleAll st msgs) id = nodeView (handleAll st' (filter (λ msg, NodeID (gMetrics msg) = id) msgs)) id.
Proof.
  revert st st'. induction msgs as [|msg msgs IH]; intros st st' Hv; [done|]. cbn [handleAll foldl].
  rewrite filter_cons. case_decide as Hid.
  - cbn [foldl]. apply IH. by apply handle_same.
  - apply IH. by rewrite handle_other.
Qed.

(** What a publisher hands to gossip carries the metrics it has handled itself. *)
Lemma publish_payload order self probe ml hasGossip rd now now' p p' b :
  publishLocalMetrics order self probe ml hasGossip rd now now' p = (p', Some b) →
  ∃ m rtt, b = Decoded (mkGossip "metrics" (NodeID m) m rtt now') ∧
    puMetrics p' = HandleMetricsMessage (puMetrics p) (Some (mkGossip "metrics" (NodeID m) m rtt now)).
Proof.
  unfold publishLocalMetrics. destruct (puCollector p) as [mc|]; [|done].
  destruct (if probe then _ else _) as [mc1 addrs]. destruct (GetCurrentMetrics order rd mc1) as [mc2 m].
  destruct hasGossip; [|done]. unfold EncodeGossipMetricsMessage. case_match; [|done]. intros [= <- <-]. by exists m, (lastRTT mc2).
Qed.


(** ** Witness *)

Definition ex_publisher : Publisher := mkPublisher (Some ex_collector2) ∅ (mkMetricsState [] ∅ ∅).
Definition ex_noise : list Payload :=
  [Undecodable; Decoded (mkGossip "metrics" "n2" (GetCurrentMetrics map_to_list ex_readings
     (NewMetricsCollector "n2" 10 "" None None (λ _, None))).2 ∅ 3); Decoded (mkGossip "join" "n9" (ex_metrics "n9" 1 1) ∅ 0)].

Definition ex_published : Publisher * option Payload :=
  publishLocalMetrics map_to_list "n1" true (Some [(ex_member "n2", Some 4)]) true ex_readings 7 8 ex_publisher.

Lemma ex_published_some : ex_published.2 = Some (default Undecodable ex_published.2).
Proof. vm_compute. reflexivity. Qed.

Lemma ex_published_id msg : default Undecodable ex_published.2 = Decoded msg → NodeID (gMetrics msg) = "n1"%string.
Proof. vm_compute. intros [= <-]. reflexivity. Qed.

