(* ===== verification/ControlLoop.v ===== *)
(** * The membership control loop ([src/cluster/membership.go])

    Membership notifications are queued (and dropped when the queue is full), one
    goroutine turns them into a reconcile signal (a channel with one slot), another
    debounces the signal with a timer and evaluates the membership when it fires (on a
    follower the evaluation does nothing).  The state keeps what is in the channels and
    where the goroutines are; a select with several ready branches may take any of them, so
    a goroutine can still take work between the closing of [stopCh] and its return. *)

From S2P Require Import Prelude Text Float64 Placement Score Rebalance Membership.

Definition eventCap : nat := 100.

Record LoopState := mkLoop {
  evQ : nat;            (* events in [MembershipEvents] *)
  inHand : bool;        (* [membershipLoop] has taken an event and is about to signal *)
  recSignal : bool;     (* the slot of [reconcileCh] is filled *)
  armed : bool;         (* the debounce timer is running, or has fired unnoticed *)
  ctlStop : bool;       (* [stopCh] is closed *)
  memExited : bool;     (* [membershipLoop] has returned *)
  recExited : bool;     (* [reconcileLoop] has returned *)
  unseen : bool;        (* some notification is newer than the last evaluation *)
  evaluations : nat     (* how often the membership was evaluated *)
}.

(** [StartControlChannels] *)
Definition StartControlChannels : LoopState := mkLoop 0 false false false false false false false 0.

Inductive ctlEvent := Notify | TakeEvent | Signal | TakeSignal | TimerFires | StopWorkers | MemExit | RecExit.

(** [EnqueueMembershipEvent] *)
Definition EnqueueMembershipEvent (s : LoopState) : LoopState :=
  mkLoop (if (evQ s <? eventCap)%nat then S (evQ s) else evQ s) (inHand s) (recSignal s) (armed s)
    (ctlStop s) (memExited s) (recExited s) true (evaluations s).

(** [signalReconcile]: a filled slot stays filled. *)
Definition signalReconcile (s : LoopState) : LoopState :=
  mkLoop (evQ s) false true (armed s) (ctlStop s) (memExited s) (recExited s) (unseen s) (evaluations s).

(** One step of a goroutine; [None]: not enabled (a second [StopWorkers] panics in the code). *)
Definition ctl_step (e : ctlEvent) (s : LoopState) : option LoopState :=
  let '(mkLoop evQ inHand recSignal armed ctlStop memExited recExited unseen evaluations) := s in
  match e with
  | Notify => Some (EnqueueMembershipEvent s)
  | StopWorkers =>
      if ctlStop then None
      else Some (mkLoop evQ inHand recSignal armed true memExited recExited unseen evaluations)
  | TakeEvent =>
      if memExited || inHand then None
      else match evQ with
           | O => None
           | S n => Some (mkLoop n true recSignal armed ctlStop memExited recExited unseen evaluations)
           end
  | Signal => if memExited || negb inHand then None else Some (signalReconcile s)
  | MemExit =>
      if memExited || inHand || negb ctlStop then None
      else Some (mkLoop evQ inHand recSignal armed ctlStop true recExited unseen evaluations)
  | TakeSignal =>
      if recExited || negb recSignal then None
      else Some (mkLoop evQ inHand false true ctlStop memExited recExited unseen evaluations)
  | TimerFires =>
      if recExited || negb armed then None
      else Some (mkLoop evQ inHand recSignal false ctlStop memExited recExited false (S evaluations))
  | RecExit =>
      if recExited || negb ctlStop then None
      else Some (mkLoop evQ inHand recSignal false ctlStop memExited true unseen evaluations)
  end.

Fixpoint ctl_run (evs : list ctlEvent) (s : LoopState) : option LoopState :=
  match evs with
  | [] => Some s
  | e :: evs => s' ← ctl_step e s; ctl_run evs s'
  end.

(** Steps the goroutines take on their own. *)
Definition internal (e : ctlEvent) : bool :=
  match e with Notify | StopWorkers | MemExit | RecExit => false | _ => true end.

(** ** Every change is evaluated *)

Definition work (s : LoopState) : nat :=
  (4 * evQ s + (if inHand s then 3 else 0) + (if recSignal s then 2 else 0) + (if armed s then 1 else 0))%nat.

(** Before the loops are told to stop, both run and a pending notification is work to do. *)
Definition pending_ok (s : LoopState) : Prop :=
  ctlStop s = false → memExited s = false ∧ recExited s = false ∧ (unseen s = true → (0 < work s)%nat).

Lemma ctl_step_ok e s s' : pending_ok s → ctl_step e s = Some s' → pending_ok s'.
Proof.
  unfold pending_ok, work. intros Hs He. destruct e, s as [q h c a [] [] [] u ev]; cbn in Hs, He; repeat (case_hyp He; try done);
    simplify_eq; cbn; try (intros; naive_solver lia).
  intros _. destruct (Hs eq_refl) as (? & ? & _). split_and!; try done. intros _.
  destruct (q <=? 99)%nat eqn:E; bool_to_prop; lia.
Qed.

Lemma ctl_run_ok evs s s' : pending_ok s → ctl_run evs s = Some s' → pending_ok s'.
Proof.
  revert s. induction evs as [|e evs IH]; intros s Hs Hr; simpl in Hr; [by simplify_eq|].
  destruct (ctl_step e s) as [s1|] eqn:E; [|done]. simpl in Hr. eauto using ctl_step_ok.
Qed.

Lemma internal_decreases e s s' :
  internal e = true → ctl_step e s = Some s' → (work s' < work s)%nat ∧ ctlStop s' = ctlStop s.
Proof.
  intros Hi He. unfold work. destruct e; try done; destruct s as [q [] [] [] st [] [] u ev]; cbn in He;
    repeat (case_hyp He; try done); simplify_eq; cbn; split; (done || lia).
Qed.

Lemma internal_run evs s s' :
  Forall (λ e, internal e = true) evs → ctl_run evs s = Some s' →
  (length evs + work s' <= work s)%nat ∧ ctlStop s' = ctlStop s.
Proof.
  intros Hi. revert s. induction Hi as [|e evs He _ IH]; intros s Hr; simpl in Hr; [by simplify_eq|].
  destruct (ctl_step e s) as [s1|] eqn:E; [|done]. simpl in Hr. destruct (IH s1 Hr) as [Hw ->].
  destruct (internal_decreases e s s1 He E) as [? ->]. split; [simpl; lia|done].
Qed.

Lemma rest_has_no_work s :
  memExited s = false → recExited s = false → (∀ e, internal e = true → ctl_step e s = None) → work s = 0%nat.
Proof.
  intros Hm Hr Hrest. unfold work.
  pose proof (Hrest Signal eq_refl) as H1. pose proof (Hrest TakeEvent eq_refl) as H2.
  pose proof (Hrest TakeSignal eq_refl) as H3. pose proof (Hrest TimerFires eq_refl) as H4.
  destruct s as [[|q] [] [] [] st m r u ev]; cbn in *; by subst.
Qed.


(** ** One notification, one evaluation *)

Definition tokens (s : LoopState) : nat :=
  (evQ s + (if inHand s then 1 else 0) + (if recSignal s then 1 else 0) + (if armed s then 1 else 0))%nat.

Lemma internal_tokens e s s' :
  internal e = true → ctl_step e s = Some s' → (tokens s' + evaluations s' <= tokens s + evaluations s)%nat.
Proof.
  intros Hi He. unfold tokens. destruct e; try done; destruct s as [q [] [] [] st [] [] u ev]; cbn in He;
    repeat (case_hyp He; try done); simplify_eq; cbn; lia.
Qed.

Lemma run_tokens evs s s' :
  Forall (λ e, internal e = true) evs → ctl_run evs s = Some s' →
  (tokens s' + evaluations s' <= tokens s + evaluations s)%nat.
Proof.
  intros Hi. revert s. induction Hi as [|e evs He _ IH]; intros s Hr; simpl in Hr; [by simplify_eq|].
  destruct (ctl_step e s) as [s1|] eqn:E; [|done]. simpl in Hr.
  pose proof (internal_tokens e s s1 He E). specialize (IH s1 Hr). lia.
Qed.

Section departures.
Context (order : gmap string Suffrage → list (string * Suffrage)) (Horder : ∀ m, order m ≡ₚ map_to_list m).

(** The [RemoveServer] calls of successive evaluations by a leader. *)
Fixpoint removals (self : string) (g : Z) (st : ReconState) (rs : list Round) : list string :=
  match rs with
  | [] => []
  | r :: rs => let '(st', removed) := reconcileServers order self g r st in removed ++ removals self g st' rs
  end.

(** A departed server stays in the raft configuration.  Evaluations are triggered only
    by membership notifications: when the loop is at rest and one notification arrives
    (a node has left) and nothing else, at most one evaluation follows.  A first evaluation
    only puts the missing server on death row, so no removal is ever requested for it,
    however much time passes. *)
Theorem lone_departure_never_removed s evs s' self g st rs id :
  work s = 0%nat → Forall (λ e, internal e = true) evs → ctl_run (Notify :: evs) s = Some s' →
  (length rs + evaluations s <= evaluations s')%nat →
  id ≠ self → deadRow st !! id = None →
  id ∉ removals self g st rs.
Proof.
  intros Hw Hi Hr Hlen Hne Hrow. cbn [ctl_run] in Hr.
  assert (Hn : ctl_step Notify s = Some (EnqueueMembershipEvent s)) by by destruct s.
  rewrite Hn in Hr. cbn [mbind option_bind] in Hr. pose proof (run_tokens _ _ _ Hi Hr) as Ht.
  assert (Hrs : (length rs <= 1)%nat).
  { unfold work in Hw. assert (Hq : evQ s = 0%nat) by lia. unfold tokens in Ht. simpl in Ht. rewrite Hq in *.
    destruct (inHand s), (recSignal s), (armed s); simpl in *; lia. }
  destruct rs as [|r [|r' rs]]; [apply not_elem_of_nil| |simpl in Hrs; lia]. cbn [removals].
  pose proof (reconcileServers_row order Horder self g r st id Hne) as Hx.
  destruct (reconcileServers order self g r st) as [st' removed]. rewrite app_nil_r.
  rewrite Hrow in Hx. destruct (existingInRaft r !! id); destruct Hx as [_ Hx]; [|done].
  rewrite Hx. unfold deadNext. case_decide; done.
Qed.
End departures.

(** ** Witnesses *)

Definition ex_ctl : list ctlEvent := [Notify; Notify; TakeEvent; Signal; TakeSignal].
Definition ex_ctl_state : LoopState := mkLoop 1 false false true false false false true 0.


(** The leave of [n2] and [n3], evaluated once. *)
Lemma lone_departure_never_removed_witness :
  "n2"%string ∉ removals map_to_list "n1" (2 * Second) ex_recon [ex_round (10 * Second) ["n1"%string]].
Proof.
  apply (lone_departure_never_removed map_to_list (λ m, reflexivity _) StartControlChannels
    [TakeEvent; Signal; TakeSignal; TimerFires] (mkLoop 0 false false false false false false false 1));
    [reflexivity|repeat constructor|reflexivity|simpl; lia|discriminate|reflexivity].
Defined.
