(* ===== verification/Peers.v ===== *)
(** * Clients of peers ([src/cluster/replication.go])

    The replicator keeps one client per peer, dialled at the address found in its table of
    addresses or in the gossip metadata.  A client is identified by the address it was
    dialled at; [dialOk] says whether a connection could be created. *)

From S2P Require Import Prelude Text Float64 Placement Score Rebalance Membership.

Record Peers := mkPeers { peerClients : gmap string string; peerAddrs : gmap string string }.

Inductive peerErr := NilMember | BadMeta (e : metaErr) | PeerDial | NilMemberlist | PeerUnknown.

Definition setAddr (id addr : string) (ps : Peers) : Peers :=
  mkPeers (peerClients ps) (setNodeRPCAddr (peerAddrs ps) id addr).

Definition getOrCreateClientByAddr (dialOk : string → bool) (id addr : string) (ps : Peers)
    : Peers * (string + peerErr) :=
  match peerClients ps !! id with
  | Some c => (ps, inl c)
  | None =>
      if dialOk addr then (mkPeers (<[id := addr]> (peerClients ps)) (peerAddrs ps), inl addr)
      else (ps, inr PeerDial)
  end.

Definition getOrCreateClient (dialOk : string → bool) (m : option Member) (ps : Peers) : Peers * (string + peerErr) :=
  match m with
  | None => (ps, inr NilMember)
  | Some m =>
      match parseMeta (mMeta m) with
      | inr e => (ps, inr (BadMeta e))
      | inl (id, addr) => getOrCreateClientByAddr dialOk id addr (setAddr id addr ps)
      end
  end.

(** One pass over the members: learn addresses up to the first match. *)
Fixpoint scanMembers (id : string) (ms : list Member) (ps : Peers) : Peers * option string :=
  match ms with
  | [] => (ps, None)
  | m :: ms =>
      match parseMeta (mMeta m) with
      | inr _ => scanMembers id ms ps
      | inl (peer, addr) =>
          let ps := setAddr peer addr ps in
          if decide (peer = id) then (ps, Some addr) else scanMembers id ms ps
      end
  end.

(** The first pass and three attempts; [views] are the members as seen by each pass. *)
Fixpoint scanViews (dialOk : string → bool) (id : string) (views : list (list Member)) (ps : Peers)
    : Peers * (string + peerErr) :=
  match views with
  | [] => (ps, inr PeerUnknown)
  | ms :: views =>
      let '(ps, found) := scanMembers id ms ps in
      match found with
      | Some addr => getOrCreateClientByAddr dialOk id addr ps
      | None => scanViews dialOk id views ps
      end
  end.

(** [ml] is [None] without a memberlist. *)
Definition getOrCreateClientByNodeID (dialOk : string → bool) (ml : option (nat → list Member)) (id : string)
    (ps : Peers) : Peers * (string + peerErr) :=
  match peerClients ps !! id with
  | Some c => (ps, inl c)
  | None =>
      match peerAddrs ps !! id with
      | Some addr => getOrCreateClientByAddr dialOk id addr ps
      | None =>
          match ml with
          | None => (ps, inr NilMemberlist)
          | Some view => scanViews dialOk id (view <$> seq 0 4) ps
          end
      end
  end.

(** [Close]: all clients are forgotten. *)
Definition closePeers (ps : Peers) : Peers := mkPeers ∅ (peerAddrs ps).

(** ** Lookups find every gossiped peer *)

Definition advertises (id : string) (m : Member) : Prop := ∃ addr, parseMeta (mMeta m) = inl (id, addr).

Lemma scanMembers_found id ms ps :
  match (scanMembers id ms ps).2 with
  | Some addr => ∃ m, m ∈ ms ∧ parseMeta (mMeta m) = inl (id, addr)
  | None => Forall (λ m, ¬ advertises id m) ms
  end ∧ peerClients (scanMembers id ms ps).1 = peerClients ps.
Proof.
  revert ps. induction ms as [|m ms IH]; intros ps; simpl; [by split|].
  destruct (parseMeta (mMeta m)) as [[peer addr]|e] eqn:E.
  - destruct (decide (peer = id)) as [->|Hne]; simpl.
    + split; [|done]. exists m. split; [left|done].
    + destruct (IH (setAddr peer addr ps)) as [H1 H2]. split; [|exact H2].
      case_match; [destruct H1 as (m' & ? & ?); exists m'; split; [by right|done]|].
      constructor; [|done]. intros [a Ha]. congruence.
  - destruct (IH ps) as [H1 H2]. split; [|done].
    case_match; [destruct H1 as (m' & ? & ?); exists m'; split; [by right|done]|].
    constructor; [|done]. intros [a Ha]. congruence.
Qed.

(** A client is found for every node that some pass over the gossip members sees, and its
    address is one the node advertised; the lookup fails only for a node that none of the
    four passes sees. *)
Theorem gossiped_peer_is_found dialOk view id ps :
  peerClients ps !! id = None → peerAddrs ps !! id = None → (∀ a, dialOk a = true) →
  match (getOrCreateClientByNodeID dialOk (Some view) id ps).2 with
  | inl addr => ∃ i m, (i < 4)%nat ∧ m ∈ view i ∧ parseMeta (mMeta m) = inl (id, addr)
  | inr e => e = PeerUnknown ∧ ∀ i, (i < 4)%nat → Forall (λ m, ¬ advertises id m) (view i)
  end.
Proof.
  intros Hc Ha Hd. unfold getOrCreateClientByNodeID. rewrite Hc, Ha.
  assert (Hgen : ∀ n k ps, peerClients ps !! id = None →
    match (scanViews dialOk id (view <$> seq k n) ps).2 with
    | inl addr => ∃ i m, (k <= i < k + n)%nat ∧ m ∈ view i ∧ parseMeta (mMeta m) = inl (id, addr)
    | inr e => e = PeerUnknown ∧ ∀ i, (k <= i < k + n)%nat → Forall (λ m, ¬ advertises id m) (view i)
    end).
  { clear ps Hc Ha. induction n as [|n IH]; intros k ps Hc; [split; [done|intros; lia]|].
    cbn [seq]. rewrite fmap_cons. cbn [scanViews]. destruct (scanMembers_found id (view k) ps) as [H1 H2].
    destruct (scanMembers id (view k) ps) as [ps' found]. simpl in H1, H2. rewrite <-H2 in Hc.
    destruct found as [addr|].
    - unfold getOrCreateClientByAddr. rewrite Hc, Hd. simpl. destruct H1 as (m & ? & ?).
      exists k, m. split_and!; try done; lia.
    - specialize (IH (S k) ps' Hc). case_match.
      + destruct IH as (i & m & ? & ? & ?). exists i, m. split_and!; try done; lia.
      + destruct IH as [-> IH]. split; [done|]. intros i Hi. destruct (decide (i = k)) as [->|]; [done|].
        apply IH. lia. }
  specialize (Hgen 4%nat 0%nat ps Hc). case_match.
  - destruct Hgen as (i & m & ? & ? & ?). exists i, m. split_and!; try done; lia.
  - destruct Hgen as [-> Hgen]. split; [done|]. intros i Hi. apply Hgen. lia.
Qed.
