(* ===== verification/BatchWorker.v ===== *)
(** * The replication batch worker ([src/cluster/replication_batch.go])

    One goroutine per peer batches replication tasks onto a bidirectional stream and
    hands the outcome of each batch to the callers waiting on the tasks' [done]
    channels.  [run] selects over the queue, a ticker, results of receiver goroutines
    and the stop channel; each ready branch is one event of [worker_step].  Streams are
    numbered in the order they are opened; the outcomes of [open] and [Send] and the
    results of [Recv] are inputs. *)

From S2P Require Import Prelude Server.

Definition replicationBatchSize : nat := 512.
Definition enqueueCap : Z := 16384.

Record replicationTask := mkTask { tReq : ReplicationRequest; tDone : nat (* the [done] channel *) }.

Inductive taskResult := TOk | TSendErr | TStreamErr | TAckErr | TStopped.

(** What [Recv] returned: an error, an acknowledgement with an error text, or one without. *)
Inductive recvResult := RecvErr | AckBad | AckGood.

Record Worker := mkWorker {
  wEnqueue : list replicationTask;
  stopClosed : bool;                               (* [stopCh] is closed *)
  wStopped : bool;                                 (* [run] has returned *)
  wStream : option nat;
  recvActive : bool;
  wPending : list replicationTask;
  inFlight : list (list replicationTask);
  receivers : list nat;                            (* goroutines blocked in [Recv], by stream *)
  nextStream : nat;
  answered : list (replicationTask * taskResult);  (* values sent on [done] channels *)
  sentLog : list (nat * list replicationTask);     (* batches handed to [Send], by stream *)
  resultLog : list (nat * recvResult)              (* results taken from [recvCh], by stream *)
}.

Definition newReplicationBatchWorker : Worker :=
  mkWorker [] false false None false [] [] [] 0 [] [] [].

Definition setQueue (w : Worker) (q p : list replicationTask) : Worker :=
  mkWorker q (stopClosed w) (wStopped w) (wStream w) (recvActive w) p (inFlight w) (receivers w)
    (nextStream w) (answered w) (sentLog w) (resultLog w).
Definition setInFlight (w : Worker) (f : list (list replicationTask)) : Worker :=
  mkWorker (wEnqueue w) (stopClosed w) (wStopped w) (wStream w) (recvActive w) (wPending w) f
    (receivers w) (nextStream w) (answered w) (sentLog w) (resultLog w).

(** ** The closures of [run] *)

Definition failTasks (tasks : list replicationTask) (r : taskResult) (w : Worker) : Worker :=
  mkWorker (wEnqueue w) (stopClosed w) (wStopped w) (wStream w) (recvActive w) (wPending w)
    (inFlight w) (receivers w) (nextStream w) (answered w ++ ((λ t, (t, r)) <$> tasks))
    (sentLog w) (resultLog w).

Definition failAll (r : taskResult) (w : Worker) : Worker :=
  foldl (λ w b, failTasks b r w) (failTasks (wPending w) r w) (inFlight w).

(** [open]; the second component tells whether it succeeded. *)
Definition openStream (openOk : bool) (w : Worker) : Worker * bool :=
  match wStream w with
  | Some _ => (w, true)
  | None =>
      if openOk then
        (mkWorker (wEnqueue w) (stopClosed w) (wStopped w) (Some (nextStream w)) false (wPending w)
           (inFlight w) (receivers w) (S (nextStream w)) (answered w) (sentLog w) (resultLog w), true)
      else (w, false)
  end.

Definition closeStream (w : Worker) : Worker :=
  mkWorker (wEnqueue w) (stopClosed w) (wStopped w) None false (wPending w) (inFlight w) (receivers w)
    (nextStream w) (answered w) (sentLog w) (resultLog w).

Definition startRecv (w : Worker) : Worker :=
  match wStream w with
  | None => w
  | Some s =>
      if recvActive w || (length (inFlight w) =? 0)%nat then w
      else mkWorker (wEnqueue w) (stopClosed w) (wStopped w) (wStream w) true (wPending w) (inFlight w)
             (receivers w ++ [s]) (nextStream w) (answered w) (sentLog w) (resultLog w)
  end.

(** A batch that [Send] accepted: it goes on the in-flight list. *)
Definition recordSent (s : nat) (tasks : list replicationTask) (w : Worker) : Worker :=
  mkWorker (wEnqueue w) (stopClosed w) (wStopped w) (wStream w) (recvActive w) (wPending w)
    (inFlight w ++ [tasks]) (receivers w) (nextStream w) (answered w) (sentLog w ++ [(s, tasks)])
    (resultLog w).

Record Outs := mkOuts { openOk : bool; sendOk : bool }.

Definition sendBatch (o : Outs) (tasks : list replicationTask) (w : Worker) : Worker * bool :=
  if (length tasks =? 0)%nat then (w, true)
  else
    let '(w, ok) := openStream (openOk o) w in
    match wStream w with
    | Some s => if sendOk o then (startRecv (recordSent s tasks w), true) else (w, false)
    | None => (w, false)
    end.

Definition flushPending (o : Outs) (w : Worker) : Worker :=
  if (length (wPending w) =? 0)%nat then w
  else
    let batch := wPending w in
    let '(w, ok) := sendBatch o batch (setQueue w (wEnqueue w) []) in
    if ok : bool then w else failTasks batch TSendErr (closeStream w).

(** ** The branches of the select *)

Definition onTask (o : Outs) (t : replicationTask) (q : list replicationTask) (w : Worker) : Worker :=
  let w := setQueue w q (wPending w ++ [t]) in
  if (replicationBatchSize <=? length (wPending w))%nat then flushPending o w else w.

Fixpoint remove1 (s : nat) (l : list nat) : list nat :=
  match l with
  | [] => []
  | x :: l => if decide (x = s) then l else x :: remove1 s l
  end.

(** A receiver goroutine of stream [s] has delivered its result. *)
Definition takeResult (s : nat) (r : recvResult) (w : Worker) : Worker :=
  mkWorker (wEnqueue w) (stopClosed w) (wStopped w) (wStream w) false (wPending w) (inFlight w)
    (remove1 s (receivers w)) (nextStream w) (answered w) (sentLog w) (resultLog w ++ [(s, r)]).

Definition onResult (s : nat) (r : recvResult) (w : Worker) : Worker :=
  let w := takeResult s r w in
  match inFlight w with
  | [] => closeStream w
  | batch :: rest =>
      let w := setInFlight w rest in
      match r with
      | RecvErr =>
          let w := failAll TStreamErr (failTasks batch TStreamErr (closeStream w)) in
          setInFlight (setQueue w (wEnqueue w) []) []
      | AckBad => startRecv (failTasks batch TAckErr w)
      | AckGood => startRecv (failTasks batch TOk w)
      end
  end.

Definition onStop (w : Worker) : Worker :=
  let w := failAll TStopped (closeStream w) in
  mkWorker (wEnqueue w) (stopClosed w) true (wStream w) (recvActive w) [] [] (receivers w)
    (nextStream w) (answered w) (sentLog w) (resultLog w).

(** [stop]: closing the channel a second time is prevented by [stopOnce]. *)
Definition stop (w : Worker) : Worker :=
  mkWorker (wEnqueue w) true (wStopped w) (wStream w) (recvActive w) (wPending w) (inFlight w)
    (receivers w) (nextStream w) (answered w) (sentLog w) (resultLog w).

Inductive submitErr := QueueFull | WorkerStopped.
Inductive submitChoice := Queued | TimedOut | SawStop.

(** [submit]: the branch that the select took; [None] when it is not ready. *)
Definition submit (c : submitChoice) (t : replicationTask) (w : Worker)
    : option (Worker * option submitErr) :=
  match c with
  | Queued => if Z.of_nat (length (wEnqueue w)) <? enqueueCap
              then Some (setQueue w (wEnqueue w ++ [t]) (wPending w), None) else None
  | TimedOut => Some (w, Some QueueFull)
  | SawStop => if stopClosed w then Some (w, Some WorkerStopped) else None
  end.

Inductive wevent :=
  | Submit (c : submitChoice) (t : replicationTask)
  | Stop
  | Take (o : Outs)
  | Tick (o : Outs)
  | Result (s : nat) (r : recvResult)
  | SeeStop.

(** One event; [None]: not possible now. *)
Definition worker_step (e : wevent) (w : Worker) : option Worker :=
  match e with
  | Submit c t => fst <$> submit c t w
  | Stop => Some (stop w)
  | _ =>
      if wStopped w then None
      else match e with
      | Take o => match wEnqueue w with t :: q => Some (onTask o t q w) | [] => None end
      | Tick o => Some (flushPending o w)
      | Result s r => if decide (s ∈ receivers w) then Some (onResult s r w) else None
      | _ => if stopClosed w then Some (onStop w) else None
      end
  end.

Fixpoint worker_run (evs : list wevent) (w : Worker) : option Worker :=
  match evs with
  | [] => Some w
  | e :: evs => w' ← worker_step e w; worker_run evs w'
  end.

(** ** The workers of a replicator *)

(** [clientOk]: a client for the node could be created. *)
Definition getOrCreateReplicationWorker (clientOk : bool) (nodeID : string) (ws : gmap string Worker)
    : gmap string Worker * option Worker :=
  if negb clientOk then (ws, None)
  else match ws !! nodeID with
       | Some w => (ws, Some w)
       | None => (<[nodeID := newReplicationBatchWorker]> ws, Some newReplicationBatchWorker)
       end.

Inductive submitResult := Accepted | NilRequest | NoClient | Refused (e : submitErr).

Definition submitReplicationTask (clientOk : bool) (c : submitChoice) (done : nat) (nodeID : string)
    (req : option ReplicationRequest) (ws : gmap string Worker) : option (gmap string Worker * submitResult) :=
  match req with
  | None => Some (ws, NilRequest)
  | Some req =>
      let '(ws, worker) := getOrCreateReplicationWorker clientOk nodeID ws in
      match worker with
      | None => Some (ws, NoClient)
      | Some w =>
          '(w', e) ← submit c (mkTask req done) w;
          Some (<[nodeID := w']> ws, match e with None => Accepted | Some e => Refused e end)
      end
  end.

(** The workers that were stopped, and the emptied table. *)
Definition stopReplicationWorkers (ws : gmap string Worker) : gmap string Worker * gmap string Worker :=
  (stop <$> ws, ∅).

(** ** Every task is answered once *)

(** The tasks that were accepted by [submit] in a sequence of events. *)
Definition accepted (evs : list wevent) : list replicationTask :=
  omap (λ e, match e with Submit Queued t => Some t | _ => None end) evs.

(** Tasks the loop has received: answered, waiting for a batch, or in flight. *)
Definition received (w : Worker) : list replicationTask :=
  (answered w).*1 ++ wPending w ++ concat (inFlight w).

Definition batch_ok (b : list replicationTask) : Prop := (0 < length b <= replicationBatchSize)%nat.

Definition bounded (w : Worker) : Prop :=
  (length (wPending w) < replicationBatchSize)%nat ∧ Forall batch_ok (inFlight w).

Lemma answers_fst (r : taskResult) (tasks : list replicationTask) :
  ((λ t, (t, r)) <$> tasks).*1 = tasks.
Proof. rewrite <-list_fmap_compose. apply list_fmap_id. Qed.

Lemma foldl_failTasks_answered r fs w :
  answered (foldl (λ w b, failTasks b r w) w fs) = answered w ++ ((λ t, (t, r)) <$> concat fs).
Proof.
  revert w. induction fs as [|b fs IH]; intros w; simpl; [by rewrite app_nil_r|].
  rewrite IH. simpl. by rewrite fmap_app, app_assoc.
Qed.

Lemma foldl_failTasks_frame r fs w :
  foldl (λ w b, failTasks b r w) w fs =
  mkWorker (wEnqueue w) (stopClosed w) (wStopped w) (wStream w) (recvActive w) (wPending w) (inFlight w)
    (receivers w) (nextStream w) (answered w ++ ((λ t, (t, r)) <$> concat fs)) (sentLog w) (resultLog w).
Proof.
  revert w. induction fs as [|b fs IH]; intros w; cbn [foldl concat].
  - destruct w. simpl. by rewrite app_nil_r.
  - rewrite IH. simpl. by rewrite fmap_app, app_assoc.
Qed.

Lemma failAll_frame r w :
  failAll r w =
  mkWorker (wEnqueue w) (stopClosed w) (wStopped w) (wStream w) (recvActive w) (wPending w) (inFlight w)
    (receivers w) (nextStream w) (answered w ++ ((λ t, (t, r)) <$> wPending w ++ concat (inFlight w)))
    (sentLog w) (resultLog w).
Proof.
  unfold failAll. rewrite foldl_failTasks_frame. simpl. f_equal. by rewrite fmap_app, app_assoc.
Qed.

Lemma startRecv_data w :
  wEnqueue (startRecv w) = wEnqueue w ∧ wPending (startRecv w) = wPending w ∧
  inFlight (startRecv w) = inFlight w ∧ answered (startRecv w) = answered w ∧
  wStopped (startRecv w) = wStopped w.
Proof. unfold startRecv. destruct (wStream w); [|done]. by case_match. Qed.

(** What a flush does to the tasks. *)
Lemma flushPending_data o w :
  let w' := flushPending o w in
  received w' ≡ₚ received w ∧ wEnqueue w' = wEnqueue w ∧ wPending w' = [] ∧ wStopped w' = wStopped w ∧
  (inFlight w' = inFlight w ∨ inFlight w' = inFlight w ++ [wPending w] ∧ wPending w ≠ []).
Proof.
  unfold flushPending, sendBatch, openStream, received. cbv zeta.
  destruct (length (wPending w) =? 0)%nat eqn:El; bool_to_prop.
  { apply nil_length_inv in El. rewrite El. split_and!; auto. }
  cbn [wStream setQueue].
  assert (Hne : wPending w ≠ []) by by destruct (wPending w).
  destruct (wStream w) as [s|] eqn:Es; [|destruct (openOk o)]; cbn [wStream setQueue]; rewrite ?Es;
    try destruct (sendOk o); cbv zeta beta iota.
  all: try match goal with |- context [startRecv ?x] =>
      destruct (startRecv_data x) as (-> & -> & -> & -> & ->) end.
  all: cbn [answered wPending inFlight failTasks closeStream recordSent setQueue wEnqueue wStopped].
  all: rewrite ?fmap_app, ?answers_fst, ?concat_app; cbn [concat]; rewrite ?app_nil_r.
  all: split_and!; auto; solve_Permutation.
Qed.

Definition conserves (w w' : Worker) (new : list replicationTask) : Prop :=
  received w' ++ wEnqueue w' ≡ₚ new ++ received w ++ wEnqueue w.

Lemma flush_keeps o w :
  Forall batch_ok (inFlight w) → (length (wPending w) <= replicationBatchSize)%nat →
  conserves w (flushPending o w) [] ∧ bounded (flushPending o w).
Proof.
  intros Hf Hp. destruct (flushPending_data o w) as (Hr & Hq & Hp' & _ & Hi).
  unfold conserves, bounded. rewrite Hr, Hq, Hp'. split; [done|]. split; [simpl; unfold replicationBatchSize; lia|].
  destruct Hi as [-> | [-> Hne]]; [done|]. apply Forall_app_2; [done|]. constructor; [|done].
  unfold batch_ok. destruct (wPending w); simpl in *; [done|lia].
Qed.

Lemma onResult_keeps s r w :
  bounded w → conserves w (onResult s r w) [] ∧ bounded (onResult s r w) ∧ wStopped (onResult s r w) = wStopped w.
Proof.
  intros [Hp Hf]. unfold onResult, conserves, bounded, received. cbn [inFlight takeResult].
  destruct (inFlight w) as [|b rest] eqn:Ei.
  { simpl. rewrite Ei. split_and!; done. }
  inversion Hf; subst. destruct r; [rewrite failAll_frame|..];
  try match goal with |- context [startRecv ?x] =>
      destruct (startRecv_data x) as (-> & -> & -> & -> & ->) end.
  all: cbn [answered wPending inFlight failTasks closeStream setQueue setInFlight takeResult wEnqueue wStopped concat length].
  all: rewrite ?fmap_app, ?answers_fst; cbn [concat app].
  all: split_and!; try done; try solve_Permutation; unfold replicationBatchSize; lia.
Qed.

Lemma worker_step_keeps e w w' :
  bounded w → worker_step e w = Some w' →
  conserves w w' (accepted [e]) ∧ bounded w' ∧
  (wStopped w' = true → wStopped w = true ∧ answered w' = answered w ∨ wPending w' = [] ∧ inFlight w' = []).
Proof.
  intros Hb Hs. pose proof Hb as [Hp Hf]. assert (Hid : conserves w w []) by (unfold conserves; reflexivity).
  destruct e; cbn [worker_step accepted omap list_omap] in *.
  - assert (Hq : conserves w (setQueue w (wEnqueue w ++ [t]) (wPending w)) [t])
      by (unfold conserves, received; simpl; solve_Permutation).
    destruct c; simpl in Hs; [case_hyp Hs; [|done]| |case_hyp Hs; [|done]]; simplify_option_eq; split_and!; auto.
  - simplify_eq. split_and!; auto.
  - case_hyp Hs; [done|]. case_hyp Hs; [done|]. simplify_eq. unfold onTask. cbn [wPending setQueue].
    set (w1 := setQueue w _ _).
    assert (Hc : conserves w w1 []).
    { unfold conserves, received, w1. simpl. rewrite Heql. solve_Permutation. }
    assert (Hl : length (wPending w1) = S (length (wPending w))) by (unfold w1; simpl; rewrite length_app; simpl; lia).
    fold (wPending w1). change (wPending w ++ [r]) with (wPending w1).
    destruct (replicationBatchSize <=? length (wPending w1))%nat eqn:El; bool_to_prop.
    + destruct (flush_keeps o w1) as [Hc' Hb']; [done|lia|].
      destruct (flushPending_data o w1) as (_ & _ & _ & Hst & _).
      split; [unfold conserves in *; by rewrite Hc'|]. split; [done|]. rewrite Hst. unfold w1. simpl. congruence.
    + split; [done|]. split; [split; [lia|done]|]. unfold w1. simpl. congruence.
  - case_hyp Hs; [done|]. simplify_eq. destruct (flush_keeps o w Hf) as [Hc Hb']; [lia|].
    destruct (flushPending_data o w) as (_ & _ & _ & Hst & _). split_and!; try done. congruence.
  - case_hyp Hs; [done|]. case_hyp Hs; [|done]. simplify_eq.
    destruct (onResult_keeps s r w) as (Hc & Hb' & Hst); [done|]. split_and!; try done. congruence.
  - case_hyp Hs; [done|]. case_hyp Hs; [|done]. simplify_eq. unfold onStop. rewrite failAll_frame.
    unfold conserves, bounded, received. simpl. rewrite fmap_app, answers_fst.
    split_and!; auto; [solve_Permutation|unfold replicationBatchSize; lia].
Qed.

Lemma accepted_app e evs : accepted (e :: evs) = accepted [e] ++ accepted evs.
Proof. unfold accepted. by destruct e as [[] t| | | | |]. Qed.

Lemma worker_run_keeps evs w w' :
  bounded w → (wStopped w = true → wPending w = [] ∧ inFlight w = []) → worker_run evs w = Some w' →
  conserves w w' (accepted evs) ∧ bounded w' ∧ (wStopped w' = true → wPending w' = [] ∧ inFlight w' = []) ∧
  (wStopped w = true → wStopped w' = true ∧ answered w' = answered w).
Proof.
  revert w. induction evs as [|e evs IH]; intros w Hb Hst Hr; cbn [worker_run] in Hr; [simplify_eq; split_and!; auto; unfold conserves; reflexivity|].
  destruct (worker_step e w) as [w1|] eqn:E; [|done]. simpl in Hr.
  destruct (worker_step_keeps e w w1 Hb E) as (Hc & Hb1 & Hs1).
  assert (Hs : wStopped w = true → wStopped w1 = true ∧ answered w1 = answered w ∧ wPending w1 = [] ∧ inFlight w1 = []).
  { intros Hw. destruct (Hst Hw) as [Hp Hi]. destruct e; simpl in E; try (rewrite Hw in E; done).
    - destruct c; simpl in E; [case_hyp E; [|done]| |case_hyp E; [|done]]; by simplify_option_eq.
    - by simplify_eq. }
  destruct (IH w1) as (Hc' & Hb' & Hs' & Hk); try done.
  { intros Hw1. destruct (Hs1 Hw1) as [[Hw _]|?]; [|done]. by destruct (Hs Hw) as (_ & _ & ?). }
  split_and!; try done.
  - unfold conserves in *. rewrite Hc', Hc, (accepted_app e evs). solve_Permutation.
  - intros Hw. destruct (Hs Hw) as (Hw1 & Ha & _). destruct (Hk Hw1) as [? ->]. done.
Qed.

(** C26: every task is answered at most once, and exactly once by the time the worker
    stops if the loop took it.  Over any events (failing sends, broken streams, results
    of several receivers in any order), the tasks accepted by [submit] are, without loss
    or duplication, the ones answered, pending, in flight or still queued; batches hold
    1 to 512 tasks.  After the worker has stopped only queued tasks are unanswered, and
    these never get an answer. *)
Theorem tasks_answered_once evs w :
  worker_run evs newReplicationBatchWorker = Some w →
  accepted evs ≡ₚ (answered w).*1 ++ wPending w ++ concat (inFlight w) ++ wEnqueue w ∧
  (length (wPending w) < 512)%nat ∧ Forall (λ b, (0 < length b <= 512)%nat) (inFlight w) ∧
  (wStopped w = true →
    accepted evs ≡ₚ (answered w).*1 ++ wEnqueue w ∧
    ∀ evs' w', worker_run evs' w = Some w' → answered w' = answered w).
Proof.
  intros Hr. destruct (worker_run_keeps evs newReplicationBatchWorker w) as (Hc & Hb & Hst & _);
    [split; [simpl; unfold replicationBatchSize; lia|constructor]|done|done|].
  unfold conserves, received in Hc. simpl in Hc. rewrite app_nil_r, <-!app_assoc in Hc.
  split_and!; [done|apply Hb|apply Hb|]. intros Hw. destruct (Hst Hw) as [Hp Hi].
  rewrite Hp, Hi in Hc. split; [done|]. intros evs' w' Hr'.
  destruct (worker_run_keeps evs' w w' Hb Hst Hr') as (_ & _ & _ & Hk). by apply Hk.
Qed.

(** ** A success is the peer's acknowledgement of that batch *)

Definition on {A} (s : nat) (l : list (nat * A)) : list A := (filter (λ p, p.1 = s) l).*2.

(** The peer answers the batches of a stream in order: the [k]-th result of stream [s] is
    the answer to the [k]-th batch sent on it. *)
Definition vouched (w : Worker) (t : replicationTask) : Prop :=
  ∃ s k batch, on s (sentLog w) !! k = Some batch ∧ t ∈ batch ∧ on s (resultLog w) !! k = Some AckGood.

(** No [Send] fails while batches are in flight. *)
Definition calm_event (w : Worker) (e : wevent) : Prop :=
  match e with Take o | Tick o => sendOk o = true ∨ inFlight w = [] | _ => True end.

Fixpoint calm (evs : list wevent) (w : Worker) : Prop :=
  match evs with
  | [] => True
  | e :: evs => calm_event w e ∧ match worker_step e w with Some w' => calm evs w' | None => True end
  end.

Lemma on_app {A} s (l1 l2 : list (nat * A)) : on s (l1 ++ l2) = on s l1 ++ on s l2.
Proof. unfold on. by rewrite list.filter_app, fmap_app. Qed.

Lemma on_one {A} s x (a : A) : on s [(x, a)] = if decide (x = s) then [a] else [].
Proof. unfold on. rewrite filter_cons. cbn [fst]. by case_decide. Qed.

Lemma on_fresh {A} s n (l : list (nat * A)) :
  Forall (λ p, p.1 < n)%nat l → (n <= s)%nat → on s l = [].
Proof.
  intros Hl Hn. unfold on. induction Hl as [|p l Hp _ IH]; [done|].
  rewrite filter_cons, decide_False by lia. done.
Qed.

(** The current stream: one receiver exactly when batches are in flight, and these are the
    batches sent on it that have no result yet. *)
Definition stream_ok (w : Worker) : Prop :=
  match wStream w with
  | None => inFlight w = [] ∧ receivers w = [] ∧ recvActive w = false
  | Some s =>
      (s < nextStream w)%nat ∧ receivers w = (if recvActive w then [s] else []) ∧
      (recvActive w = true ↔ inFlight w ≠ []) ∧
      inFlight w = drop (length (on s (resultLog w))) (on s (sentLog w)) ∧
      (length (on s (resultLog w)) <= length (on s (sentLog w)))%nat
  end.

Record calm_inv (w : Worker) : Prop := {
  ci_stream : stream_ok w;
  ci_sent : Forall (λ p, p.1 < nextStream w)%nat (sentLog w);
  ci_results : Forall (λ p, p.1 < nextStream w)%nat (resultLog w);
  ci_vouched : ∀ t, (t, TOk) ∈ answered w → vouched w t
}.

Lemma vouched_mono w w' t :
  sentLog w `prefix_of` sentLog w' → resultLog w `prefix_of` resultLog w' → vouched w t → vouched w' t.
Proof.
  intros [l1 H1] [l2 H2] (s & k & batch & Hs & Ht & Hr). exists s, k, batch. rewrite H1, H2, !on_app.
  split_and!; [by apply lookup_app_l_Some|done|by apply lookup_app_l_Some].
Qed.

(** States that differ only in the queue and in answers other than successes. *)
Lemma calm_inv_frame w w' :
  calm_inv w →
  wStream w' = wStream w → recvActive w' = recvActive w → inFlight w' = inFlight w →
  receivers w' = receivers w → nextStream w' = nextStream w → sentLog w' = sentLog w →
  resultLog w' = resultLog w → (∀ t, (t, TOk) ∈ answered w' → (t, TOk) ∈ answered w) →
  calm_inv w'.
Proof.
  intros [H1 H2 H3 H4] E1 E2 E3 E4 E5 E6 E7 Ha. split.
  - unfold stream_ok in *. by rewrite E1, E2, E3, E4, E5, E6, E7.
  - by rewrite E5, E6.
  - by rewrite E5, E7.
  - intros t Ht. eapply (vouched_mono w); [by rewrite E6|by rewrite E7|auto].
Qed.

Lemma fail_no_success (r : taskResult) (tasks : list replicationTask) l t :
  r ≠ TOk → (t, TOk) ∈ l ++ ((λ t, (t, r)) <$> tasks) → (t, TOk) ∈ l.
Proof. intros Hr [?|(t' & [= _ Hx] & _)%list_elem_of_fmap]%elem_of_app; [done|congruence]. Qed.

Lemma startRecv_calm s w :
  wStream w = Some s → (s < nextStream w)%nat → recvActive w = false ∧ receivers w = [] ∨
    recvActive w = true ∧ receivers w = [s] ∧ inFlight w ≠ [] →
  inFlight w = drop (length (on s (resultLog w))) (on s (sentLog w)) →
  (length (on s (resultLog w)) <= length (on s (sentLog w)))%nat →
  Forall (λ p, p.1 < nextStream w)%nat (sentLog w) → Forall (λ p, p.1 < nextStream w)%nat (resultLog w) →
  (∀ t, (t, TOk) ∈ answered w → vouched w t) →
  calm_inv (startRecv w).
Proof.
  intros Hs Hlt Hra Hi Hle H1 H2 H3. unfold startRecv. rewrite Hs.
  destruct (recvActive w || (length (inFlight w) =? 0)%nat) eqn:E.
  - split; try done. unfold stream_ok. rewrite Hs. split; [done|].
    destruct Hra as [[Hf Hr]|(Ht & Hr & Hne)]; rewrite ?Hf, ?Ht, Hr in *.
    + simpl in E. bool_to_prop. apply nil_length_inv in E. rewrite E in *. split_and!; try done.
    + split_and!; try done.
  - apply orb_false_iff in E as [Hf E]. bool_to_prop. destruct Hra as [[_ Hr]|(Ht & _)]; [|congruence].
    split; try done. unfold stream_ok. simpl. rewrite Hr. split_and!; try done.
    split; [|done]. intros _ E0. by rewrite E0 in E.
Qed.

Lemma openStream_calm o w :
  calm_inv w → calm_inv (openStream o w).1 ∧ inFlight (openStream o w).1 = inFlight w ∧
  wPending (openStream o w).1 = wPending w ∧
  ((openStream o w).2 = true ↔ is_Some (wStream (openStream o w).1)).
Proof.
  intros Hw. unfold openStream. destruct (wStream w) as [s|] eqn:Es.
  { simpl. rewrite Es. split_and!; try done. }
  destruct o; simpl; [|rewrite Es; split_and!; try done; by split; [|intros []]].
  destruct Hw as [H1 H2 H3 H4]. unfold stream_ok in H1. rewrite Es in H1. destruct H1 as (Hi & Hr & Ha).
  split_and!; [|done|done|split; [by eexists|done]]. split; simpl.
  - unfold stream_ok. simpl. rewrite !(on_fresh (nextStream w) (nextStream w)) by done.
    rewrite Hi, Hr. split_and!; try done; lia.
  - eapply Forall_impl; [|exact H2]. simpl. lia.
  - eapply Forall_impl; [|exact H3]. simpl. lia.
  - intros t Ht. eapply (vouched_mono w); [done|done|auto].
Qed.

Lemma sendBatch_calm o tasks w :
  calm_inv w → calm_inv (sendBatch o tasks w).1 ∧
  ((sendBatch o tasks w).2 = true ∨ inFlight (sendBatch o tasks w).1 = inFlight w ∧
     (sendOk o = true → inFlight w = [])).
Proof.
  intros Hw. unfold sendBatch. case_match; [by split; [|left]|].
  destruct (openStream_calm (openOk o) w Hw) as (Hc & Hi & Hp & Hok).
  destruct (openStream (openOk o) w) as [w1 ok]. simpl in *.
  destruct (wStream w1) as [s|] eqn:Es.
  - destruct (sendOk o); simpl; [|split; [done|by right]]. split; [|by left].
    destruct Hc as [H1 H2 H3 H4]. unfold stream_ok in H1. rewrite Es in H1.
    destruct H1 as (Hlt & Hr & Hra & Hin & Hle).
    apply (startRecv_calm s); simpl; rewrite ?on_app, ?on_one, ?decide_True by done; try done.
    + destruct (recvActive w1); [right; split_and!; try done|by left].
      intros E. by apply app_eq_nil in E as [_ ?].
    + by rewrite drop_app_le, <-Hin.
    + rewrite length_app. lia.
    + apply Forall_app_2; [done|]. by constructor.
    + intros t Ht. eapply (vouched_mono w1); [by apply prefix_app_r|done|auto].
  - split; [done|]. right. split; [done|]. intros _. destruct Hc as [H1 _ _ _].
    unfold stream_ok in H1. rewrite Es in H1. rewrite <-Hi. apply H1.
Qed.

Lemma closeStream_calm w : calm_inv w → inFlight w = [] → calm_inv (closeStream w).
Proof.
  intros [H1 H2 H3 H4] Hi. split; try done. unfold stream_ok in *. simpl. split_and!; try done.
  destruct (wStream w); [|by destruct H1 as (_ & ? & _)]. destruct H1 as (_ & -> & Hra & _).
  destruct (recvActive w); [|done]. by destruct (proj1 Hra eq_refl).
Qed.

Lemma flushPending_calm o w :
  calm_inv w → sendOk o = true ∨ inFlight w = [] → calm_inv (flushPending o w).
Proof.
  intros Hw Hcalm. unfold flushPending. case_match; [done|].
  assert (Hq : calm_inv (setQueue w (wEnqueue w) [])) by by eapply (calm_inv_frame w).
  destruct (sendBatch_calm o (wPending w) _ Hq) as [Hc Hok]. simpl in Hok.
  destruct (sendBatch o _ _) as [w1 ok]. simpl in *. destruct ok; [done|].
  destruct Hok as [?|[Hi Hs]]; [done|].
  assert (inFlight w1 = []) by (rewrite Hi; destruct Hcalm; auto).
  eapply (calm_inv_frame (closeStream w1)); try done; [by apply closeStream_calm|].
  intros t. by apply fail_no_success.
Qed.

(** The batch at the head of the in-flight list is the one the next result is about. *)
Lemma onResult_calm s r w : calm_inv w → s ∈ receivers w → calm_inv (onResult s r w).
Proof.
  intros [H1 H2 H3 H4] Hs. unfold stream_ok in H1.
  destruct (wStream w) as [s'|] eqn:Es; [|destruct H1 as (_ & Hr & _); rewrite Hr in Hs; by apply elem_of_nil in Hs].
  destruct H1 as (Hlt & Hr & Hra & Hin & Hle). rewrite Hr in Hs.
  destruct (recvActive w) eqn:Ea; [|by apply elem_of_nil in Hs]. apply list_elem_of_singleton in Hs as ->.
  unfold onResult. cbn [inFlight takeResult]. destruct (inFlight w) as [|b rest] eqn:Ei.
  { by destruct (proj1 Hra eq_refl). }
  set (k := length (on s' (resultLog w))) in *.
  assert (Hk : on s' (sentLog w) !! k = Some b ∧ drop (S k) (on s' (sentLog w)) = rest).
  { split; [|rewrite <-Nat.add_1_r, <-drop_drop, <-Hin; done].
    rewrite <-(Nat.add_0_r k), <-lookup_drop, <-Hin. done. }
  destruct Hk as [Hk <-]. apply lookup_lt_Some in Hk as Hklt.
  assert (Hres : Forall (λ p, p.1 < nextStream w)%nat (resultLog w ++ [(s', r)]))
    by (apply Forall_app_2; [done|by constructor]).
  assert (Hmono : ∀ t, (t, TOk) ∈ answered w → vouched (takeResult s' r w) t).
  { intros t Ht. eapply (vouched_mono w); [done|by apply prefix_app_r|auto]. }
  assert (Hnr : remove1 s' (receivers w) = []) by (rewrite Hr; simpl; by rewrite decide_True).
  assert (Hlen : length (on s' (resultLog w ++ [(s', r)])) = S k)
    by (rewrite on_app, on_one, decide_True, length_app by done; simpl; unfold k; lia).
  destruct r.
  - rewrite failAll_frame. split; try done; simpl.
    intros t Ht. apply Hmono. by apply fail_no_success, fail_no_success in Ht.
  - apply (startRecv_calm s'); simpl; rewrite ?Hlen; try done; [by left|].
    intros t Ht. apply Hmono. by apply fail_no_success in Ht.
  - apply (startRecv_calm s'); simpl; rewrite ?Hlen; try done; [by left|].
    intros t [Ht|(t' & [= <-] & Ht)%list_elem_of_fmap]%elem_of_app; [by apply Hmono|].
    exists s', k, b. simpl. split_and!; try done.
    rewrite on_app, on_one, decide_True by done. by apply list_lookup_middle.
Qed.

(** Successes are vouched for, and while the loop runs the current stream is in order. *)
Definition calm_state (w : Worker) : Prop :=
  calm_inv w ∨ wStopped w = true ∧ ∀ t, (t, TOk) ∈ answered w → vouched w t.

Lemma worker_step_calm e w w' :
  calm_state w → calm_event w e → worker_step e w = Some w' → calm_state w'.
Proof.
  intros [Hw|[Hst Hv]] Hc Hs.
  - destruct e; simpl in Hs.
    + left. destruct c; simpl in Hs; [case_hyp Hs; [|done]| |case_hyp Hs; [|done]];
        simplify_option_eq; try done. by eapply (calm_inv_frame w).
    + left. simplify_eq. by eapply (calm_inv_frame w).
    + left. case_hyp Hs; [done|]. case_hyp Hs; [done|]. simplify_eq. unfold onTask.
      assert (Hq : calm_inv (setQueue w l (wPending w ++ [r]))) by by eapply (calm_inv_frame w).
      case_match; [|done]. by apply flushPending_calm.
    + left. case_hyp Hs; [done|]. simplify_eq. by apply flushPending_calm.
    + left. case_hyp Hs; [done|]. case_hyp Hs; [|done]. simplify_eq. by apply onResult_calm.
    + right. case_hyp Hs; [done|]. case_hyp Hs; [|done]. simplify_eq. unfold onStop. rewrite failAll_frame.
      simpl. split; [done|]. intros t Ht%fail_no_success; [|done]. by apply (ci_vouched w Hw).
  - right. destruct e; simpl in Hs; rewrite ?Hst in Hs; try done.
    + destruct c; simpl in Hs; [case_hyp Hs; [|done]| |case_hyp Hs; [|done]]; by simplify_option_eq.
    + by simplify_eq.
Qed.

Lemma worker_run_calm evs w w' :
  calm_state w → calm evs w → worker_run evs w = Some w' → calm_state w'.
Proof.
  revert w. induction evs as [|e evs IH]; intros w Hw Hc Hr; simpl in *; [by simplify_eq|].
  destruct Hc as [He Hc]. destruct (worker_step e w) as [w1|] eqn:E; [|done]. simpl in Hr.
  eapply IH; [|exact Hc|exact Hr]. by eapply worker_step_calm.
Qed.

Lemma calm_new : calm_inv newReplicationBatchWorker.
Proof. split; [done|constructor|constructor|]. intros t Ht. by apply elem_of_nil in Ht. Qed.

(** A reported success is the peer's acknowledgement of that very batch.  As long as no
    [Send] fails while batches are in flight, a task is answered with success only if the
    result that came back on its stream in the position of its batch was an acknowledgement
    without error; peers acknowledge the batches of a stream in order. *)
Theorem success_is_acknowledged evs w t :
  calm evs newReplicationBatchWorker → worker_run evs newReplicationBatchWorker = Some w →
  (t, TOk) ∈ answered w → vouched w t.
Proof.
  intros Hc Hr Ht. destruct (worker_run_calm evs newReplicationBatchWorker w) as [Hw|[_ Hv]]; try done.
  - left. apply calm_new.
  - by apply (ci_vouched w Hw).
  - by apply Hv.
Qed.

Definition stale_events (a b c : replicationTask) : list wevent :=
  let ok := mkOuts true true in
  [Submit Queued a; Take ok; Tick ok; Submit Queued b; Take ok; Tick (mkOuts true false);
   Submit Queued c; Take ok; Tick ok; Result 1 AckGood].

Definition stale_worker (a b c : replicationTask) : Worker :=
  mkWorker [] false false (Some 1%nat) true [] [[c]] [0; 1]%nat 2 [(b, TSendErr); (a, TOk)]
    [(0%nat, [a]); (1%nat, [c])] [(1%nat, AckGood)].

(** A failed [Send] breaks the correspondence.  It closes the stream but leaves older
    batches in flight, and results carry no stream: an acknowledgement from the next
    stream is credited to the oldest batch in flight, which is reported as replicated
    although its own stream never answered. *)
Theorem stale_batch_credited (a b c : replicationTask) :
  a ≠ c →
  ∃ evs w, worker_run evs newReplicationBatchWorker = Some w ∧ accepted evs = [a; b; c] ∧
    (a, TOk) ∈ answered w ∧ ¬ vouched w a.
Proof.
  intros Hac. exists (stale_events a b c), (stale_worker a b c).
  split; [vm_compute; reflexivity|]. split; [reflexivity|].
  split; [apply elem_of_cons; right; apply elem_of_cons; by left|].
  intros (s & k & batch & Hs & Ht & Hr). cbn [sentLog resultLog stale_worker] in Hs, Hr.
  rewrite on_one in Hr. case_decide as E; [|done]. subst s.
  change (on 1 _) with [[c]] in Hs. destruct k as [|k]; [|done]. cbn in Hs. simplify_eq.
  by apply list_elem_of_singleton in Ht.
Qed.

(** ** Witnesses *)

Definition ex_task (k : string) (ch : nat) : replicationTask := mkTask (mkRepl Op_PUT k [] 3 7) ch.
Definition ex_wevents : list wevent :=
  [Submit Queued (ex_task "a" 0); Submit Queued (ex_task "b" 1); Take (mkOuts true true);
   Tick (mkOuts true true); Result 0 AckGood; Stop; SeeStop].

Definition ex_worker : Worker :=
  mkWorker [ex_task "b" 1] true true None false [] [] [] 1 [(ex_task "a" 0, TOk)]
    [(0%nat, [ex_task "a" 0])] [(0%nat, AckGood)].

Lemma ex_worker_run : worker_run ex_wevents newReplicationBatchWorker = Some ex_worker.
Proof. vm_compute. reflexivity. Qed.

Lemma tasks_answered_once_witness : accepted ex_wevents ≡ₚ (answered ex_worker).*1 ++ wEnqueue ex_worker.
Proof. apply (tasks_answered_once ex_wevents ex_worker ex_worker_run). reflexivity. Defined.

Lemma success_is_acknowledged_witness : vouched ex_worker (ex_task "a" 0).
Proof.
  apply (success_is_acknowledged ex_wevents); [|exact ex_worker_run|left].
  vm_compute. auto 20.
Defined.

Lemma stale_batch_credited_witness :
  ∃ evs w, worker_run evs newReplicationBatchWorker = Some w ∧
    accepted evs = [ex_task "a" 0; ex_task "b" 1; ex_task "c" 2] ∧
    (ex_task "a" 0, TOk) ∈ answered w ∧ ¬ vouched w (ex_task "a" 0).
Proof. apply (stale_batch_credited (ex_task "a" 0) (ex_task "b" 1) (ex_task "c" 2)). discriminate. Defined.
