(* ===== verification/Replication.v ===== *)
(** * A replication worker and its peer

    The batching worker of a node ([src/cluster/replication_batch.go]) and the stream handler
    of the peer it sends to ([ReplicateStream], [src/core/rpc.go]) run concurrently, connected
    by streams that deliver batches and acknowledgements in order.  The peer also serves
    others.  Here both are composed, which shows what the worker's answer to a task means for
    the store of the peer. *)

From S2P Require Import Prelude Store StoreSpec WalCodec WalWriter EventLoop Durability Server ServerProofs BatchWorker.
From Stdlib.Strings Require Import Byte.

(** ** One batch on the peer *)

(** The message [Send] is given. *)
Definition wireBatch (b : list replicationTask) : option (list (option ReplicationRequest)) :=
  Some (Some <$> (tReq <$> b)).

(** One iteration of [ReplicateStream]: apply the batch, then acknowledge it. *)
Definition streamOne (e : Env) (srv : Server) (b : option (list (option ReplicationRequest))) : Server * BatchAck :=
  let applied := match b with Some items => u32 (len items) | None => 0 end in
  let selects := match b with Some items => (2 * length items)%nat | None => 0%nat end in
  let '(srv, err) := applyReplicationBatch e selects srv b in
  (srv, mkBatchAck applied (bool_decide (is_Some err))).

(** The handler is the iteration of [streamOne] up to the first error. *)
Lemma ReplicateStream_iterates e srv b bs :
  ReplicateStream e srv (b :: bs) =
  let '(srv, ack) := streamOne e srv b in
  if AckError ack then (srv, [ack], inr Internal)
  else let '(srv, acks, r) := ReplicateStream e srv bs in (srv, ack :: acks, r).
Proof. cbn [ReplicateStream]. unfold streamOne. destruct (applyReplicationBatch _ _ _ _) as [srv' [err|]]; reflexivity. Qed.

(** ** The link *)

Record Link := mkLink {
  lWorker : Worker;
  lPeer : Server;
  lAcks : list (nat * BatchAck)        (* acknowledgements the peer has sent, by stream *)
}.

(** A versioned write, as every task of [ReplicateToAll] with a version is. *)
Definition versioned (r : ReplicationRequest) : Prop :=
  (reOp r = Op_PUT ∨ reOp r = Op_DELETE) ∧ reVersion r ≠ 0.

(** A result reaches the worker only after the peer has sent it; a stream may break at any
    time. *)
Definition deliverable (l : Link) (e : wevent) : Prop :=
  match e with
  | Submit Queued t => versioned (tReq t)
  | Result s AckGood =>
      ∃ a, on s (lAcks l) !! length (on s (resultLog (lWorker l))) = Some a ∧ AckError a = false
  | Result s AckBad =>
      ∃ a, on s (lAcks l) !! length (on s (resultLog (lWorker l))) = Some a ∧ AckError a = true
  | _ => True
  end.

Inductive link_step : Link → Link → Prop :=
  | link_worker l e w' :
      deliverable l e → calm_event (lWorker l) e → worker_step e (lWorker l) = Some w' →
      link_step l (mkLink w' (lPeer l) (lAcks l))
  | link_batch l s b e srv' ack :
      on s (sentLog (lWorker l)) !! length (on s (lAcks l)) = Some b →
      Forall (λ a, AckError a = false) (on s (lAcks l)) →
      streamOne e (lPeer l) (wireBatch b) = (srv', ack) →
      link_step l (mkLink (lWorker l) srv' (lAcks l ++ [(s, ack)]))
  | link_other l c ctr :
      Version c ≠ 0 →
      link_step l (mkLink (lWorker l) (mkServer (Apply (srvStore (lPeer l)) c).1 ctr) (lAcks l)).

(** ** Logs of the worker *)

Lemma openStream_logs o w : sentLog (openStream o w).1 = sentLog w ∧ resultLog (openStream o w).1 = resultLog w.
Proof. unfold openStream. by repeat case_match. Qed.

Lemma startRecv_logs w : sentLog (startRecv w) = sentLog w ∧ resultLog (startRecv w) = resultLog w.
Proof. unfold startRecv. by repeat case_match. Qed.

Lemma flushPending_logs o w :
  resultLog (flushPending o w) = resultLog w ∧
  (sentLog (flushPending o w) = sentLog w ∨ ∃ s, sentLog (flushPending o w) = sentLog w ++ [(s, wPending w)]).
Proof.
  unfold flushPending. destruct (length (wPending w) =? 0)%nat eqn:El; [by auto|]. unfold sendBatch. rewrite El.
  set (w0 := setQueue w (wEnqueue w) []). destruct (openStream_logs (openOk o) w0) as [Hs Hr].
  destruct (openStream (openOk o) w0) as [w1 ok]. cbn [fst] in Hs, Hr.
  destruct (wStream w1) as [s|]; [destruct (sendOk o)|]; cbn beta iota.
  - destruct (startRecv_logs (recordSent s (wPending w) w1)) as [-> ->]. simpl. rewrite Hs, Hr. split; [done|]. right. by exists s.
  - simpl. rewrite Hs, Hr. auto.
  - simpl. rewrite Hs, Hr. auto.
Qed.

(** Where the tasks of a worker are. *)
Definition tasks_good (w : Worker) : Prop :=
  Forall (λ t, versioned (tReq t)) (wEnqueue w ++ wPending w) ∧
  Forall (λ p, Forall (λ t, versioned (tReq t)) p.2) (sentLog w).

Lemma flush_good o w : tasks_good w → tasks_good (flushPending o w).
Proof.
  intros [Hq Hs]. apply Forall_app in Hq as [Hq Hp]. destruct (flushPending_data o w) as (_ & Eq & Ep & _).
  destruct (flushPending_logs o w) as [_ Hlog]. split; [rewrite Eq, Ep; by rewrite app_nil_r|].
  destruct Hlog as [-> |[s ->]]; [done|]. apply Forall_app_2; [done|]. by constructor.
Qed.

Lemma onResult_logs s r w :
  sentLog (onResult s r w) = sentLog w ∧ resultLog (onResult s r w) = resultLog w ++ [(s, r)] ∧
  wEnqueue (onResult s r w) = wEnqueue w ∧ (wPending (onResult s r w) = wPending w ∨ wPending (onResult s r w) = []).
Proof.
  unfold onResult. cbn [inFlight takeResult]. destruct (inFlight w); [by auto|].
  destruct r; [rewrite failAll_frame; by auto|..];
  match goal with |- context [startRecv ?x] =>
    destruct (startRecv_logs x) as [-> ->], (startRecv_data x) as (-> & -> & _) end; by auto.
Qed.

Lemma worker_step_logs l e w' :
  deliverable l e → tasks_good (lWorker l) → worker_step e (lWorker l) = Some w' →
  tasks_good w' ∧ sentLog (lWorker l) `prefix_of` sentLog w' ∧
  resultLog w' = resultLog (lWorker l) ++ (match e with Result s r => [(s, r)] | _ => [] end).
Proof.
  set (w := lWorker l). intros Hd Hg Hs. pose proof Hg as [Hq Hsent]. apply Forall_app in Hq as [Hq Hp].
  destruct e as [[] t| |o|o|s r|]; cbn [worker_step deliverable] in Hs, Hd; rewrite ?app_nil_r.
  - cbn in Hs. case_hyp Hs; [|done]. simplify_option_eq. split_and!; [|done|done].
    split; [|done]. simpl. rewrite <-app_assoc. apply Forall_app_2; [done|]. by constructor.
  - cbn in Hs. by simplify_eq.
  - cbn in Hs. case_hyp Hs; by simplify_option_eq.
  - by simplify_eq.
  - case_hyp Hs; [done|]. case_hyp Hs; [done|]. simplify_eq. unfold onTask. set (w1 := setQueue w _ _).
    assert (Hg1 : tasks_good w1).
    { split; [|done]. simpl. apply Forall_cons_iff in Hq as [? ?]. rewrite app_assoc.
      apply Forall_app_2; [by apply Forall_app_2|]. by constructor. }
    case_match; [|by split_and!]. destruct (flushPending_logs o w1) as [-> Hl].
    split_and!; [by apply flush_good| |done]. destruct Hl as [-> |[s ->]]; [done|by eexists].
  - case_hyp Hs; [done|]. simplify_eq. destruct (flushPending_logs o w) as [-> Hl].
    split_and!; [by apply flush_good| |done]. destruct Hl as [-> |[s ->]]; [done|by eexists].
  - case_hyp Hs; [done|]. case_hyp Hs; [|done]. simplify_eq. destruct (onResult_logs s r w) as (E1 & -> & E3 & E4).
    split_and!; [|by rewrite E1|done]. unfold tasks_good. rewrite E1, E3. split; [|done].
    destruct E4 as [-> | ->]; apply Forall_app_2; done || constructor.
  - case_hyp Hs; [done|]. case_hyp Hs; [|done]. simplify_eq. unfold onStop. rewrite failAll_frame. simpl.
    split_and!; try done. split; [|done]. simpl. by rewrite app_nil_r.
Qed.

(** ** Stores only gain versions *)

(** A versioned write or delete. *)
Definition writes (c : Command) : Prop := (Op c = OpPut ∨ Op c = OpDelete) ∧ Version c ≠ 0.

Lemma lww_writes_version a c : writes c → Version c <= lww_version (lww_apply a c) (Key c).
Proof.
  intros [Ho Hv]. rewrite lww_apply_versioned by done. unfold cmd_cell.
  destruct Ho as [-> | ->]; cbn; destruct (Version c <? _) eqn:E; bool_to_prop; try lia;
    rewrite lww_version_insert, decide_True by done; simpl; lia.
Qed.

Lemma lww_grows a l k : Forall (λ c, Version c ≠ 0) l → lww_version a k <= lww_version (foldl lww_apply a l) k.
Proof.
  intros Hl. revert a. induction Hl as [|c l Hv _ IH]; intros a; simpl; [lia|].
  etrans; [|apply IH]. apply lww_apply_version_mono. by left.
Qed.

Lemma lww_applied a l c :
  Forall writes l → c ∈ l → Version c <= lww_version (foldl lww_apply a l) (Key c).
Proof.
  intros Hl Hc. revert a. induction Hl as [|c' l Hw Hl IH]; intros a; [by apply elem_of_nil in Hc|].
  simpl. apply elem_of_cons in Hc as [->|Hc]; [|by apply IH].
  etrans; [by apply (lww_writes_version a)|]. apply lww_grows. eapply Forall_impl; [|exact Hl]. by intros x [_ ?].
Qed.

(** The version a node holds of a key. *)
Definition held (srv : Server) (k : string) : Z := lww_version (abs (srvStore srv)) k.

(** The command a request of a batch becomes. *)
Definition reqCmd (r : ReplicationRequest) : Command :=
  mkCommand (itemOp (reOp r)) (reKey r) (reValue r) (u16 (reVnodeId r)) (reVersion r).

Lemma batch_reqCmds rs : batchCmds (Some (Some <$> rs)) = reqCmd <$> rs.
Proof.
  unfold batchCmds, pendingReqs.
  assert (E : omap id (Some <$> rs) = rs) by (induction rs; simpl; by f_equal).
  rewrite E. apply list_eq. intros i. rewrite !list_lookup_fmap, list_lookup_imap. by destruct (rs !! i).
Qed.

Lemma reqCmd_writes r : versioned r → writes (reqCmd r).
Proof. intros [Ho Hv]. split; [|done]. simpl. destruct Ho as [-> | ->]; by auto. Qed.

Definition taskCmd (t : replicationTask) : Command := reqCmd (tReq t).

Lemma wireBatch_cmds b : batchCmds (wireBatch b) = taskCmd <$> b.
Proof.
  unfold wireBatch. rewrite batch_reqCmds, <-list_fmap_compose. done.
Qed.

Lemma streamOne_store e srv b srv' ack :
  streamOne e srv (wireBatch b) = (srv', ack) →
  abs (srvStore srv') = foldl lww_apply (abs (srvStore srv)) (taskCmd <$> b).
Proof.
  intros Hs. pose proof (applyReplicationBatch_all e srv (wireBatch b)) as Ha. unfold streamOne in Hs.
  destruct (applyReplicationBatch _ _ _ _) as [srv1 err]. simplify_eq. cbn [fst] in Ha.
  by rewrite Ha, apply_all_abs, wireBatch_cmds.
Qed.

(** ** The invariant *)

Record link_inv (l : Link) : Prop := {
  li_calm : calm_state (lWorker l);
  li_good : tasks_good (lWorker l);
  li_len : ∀ s, (length (on s (lAcks l)) <= length (on s (sentLog (lWorker l))))%nat;
  li_results : ∀ s k, on s (resultLog (lWorker l)) !! k = Some AckGood → is_Some (on s (lAcks l) !! k);
  li_applied : ∀ s k b t, (k < length (on s (lAcks l)))%nat → on s (sentLog (lWorker l)) !! k = Some b →
    t ∈ b → reVersion (tReq t) <= held (lPeer l) (reKey (tReq t))
}.

Lemma on_prefix {A} s (l1 l2 : list (nat * A)) : l1 `prefix_of` l2 → on s l1 `prefix_of` on s l2.
Proof. intros [l ->]. rewrite on_app. by eexists. Qed.

Lemma sent_good w s k b t :
  tasks_good w → on s (sentLog w) !! k = Some b → t ∈ b → versioned (tReq t).
Proof.
  intros [_ Hs] Hk Ht. unfold on in Hk. apply list_elem_of_lookup_2, list_elem_of_fmap in Hk as ([s' b'] & -> & Hin).
  apply list_elem_of_filter in Hin as [_ Hin]. by apply (proj1 (list.Forall_forall _ _) (proj1 (list.Forall_forall _ _) Hs _ Hin)).
Qed.

Lemma link_step_inv l l' : link_inv l → link_step l l' → link_inv l'.
Proof.
  intros Hi Hs. pose proof Hi as [H1 H2 H3 H4 H5]. destruct Hs as [l e w' Hd Hc Hw|l s b e srv' ack Hb Hg Hso|l c ctr Hv].
  - destruct (worker_step_logs l e w' Hd H2 Hw) as (Hg & Hp & Hr). split; cbn [lWorker lPeer lAcks].
    + by eapply worker_step_calm.
    + done.
    + intros s. etrans; [apply H3|]. by apply prefix_length, on_prefix.
    + intros s k Hk. rewrite Hr, on_app in Hk. apply lookup_app_Some in Hk as [Hk|[Hle Hk]]; [by eapply H4|].
      destruct e as [| | | |s' r|]; try (change (on s []) with (@nil recvResult) in Hk; by rewrite lookup_nil in Hk). rewrite on_one in Hk.
      case_decide as E; [|by rewrite lookup_nil in Hk]. subst s'.
      apply list_lookup_singleton_Some in Hk as [Hk ->]. cbn in Hd. destruct Hd as (a & Ha & _).
      replace k with (length (on s (resultLog (lWorker l)))) by lia. by exists a.
    + intros s k b t Hk Hb. apply (H5 s k b t Hk).
      apply (on_prefix s) in Hp as [rest Hp]. rewrite Hp in Hb. specialize (H3 s).
      by rewrite lookup_app_l in Hb by lia.
  - apply streamOne_store in Hso. assert (Hall : ∀ t, t ∈ b → versioned (tReq t)) by (intros; by eapply sent_good).
    assert (Hcmds : Forall writes (taskCmd <$> b)).
    { apply Forall_fmap, list.Forall_forall. intros t Ht. by apply reqCmd_writes, Hall. }
    assert (Hvers : Forall (λ c, Version c ≠ 0) (taskCmd <$> b)) by (eapply Forall_impl; [|exact Hcmds]; by intros ? [_ ?]).
    apply lookup_lt_Some in Hb as Hlt.
    split; cbn [lWorker lPeer lAcks]; try done.
    + intros s'. rewrite on_app, on_one, length_app. specialize (H3 s'). case_decide; subst; simpl; lia.
    + intros s' k Hk. rewrite on_app. destruct (H4 s' k Hk) as [a Ha]. exists a. by apply lookup_app_l_Some.
    + intros s' k b' t Hk Hb' Ht. unfold held. rewrite Hso. rewrite on_app, on_one, length_app in Hk.
      destruct (decide (k < length (on s' (lAcks l)))%nat) as [Hk'|Hk'].
      { etrans; [by apply (H5 s' k b' t)|]. by apply lww_grows. }
      case_decide as E; simpl in Hk; [subst s'|lia]. replace k with (length (on s (lAcks l))) in Hb' by lia.
      rewrite Hb in Hb'. simplify_eq. apply (lww_applied _ _ (taskCmd t)); [done|by apply list_elem_of_fmap_2].
  - split; try done. intros s k b t Hk Hb Ht. etrans; [by apply (H5 s k b t)|]. cbn [lPeer].
    unfold held. cbn [srvStore]. rewrite Apply_abs. apply lww_apply_version_mono. by left.
Qed.


(** ** Witness *)

Definition ex_start : Link := mkLink newReplicationBatchWorker ex_replica [].
Definition ok_outs : Outs := mkOuts true true.

(** The link after a worker event, and after the peer has handled a batch. *)
Definition workerDid (e : wevent) (l : Link) : Link :=
  mkLink (default (lWorker l) (worker_step e (lWorker l))) (lPeer l) (lAcks l).
Definition peerDid (s : nat) (b : list replicationTask) (l : Link) : Link :=
  let '(srv, ack) := streamOne ex_env (lPeer l) (wireBatch b) in mkLink (lWorker l) srv (lAcks l ++ [(s, ack)]).

Lemma workerDid_step e l :
  deliverable l e → calm_event (lWorker l) e → is_Some (worker_step e (lWorker l)) → link_step l (workerDid e l).
Proof. intros Hd Hc [w Hw]. unfold workerDid. rewrite Hw. by apply link_worker with e. Qed.

Lemma peerDid_step s b l :
  on s (sentLog (lWorker l)) !! length (on s (lAcks l)) = Some b →
  Forall (λ a, AckError a = false) (on s (lAcks l)) → link_step l (peerDid s b l).
Proof.
  intros Hb Hf. unfold peerDid. destruct (streamOne ex_env (lPeer l) (wireBatch b)) as [srv ack] eqn:E.
  by apply link_batch with b ex_env.
Qed.

Definition ex_sent : Link :=
  workerDid (Tick ok_outs) (workerDid (Take ok_outs) (workerDid (Submit Queued (ex_task "a" 0)) ex_start)).
Definition ex_linked : Link := workerDid (Result 0 AckGood) (peerDid 0 [ex_task "a" 0] ex_sent).

Lemma ex_linked_reach : rtc link_step ex_start ex_linked.
Proof.
  eapply rtc_l; [apply (workerDid_step (Submit Queued (ex_task "a" 0))); [split; [by left|done]|done|vm_compute; by eexists]|].
  eapply rtc_l; [apply (workerDid_step (Take ok_outs)); [done|by left|vm_compute; by eexists]|].
  eapply rtc_l; [apply (workerDid_step (Tick ok_outs)); [done|by left|vm_compute; by eexists]|].
  eapply rtc_l; [apply (peerDid_step 0 [ex_task "a" 0]); vm_compute; [reflexivity|constructor]|].
  eapply rtc_l; [apply (workerDid_step (Result 0 AckGood)); [vm_compute; by eexists|done|vm_compute; by eexists]|].
  apply rtc_refl.
Qed.

Lemma ex_linked_answer : answered (lWorker ex_linked) = [(ex_task "a" 0, TOk)].
Proof. vm_compute. reflexivity. Qed.

