(* ===== verification/Cluster.v ===== *)
(** * A cluster serving writes

    The nodes of a cluster with a common placement, composed: coordinators run the first half
    of [Put] and [Delete] ([src/core/rpc.go]), replication requests reach the targets in
    batches of any composition, targets report back, [ReplicateToAll]
    ([src/cluster/replication.go]) decides, and nodes crash and recover by replaying their logs.
    Any of this interleaves.  Placement changes are not part of this composition (see [Migration],
    [Handover]). *)

From S2P Require Import Prelude Store StoreSpec WalCodec WalWriter EventLoop Durability Placement.
From S2P Require Import AssignProofs Server ServerProofs Quorum WritePath BatchWorker Replication.
From Stdlib.Strings Require Import Byte.

(** ** The first half of a write *)

Section start.
Context `{Server.Replicator}.

(** [Put] and [Delete] up to the replication call: ownership, version, local write. *)
Definition startWrite (del : bool) (e : Env) (srv : Server) (key : string) (value : list byte)
    : Server * (ReplicationRequest + Code) :=
  let '(isOwner, _, _) := Server.CheckOwnership key in
  if negb isOwner then (srv, inr FailedPrecondition)
  else
    let vnodeID := Server.GetVNodeForKey key in
    let '(srv, version) := NextVersion (now e) srv in
    let value := if del then [] else value in
    let '(srv, resp) := sendRequest e srv
      (mkRequest (if del then OpDelete else OpPut) key value vnodeID version 0) in
    match pErr resp with
    | Some _ => (srv, inr Internal)
    | None => (srv, inl (mkRepl (if del then Op_DELETE else Op_PUT) key value vnodeID version))
    end.

(** The handlers are this, followed by replication. *)
Lemma Put_starts e srv key value :
  Put e srv key value =
  let '(srv', started) := startWrite false e srv key value in
  match started with
  | inr c => (srv', inr c, [])
  | inl call =>
      match Server.ReplicateToAll Op_PUT key value (reVnodeId call) (reVersion call) with
      | Some _ => (srv', inr Internal, [call])
      | None => (srv', inl tt, [call])
      end
  end.
Proof.
  unfold Put, startWrite. destruct (Server.CheckOwnership key) as [[[] rep] owner]; [|done]. cbn [negb NextVersion].
  destruct (sendRequest e _ _) as [srv1 resp]. destruct (pErr resp); [done|]. cbn [reVnodeId reVersion]. by case_match.
Qed.

Lemma Delete_starts e srv key :
  Delete e srv key =
  let '(srv', started) := startWrite true e srv key [] in
  match started with
  | inr c => (srv', inr c, [])
  | inl call =>
      match Server.ReplicateToAll Op_DELETE key [] (reVnodeId call) (reVersion call) with
      | Some _ => (srv', inr Internal, [call])
      | None => (srv', inl tt, [call])
      end
  end.
Proof.
  unfold Delete, startWrite. destruct (Server.CheckOwnership key) as [[[] rep] owner]; [|done]. cbn [negb NextVersion].
  destruct (sendRequest e _ _) as [srv1 resp]. destruct (pErr resp); [done|]. cbn [reVnodeId reVersion]. by case_match.
Qed.

(** What the first half does to the store of the coordinator. *)
Lemma startWrite_store del e srv key value srv' started :
  startWrite del e srv key value = (srv', started) →
  let c := mkCommand (if del then OpDelete else OpPut) key (if del then [] else value) (Server.GetVNodeForKey key)
             (candidate (versionCounter srv) (now e)) in
  (srvStore srv' = srvStore srv ∨ srvStore srv' = (Apply (srvStore srv) c).1) ∧
  (∀ call, started = inl call →
     (Server.CheckOwnership key).1.1 = true ∧ srvStore srv' = (Apply (srvStore srv) c).1 ∧
     reKey call = key ∧ reVersion call = Version c ∧ (reOp call = Op_PUT ∨ reOp call = Op_DELETE)).
Proof.
  intros Hs c. unfold startWrite in Hs. destruct (Server.CheckOwnership key) as [[own rep] owner]. cbn [fst].
  destruct own; [|cbn in Hs; simplify_eq; split; [by left|done]]. cbn [negb NextVersion] in Hs.
  destruct (sendRequest e _ _) as [srv1 resp] eqn:Es.
  apply sendRequest_write in Es as [_ Hst]; [|destruct del; by auto].
  assert (Hcmd : srvStore srv1 = srvStore srv ∨ srvStore srv1 = (Apply (srvStore srv) c).1).
  { destruct Hst as [Hst|[Hst _]]; [right|left]; exact Hst. }
  destruct (pErr resp) as [err|] eqn:Ep; simplify_eq; (split; [exact Hcmd|]); [done|].
  intros call [= <-]. cbn. split_and!; try done; [|by destruct del; auto].
  destruct Hst as [Hst|[_ Hst]]; [exact Hst|done].
Qed.

(** The write as it is logged, and as it is sent to the replicas. *)
Definition startCmd (del : bool) (e : Env) (srv : Server) (key : string) (value : list byte) : Command :=
  mkCommand (if del then OpDelete else OpPut) key (if del then [] else value) (Server.GetVNodeForKey key)
    (candidate (versionCounter srv) (now e)).
Definition startReq (del : bool) (e : Env) (srv : Server) (key : string) (value : list byte) : ReplicationRequest :=
  mkRepl (if del then Op_DELETE else Op_PUT) key (if del then [] else value) (Server.GetVNodeForKey key)
    (candidate (versionCounter srv) (now e)).

(** A refused write changes nothing; any other one has logged its command or not, and has when it
    goes on to replication. *)
Lemma startWrite_logged del e srv key value srv' started :
  startWrite del e srv key value = (srv', started) →
  (started = inr FailedPrecondition ∧ srv' = srv) ∨
  (Server.CheckOwnership key).1.1 = true ∧
  (∃ logged, logged `prefix_of` [startCmd del e srv key value] ∧ srvStore srv' = apply_all (srvStore srv) logged) ∧
  (∀ call, started = inl call →
     call = startReq del e srv key value ∧ srvStore srv' = apply_all (srvStore srv) [startCmd del e srv key value]).
Proof.
  intros Hs. pose proof (startWrite_store _ _ _ _ _ _ _ Hs) as [Hst Hacc]. unfold startWrite in Hs.
  destruct (Server.CheckOwnership key) as [[own rep] owner]. cbn [fst] in *.
  destruct own; [right|left; cbn in Hs; by simplify_eq]. split; [done|]. split.
  - destruct Hst as [Hst|Hst]; [exists []|exists [startCmd del e srv key value]; split; [done|exact Hst]].
    split; [apply prefix_nil|done].
  - intros call ->. destruct (Hacc call eq_refl) as (_ & Hst' & _). split; [|exact Hst'].
    cbn [negb NextVersion] in Hs. destruct (sendRequest e _ _) as [srv1 resp]. destruct (pErr resp); by simplify_eq.
Qed.
End start.

Lemma Apply_grows srv c srv' :
  Version c ≠ 0 → srvStore srv' = (Apply (srvStore srv) c).1 → ∀ k, held srv k <= held srv' k.
Proof. intros Hv Hs k. unfold held. rewrite Hs, Apply_abs. apply lww_apply_version_mono. by left. Qed.

(** ** The cluster *)

(** A node and the commands its log holds. *)
Record LoggedNode := mkLNode { nSrv : Server; nLog : list Command }.

(** A write whose first half is done: its coordinator, the replication request and the
    reports received so far. *)
Record Write := mkWrite { wrNode : string; wrCall : ReplicationRequest; wrEvs : list QEvent }.

Record Cluster := mkCluster {
  cNodes : gmap string LoggedNode;
  cStarted : list ReplicationRequest;             (* writes that passed the ownership check *)
  cSent : list (string * ReplicationRequest);     (* replication requests, by target *)
  cDurable : list (string * ReplicationRequest);  (* acknowledged by a node *)
  cPending : list Write;
  cAcked : list Write                             (* answered with success *)
}.

(** The log record of a request. *)
Definition says (x : Command) (r : ReplicationRequest) : Prop :=
  Key x = reKey r ∧ Version x = reVersion r ∧ cmd_cell x = cmd_cell (reqCmd r).

Section cluster.
Context (Sum64String : string → Z).
Context (p : Placement) (rf members : Z) (leads : string → option bool).

(** What node [n] knows: the common placement, also after a forced update. *)
Definition nodeRepl (n : string) : ReplState := mkRepl_ n rf (Some members) (Some p) (leads n).

Definition replicatorOf (n : string) : Server.Replicator :=
  quorumReplicator Sum64String (nodeRepl n) (Some p) (λ _, []).

Definition targets (n key : string) : list string := targetsFor Sum64String (nodeRepl n) (Some p) key.

Definition verdict (w : Write) : option QResult :=
  Quorum.ReplicateToAll Sum64String (nodeRepl (wrNode w)) (Some p) (reKey (wrCall w)) (wrEvs w).

Definition addReport (w : Write) (ev : QEvent) : Write := mkWrite (wrNode w) (wrCall w) (wrEvs w ++ [ev]).

(** [logged] is what the event loop received and logged of a request; that there is such a list is
    shown by [startWrite_logged] and [batch_logged].  A refused write is not a step. *)
Inductive cluster_step : Cluster → Cluster → Prop :=
  | c_start c n nd del e key value srv' call :
      cNodes c !! n = Some nd →
      startWrite (H := replicatorOf n) del e (nSrv nd) key value = (srv', inl call) → reVersion call ≠ 0 →
      cluster_step c (mkCluster
        (<[n := mkLNode srv' (nLog nd ++ [startCmd (H := replicatorOf n) del e (nSrv nd) key value])]> (cNodes c))
        (cStarted c ++ [call]) (cSent c ++ ((λ t, (t, call)) <$> targets n key))
        (cDurable c ++ [(n, call)]) (cPending c ++ [mkWrite n call []]) (cAcked c))
  | c_start_fails c n nd del e key value srv' code logged :
      cNodes c !! n = Some nd →
      startWrite (H := replicatorOf n) del e (nSrv nd) key value = (srv', inr code) → code ≠ FailedPrecondition →
      logged `prefix_of` [startCmd (H := replicatorOf n) del e (nSrv nd) key value] →
      srvStore srv' = apply_all (srvStore (nSrv nd)) logged →
      candidate (versionCounter (nSrv nd)) (now e) ≠ 0 →
      cluster_step c (mkCluster (<[n := mkLNode srv' (nLog nd ++ logged)]> (cNodes c))
        (cStarted c ++ [startReq (H := replicatorOf n) del e (nSrv nd) key value])
        (cSent c) (cDurable c) (cPending c) (cAcked c))
  | c_batch c t nd rs e selects srv' err logged :
      cNodes c !! t = Some nd → Forall (λ r, (t, r) ∈ cSent c) rs →
      applyReplicationBatch e selects (nSrv nd) (Some (Some <$> rs)) = (srv', err) →
      logged `prefix_of` (reqCmd <$> rs) → srvStore srv' = apply_all (srvStore (nSrv nd)) logged →
      (err = None → logged = reqCmd <$> rs) →
      cluster_step c (mkCluster (<[t := mkLNode srv' (nLog nd ++ logged)]> (cNodes c)) (cStarted c) (cSent c)
        (cDurable c ++ (if err is None then (λ r, (t, r)) <$> rs else [])) (cPending c) (cAcked c))
  | c_report c pre w post t ok :
      cPending c = pre ++ w :: post → t ∈ targets (wrNode w) (reKey (wrCall w)) → t ∉ reporters (wrEvs w) →
      (ok = true → (t, wrCall w) ∈ cDurable c) →
      cluster_step c (mkCluster (cNodes c) (cStarted c) (cSent c) (cDurable c) (pre ++ addReport w (Report t ok) :: post) (cAcked c))
  | c_cancel c pre w post :
      cPending c = pre ++ w :: post →
      cluster_step c (mkCluster (cNodes c) (cStarted c) (cSent c) (cDurable c) (pre ++ addReport w CtxDoneEv :: post) (cAcked c))
  | c_finish c pre w post v :
      cPending c = pre ++ w :: post → verdict w = Some v →
      cluster_step c (mkCluster (cNodes c) (cStarted c) (cSent c) (cDurable c) (pre ++ post)
        (cAcked c ++ (match v with QOk | QLocalOnly => [w] | _ => [] end)))
  | c_restart c n nd log :
      (* the crash leaves a prefix of the log with every acknowledged write ([Durability]); the store
         is its replay and the version counter starts over ([Startup]) *)
      cNodes c !! n = Some nd → log `prefix_of` nLog nd →
      (∀ r, (n, r) ∈ cDurable c → ∃ x, x ∈ log ∧ says x r) →
      cluster_step c (mkCluster (<[n := mkLNode (mkServer (apply_all NewStore log) 0) log]> (cNodes c))
        (cStarted c) (cSent c) (cDurable c) (cPending c) (cAcked c)).

(** Nodes that have just started on the logs of an earlier life. *)
Definition fresh (logs : gmap string (list Command)) : Cluster :=
  mkCluster ((λ log, mkLNode (mkServer (apply_all NewStore log) 0) log) <$> logs) [] [] [] [] [].

Lemma batch_logged e selects srv rs srv' err :
  applyReplicationBatch e selects srv (Some (Some <$> rs)) = (srv', err) →
  ∃ logged, logged `prefix_of` (reqCmd <$> rs) ∧ srvStore srv' = apply_all (srvStore srv) logged ∧
    (err = None → logged = reqCmd <$> rs).
Proof.
  intros Hb. destruct (batch_applies_in_order e selects srv (Some (Some <$> rs))) as (n & Hs & Hall).
  rewrite Hb, batch_reqCmds in Hs, Hall. cbn [fst snd] in Hs, Hall.
  exists (take n (reqCmd <$> rs)). split; [apply prefix_take|]. split; [done|]. intros Herr. apply take_ge. by apply Hall.
Qed.

(** ** Invariant *)

Section invariant.
Context (logs : gmap string (list Command)).

(** Every record of a log is that of a started write or was there at the start. *)
Definition known (c : Cluster) (x : Command) : Prop :=
  (∃ n log, logs !! n = Some log ∧ x ∈ log) ∨ ∃ r, r ∈ cStarted c ∧ says x r.

Record node_ok (c : Cluster) (nd : LoggedNode) : Prop := {
  no_replay : srvStore (nSrv nd) = apply_all NewStore (nLog nd);
  no_writes : Forall writes (nLog nd);
  no_known : ∀ x, x ∈ nLog nd → known c x
}.

Definition holds (c : Cluster) (n : string) (r : ReplicationRequest) : Prop :=
  ∃ nd, cNodes c !! n = Some nd ∧ reVersion r <= held (nSrv nd) (reKey r).

(** Node [n] has the request in its log. *)
Definition has_logged (c : Cluster) (n : string) (r : ReplicationRequest) : Prop :=
  ∃ nd x, cNodes c !! n = Some nd ∧ x ∈ nLog nd ∧ says x r.

Record write_ok (c : Cluster) (w : Write) : Prop := {
  wo_local : (wrNode w, wrCall w) ∈ cDurable c;
  wo_owner : ∃ rep owner, Quorum.CheckOwnership Sum64String (nodeRepl (wrNode w)) (reKey (wrCall w)) = Some (true, rep, owner);
  wo_nodup : NoDup (reporters (wrEvs w));
  wo_targets : reporters (wrEvs w) ⊆ targets (wrNode w) (reKey (wrCall w));
  wo_acks : ∀ t, t ∈ okReports (wrEvs w) → (t, wrCall w) ∈ cDurable c
}.

Record cluster_inv (c : Cluster) : Prop := {
  cl_nodes : ∀ n nd, cNodes c !! n = Some nd → node_ok c nd;
  cl_durable : ∀ n r, (n, r) ∈ cDurable c → has_logged c n r;
  cl_sent : ∀ n r, (n, r) ∈ cSent c → versioned r ∧ r ∈ cStarted c;
  cl_writes : Forall (write_ok c) (cPending c ++ cAcked c);
  cl_acked : Forall (λ w, verdict w = Some QOk) (cAcked c)
}.

Lemma node_ok_mono c c' nd : (∀ r, r ∈ cStarted c → r ∈ cStarted c') → node_ok c nd → node_ok c' nd.
Proof.
  intros Hm [H1 H2 H3]. split; [done|done|]. intros x Hx. destruct (H3 x Hx) as [Hk|(r & Hr & Hs)]; [by left|right].
  exists r. auto.
Qed.

(** What a node has logged it holds. *)
Lemma logged_holds c n r : cluster_inv c → has_logged c n r → holds c n r.
Proof.
  intros Hi (nd & x & Hn & Hx & Hk & Hv & _). exists nd. split; [done|].
  destruct (cl_nodes c Hi n nd Hn) as [Hrep Hw _]. unfold held. rewrite Hrep, apply_all_abs, <-Hk, <-Hv.
  by apply lww_applied.
Qed.

Lemma write_ok_mono c c' w : (∀ x, x ∈ cDurable c → x ∈ cDurable c') → write_ok c w → write_ok c' w.
Proof. intros Hd [H1 H2 H3 H4 H5]. split; auto. Qed.

Lemma reporters_app l1 l2 : reporters (l1 ++ l2) = reporters l1 ++ reporters l2.
Proof. induction l1 as [|[t ok|] l1 IH]; simpl; by rewrite ?IH. Qed.
Lemma okReports_app l1 l2 : okReports (l1 ++ l2) = okReports l1 ++ okReports l2.
Proof. induction l1 as [|[t []|] l1 IH]; simpl; by rewrite ?IH. Qed.

Lemma addReport_ok c w t ok :
  write_ok c w → t ∈ targets (wrNode w) (reKey (wrCall w)) → t ∉ reporters (wrEvs w) →
  (ok = true → (t, wrCall w) ∈ cDurable c) → write_ok c (addReport w (Report t ok)).
Proof.
  intros [H1 H2 H3 H4 H5] Ht Hn Hok. split; try done; cbn [wrEvs wrNode wrCall addReport].
  - rewrite reporters_app. apply list.NoDup_app. split_and!; [done| |by apply NoDup_singleton].
    intros x Hx Hx'%list_elem_of_singleton. by subst.
  - rewrite reporters_app. intros x [Hx|Hx%list_elem_of_singleton]%elem_of_app; [by apply H4|by subst].
  - rewrite okReports_app. intros x [Hx|Hx]%elem_of_app; [by apply H5|].
    destruct ok; [|by apply elem_of_nil in Hx]. apply list_elem_of_singleton in Hx as ->. by apply Hok.
Qed.

Lemma addCancel_ok c w : write_ok c w → write_ok c (addReport w CtxDoneEv).
Proof.
  intros [H1 H2 H3 H4 H5]. split; try done; cbn [wrEvs wrNode wrCall addReport].
  all: rewrite ?reporters_app, ?okReports_app; by rewrite app_nil_r.
Qed.

(** ** Steps *)

Lemma start_says (H : Server.Replicator) del e srv key value :
  says (startCmd del e srv key value) (startReq del e srv key value).
Proof. split_and!; [done..|]. by destruct del. Qed.

Lemma start_writes (H : Server.Replicator) del e srv key value :
  candidate (versionCounter srv) (now e) ≠ 0 → writes (startCmd del e srv key value).
Proof. intros Hv. split; [|done]. destruct del; by auto. Qed.

(** A node logs some commands; the lists only grow. *)
Lemma cluster_inv_log c c' n nd srv' logged moreDurable :
  cluster_inv c → cNodes c !! n = Some nd →
  srvStore srv' = apply_all (srvStore (nSrv nd)) logged → Forall writes logged → (∀ x, x ∈ logged → known c' x) →
  cNodes c' = <[n := mkLNode srv' (nLog nd ++ logged)]> (cNodes c) →
  (∀ r, r ∈ cStarted c → r ∈ cStarted c') →
  (∀ m r, (m, r) ∈ cSent c' → (m, r) ∈ cSent c ∨ versioned r ∧ r ∈ cStarted c') →
  cDurable c' = cDurable c ++ moreDurable → (∀ m r, (m, r) ∈ moreDurable → m = n ∧ ∃ x, x ∈ logged ∧ says x r) →
  Forall (write_ok c') (cPending c' ++ cAcked c') → cAcked c' = cAcked c → cluster_inv c'.
Proof.
  intros Hi Hn Hst Hw Hk En Hstd Hsent Ed Hmore Hwr Ea. split.
  - intros m nd' Hm. rewrite En in Hm. apply lookup_insert_Some in Hm as [[<- <-]|[Hne Hm]].
    + destruct (cl_nodes c Hi n nd Hn) as [H1 H2 H3]. split; cbn.
      * by rewrite Hst, H1, apply_all_app.
      * by apply Forall_app_2.
      * intros x [Hx|Hx]%elem_of_app; [|by apply Hk]. destruct (H3 x Hx) as [?|(r & Hr & Hs)]; [by left|right].
        exists r. auto.
    + eapply node_ok_mono; [exact Hstd|]. by eapply (cl_nodes c Hi).
  - intros m r. rewrite Ed. unfold has_logged. rewrite En. intros [Hr|Hr]%elem_of_app.
    + destruct (cl_durable c Hi m r Hr) as (nd' & x & Hm & Hx & Hs). destruct (decide (n = m)) as [<-|Hne].
      * rewrite lookup_insert_eq. eexists _, x. split; [done|]. rewrite Hn in Hm. injection Hm as <-. cbn. set_solver.
      * rewrite lookup_insert_ne by done. by exists nd', x.
    + destruct (Hmore m r Hr) as (-> & x & Hx & Hs). rewrite lookup_insert_eq. eexists _, x. split; [done|].
      cbn. set_solver.
  - intros m r Hr. destruct (Hsent m r Hr) as [Hr'|Hr']; [|done]. destruct (cl_sent c Hi m r Hr'). auto.
  - done.
  - rewrite Ea. apply (cl_acked c Hi).
Qed.

Lemma writes_mono c c' l : (∀ x, x ∈ cDurable c → x ∈ cDurable c') → Forall (write_ok c) l → Forall (write_ok c') l.
Proof. intros Hd Hl. eapply Forall_impl; [|exact Hl]. intros w. by apply write_ok_mono. Qed.

(** Replacing one pending write. *)
Lemma cluster_inv_pending c pre w w' post :
  cluster_inv c → cPending c = pre ++ w :: post → (write_ok c w → write_ok c w') →
  cluster_inv (mkCluster (cNodes c) (cStarted c) (cSent c) (cDurable c) (pre ++ w' :: post) (cAcked c)).
Proof.
  intros [H0 H1 H2 H3 H4] Hp Hw. split; try done; cbn [cPending cAcked cNodes].
  - intros n nd Hn. eapply (node_ok_mono c); [done|by eapply H0].
  - rewrite Hp in H3. apply (writes_mono c); [done|].
    apply Forall_app in H3 as [H3 H5]. apply Forall_app in H3 as [H3 H6]. apply Forall_cons_iff in H6 as [H6 H7].
    repeat apply Forall_app_2; auto.
Qed.

Lemma cluster_start_inv c n nd del e key value srv' call :
  cluster_inv c → cNodes c !! n = Some nd →
  startWrite (H := replicatorOf n) del e (nSrv nd) key value = (srv', inl call) → reVersion call ≠ 0 →
  cluster_inv (mkCluster
    (<[n := mkLNode srv' (nLog nd ++ [startCmd (H := replicatorOf n) del e (nSrv nd) key value])]> (cNodes c))
    (cStarted c ++ [call]) (cSent c ++ ((λ t, (t, call)) <$> targets n key))
    (cDurable c ++ [(n, call)]) (cPending c ++ [mkWrite n call []]) (cAcked c)).
Proof.
  intros Hi Hn Hs Hv. pose proof (startWrite_logged _ _ _ _ _ _ _ Hs) as [[? _]|(Ho & _ & Hacc)]; [done|].
  destruct (Hacc call eq_refl) as [Hcall Hst]. set (cmd := startCmd del e (nSrv nd) key value) in *.
  assert (Hsays : says cmd call) by (rewrite Hcall; apply start_says).
  assert (Hver : versioned call) by (split; [rewrite Hcall; destruct del; by auto|done]).
  assert (Hkey : reKey call = key) by (by rewrite Hcall).
  assert (Hown : ∃ rep owner, Quorum.CheckOwnership Sum64String (nodeRepl n) key = Some (true, rep, owner)).
  { change (@Server.CheckOwnership (replicatorOf n) key)
      with (default (false, false, ""%string) (Quorum.CheckOwnership Sum64String (nodeRepl n) key)) in Ho.
    destruct (Quorum.CheckOwnership Sum64String (nodeRepl n) key) as [[[[] rep] owner]|]; try done. eauto. }
  set (c' := mkCluster _ _ _ _ _ _). assert (Hd : ∀ x, x ∈ cDurable c → x ∈ cDurable c') by (cbn; set_solver).
  apply (cluster_inv_log c c' n nd srv' [cmd] [(n, call)]); try done; cbn [cStarted cSent cPending cAcked c'].
  - apply Forall_singleton. apply start_writes. by rewrite Hcall in Hv.
  - intros x ->%list_elem_of_singleton. right. exists call. cbn. set_solver.
  - set_solver.
  - intros m r [Hr|(t & [= -> ->] & _)%list_elem_of_fmap]%elem_of_app; [by left|right]. split; [done|set_solver].
  - intros m r [= -> ->]%list_elem_of_singleton. split; [done|]. exists cmd. split; [set_solver|done].
  - pose proof (cl_writes c Hi) as [H1 H2]%Forall_app. apply Forall_app_2; [apply Forall_app_2|]; [by eapply writes_mono| |by eapply writes_mono].
    apply Forall_singleton. split; cbn [wrEvs wrNode wrCall]; [cbn; set_solver|by rewrite Hkey|constructor
      |by intros x ?%elem_of_nil|by intros t ?%elem_of_nil].
Qed.

Lemma cluster_fail_inv c n nd del e key value srv' logged :
  cluster_inv c → cNodes c !! n = Some nd →
  logged `prefix_of` [startCmd (H := replicatorOf n) del e (nSrv nd) key value] →
  srvStore srv' = apply_all (srvStore (nSrv nd)) logged → candidate (versionCounter (nSrv nd)) (now e) ≠ 0 →
  cluster_inv (mkCluster (<[n := mkLNode srv' (nLog nd ++ logged)]> (cNodes c))
    (cStarted c ++ [startReq (H := replicatorOf n) del e (nSrv nd) key value])
    (cSent c) (cDurable c) (cPending c) (cAcked c)).
Proof.
  intros Hi Hn Hp Hst Hv. set (c' := mkCluster _ _ _ _ _ _).
  assert (Hlog : ∀ x, x ∈ logged → x = startCmd (H := replicatorOf n) del e (nSrv nd) key value).
  { intros x Hx. apply list_elem_of_singleton. destruct Hp as [l ->]. set_solver. }
  apply (cluster_inv_log c c' n nd srv' logged []); try done; cbn [cStarted cSent cPending cAcked c'].
  - apply list.Forall_forall. intros x ->%Hlog. by apply start_writes.
  - intros x ->%Hlog. right. exists (startReq (H := replicatorOf n) del e (nSrv nd) key value). split; [cbn; set_solver|apply start_says].
  - set_solver.
  - by left.
  - by rewrite app_nil_r.
  - by intros m r ?%elem_of_nil.
  - eapply writes_mono; [|apply (cl_writes c Hi)]. done.
Qed.

Lemma cluster_batch_inv c t nd rs srv' (err : option RespErr) logged :
  cluster_inv c → cNodes c !! t = Some nd → Forall (λ r, (t, r) ∈ cSent c) rs →
  logged `prefix_of` (reqCmd <$> rs) → srvStore srv' = apply_all (srvStore (nSrv nd)) logged →
  (err = None → logged = reqCmd <$> rs) →
  cluster_inv (mkCluster (<[t := mkLNode srv' (nLog nd ++ logged)]> (cNodes c)) (cStarted c) (cSent c)
    (cDurable c ++ (if err is None then (λ r, (t, r)) <$> rs else [])) (cPending c) (cAcked c)).
Proof.
  intros Hi Hn Hrs Hp Hst Hall. set (c' := mkCluster _ _ _ _ _ _).
  assert (Hlog : ∀ x, x ∈ logged → ∃ r, x = reqCmd r ∧ versioned r ∧ r ∈ cStarted c).
  { intros x Hx. assert (Hx' : x ∈ reqCmd <$> rs) by (destruct Hp as [l ->]; set_solver).
    apply list_elem_of_fmap in Hx' as (r & -> & Hr). exists r. split; [done|]. apply (cl_sent c Hi t).
    by apply (proj1 (list.Forall_forall _ _) Hrs). }
  eapply (cluster_inv_log c c' t nd srv' logged); try done; cbn [cStarted cSent cPending cAcked c'].
  - apply list.Forall_forall. intros x (r & -> & Hv & _)%Hlog. by apply reqCmd_writes.
  - intros x (r & -> & _ & Hr)%Hlog. right. by exists r.
  - by left.
  - intros m r Hr. destruct err; [by apply elem_of_nil in Hr|]. apply list_elem_of_fmap in Hr as (r' & [= -> ->] & Hr).
    split; [done|]. exists (reqCmd r'). rewrite (Hall eq_refl). split; [by apply list_elem_of_fmap_2|done].
  - eapply writes_mono; [|apply (cl_writes c Hi)]. cbn. set_solver.
Qed.

Lemma cluster_finish_inv c pre w post v :
  cluster_inv c → cPending c = pre ++ w :: post → verdict w = Some v →
  cluster_inv (mkCluster (cNodes c) (cStarted c) (cSent c) (cDurable c) (pre ++ post)
    (cAcked c ++ (match v with QOk | QLocalOnly => [w] | _ => [] end))).
Proof.
  intros [H0 H1 H2 H3 H4] Hp Hv. rewrite Hp in H3. apply Forall_app in H3 as [H3 H5].
  apply Forall_app in H3 as [H3 H6]. apply Forall_cons_iff in H6 as [H6 H7].
  assert (Hv' : v = QOk ∨ v = QLocalOnly → verdict w = Some QOk).
  { intros [-> | ->]; [done|]. by apply not_local_only in Hv. }
  split; try done; cbn [cPending cAcked cNodes].
  - intros n nd Hn. eapply (node_ok_mono c); [done|by eapply H0].
  - apply (writes_mono c); [done|]. repeat apply Forall_app_2; try done. destruct v; repeat constructor; apply H6.
  - apply Forall_app_2; [done|]. destruct v; repeat constructor; apply Hv'; by auto.
Qed.

Lemma cluster_restart_inv c n nd log :
  cluster_inv c → cNodes c !! n = Some nd → log `prefix_of` nLog nd →
  (∀ r, (n, r) ∈ cDurable c → ∃ x, x ∈ log ∧ says x r) →
  cluster_inv (mkCluster (<[n := mkLNode (mkServer (apply_all NewStore log) 0) log]> (cNodes c))
    (cStarted c) (cSent c) (cDurable c) (cPending c) (cAcked c)).
Proof.
  intros Hi Hn [rest Hlog] Hrec. pose proof Hi as [H0 H1 H2 H3 H4].
  split; try done; cbn [cNodes cDurable cPending cAcked].
  - intros m nd' [[<- <-]|[Hne Hm]]%lookup_insert_Some; [|eapply (node_ok_mono c); [done|by eapply H0]].
    destruct (H0 n nd Hn) as [_ Hw Hk]. rewrite Hlog in Hw, Hk. apply Forall_app in Hw as [Hw _].
    split; [done|done|]. intros x Hx. apply Hk. cbn in Hx. set_solver.
  - intros m r Hr. unfold has_logged. cbn. destruct (decide (n = m)) as [->|Hne].
    + rewrite lookup_insert_eq. destruct (Hrec r Hr) as (x & Hx & Hs). by eexists _, x.
    + rewrite lookup_insert_ne by done. by apply H1.
  - by apply (writes_mono c).
Qed.

Lemma cluster_step_inv c c' : cluster_inv c → cluster_step c c' → cluster_inv c'.
Proof.
  intros Hi Hs. destruct Hs as [c n nd del e key value srv' call Hn Hst Hv
    |c n nd del e key value srv' code logged Hn Hst Hcode Hp Hlog Hv|c t nd rs e sel srv' err logged Hn Hrs Hb Hp Hlog Hall
    |c pre w post t ok Hp Ht Hn Hok|c pre w post Hp|c pre w post v Hp Hv|c n nd log Hn Hp Hrec].
  - by eapply cluster_start_inv.
  - by apply cluster_fail_inv.
  - by apply cluster_batch_inv.
  - eapply cluster_inv_pending; [done|exact Hp|]. intros Hw. by apply addReport_ok.
  - eapply cluster_inv_pending; [done|exact Hp|]. apply addCancel_ok.
  - by eapply cluster_finish_inv.
  - by eapply cluster_restart_inv.
Qed.

Lemma fresh_inv : (∀ n log, logs !! n = Some log → Forall writes log) → cluster_inv (fresh logs).
Proof.
  intros Hw. split; cbn; [|by intros ?? ?%elem_of_nil..|constructor|constructor].
  intros n nd. rewrite lookup_fmap. intros (log & Hlog & ->)%fmap_Some. split; cbn; [done|by eapply Hw|].
  intros x Hx. left. eauto.
Qed.

Lemma reach_inv c :
  (∀ n log, logs !! n = Some log → Forall writes log) → rtc cluster_step (fresh logs) c → cluster_inv c.
Proof. intros Hw Hr. eapply rtc_preserves; [exact cluster_step_inv|by apply fresh_inv|exact Hr]. Qed.
End invariant.

(** ** Acknowledged writes *)

(** The nodes that have a copy of a key's vnode. *)
Definition copies (key : string) : gset string :=
  match GetNodesForKey Sum64String p key with
  | Some (owner, replicas) => {[owner]} ∪ list_to_set replicas
  | None => ∅
  end.

Lemma resolveTargets_copies n key : resolveTargets Sum64String n (Some p) key ⊆ elements (copies key).
Proof.
  unfold resolveTargets, copies. case_match; [set_solver|].
  destruct (GetNodesForKey Sum64String p key) as [[owner replicas]|]; [|set_solver].
  intros x Hx. destruct (dedup_spec Sum64String [] n replicas) as [_ Hd]. apply Hd in Hx as (_ & _ & _ & Hx).
  apply elem_of_elements. set_solver.
Qed.

Lemma targets_copies n key : targets n key ⊆ elements (copies key).
Proof.
  unfold targets, targetsFor. cbn [rID placement nodeRepl].
  destruct (resolveTargets Sum64String n (Some p) key) eqn:E; [|rewrite <-E; apply resolveTargets_copies].
  destruct (leader _) as [[]|]; set_solver.
Qed.

(** The copies of an acknowledged write: its coordinator and the targets that acknowledged. *)
Definition holdersOf (w : Write) : gset string := holders (nodeRepl (wrNode w)) (wrEvs w).

Lemma holders_copies c w : write_ok c w → holdersOf w ⊆ copies (reKey (wrCall w)).
Proof.
  intros [_ (rep & owner & Ho) _ Ht _]. unfold holdersOf, holders. cbn [rID nodeRepl]. apply union_subseteq. split.
  - unfold Quorum.CheckOwnership in Ho. cbn [placement nodeRepl rID] in Ho. unfold copies.
    destruct (GetNodesForKey Sum64String p (reKey (wrCall w))) as [[ow reps]|]; [|done]. cbn in Ho.
    injection Ho as Hb _ _. apply bool_decide_eq_true in Hb. set_solver.
  - intros x Hx%elem_of_list_to_set. apply elem_of_elements, (targets_copies (wrNode w)), Ht.
    eapply elem_of_sublist; [exact Hx|apply okReports_reporters].
Qed.

Lemma holders_hold logs c w n : cluster_inv logs c → write_ok c w → n ∈ holdersOf w → holds c n (wrCall w).
Proof.
  intros Hi Hw Hn. apply (logged_holds logs c n _ Hi), (cl_durable logs c Hi). unfold holdersOf, holders in Hn.
  cbn [rID nodeRepl] in Hn.
  apply elem_of_union in Hn as [->%elem_of_singleton|Hn%elem_of_list_to_set]; [by apply wo_local|by apply (wo_acks c)].
Qed.

(** Two majorities of the copies meet. *)
Lemma majorities_meet (A B U : gset string) (n : Z) :
  A ⊆ U → B ⊆ U → Z.of_nat (size U) <= n → n < 2 * Z.of_nat (size A) → n < 2 * Z.of_nat (size B) →
  ∃ x, x ∈ A ∧ x ∈ B.
Proof.
  intros HA HB HU H1 H2. destruct (decide (A ∩ B = ∅)) as [E|E].
  - assert (Hd : A ## B) by set_solver. pose proof (size_union A B Hd). assert (HAB : A ∪ B ⊆ U) by set_solver.
    apply subseteq_size in HAB. lia.
  - apply set_choose_L in E as [x Hx]. exists x. set_solver.
Qed.

(** An answered write is held by a majority of the effective replication factor. *)
Lemma acked_majority logs c w :
  0 < members → cluster_inv logs c → w ∈ cAcked c →
  holdersOf w ⊆ copies (reKey (wrCall w)) ∧ effectiveRF rf members < 2 * Z.of_nat (size (holdersOf w)) ∧
  ∀ n, n ∈ holdersOf w → holds c n (wrCall w).
Proof.
  intros Hm Hi Hw. assert (Hok : write_ok c w).
  { pose proof (cl_writes logs c Hi) as Hf. apply Forall_app in Hf as [_ Hf]. by apply (proj1 (list.Forall_forall _ _) Hf). }
  split; [by eapply holders_copies|]. split; [|intros n; by eapply holders_hold].
  pose proof (proj1 (list.Forall_forall _ _) (cl_acked logs c Hi) w Hw) as Hv. cbn beta in Hv.
  pose proof (success_holders Sum64String (nodeRepl (wrNode w)) (Some p) (reKey (wrCall w)) (wrEvs w) members
    eq_refl Hm (wo_nodup c w Hok) (wo_targets c w Hok) Hv) as Hs. cbn [ReplicationFactor nodeRepl] in Hs.
  pose proof (majority rf members). unfold holdersOf. lia.
Qed.


(** ** Where values come from *)

(** A cell of a replayed log was put there by one of its records. *)
Lemma lww_origin a l k x :
  Forall writes l → foldl lww_apply a l !! k = Some x → a !! k = Some x ∨ ∃ c, c ∈ l ∧ Key c = k ∧ cmd_cell c = Some x.
Proof.
  intros Hl. revert a. induction Hl as [|c l [Ho Hv] Hl IH]; intros a; simpl; [by left|].
  intros [Ha|(c' & Hc & Hk & Hx)]%IH; [|right; exists c'; set_solver].
  rewrite lww_apply_versioned in Ha by done. destruct (cmd_cell c) as [y|] eqn:Ey; [|by left].
  destruct (Version c <? _); [by left|]. apply lookup_insert_Some in Ha as [[<- <-]|[_ Ha]]; [|by left].
  right. exists c. set_solver.
Qed.

Lemma node_origin logs c nd k x :
  node_ok logs c nd → abs (srvStore (nSrv nd)) !! k = Some x → ∃ y, known logs c y ∧ Key y = k ∧ cmd_cell y = Some x.
Proof.
  intros [Hrep Hw Hk]. rewrite Hrep, apply_all_abs. intros [H0|(y & Hy & Hyk & Hyx)]%lww_origin; [|eauto|done].
  exfalso. change (abs NewStore) with (∅ : gmap string cell) in H0. by rewrite lookup_empty in H0.
Qed.

(** The put that wrote a value: by a client of the cluster, or logged before. *)
Definition written (logs : gmap string (list Command)) (c : Cluster) (key : string) (val : list byte) (ver : Z) : Prop :=
  (∃ r, r ∈ cStarted c ∧ reOp r = Op_PUT ∧ reKey r = key ∧ reValue r = val ∧ reVersion r = ver) ∨
  (∃ n log x, logs !! n = Some log ∧ x ∈ log ∧ Op x = OpPut ∧ Key x = key ∧ Value x = val ∧ Version x = ver).

Lemma cmd_cell_put x ver val : cmd_cell x = Some (ver, Some val) → Op x = OpPut ∧ Version x = ver ∧ Value x = val.
Proof. unfold cmd_cell. destruct (Op x =? OpPut) eqn:E; bool_to_prop; [|destruct (_ =? _)]; intros [= <- <-]; auto. Qed.

Lemma known_written logs c y key val ver :
  known logs c y → Key y = key → cmd_cell y = Some (ver, Some val) → written logs c key val ver.
Proof.
  intros [(n & log & Hl & Hy)|(r & Hr & Hk & Hv & Hc)] Hkey Hcell.
  - right. apply cmd_cell_put in Hcell as (? & ? & ?). by exists n, log, y.
  - left. exists r. rewrite Hc in Hcell. apply cmd_cell_put in Hcell as (Ho & Hver & Hval). cbn in *.
    split_and!; try done; [by destruct (reOp r)|congruence].
Qed.

Lemma node_reads logs c nd e key m val ver :
  node_ok logs c nd → (Server.Get e (nSrv nd) key m).2 = inl (val, ver) →
  abs (srvStore (nSrv nd)) !! key = Some (ver, Some val) ∧ written logs c key val ver.
Proof.
  intros Hn Hg. assert (Hd : data_ok (srvStore (nSrv nd))).
  { rewrite (no_replay _ _ _ Hn). apply apply_all_data_ok, NewStore_data_ok. }
  destruct (get_serves_lww e (nSrv nd) key m Hd) as [_ Hl]. rewrite Hg in Hl. destruct Hl as [Hl _].
  unfold lww_get in Hl. destruct (abs (srvStore (nSrv nd)) !! key) as [[ver' [val'|]]|] eqn:Ea; simplify_eq.
  split; [done|]. destruct (node_origin logs c nd key (ver, Some val) Hn Ea) as (y & Hy & Hyk & Hyx).
  by eapply known_written.
Qed.

(** C19: reads return written values.  In every state the cluster reaches, whatever a node answers to a
    [Get] was the value of a [Put] of that key under exactly the answered version: of a client of the
    cluster, or from the log a node started with.  Replication, partial batches, failed writes and
    recovery never make up a value or attach one to another version. *)
Theorem reads_return_written_values logs c n nd e key m val ver :
  (∀ n log, logs !! n = Some log → Forall writes log) → rtc cluster_step (fresh logs) c →
  cNodes c !! n = Some nd → (Server.Get e (nSrv nd) key m).2 = inl (val, ver) → written logs c key val ver.
Proof.
  intros Hlogs Hr Hn Hg. pose proof (reach_inv logs c Hlogs Hr) as Hi.
  by apply (node_reads logs c nd e key m val ver (cl_nodes logs c Hi n nd Hn) Hg).
Qed.
End cluster.

(** ** Witness *)

Definition ex_leads (n : string) : option bool := None.
Definition ex_logs : gmap string (list Command) := {["n1"%string := []; "n2"%string := []; "n3"%string := []]}.
Definition ex_booted : Server := mkServer NewStore 0.

(** [n1] writes [k], [n2] applies it and reports, and the write is answered. *)
Definition ex_first : Server * (ReplicationRequest + Code) :=
  startWrite (H := replicatorOf ex_hash ex_ring 3 3 ex_leads "n1") false ex_env ex_booted "k" [x41].
Definition ex_kcall : ReplicationRequest :=
  match ex_first.2 with inl call => call | inr _ => mkRepl Op_GET "" [] 0 0 end.
Definition ex_second : Server * option RespErr := applyReplicationBatch ex_env 2 ex_booted (Some (Some <$> [ex_kcall])).
Definition ex_kwrite : Write := mkWrite "n1" ex_kcall [Report "n2" true].

Definition ex_kcmd : Command :=
  startCmd (H := replicatorOf ex_hash ex_ring 3 3 ex_leads "n1") false ex_env ex_booted "k" [x41].

Definition ex_c1 : Cluster :=
  mkCluster (<["n1"%string := mkLNode ex_first.1 ([] ++ [ex_kcmd])]> (cNodes (fresh ex_logs))) ([] ++ [ex_kcall])
    ([] ++ ((λ t, (t, ex_kcall)) <$> targets ex_hash ex_ring 3 3 ex_leads "n1" "k"))
    ([] ++ [("n1"%string, ex_kcall)]) ([] ++ [mkWrite "n1" ex_kcall []]) [].
Definition ex_c2 : Cluster :=
  mkCluster (<["n2"%string := mkLNode ex_second.1 ([] ++ [reqCmd ex_kcall])]> (cNodes ex_c1)) (cStarted ex_c1) (cSent ex_c1)
    (cDurable ex_c1 ++ [("n2"%string, ex_kcall)]) (cPending ex_c1) (cAcked ex_c1).
Definition ex_c4 : Cluster :=
  mkCluster (cNodes ex_c2) (cStarted ex_c2) (cSent ex_c2) (cDurable ex_c2) [] (cAcked ex_c2 ++ [ex_kwrite]).

Lemma ex_first_eq : ex_first = (ex_first.1, inl ex_kcall) ∧ reVersion ex_kcall ≠ 0 ∧ reKey ex_kcall = "k"%string.
Proof. split; [vm_compute; reflexivity|]. split; vm_compute; [discriminate|reflexivity]. Qed.
Lemma ex_second_ok : ex_second = (ex_second.1, None) ∧ srvStore ex_second.1 = apply_all NewStore [reqCmd ex_kcall].
Proof. vm_compute. split; reflexivity. Qed.
Lemma ex_targets : targets ex_hash ex_ring 3 3 ex_leads "n1" "k" = ["n2"; "n3"]%string.
Proof. vm_compute. reflexivity. Qed.
Lemma ex_verdict : verdict ex_hash ex_ring 3 3 ex_leads ex_kwrite = Some QOk.
Proof. vm_compute. reflexivity. Qed.

Lemma ex_cluster_reach : rtc (cluster_step ex_hash ex_ring 3 3 ex_leads) (fresh ex_logs) ex_c4.
Proof.
  destruct ex_first_eq as (Hf & Hv & Hk).
  eapply rtc_l.
  { apply (c_start _ _ _ _ _ (fresh ex_logs) "n1" (mkLNode ex_booted []) false ex_env "k" [x41] ex_first.1 ex_kcall);
      [reflexivity|exact Hf|exact Hv]. }
  change (mkCluster _ _ _ _ _ _) with ex_c1. destruct ex_second_ok as [Hs1 Hs2].
  eapply rtc_l.
  { apply (c_batch _ _ _ _ _ ex_c1 "n2" (mkLNode ex_booted []) [ex_kcall] ex_env 2 ex_second.1 None [reqCmd ex_kcall]).
    - cbn [cNodes ex_c1]. rewrite lookup_insert_ne by done. reflexivity.
    - constructor; [|constructor]. cbn [cSent ex_c1]. rewrite ex_targets. left.
    - exact Hs1.
    - done.
    - exact Hs2.
    - done. }
  change (mkCluster _ _ _ _ _ _) with ex_c2.
  eapply rtc_l.
  { apply (c_report _ _ _ _ _ ex_c2 [] (mkWrite "n1" ex_kcall []) [] "n2" true); [reflexivity| |by intros ?%elem_of_nil|].
    - cbn [wrNode wrCall]. rewrite Hk, ex_targets. left.
    - intros _. cbn [cDurable ex_c2 wrCall]. apply elem_of_app. right. by apply list_elem_of_singleton. }
  apply rtc_once. apply (c_finish _ _ _ _ _ (mkCluster (cNodes ex_c2) (cStarted ex_c2) (cSent ex_c2) (cDurable ex_c2) ([] ++ [ex_kwrite]) (cAcked ex_c2)) [] ex_kwrite [] QOk);
    [reflexivity|exact ex_verdict].
Qed.

Lemma ex_logs_writes n log : ex_logs !! n = Some log → Forall writes log.
Proof.
  intros Hl. assert (log = []) as ->; [|constructor]. unfold ex_logs in Hl.
  apply lookup_insert_Some in Hl as [[_ ?]|[_ Hl]]; [done|]. apply lookup_insert_Some in Hl as [[_ ?]|[_ Hl]]; [done|].
  by apply lookup_singleton_Some in Hl as [_ ?].
Qed.


Lemma ex_read : (Server.Get ex_env ex_second.1 "k" 0).2 = inl ([x41], reVersion ex_kcall).
Proof. vm_compute. reflexivity. Qed.

Lemma reads_return_written_values_witness :
  written ex_logs ex_c4 "k" [x41] (reVersion ex_kcall).
Proof.
  refine (reads_return_written_values ex_hash ex_ring 3 3 ex_leads ex_logs ex_c4 "n2" (mkLNode ex_second.1 ([] ++ [reqCmd ex_kcall]))
    ex_env "k" 0 [x41] (reVersion ex_kcall) ex_logs_writes ex_cluster_reach _ ex_read).
  cbn [ex_c4 ex_c2 cNodes]. apply lookup_insert_eq.
Defined.
