(* ===== verification/Handover.v ===== *)
(** * Moving a vnode while writes arrive ([src/cluster/replication.go], [src/core/rpc.go])

    A placement change moves a vnode from its primary [a] to a new primary [b].  Both learn of the
    change at their own time; until then they answer for the placement they have.  The new primary
    opens a transfer stream to the old one and applies its entries one by one, while both nodes keep
    serving writes; the old primary erases its copy some time after it has learned of the change.
    All of this interleaves, with writes and replication requests at both nodes.

    Two orders decide whether accepted writes survive: the snapshot must be taken after the old
    primary stopped accepting writes, and the copy must be erased after the transfer.  Runs that keep
    both lose nothing ([fenced_handover_keeps_writes]); the code enforces neither, and a run without
    them can lose an acknowledged write ([unfenced_handover_loses_write]) or transfer an empty vnode
    ([erased_source_transfers_nothing]). *)

From Stdlib.Strings Require Import Byte.
From S2P Require Import Prelude Store StoreSpec WalCodec WalWriter EventLoop Durability Placement AssignProofs.
From S2P Require Import Server ServerProofs Quorum WritePath Migration BatchWorker Replication Cluster.

Section handover.
Context (Sum64String : string → Z) (oldP newP : Placement) (rf members : Z) (a b : string) (v epoch : Z).

(** What a node answers from before and after it installed the new placement. *)
Definition placementAt (switched : bool) : Placement := if switched then newP else oldP.
Definition replAt (n : string) (switched : bool) : Server.Replicator :=
  quorumReplicator Sum64String (mkRepl_ n rf (Some members) (Some (placementAt switched)) None)
    (Some (placementAt switched)) (λ _, []).

Record Handover := mkHandover {
  hA : Server;
  hB : Server;
  hAsw : bool;                                   (* [a] has installed the new placement *)
  hBsw : bool;
  hStream : option (list VNodeTransferResp);     (* responses not yet received *)
  hDone : bool;                                  (* [transferVNodeFrom] returned success *)
  hAccepted : list ReplicationRequest            (* writes whose local half succeeded *)
}.

Definition acceptedBy (started : ReplicationRequest + Code) : list ReplicationRequest :=
  match started with inl call => [call] | inr _ => [] end.

(** The steps of the two nodes for the vnode.  [ho_step false] are the steps of the code;
    [ho_step true] restricts them to runs that keep the two orders. *)
Inductive ho_step (fenced : bool) : Handover → Handover → Prop :=
  | ho_writeA st del e key value srv' started :
      startWrite (H := replAt a (hAsw st)) del e (hA st) key value = (srv', started) →
      0 < candidate (versionCounter (hA st)) (now e) →
      ho_step fenced st (mkHandover srv' (hB st) (hAsw st) (hBsw st) (hStream st) (hDone st) (hAccepted st ++ acceptedBy started))
  | ho_writeB st del e key value srv' started :
      startWrite (H := replAt b (hBsw st)) del e (hB st) key value = (srv', started) →
      0 < candidate (versionCounter (hB st)) (now e) →
      ho_step fenced st (mkHandover (hA st) srv' (hAsw st) (hBsw st) (hStream st) (hDone st) (hAccepted st ++ acceptedBy started))
  | ho_replicateA st e req srv' res :
      Replicate (H := replAt a (hAsw st)) e (hA st) req = (srv', res) →
      reVnodeId req = vnodeIndex Sum64String (reKey req) → 0 < reVersion req →
      ho_step fenced st (mkHandover srv' (hB st) (hAsw st) (hBsw st) (hStream st) (hDone st) (hAccepted st))
  | ho_replicateB st e req srv' res :
      Replicate (H := replAt b (hBsw st)) e (hB st) req = (srv', res) →
      reVnodeId req = vnodeIndex Sum64String (reKey req) → 0 < reVersion req →
      ho_step fenced st (mkHandover (hA st) srv' (hAsw st) (hBsw st) (hStream st) (hDone st) (hAccepted st))
  | ho_switchA st :
      ho_step fenced st (mkHandover (hA st) (hB st) true (hBsw st) (hStream st) (hDone st) (hAccepted st))
  | ho_switchB st :
      ho_step fenced st (mkHandover (hA st) (hB st) (hAsw st) true (hStream st) (hDone st) (hAccepted st))
  | ho_open st :
      hBsw st = true → hDone st = false → hStream st = None → (fenced = true → hAsw st = true) →
      ho_step fenced st (mkHandover (hA st) (hB st) (hAsw st) (hBsw st)
        (Some (TransferVNode (srvStore (hA st)) v epoch)) (hDone st) (hAccepted st))
  | ho_entry st r rs e srv' :
      hStream st = Some (r :: rs) → trError r = ""%string → trEmptyEntries r = false →
      transferApplier e (hB st) (transferCommand r) = (srv', true) →
      ho_step fenced st (mkHandover (hA st) srv' (hAsw st) (hBsw st) (Some rs) (hDone st) (hAccepted st))
  | ho_entry_fails st r rs e srv' :
      hStream st = Some (r :: rs) → trError r = ""%string → trEmptyEntries r = false →
      transferApplier e (hB st) (transferCommand r) = (srv', false) →
      ho_step fenced st (mkHandover (hA st) srv' (hAsw st) (hBsw st) None (hDone st) (hAccepted st))
  | ho_broken st rs :
      hStream st = Some rs →
      ho_step fenced st (mkHandover (hA st) (hB st) (hAsw st) (hBsw st) None (hDone st) (hAccepted st))
  | ho_end st r rs :
      hStream st = Some (r :: rs) → trError r = ""%string → trEmptyEntries r = true →
      ho_step fenced st (mkHandover (hA st) (hB st) (hAsw st) (hBsw st) None true (hAccepted st))
  | ho_drop st e :
      hAsw st = true → (fenced = true → hDone st = true) →
      ho_step fenced st (mkHandover (transferDropper e (hA st) v).1 (hB st) (hAsw st) (hBsw st) (hStream st) (hDone st) (hAccepted st)).

(** Runs that keep the orders are runs of the code. *)
Lemma ho_step_fenced st st' : ho_step true st st' → ho_step false st st'.
Proof. by destruct 1; econstructor. Qed.

(** ** Invariant *)

Context (Hhash : ∀ k, is_u64 (Sum64String k)).
Definition vn (key : string) : Z := vnodeIndex Sum64String key.

(** A ring in vnode order. *)
Definition complete (p : Placement) : Prop :=
  length (VNodes p) = 1024%nat ∧ ∀ i w, VNodes p !! i = Some w → vID w = Z.of_nat i.

Context (Hold : complete oldP) (Hnew : complete newP) (Hv : 0 <= v < 1024).
(** The vnode leaves [a]. *)
Context (Hmoved : ∀ w, VNodes newP !! Z.to_nat v = Some w → Primary w ≠ a).

(** What a transfer needs of its source: exact indexes, an entry of the vnode in the data index
    (see [transfer_can_miss_deletions]), and versions. *)
Record store_ok (s : Store) : Prop := {
  so_index : index_ok vn s;
  so_versions : ∀ k ver x, vn k = v → abs s !! k = Some (ver, x) → 0 < ver
}.

Record source_ok (s : Store) : Prop := {
  so_store : store_ok s;
  so_data : is_Some (vNodeIdx s !! v)
}.

Definition stream_ok (rs : list VNodeTransferResp) : Prop :=
  ∃ es m, rs = es ++ [m] ∧ trEmptyEntries m = true ∧
    Forall (λ r, trEmptyEntries r = false ∧ trVersion r ≠ 0) es.

Definition promised (rs : list VNodeTransferResp) (c : ReplicationRequest) : Prop :=
  ∃ r, r ∈ rs ∧ trEmptyEntries r = false ∧ trKey r = reKey c ∧ reVersion c <= trVersion r.

(** A write is at the new primary, or still at the old one and, once a stream is open, in it. *)
Definition covered (st : Handover) (c : ReplicationRequest) : Prop :=
  reVersion c <= held (hB st) (reKey c) ∨
  (hDone st = false ∧ reVersion c <= held (hA st) (reKey c) ∧ ∀ rs, hStream st = Some rs → promised rs c).

Record ho_inv (st : Handover) : Prop := {
  hi_fenced : is_Some (hStream st) ∨ hDone st = true → hAsw st = true;
  hi_source : hDone st = false → source_ok (srvStore (hA st));
  hi_stream : ∀ rs, hStream st = Some rs → stream_ok rs;
  hi_held : ∀ c, c ∈ hAccepted st → vn (reKey c) = v → 0 < reVersion c ∧ covered st c
}.

Lemma replAt_vnode n sw key : @Server.GetVNodeForKey (replAt n sw) key = vn key.
Proof using Hhash Hold Hnew.
  cbn. assert (Hc : complete (placementAt sw)) by (by destruct sw). destruct Hc as [Hl Hid].
  destruct (key_lookup_total Sum64String Hhash (placementAt sw) key Hl) as (w & Hw & _ & -> & _). cbn.
  rewrite (Hid _ _ Hw). destruct (Mul64_index Sum64String Hhash key) as [_ Hr]. unfold vn. lia.
Qed.

(** After the switch the old primary refuses the vnode's keys. *)
Lemma replAt_refuses key : vn key = v → (@Server.CheckOwnership (replAt a true) key).1.1 = false.
Proof using Hhash Hnew Hmoved.
  intros Hk. cbn. destruct Hnew as [Hl _].
  destruct (key_lookup_total Sum64String Hhash newP key Hl) as (w & Hw & Hn & _). unfold Quorum.CheckOwnership.
  cbn [placement placementAt rID]. rewrite Hn. cbn. apply bool_decide_eq_false. unfold vn in Hk. rewrite Hk in Hw.
  by apply Hmoved.
Qed.

Lemma Apply_data_index s c : is_Some (vNodeIdx s !! v) → is_Some (vNodeIdx (Apply s c).1 !! v).
Proof.
  intros Hs. apply (Apply_preserves (λ s, is_Some (vNodeIdx s !! v))); [|done]. intros c' _ _.
  assert (Hadd : ∀ x, is_Some (<[VNodeID c' := x]> (vNodeIdx s) !! v))
    by (intros x; rewrite lookup_insert; case_decide; [by eexists|done]).
  unfold applyPut, applyDelete. split.
  - destruct (removeKey _ _ _ _). cbn. apply Hadd.
  - unfold removeKey. destruct (vNodeIdx s !! VNodeID c'); [|done]. by destruct (decide _); cbn.
Qed.

(** What every routed and versioned write of a store preserves. *)
Definition write_closed (P : Store → Prop) : Prop :=
  ∀ s c, routed vn c → 0 < Version c → Op c = OpPut ∨ Op c = OpDelete → P s → P (Apply s c).1.

Lemma store_ok_closed : write_closed store_ok.
Proof.
  intros s c Hr Hver Ho [Hi Hvs]. split; [by apply Apply_index|].
  intros k ver x Hk. rewrite Apply_abs. destruct (decide (Key c = k)) as [<-|Hne].
  - assert (Hcell : ∃ y, cmd_cell c = Some y ∧ y.1 = Version c)
      by (unfold cmd_cell; destruct Ho as [-> | ->]; by eexists).
    destruct Hcell as (y & Hy & Hy1). rewrite lww_apply_versioned, Hy by lia.
    destruct (Version c <? _); [by apply Hvs|]. rewrite lookup_insert_eq. intros [= ->]. cbn in Hy1. lia.
  - rewrite lww_apply_ne by done. by apply Hvs.
Qed.

Lemma source_ok_closed : write_closed source_ok.
Proof. intros s c Hr Hver Ho [Hs Hd]. split; [by apply store_ok_closed|by apply Apply_data_index]. Qed.

(** The first half of a write at either node. *)
Lemma startWrite_effect n sw del e srv key value srv' started :
  startWrite (H := replAt n sw) del e srv key value = (srv', started) → 0 < candidate (versionCounter srv) (now e) →
  (∀ k, held srv k <= held srv' k) ∧ (∀ P, write_closed P → P (srvStore srv) → P (srvStore srv')) ∧
  (∀ c, c ∈ acceptedBy started → 0 < reVersion c ∧ reVersion c <= held srv' (reKey c) ∧
     (@Server.CheckOwnership (replAt n sw) (reKey c)).1.1 = true).
Proof using Hhash Hold Hnew.
  intros Hs Hver. apply startWrite_store in Hs as [Hst Hacc]. cbv zeta in Hst, Hacc. rewrite replAt_vnode in Hst, Hacc.
  set (cmd := mkCommand _ _ _ _ _) in *.
  assert (Hr : routed vn cmd) by done. assert (Hv0 : 0 < Version cmd) by done.
  assert (Ho : Op cmd = OpPut ∨ Op cmd = OpDelete) by (unfold cmd; destruct del; cbn; auto).
  assert (Hck : Key cmd = key) by done. clearbody cmd. split_and!.
  - destruct Hst as [Hst|Hst]; [intros k; unfold held; rewrite Hst; lia|]. apply (Apply_grows srv cmd srv'); [lia|done].
  - intros P HP. destruct Hst as [-> | ->]; [done|]. by apply HP.
  - intros c Hc. destruct started as [call|]; [|by apply elem_of_nil in Hc]. apply list_elem_of_singleton in Hc as ->.
    destruct (Hacc call eq_refl) as (Hown & Hsto & Hkey & Hvc & _). rewrite Hkey, Hvc. split_and!; [done| |done].
    unfold held. rewrite Hsto, Apply_abs, <-Hck. apply lww_writes_version. split; [done|lia].
Qed.

(** A request of another replica, with the vnode and the version its coordinator chose. *)
Lemma Replicate_effect n sw e srv req srv' res :
  Replicate (H := replAt n sw) e srv req = (srv', res) → reVnodeId req = vn (reKey req) → 0 < reVersion req →
  (∀ k, held srv k <= held srv' k) ∧ (∀ P, write_closed P → P (srvStore srv) → P (srvStore srv')).
Proof using Hhash Hold Hnew.
  intros Hs Hvn Hver. unfold Replicate in Hs. destruct (match reOp req with Op_PUT => _ | _ => _ end) as [op|] eqn:Eop;
    [|simplify_eq; by split].
  rewrite (proj2 (Z.eqb_neq _ _)), replAt_vnode in Hs by lia. destruct (sendRequest e srv _) as [srv1 resp] eqn:Es.
  assert (Ho : op = OpPut ∨ op = OpDelete) by (destruct (reOp req); simplify_eq; auto).
  assert (srv' = srv1) as -> by (by destruct (pErr resp); simplify_eq).
  apply sendRequest_write in Es as [_ Hst]; [|done].
  destruct Hst as [Hst|[Hst _]]; [|unfold held; rewrite Hst; by split]. split.
  - eapply Apply_grows, Hst. cbn. lia.
  - intros P HP. rewrite Hst. apply HP; [|done|done]. unfold routed. cbn. rewrite Hvn.
    destruct (vn (reKey req) =? 0); [done|]. destruct (Mul64_index Sum64String Hhash (reKey req)) as [_ Hr].
    unfold VNodeCount in Hr. unfold u16, vn. rewrite Z.mod_small; [done|lia].
Qed.

(** One entry of the stream at the new primary. *)
Lemma entry_effect e srv r srv' ok :
  transferApplier e srv (transferCommand r) = (srv', ok) → trVersion r ≠ 0 →
  (∀ k, held srv k <= held srv' k) ∧ (ok = true → trVersion r <= held srv' (trKey r)) ∧
  (routed vn (transferCommand r) → 0 < trVersion r → ∀ P, write_closed P → P (srvStore srv) → P (srvStore srv')).
Proof.
  intros Ht Hver. unfold transferApplier in Ht. destruct (sendRequest e srv _) as [srv1 resp] eqn:Es.
  assert (Hop : Op (transferCommand r) = OpPut ∨ Op (transferCommand r) = OpDelete)
    by (unfold transferCommand; cbn; destruct (trTombstone r); auto).
  apply sendRequest_write in Es as [_ Hs]; [|done]. injection Ht as <- <-.
  set (cmd := cmdOf _) in Hs. assert (Hc : cmd = transferCommand r) by (unfold cmd; by destruct r).
  rewrite Hc in Hs. split_and!.
  - destruct Hs as [Hs|[Hs _]]; [|intros k; unfold held; rewrite Hs; lia].
    apply (Apply_grows srv (transferCommand r) srv1); done.
  - intros Hok. destruct Hs as [Hs|[_ Hs]]; [|by destruct (pErr resp)].
    unfold held. rewrite Hs, Apply_abs. by apply (lww_writes_version _ (transferCommand r)).
  - intros Hr Hpos P HP. destruct Hs as [->|[-> _]]; [by apply HP|done].
Qed.

Lemma entryOf_fields s k ver x : abs s !! k = Some (ver, x) → eKey (entryOf s k) = k ∧ eVersion (entryOf s k) = ver.
Proof. intros Hk. unfold entryOf. rewrite Hk. by destruct x. Qed.

(** The snapshot promises every write the source holds. *)
Lemma snapshot_promises s c : source_ok s → vn (reKey c) = v → 0 < reVersion c →
  reVersion c <= lww_version (abs s) (reKey c) → promised (TransferVNode s v epoch) c.
Proof using Hv.
  intros [[Hi Hvs] [X HX]] Hk H0 Hle. unfold TransferVNode.
  assert (u16 v = v) as -> by (unfold u16; apply Z.mod_small; lia).
  rewrite lww_version_cell in Hle. destruct (abs s !! reKey c) as [[ver x]|] eqn:Ea; cbn in Hle; [|lia].
  destruct (snapshot_keys vn s v X Hi HX) as [_ Hkeys].
  exists (mkTransferResp v epoch (reKey c) (eValue (entryOf s (reKey c))) ver false "" (eTombstone (entryOf s (reKey c)))).
  split; [|split; [done|split; [done|done]]]. apply elem_of_app. left. rewrite (snapshot_eq vn s v X Hi HX).
  apply list_elem_of_fmap. exists (entryOf s (reKey c)). split.
  - destruct (entryOf_fields s (reKey c) ver x Ea) as [-> ->]. done.
  - apply list_elem_of_fmap. exists (reKey c). split; [done|]. apply Hkeys. rewrite Ea. eauto.
Qed.

Lemma snapshot_stream_ok s : source_ok s → stream_ok (TransferVNode s v epoch).
Proof using Hv.
  intros [[Hi Hvs] [X HX]]. unfold TransferVNode. assert (u16 v = v) as -> by (unfold u16; apply Z.mod_small; lia).
  eexists _, _. split; [done|]. split; [done|]. rewrite (snapshot_eq vn s v X Hi HX), <-list_fmap_compose.
  apply Forall_fmap, list.Forall_forall. intros k Hk. apply (snapshot_keys vn s v X Hi HX) in Hk as [Hkv [[ver x] Ha]].
  cbn. destruct (entryOf_fields s k ver x Ha) as [_ ->]. pose proof (Hvs k ver x Hkv Ha). split; [done|lia].
Qed.
(** ** Every interleaving of a fenced handover *)

Lemma stream_ok_entry r rs : stream_ok (r :: rs) → trEmptyEntries r = false → trVersion r ≠ 0 ∧ stream_ok rs.
Proof.
  intros (es & m & Heq & Hm & Hes) Hr. destruct es as [|r' es]; simplify_list_eq; [congruence|].
  apply Forall_cons_iff in Hes as [[_ ?] ?]. split; [done|]. by exists es, m.
Qed.

Lemma stream_ok_end r rs c : stream_ok (r :: rs) → trEmptyEntries r = true → ¬ promised (r :: rs) c.
Proof.
  intros (es & m & Heq & Hm & Hes) Hr (x & Hx & Hxe & _). destruct es as [|r' es]; simplify_list_eq.
  - apply list_elem_of_singleton in Hx as ->. congruence.
  - apply Forall_cons_iff in Hes as [[? _] _]. congruence.
Qed.

(** A step that leaves the old primary alone, loses nothing at the new one, and keeps the stream or
    gives it up. *)
Lemma ho_inv_B st st' more :
  ho_inv st → hA st' = hA st → hDone st' = hDone st → (hAsw st = true → hAsw st' = true) →
  (∀ k, held (hB st) k <= held (hB st') k) → (∀ rs, hStream st' = Some rs → hStream st = Some rs) →
  hAccepted st' = hAccepted st ++ more →
  (∀ c, c ∈ more → 0 < reVersion c ∧ reVersion c <= held (hB st') (reKey c)) → ho_inv st'.
Proof.
  intros [Hf Hso Hst Hh] HA HD Hsw HB Hs Hacc Hmore. split; rewrite ?HA, ?HD; [|done|auto|].
  - intros [[rs Hrs]|Hd]; apply Hsw, Hf; [left; rewrite (Hs rs Hrs); by eexists|by right].
  - intros c. rewrite Hacc. intros [Hc|Hc]%elem_of_app Hk.
    + destruct (Hh c Hc Hk) as [H0 Hcov]. split; [done|].
      destruct Hcov as [Hl|(Hd & Hl & Hp)]; [left; specialize (HB (reKey c)); lia|].
      right. rewrite HA, HD. split_and!; auto.
    + destruct (Hmore c Hc) as [H0 Hl]. split; [done|by left].
Qed.

(** A step at the old primary that loses nothing there; it accepts writes of the vnode only before
    the switch. *)
Lemma ho_inv_A st srv' more :
  ho_inv st → (∀ k, held (hA st) k <= held srv' k) → (source_ok (srvStore (hA st)) → source_ok (srvStore srv')) →
  (∀ c, c ∈ more → vn (reKey c) = v → 0 < reVersion c ∧ reVersion c <= held srv' (reKey c) ∧ hAsw st = false) →
  ho_inv (mkHandover srv' (hB st) (hAsw st) (hBsw st) (hStream st) (hDone st) (hAccepted st ++ more)).
Proof.
  intros [Hf Hso Hst Hh] Hg Hs Hmore. split; cbn; [done|auto|done|]. intros c [Hc|Hc]%elem_of_app Hk.
  - destruct (Hh c Hc Hk) as [H0 [Hl|(Hd & Hl & Hp)]]; (split; [done|]); [by left|right]. cbn.
    specialize (Hg (reKey c)). split_and!; [done|lia|done].
  - destruct (Hmore c Hc Hk) as (H0 & Hl & Hsw). split; [done|]. right. cbn. rewrite Hsw in Hf.
    destruct (hDone st); [by discriminate Hf; auto|]. split_and!; [done|done|]. intros rs Hrs.
    by discriminate Hf; left; rewrite Hrs.
Qed.

(** Opening the stream, receiving an entry, reaching the end marker. *)
Lemma ho_open_inv st :
  ho_inv st → hDone st = false → hAsw st = true →
  ho_inv (mkHandover (hA st) (hB st) (hAsw st) (hBsw st) (Some (TransferVNode (srvStore (hA st)) v epoch))
            (hDone st) (hAccepted st)).
Proof using Hv.
  intros [Hf Hso Hst Hh] Hnd Hsw. split; cbn; [done|done| |].
  - intros rs [= <-]. by apply snapshot_stream_ok, Hso.
  - intros c Hc Hk. destruct (Hh c Hc Hk) as [H0 [Hl|(_ & Hl & _)]]; (split; [done|]); [by left|right]. cbn.
    split_and!; [done..|]. intros rs [= <-]. by apply snapshot_promises; [apply Hso|..].
Qed.

Lemma ho_entry_inv st r rs e srv' :
  ho_inv st → hStream st = Some (r :: rs) → trEmptyEntries r = false →
  transferApplier e (hB st) (transferCommand r) = (srv', true) →
  ho_inv (mkHandover (hA st) srv' (hAsw st) (hBsw st) (Some rs) (hDone st) (hAccepted st)).
Proof.
  intros [Hf Hso Hst Hh] Hrs He Hap. destruct (stream_ok_entry r rs (Hst _ Hrs) He) as [Hrv Hok].
  destruct (entry_effect _ _ _ _ _ Hap Hrv) as (Hg & Hgot & _). split; cbn; [|done|by intros ? [= <-]|].
  - intros _. apply Hf. left. by rewrite Hrs.
  - intros c Hc Hk. destruct (Hh c Hc Hk) as [H0 [Hl|(Hd & Hl & Hp)]]; (split; [done|]).
    { left. cbn. specialize (Hg (reKey c)). lia. }
    destruct (Hp _ Hrs) as (x & [->|Hx]%elem_of_cons & Hxe & Hxk & Hxv).
    + left. cbn. specialize (Hgot eq_refl). rewrite Hxk in Hgot. lia.
    + right. cbn. split_and!; [done..|]. intros ? [= <-]. by exists x.
Qed.

Lemma ho_end_inv st r rs :
  ho_inv st → hStream st = Some (r :: rs) → trEmptyEntries r = true →
  ho_inv (mkHandover (hA st) (hB st) (hAsw st) (hBsw st) None true (hAccepted st)).
Proof.
  intros [Hf Hso Hst Hh] Hrs He. split; cbn; [|done..|].
  - intros _. apply Hf. left. by rewrite Hrs.
  - intros c Hc Hk. destruct (Hh c Hc Hk) as [H0 [Hl|(_ & _ & Hp)]]; [split; [done|by left]|].
    exfalso. by apply (stream_ok_end r rs c (Hst _ Hrs) He), Hp.
Qed.

(** Every step of a handover with both orders enforced keeps the invariant. *)
Lemma ho_step_inv st st' : ho_step true st st' → ho_inv st → ho_inv st'.
Proof using Hhash Hold Hnew Hmoved Hv.
  intros Hstep Hinv.
  destruct Hstep as [st del e key value srv' started Hw Hver|st del e key value srv' started Hw Hver
    |st e req srv' res Hr Hvn Hver|st e req srv' res Hr Hvn Hver|st|st|st _ Hnd Hns Hsw|st r rs e srv' Hrs _ He Hap
    |st r rs e srv' Hrs _ He Hap|st rs Hrs|st r rs Hrs _ He|st e _ Hd].
  - destruct (startWrite_effect _ _ _ _ _ _ _ _ _ Hw Hver) as (Hg & Hs & Hacc).
    apply ho_inv_A; [done|done|apply Hs, source_ok_closed|].
    intros c Hc Hk. destruct (Hacc c Hc) as (H0 & Hl & Hown). destruct (hAsw st); [|done].
    by rewrite replAt_refuses in Hown.
  - destruct (startWrite_effect _ _ _ _ _ _ _ _ _ Hw Hver) as (Hg & _ & Hacc).
    apply (ho_inv_B st _ (acceptedBy started)); try done. intros c Hc. by destruct (Hacc c Hc) as (? & ? & _).
  - destruct (Replicate_effect _ _ _ _ _ _ _ Hr Hvn Hver) as [Hg Hs].
    rewrite <-(app_nil_r (hAccepted st)). apply ho_inv_A; [done|done|apply Hs, source_ok_closed|by intros c ?%elem_of_nil].
  - destruct (Replicate_effect _ _ _ _ _ _ _ Hr Hvn Hver) as [Hg _].
    apply (ho_inv_B st _ []); try done; [by rewrite app_nil_r|by intros c ?%elem_of_nil].
  - apply (ho_inv_B st _ []); try done; [by rewrite app_nil_r|by intros c ?%elem_of_nil].
  - apply (ho_inv_B st _ []); try done; [by rewrite app_nil_r|by intros c ?%elem_of_nil].
  - by apply ho_open_inv; auto.
  - by eapply ho_entry_inv.
  - destruct Hinv as [Hf Hso Hst Hh] eqn:E. destruct (stream_ok_entry r rs (Hst _ Hrs) He) as [Hrv _].
    destruct (entry_effect _ _ _ _ _ Hap Hrv) as [Hg _].
    apply (ho_inv_B st _ []); try done; [by rewrite app_nil_r|by intros c ?%elem_of_nil].
  - apply (ho_inv_B st _ []); try done; [by rewrite app_nil_r|by intros c ?%elem_of_nil].
  - by eapply ho_end_inv.
  - specialize (Hd eq_refl). destruct Hinv as [Hf Hso Hst Hh]. split; cbn; [done|congruence|done|].
    intros c Hc Hk. destruct (Hh c Hc Hk) as [H0 [Hl|(? & _)]]; [|congruence]. split; [done|by left].
Qed.

(** Before the placement change: the old primary serves the vnode and holds every accepted write. *)
Record ho_start (st : Handover) : Prop := {
  hs_stream : hStream st = None;
  hs_done : hDone st = false;
  hs_source : source_ok (srvStore (hA st));
  hs_held : ∀ c, c ∈ hAccepted st → vn (reKey c) = v → 0 < reVersion c ∧ reVersion c <= held (hA st) (reKey c)
}.

Lemma ho_reach_inv st st' : ho_start st → rtc (ho_step true) st st' → ho_inv st'.
Proof using Hhash Hold Hnew Hmoved Hv.
  intros [Hn Hd0 Hso Hheld] Hrtc. assert (Hinv : ho_inv st).
  { split; [|done|by rewrite Hn|].
    - rewrite Hn, Hd0. by intros [[? ?]|?].
    - intros x Hx Hxk. destruct (Hheld x Hx Hxk) as [H0 Hl]. split; [done|]. right. by rewrite Hn. }
  clear -Hrtc Hinv Hhash Hold Hnew Hmoved Hv. induction Hrtc; eauto using ho_step_inv.
Qed.

(** A finished handover has all accepted writes. *)
Lemma ho_done_held st c :
  ho_inv st → hDone st = true → c ∈ hAccepted st → vn (reKey c) = v →
  0 < reVersion c ∧ reVersion c <= held (hB st) (reKey c).
Proof.
  intros [_ _ _ Hh] Hd Hc Hk. destruct (Hh c Hc Hk) as [H0 [Hl|(? & _)]]; [done|congruence].
Qed.

(** A handover in the right order loses no write.  In every run in which the new primary asks for
    the vnode after the old primary has installed the placement, and the old primary erases its copy
    after the transfer has succeeded, however writes at both nodes, replication requests, broken
    and repeated streams, the switches and the erasure interleave: once the transfer has succeeded, the
    new primary holds every write of the vnode either node has accepted, at that version or newer. *)
Theorem fenced_handover_keeps_writes st st' c :
  ho_start st → rtc (ho_step true) st st' → hDone st' = true → c ∈ hAccepted st' → vn (reKey c) = v →
  reVersion c <= held (hB st') (reKey c).
Proof using Hhash Hold Hnew Hmoved Hv.
  intros Hs Hr Hd Hc Hk. by apply (ho_done_held st' c (ho_reach_inv st st' Hs Hr) Hd Hc Hk).
Qed.
End handover.

(** ** Executing handovers *)

Inductive Event :=
  | EWriteA (del : bool) (e : Env) (key : string) (value : list byte)
  | EWriteB (del : bool) (e : Env) (key : string) (value : list byte)
  | ESwitchA
  | ESwitchB
  | EOpen
  | ERecv (e : Env)
  | EDrop (e : Env).

Section execution.
Context (Sum64String : string → Z) (oldP newP : Placement) (rf members : Z) (a b : string) (v epoch : Z) (fenced : bool).
Abbreviation replAt := (replAt Sum64String oldP newP rf members).
Abbreviation ho_step := (ho_step Sum64String oldP newP rf members a b v epoch fenced).

Definition exec (ev : Event) (st : Handover) : option Handover :=
  match ev with
  | EWriteA del e key value =>
      let r := startWrite (H := replAt a (hAsw st)) del e (hA st) key value in
      if 0 <? candidate (versionCounter (hA st)) (now e)
      then Some (mkHandover r.1 (hB st) (hAsw st) (hBsw st) (hStream st) (hDone st) (hAccepted st ++ acceptedBy r.2))
      else None
  | EWriteB del e key value =>
      let r := startWrite (H := replAt b (hBsw st)) del e (hB st) key value in
      if 0 <? candidate (versionCounter (hB st)) (now e)
      then Some (mkHandover (hA st) r.1 (hAsw st) (hBsw st) (hStream st) (hDone st) (hAccepted st ++ acceptedBy r.2))
      else None
  | ESwitchA => Some (mkHandover (hA st) (hB st) true (hBsw st) (hStream st) (hDone st) (hAccepted st))
  | ESwitchB => Some (mkHandover (hA st) (hB st) (hAsw st) true (hStream st) (hDone st) (hAccepted st))
  | EOpen =>
      match hBsw st, hDone st, hStream st with
      | true, false, None =>
          if implb fenced (hAsw st)
          then Some (mkHandover (hA st) (hB st) (hAsw st) (hBsw st) (Some (TransferVNode (srvStore (hA st)) v epoch))
                       (hDone st) (hAccepted st))
          else None
      | _, _, _ => None
      end
  | ERecv e =>
      match hStream st with
      | Some (r :: rs) =>
          if decide (trError r = ""%string)
          then if trEmptyEntries r
               then Some (mkHandover (hA st) (hB st) (hAsw st) (hBsw st) None true (hAccepted st))
               else let t := transferApplier e (hB st) (transferCommand r) in
                    Some (mkHandover (hA st) t.1 (hAsw st) (hBsw st) (if t.2 : bool then Some rs else None) (hDone st) (hAccepted st))
          else None
      | _ => None
      end
  | EDrop e =>
      if hAsw st && implb fenced (hDone st)
      then Some (mkHandover (transferDropper e (hA st) v).1 (hB st) (hAsw st) (hBsw st) (hStream st) (hDone st) (hAccepted st))
      else None
  end.

Fixpoint run (evs : list Event) (st : Handover) : option Handover :=
  match evs with [] => Some st | ev :: evs => st' ← exec ev st; run evs st' end.

Lemma exec_sound ev st st' : exec ev st = Some st' → ho_step st st'.
Proof.
  destruct ev as [del e key value|del e key value| | | |e|e]; cbn [exec].
  - destruct (0 <? _) eqn:E; [|done]. intros [= <-]. bool_to_prop. eapply ho_writeA; [|done]. apply surjective_pairing.
  - destruct (0 <? _) eqn:E; [|done]. intros [= <-]. bool_to_prop. eapply ho_writeB; [|done]. apply surjective_pairing.
  - intros [= <-]. constructor.
  - intros [= <-]. constructor.
  - destruct (hBsw st) eqn:Eb, (hDone st) eqn:Ed, (hStream st) eqn:Es; try done.
    destruct (implb fenced (hAsw st)) eqn:Ef; [|done]. intros [= <-].
    rewrite <-Ed, <-Eb. apply ho_open; [done..|]. intros ->. done.
  - destruct (hStream st) as [[|r rs]|] eqn:Es; [done| |done]. destruct (decide (trError r = ""%string)); [|done].
    destruct (trEmptyEntries r) eqn:Ee; [intros [= <-]; by eapply ho_end|].
    destruct (transferApplier e (hB st) (transferCommand r)) as [srv' [] ] eqn:Et; intros [= <-]; cbn [fst snd].
    + by eapply ho_entry.
    + by eapply ho_entry_fails.
  - destruct (hAsw st) eqn:Ea; [cbn [andb]|done]. destruct (implb fenced (hDone st)) eqn:Ef; [|done].
    intros [= <-]. rewrite <-Ea. apply ho_drop; [done|]. intros ->. done.
Qed.

Lemma run_sound evs st st' : run evs st = Some st' → rtc ho_step st st'.
Proof.
  revert st. induction evs as [|ev evs IH]; intros st; cbn [run]; [intros [= ->]; constructor|].
  intros (st1 & H1 & H2)%bind_Some. eapply rtc_l; [by eapply exec_sound|by apply IH].
Qed.
End execution.

(** ** The orders the code does not enforce *)

Lemma SnapshotVNode_erased s v : Entries (SnapshotVNode (DeleteVNodeData s v) v) = [].
Proof.
  unfold DeleteVNodeData. destruct ((size (setOf (vNodeIdx s) v) =? 0)%nat && _) eqn:E.
  - apply andb_true_iff in E as [E1%Nat.eqb_eq E2%Nat.eqb_eq]. apply size_empty_inv, leibniz_equiv in E1, E2.
    unfold SnapshotVNode. destruct (vNodeIdx s !! v) as [X|] eqn:EX; [|done].
    rewrite (setOf_lookup _ _ _ EX) in E1. by rewrite E1, E2, !elements_empty.
  - destruct (foldl _ _ _) as [st1 mt1], (foldl _ _ _) as [c2 mt2]. unfold SnapshotVNode. cbn [vNodeIdx].
    by rewrite lookup_delete_eq.
Qed.

(** A transfer from a node that has erased the vnode succeeds without data.  After the dropper
    has run at the source, whose grace period does not wait for the transfer, the stream holds only
    the end marker: the new primary's transfer counts as a success with its state unchanged, and the
    replicas, which follow in the list of sources, are never asked. *)
Theorem erased_source_transfers_nothing me e src src' old v epoch srv sources :
  0 <= v < 2 ^ 16 → transferDropper e src v = (src', true) →
  streams me old v = Some (Received <$> TransferVNode (srvStore src') v epoch) →
  tryTransfers (transferFrom me v) srv (old :: sources) = (srv, true).
Proof.
  intros Hv Hd Hs. unfold transferDropper in Hd. destruct (dropKeys _ _ _ _) as [src1 [] ]; simplify_eq.
  cbn [tryTransfers]. unfold transferFrom. rewrite Hs. cbn [srvStore transferVNodeFrom].
  unfold TransferVNode. assert (u16 v = v) as -> by (unfold u16; by apply Z.mod_small).
  by rewrite SnapshotVNode_erased.
Qed.

(** One vnode space, all of it moving from node [a] to node [b] without replicas. *)
Definition ex_owner (owner : string) (epoch : Z) : Placement :=
  mkPlacement epoch [] ((λ i, mkVNode i 0 owner []) <$> seqZ 0 1024).
Definition ex_zero (_ : string) : Z := 0.
Definition ex_at (clock : Z) : Env := mkEnv clock (Served false) AckAfterFsync.
Definition ex_begin : Handover :=
  mkHandover (mkServer (Apply NewStore (mkCommand OpPut "k" [x41] 0 7)).1 7) (mkServer NewStore 9) false false None false
    [mkRepl Op_PUT "k" [x41] 0 7].
Definition ex_run (fenced : bool) (evs : list Event) : option Handover :=
  run ex_zero (ex_owner "a" 1) (ex_owner "b" 2) 1 2 "a" "b" 0 2 fenced evs ex_begin.

(** The version a node holds of key ["k"]. *)
Definition ex_versions (st : Handover) : Z * Z := (held (hA st) "k", held (hB st) "k").

(** The old primary accepts a write after the snapshot and before it installs the placement. *)
Definition ex_late_write : list Event :=
  [ESwitchB; EOpen; EWriteA false (ex_at 20) "k" [x42]; ERecv (ex_at 21); ERecv (ex_at 22); ESwitchA; EDrop (ex_at 23)].
Definition ex_late : ReplicationRequest := mkRepl Op_PUT "k" [x42] 0 20.

Lemma ex_complete owner epoch : complete (ex_owner owner epoch).
Proof.
  split; [reflexivity|]. intros i w Hw. cbn [ex_owner VNodes] in Hw. rewrite list_lookup_fmap in Hw.
  destruct (seqZ 0 1024 !! i) as [j|] eqn:E; [|done]. cbn in Hw. apply lookup_seqZ in E as [-> _]. by injection Hw as <-.
Qed.

Lemma ex_begin_start : ho_start ex_zero 0 ex_begin.
Proof.
  assert (Hroute : routed (vn ex_zero) (mkCommand OpPut "k" [x41] 0 7)) by reflexivity.
  split; [done|done| |].
  - split; [split; [apply Apply_index; [done|apply NewStore_index]|]|by eexists].
    intros k ver x _ Hk. cbn [ex_begin hA srvStore] in Hk. rewrite Apply_abs in Hk.
    destruct (decide ("k"%string = k)) as [<-|Hne]; [vm_compute in Hk; by simplify_eq|].
    by rewrite lww_apply_ne in Hk.
  - intros c Hc _. cbn in Hc. apply list_elem_of_singleton in Hc as ->. cbn. split; [done|]. vm_compute. discriminate.
Qed.

#[local] Instance pbOp_eq_dec : EqDecision pbOp.
Proof. solve_decision. Defined.
#[local] Instance ReplicationRequest_eq_dec : EqDecision ReplicationRequest.
Proof. solve_decision. Defined.

Definition ex_late_outcome (st : Handover) : bool * bool * (Z * Z) :=
  (hDone st, bool_decide (ex_late ∈ hAccepted st), ex_versions st).

Lemma ex_run_outcome fenced evs va vb :
  ex_late_outcome <$> ex_run fenced evs = Some (true, true, (va, vb)) →
  ∃ st', rtc (ho_step ex_zero (ex_owner "a" 1) (ex_owner "b" 2) 1 2 "a" "b" 0 2 fenced) ex_begin st' ∧
    hDone st' = true ∧ ex_late ∈ hAccepted st' ∧ held (hA st') "k" = va ∧ held (hB st') "k" = vb.
Proof.
  unfold ex_run. intros (st' & Hr & Ho)%fmap_Some. exists st'. split; [by eapply run_sound|].
  unfold ex_late_outcome, ex_versions in Ho. injection Ho as Hd Hin HA HB. symmetry in Hin. by apply bool_decide_eq_true in Hin.
Qed.

Lemma ex_late_run : ex_late_outcome <$> ex_run false ex_late_write = Some (true, true, (0, 7)).
Proof. vm_compute. reflexivity. Qed.

Lemma ex_late_acknowledged :
  (Put (H := replAt ex_zero (ex_owner "a" 1) (ex_owner "b" 2) 1 2 "a" false) (ex_at 20) (hA ex_begin) "k" [x42]).1.2 = inl tt.
Proof. vm_compute. reflexivity. Qed.


(** ** Witnesses *)

(** A write before the switch, then the transfer, then the erasure. *)
Definition ex_in_order : list Event :=
  [ESwitchB; EWriteA false (ex_at 20) "k" [x42]; ESwitchA; EOpen; ERecv (ex_at 21); ERecv (ex_at 22);
   EWriteB false (ex_at 24) "m" [x43]; EDrop (ex_at 23)].

Lemma ex_in_order_run : ex_late_outcome <$> ex_run true ex_in_order = Some (true, true, (0, 20)).
Proof. vm_compute. reflexivity. Qed.

Lemma ex_moved w : VNodes (ex_owner "b" 2) !! Z.to_nat 0 = Some w → Primary w ≠ "a"%string.
Proof.
  cbn [ex_owner VNodes]. rewrite list_lookup_fmap. destruct (seqZ 0 1024 !! _); [|done]. cbn. by intros [= <-].
Qed.

Lemma ex_zero_u64 k : is_u64 (ex_zero k).
Proof. unfold is_u64, ex_zero. lia. Qed.

Lemma fenced_handover_keeps_writes_witness :
  ∃ st', rtc (ho_step ex_zero (ex_owner "a" 1) (ex_owner "b" 2) 1 2 "a" "b" 0 2 true) ex_begin st' ∧
    hDone st' = true ∧ reVersion ex_late <= held (hB st') (reKey ex_late).
Proof.
  destruct (ex_run_outcome _ _ _ _ ex_in_order_run) as (st' & Hr & Hd & Hin & _). exists st'. split; [exact Hr|]. split; [exact Hd|].
  refine (fenced_handover_keeps_writes ex_zero (ex_owner "a" 1) (ex_owner "b" 2) 1 2 "a" "b" 0 2
    ex_zero_u64 (ex_complete "a" 1) (ex_complete "b" 2) _ ex_moved ex_begin st' ex_late ex_begin_start Hr Hd Hin _).
  - lia.
  - reflexivity.
Defined.

Lemma erased_source_transfers_nothing_witness :
  let src := mkServer (Apply NewStore (mkCommand OpPut "k" [x41] 0 7)).1 7 in
  let src' := (transferDropper (ex_at 20) src 0).1 in
  let me := mkMigEnv (λ _ _, Some (Received <$> TransferVNode (srvStore src') 0 2)) (ex_at 21) (ex_at 21) true in
  tryTransfers (transferFrom me 0) (mkServer NewStore 9) ["a"; "c"]%string = (mkServer NewStore 9, true).
Proof.
  intros src src' me.
  apply (erased_source_transfers_nothing me (ex_at 20) src src' "a" 0 2); [lia|vm_compute; reflexivity|reflexivity].
Defined.
