(* ===== verification/HandoverChain.v ===== *)
(** * A vnode that moves several times ([src/cluster/replication.go], [src/core/rpc.go])

    [Handover] follows one move of a vnode.  Here the new primary of one move is the old primary of the
    next.  A move is composed with the next one through what its target has become: its indexes are
    exact, its versions are positive and it holds every accepted write. *)

From Stdlib.Strings Require Import Byte.
From S2P Require Import Prelude Store StoreSpec WalCodec WalWriter EventLoop Durability Placement AssignProofs.
From S2P Require Import Server ServerProofs Quorum WritePath Migration BatchWorker Replication Cluster Handover.

Section chain.
Context (Sum64String : string → Z) (Hhash : ∀ k, is_u64 (Sum64String k)) (v : Z) (Hv : 0 <= v < 1024).

Abbreviation vn := (vn Sum64String).

(** One move: the placements before and after, the two primaries and the new epoch. *)
Record Move := mkMove {
  mvOld : Placement;
  mvNew : Placement;
  mvRF : Z;
  mvMembers : Z;
  mvFrom : string;
  mvTo : string;
  mvEpoch : Z
}.

Record move_ok (mv : Move) : Prop := {
  mk_old : complete (mvOld mv);
  mk_new : complete (mvNew mv);
  mk_moved : ∀ w, VNodes (mvNew mv) !! Z.to_nat v = Some w → Primary w ≠ mvFrom mv
}.

Definition move_step (mv : Move) : Handover → Handover → Prop :=
  ho_step Sum64String (mvOld mv) (mvNew mv) (mvRF mv) (mvMembers mv) (mvFrom mv) (mvTo mv) v (mvEpoch mv) true.

(** ** The target of a move *)

Record target_inv (st : Handover) : Prop := {
  ti_store : store_ok Sum64String v (srvStore (hB st));
  ti_stream : ∀ rs r, hStream st = Some rs → r ∈ rs → trEmptyEntries r = false →
    routed vn (transferCommand r) ∧ 0 < trVersion r
}.

(** Every entry of a snapshot belongs to the vnode. *)
Lemma snapshot_routed s epoch r :
  source_ok Sum64String v s → r ∈ TransferVNode s v epoch → trEmptyEntries r = false →
  routed vn (transferCommand r) ∧ 0 < trVersion r.
Proof using Hv.
  intros [[Hi Hvs] [X HX]] Hr He. unfold TransferVNode in Hr.
  assert (Hu : u16 v = v) by (unfold u16; apply Z.mod_small; lia). rewrite Hu in Hr.
  apply elem_of_app in Hr as [Hr|Hr%list_elem_of_singleton]; [|by subst].
  rewrite (snapshot_eq vn s v X Hi HX), <-list_fmap_compose in Hr. apply list_elem_of_fmap in Hr as (k & -> & Hk).
  apply (snapshot_keys vn s v X Hi HX) in Hk as [Hkv [[ver x] Ha]]. cbn.
  destruct (entryOf_fields s k ver x Ha) as [-> ->]. unfold routed. cbn. rewrite Hu. split; [done|by eapply Hvs].
Qed.

Lemma move_step_target mv st st' :
  move_ok mv → move_step mv st st' →
  ho_inv Sum64String v st → target_inv st → target_inv st'.
Proof using Hhash Hv.
  intros [Hold Hnew Hmoved] Hstep Hinv [Hst Hrs0]. pose proof (store_ok_closed Sum64String v) as Hcl.
  destruct Hstep as [st del e key value srv' started Hw Hver|st del e key value srv' started Hw Hver
    |st e req srv' res Hr Hvn Hver|st e req srv' res Hr Hvn Hver|st|st|st _ Hnd Hns Hsw|st r rs e srv' Hrs _ He Hap
    |st r rs e srv' Hrs _ He Hap|st rs Hrs|st r rs Hrs _ He|st e _ Hd]; try by split.
  - destruct (startWrite_effect _ _ _ _ _ Hhash Hold Hnew _ _ _ _ _ _ _ _ _ Hw Hver) as (_ & Hs & _).
    split; [exact (Hs _ Hcl Hst)|done].
  - destruct (Replicate_effect _ _ _ _ _ Hhash Hold Hnew _ _ _ _ _ _ _ Hr Hvn Hver) as [_ Hs].
    split; [exact (Hs _ Hcl Hst)|done].
  - split; [done|]. cbn. intros rs r [= <-] Hr He. eapply snapshot_routed; [|exact Hr|done]. by apply (hi_source _ _ _ Hinv).
  - destruct (Hrs0 _ r Hrs ltac:(set_solver) He) as [Hro Hpos].
    destruct (entry_effect Sum64String _ _ _ _ _ Hap ltac:(lia)) as (_ & _ & Hs). split; [exact (Hs Hro Hpos _ Hcl Hst)|].
    cbn. intros rs' r' [= <-] Hr'. eapply Hrs0; [exact Hrs|set_solver].
  - destruct (Hrs0 _ r Hrs ltac:(set_solver) He) as [Hro Hpos].
    destruct (entry_effect Sum64String _ _ _ _ _ Hap ltac:(lia)) as (_ & _ & Hs). split; [exact (Hs Hro Hpos _ Hcl Hst)|done].
Qed.

Lemma move_accepted mv st st' c : rtc (move_step mv) st st' → c ∈ hAccepted st → c ∈ hAccepted st'.
Proof. induction 1 as [|st st1 st' Hs _ IH]; [done|]. intros Hc. apply IH. destruct Hs; cbn; set_solver. Qed.

(** ** Moves in a row *)

Definition all_held (srv : Server) (accepted : list ReplicationRequest) : Prop :=
  ∀ c, c ∈ accepted → vn (reKey c) = v → 0 < reVersion c ∧ reVersion c <= held srv (reKey c).

(** [moves srv acc srv' acc']: the vnode, with accepted writes [acc] at its primary [srv], has moved any
    number of times, keeping the two orders of [Handover] each time, and is now at [srv'] with the writes
    [acc'] accepted altogether.  A target has a well-formed store when its move begins (it may hold an
    old copy), and an entry of the vnode in its data index when it ends: without one its next snapshot
    would be empty ([Migration.transfer_can_miss_deletions]). *)
Inductive moves : Server → list ReplicationRequest → Server → list ReplicationRequest → Prop :=
  | moves_none srv acc : moves srv acc srv acc
  | moves_one mv st st' srv' acc' :
      move_ok mv → hStream st = None → hDone st = false → store_ok Sum64String v (srvStore (hB st)) →
      rtc (move_step mv) st st' → hDone st' = true → is_Some (vNodeIdx (srvStore (hB st')) !! v) →
      moves (hB st') (hAccepted st') srv' acc' →
      moves (hA st) (hAccepted st) srv' acc'.

Lemma move_inv mv st st' :
  move_ok mv → ho_start Sum64String v st → target_inv st → rtc (move_step mv) st st' →
  ho_inv Sum64String v st' ∧ target_inv st'.
Proof using Hhash Hv.
  intros Hmv Hs Ht Hr. pose proof Hmv as [Hold Hnew Hmoved].
  assert (H : ∀ st', rtc (move_step mv) st st' → ho_inv Sum64String v st')
    by (intros st1 Hr1; exact (ho_reach_inv _ _ _ _ _ _ _ v _ Hhash Hold Hnew Hv Hmoved st st1 Hs Hr1)).
  split; [by apply H|]. revert st' Hr. apply rtc_ind_r; [done|].
  intros st1 st2 Hr1 Hstep IH. eapply move_step_target; [exact Hmv|exact Hstep|by apply H|exact IH].
Qed.

End chain.

(** ** Witness *)

(** The vnode of [Handover]'s example moves from [a] to [b], and on to [c]. *)
Definition ex_to_b : Move := mkMove (ex_owner "a" 1) (ex_owner "b" 2) 1 2 "a" "b" 2.
Definition ex_to_c : Move := mkMove (ex_owner "b" 2) (ex_owner "c" 3) 1 2 "b" "c" 3.
Definition ex_at_b : Handover := default ex_begin (ex_run true ex_in_order).
Definition ex_next (st : Handover) : Handover :=
  mkHandover (hB st) (mkServer NewStore 9) false false None false (hAccepted st).
Definition ex_on_to_c (st : Handover) : option Handover :=
  run ex_zero (ex_owner "b" 2) (ex_owner "c" 3) 1 2 "b" "c" 0 3 true
    [ESwitchA; ESwitchB; EOpen; ERecv (ex_at 31); ERecv (ex_at 32); ERecv (ex_at 33); EDrop (ex_at 34)] (ex_next st).
Definition ex_at_c : Handover := default ex_begin (ex_on_to_c ex_at_b).

Definition ex_finished (st : Handover) : bool * bool := (hDone st, bool_decide (is_Some (vNodeIdx (srvStore (hB st)) !! 0))).

Lemma ex_finished_b : ex_finished <$> ex_run true ex_in_order = Some (true, true).
Proof. vm_compute. reflexivity. Qed.
Lemma ex_finished_c : ex_finished <$> ex_on_to_c ex_at_b = Some (true, true).
Proof. vm_compute. reflexivity. Qed.

Lemma ex_finished_Some o d : ex_finished <$> o = Some (true, true) →
  o = Some (default d o) ∧ hDone (default d o) = true ∧ is_Some (vNodeIdx (srvStore (hB (default d o))) !! 0).
Proof.
  intros (st & -> & Hf)%fmap_Some. cbn [default]. injection Hf as H1 H2. split_and!; [done..|].
  symmetry in H2. by apply bool_decide_eq_true in H2.
Qed.

Lemma ex_owner_ok a b epoch epoch' members rf e2 : a ≠ b → move_ok 0 (mkMove (ex_owner a epoch) (ex_owner b epoch') rf members a b e2).
Proof.
  intros Hab. split; [apply ex_complete..|]. cbn [mvNew mvFrom ex_owner VNodes]. intros w. rewrite list_lookup_fmap.
  destruct (seqZ 0 1024 !! _); [|done]. cbn. intros [= <-]. cbn. by intros ->.
Qed.

Lemma ex_new_store_ok : store_ok ex_zero 0 NewStore.
Proof.
  split; [apply NewStore_index|]. intros k ver x _ Hk. change (abs NewStore) with (∅ : gmap string cell) in Hk.
  by rewrite lookup_empty in Hk.
Qed.

Lemma ex_move_b st : ex_run true ex_in_order = Some st → rtc (move_step ex_zero 0 ex_to_b) ex_begin st.
Proof. apply run_sound. Qed.
Lemma ex_move_c st st' : ex_on_to_c st = Some st' → rtc (move_step ex_zero 0 ex_to_c) (ex_next st) st'.
Proof. apply run_sound. Qed.

Lemma ex_moves_from st st' :
  ex_run true ex_in_order = Some st → hDone st = true → is_Some (vNodeIdx (srvStore (hB st)) !! 0) →
  ex_on_to_c st = Some st' → hDone st' = true → is_Some (vNodeIdx (srvStore (hB st')) !! 0) →
  moves ex_zero 0 (hA ex_begin) (hAccepted ex_begin) (hB st') (hAccepted st').
Proof.
  intros Hb Hbd Hbi Hc Hcd Hci.
  apply (moves_one ex_zero 0 ex_to_b ex_begin st);
    [by apply ex_owner_ok|reflexivity|reflexivity|apply ex_new_store_ok|by apply ex_move_b|done|done|].
  apply (moves_one ex_zero 0 ex_to_c (ex_next st) st');
    [by apply ex_owner_ok|reflexivity|reflexivity|apply ex_new_store_ok|by apply ex_move_c|done|done|constructor].
Qed.

Lemma ex_moves : moves ex_zero 0 (hA ex_begin) (hAccepted ex_begin) (hB ex_at_c) (hAccepted ex_at_c).
Proof.
  destruct (ex_finished_Some _ ex_begin ex_finished_b) as (Hb1 & Hb2 & Hb3).
  destruct (ex_finished_Some _ ex_begin ex_finished_c) as (Hc1 & Hc2 & Hc3).
  exact (ex_moves_from ex_at_b ex_at_c Hb1 Hb2 Hb3 Hc1 Hc2 Hc3).
Qed.

