(* ===== verification/Router.v ===== *)
(** * Placement-aware clients ([src/cluster/state.go], [src/cluster/router.go])

    A node serves its placement and the known RPC addresses; a router caches this state,
    sends writes to the primary of the key's vnode and reads to all copies in turn, and
    retries once after refreshing its state.  Connections and calls are inputs: [dialOk]
    says whether a connection pool can be made, [call] performs a call in a world of type
    [W] (the cluster). *)

From stdpp Require Import sorting.
From Stdlib.Strings Require Import Byte.
From S2P Require Import Prelude Text Float64 Placement AssignProofs Rebalance Membership Quorum.

(** ** Cluster state *)

Record ClusterVNode := mkCVNode { cvId : Z; cvPrimary : string; cvReplicas : list string }.
Record ClusterNode := mkCNode { cnId : string; cnRpcAddr : string; cnScore : f64 }.
Record ClusterState := mkCState { csEpoch : Z; csVnodes : list ClusterVNode; csNodes : list ClusterNode }.

Definition getNodeRPCAddr (addrs : gmap string string) (id : string) : string * bool :=
  match addrs !! id with Some a => (a, true) | None => (""%string, false) end.

(** Known addresses of nodes that are not in the placement, by identifier. *)
Definition extraNodes (addrs : gmap string string) (known : gset string) : list ClusterNode :=
  (λ id, mkCNode id (getNodeRPCAddr addrs id).1 f0) <$>
    sortedCopy (filter (λ id, id ∉ known) (map_to_list addrs).*1).

Definition SnapshotClusterState (pl : option Placement) (addrs : gmap string string) : ClusterState :=
  let '(epoch, vnodes, nodes) :=
    match pl with
    | None => (0, [], [])
    | Some p =>
        (Epoch p, (λ v, mkCVNode (u32 (vID v)) (Primary v) (Replicas v)) <$> VNodes p,
         (λ n, mkCNode (nID n) (getNodeRPCAddr addrs (nID n)).1 (Score n)) <$> Nodes p)
    end in
  let known := list_to_set (cnId <$> nodes) in
  mkCState epoch vnodes (nodes ++ extraNodes addrs known).

(** ** Routing *)

Record clientPool := mkPool { poolAddr : string; poolLen : Z; poolNext : Z }.

Record PlacementRouter := mkRouter {
  bootstrapAddr : string;
  poolSize : Z;
  bootstrapped : bool;                   (* [bootstrapClient] is set *)
  rState : option ClusterState;
  clients : gmap string clientPool;
  readCursor : Z
}.

Definition NewPlacementRouterWithPoolSize (addr : string) (size : Z) : PlacementRouter :=
  mkRouter (TrimSpace addr) (if size <=? 0 then 1 else size) false None ∅ 0.

Definition NewPlacementRouter (addr : string) : PlacementRouter := NewPlacementRouterWithPoolSize addr 4.

Definition setBootstrapped (r : PlacementRouter) (b : bool) : PlacementRouter :=
  mkRouter (bootstrapAddr r) (poolSize r) b (rState r) (clients r) (readCursor r).
Definition setState (r : PlacementRouter) (s : ClusterState) : PlacementRouter :=
  mkRouter (bootstrapAddr r) (poolSize r) (bootstrapped r) (Some s) (clients r) (readCursor r).
Definition setClients (r : PlacementRouter) (c : gmap string clientPool) : PlacementRouter :=
  mkRouter (bootstrapAddr r) (poolSize r) (bootstrapped r) (rState r) c (readCursor r).
Definition setCursor (r : PlacementRouter) (c : Z) : PlacementRouter :=
  mkRouter (bootstrapAddr r) (poolSize r) (bootstrapped r) (rState r) (clients r) c.

(** A client: the bootstrap connection, or connection [i] to an address. *)
Inductive Client := BootstrapClient | NodeClient (addr : string) (i : Z).

Inductive routeErr := NoBootstrap | DialFailed | PlacementNotReady | NoCandidates | RefreshFailed | CallErr (c : callCode)
with callCode := Unavailable | DeadlineExceeded | NotFoundCode | FailedPreconditionCode | OtherCode.

Definition bootstrapKVClient (dialOk : string → bool) (r : PlacementRouter) : PlacementRouter * (Client + routeErr) :=
  if bootstrapped r then (r, inl BootstrapClient)
  else if decide (bootstrapAddr r = ""%string) then (r, inr NoBootstrap)
  else if dialOk (bootstrapAddr r) then (setBootstrapped r true, inl BootstrapClient)
  else (r, inr DialFailed).

Definition clientForNode (dialOk : string → bool) (nodeID rpcAddr : string) (r : PlacementRouter)
    : PlacementRouter * (Client + routeErr) :=
  let nodeID := TrimSpace nodeID in
  let rpcAddr := TrimSpace rpcAddr in
  if bool_decide (nodeID = ""%string) || bool_decide (rpcAddr = ""%string) then bootstrapKVClient dialOk r
  else match clients r !! nodeID with
  | Some pool =>
      let next := poolNext pool +u64 1 in
      (setClients r (<[nodeID := mkPool (poolAddr pool) (poolLen pool) next]> (clients r)),
       inl (NodeClient (poolAddr pool) (next mod poolLen pool)))
  | None =>
      if dialOk rpcAddr
      then (setClients r (<[nodeID := mkPool rpcAddr (poolSize r) 0]> (clients r)), inl (NodeClient rpcAddr 0))
      else (r, inr DialFailed)
  end.

Record routeTarget := mkTarget { tNode : string; tAddr : string }.

Definition addrByNode (nodes : list ClusterNode) : gmap string string :=
  foldl (λ m n, <[cnId n := TrimSpace (cnRpcAddr n)]> m) ∅ nodes.

(** The targets among [ids] whose address is known. *)
Definition withAddr (m : gmap string string) (ids : list string) : list routeTarget :=
  omap (λ id, let addr := default ""%string (m !! id) in
              if decide (addr = ""%string) then None else Some (mkTarget id addr)) ids.

Definition rotated (offset : Z) (l : list routeTarget) : list routeTarget :=
  drop (Z.to_nat offset) l ++ take (Z.to_nat offset) l.

Section router.
Context (Sum64String : string → Z).

Definition vnodeIDForKey (key : string) : Z :=
  let '(idx, _) := Mul64 (HashKey Sum64String key) VNodeCount in u16 idx.

Definition routeForKey (key : string) (readAnyNode : bool) (r : PlacementRouter)
    : PlacementRouter * option (list routeTarget) :=
  match rState r with
  | None => (r, None)
  | Some state =>
      if negb (Z.of_nat (length (csVnodes state)) =? VNodeCount) then (r, None)
      else
        let vnodeID := vnodeIDForKey key in
        match csVnodes state !! Z.to_nat vnodeID with
        | None => (r, None)
        | Some vnode =>
            if decide (cvPrimary vnode = ""%string) then (r, None)
            else
              let m := addrByNode (csNodes state) in
              let targets := withAddr m [cvPrimary vnode] in
              if readAnyNode then
                let targets := targets ++ withAddr m (cvReplicas vnode) in
                if (1 <? length targets)%nat then
                  let c := readCursor r +u64 1 in
                  (setCursor r c, Some (rotated (c mod Z.of_nat (length targets)) targets))
                else (r, Some targets)
              else (r, Some targets)
        end
  end.

(** ** Calls *)

Context {W : Type} (dialOk : string → bool) (call : W → Client → W * option callCode).

Definition firstOf (firstErr : option routeErr) (e : routeErr) : option routeErr :=
  match firstErr with None => Some e | Some _ => firstErr end.

Definition retryable (c : callCode) : bool :=
  match c with Unavailable | DeadlineExceeded | FailedPreconditionCode => true | _ => false end.

(** The loop of [invoke]; [None] is success. *)
Fixpoint tryTargets (targets : list routeTarget) (firstErr : option routeErr) (r : PlacementRouter) (w : W)
    : PlacementRouter * W * option routeErr :=
  match targets with
  | [] => (r, w, Some (default NoCandidates firstErr))
  | t :: targets =>
      let '(r, client) := clientForNode dialOk (tNode t) (tAddr t) r in
      match client with
      | inr e => tryTargets targets (firstOf firstErr e) r w
      | inl client =>
          let '(w, res) := call w client in
          match res with
          | None => (r, w, None)
          | Some c =>
              if retryable c then tryTargets targets (firstOf firstErr (CallErr c)) r w
              else (r, w, Some (CallErr c))
          end
      end
  end.

Definition invoke (key : string) (readAnyNode : bool) (r : PlacementRouter) (w : W)
    : PlacementRouter * W * option routeErr :=
  let '(r, route) := routeForKey key readAnyNode r in
  match route with
  | None | Some [] => (r, w, Some PlacementNotReady)
  | Some targets => tryTargets targets None r w
  end.

(** [Refresh]: the state the bootstrap node returned, if the call succeeded. *)
Definition Refresh (fetched : option ClusterState) (r : PlacementRouter) : PlacementRouter * option routeErr :=
  let '(r, client) := bootstrapKVClient dialOk r in
  match client, fetched with
  | inl _, Some s => (setState r s, None)
  | inl _, None => (r, Some RefreshFailed)
  | inr e, _ => (r, Some e)
  end.

Definition rpcWithPlacement (key : string) (readAnyNode : bool) (fetched : option ClusterState)
    (r : PlacementRouter) (w : W) : PlacementRouter * W * option routeErr :=
  let '(r, w, err) := invoke key readAnyNode r w in
  match err with
  | None => (r, w, None)
  | Some _ => invoke key readAnyNode (Refresh fetched r).1 w
  end.
End router.

(** ** The client interface *)

Section client.
Context (Sum64String : string → Z) {W : Type} (dialOk : string → bool).

(** The calls of a node, as the world answers them. *)
Record KVClient := mkKV {
  kvGet : W → Client → string → Z → W * ((list byte * Z) + callCode);
  kvPut : W → Client → string → list byte → W * option callCode;
  kvDelete : W → Client → string → W * option callCode
}.
Context (kv : KVClient).

(** The closure of a read assigns [value] and [version]. *)
Definition getCall (key : string) (minVersion : Z) (s : W * (list byte * Z)) (c : Client)
    : (W * (list byte * Z)) * option callCode :=
  let '(w, got) := s in
  let '(w, resp) := kvGet kv w c key minVersion in
  match resp with inl vv => ((w, vv), None) | inr e => ((w, got), Some e) end.

Definition GetWithMinVersion (key : string) (minVersion : Z) (fetched : option ClusterState)
    (r : PlacementRouter) (w : W) : PlacementRouter * W * (list byte * Z) * option routeErr :=
  let '(r, (w, got), err) :=
    rpcWithPlacement Sum64String dialOk (getCall key minVersion) key true fetched r (w, ([], 0)) in
  (r, w, got, err).

Definition Get (key : string) (fetched : option ClusterState) (r : PlacementRouter) (w : W)
    : PlacementRouter * W * list byte * option routeErr :=
  let '(r, w, got, err) := GetWithMinVersion key 0 fetched r w in (r, w, got.1, err).

Definition Put (key : string) (value : list byte) (fetched : option ClusterState) (r : PlacementRouter) (w : W)
    : PlacementRouter * W * option routeErr :=
  rpcWithPlacement Sum64String dialOk (λ w c, kvPut kv w c key value) key false fetched r w.

Definition Delete (key : string) (fetched : option ClusterState) (r : PlacementRouter) (w : W)
    : PlacementRouter * W * option routeErr :=
  rpcWithPlacement Sum64String dialOk (λ w c, kvDelete kv w c key) key false fetched r w.
End client.
Arguments KVClient : clear implicits.

(** [Close]: every connection is closed and forgotten; the first failure is reported.
    [order] is the order in which Go iterates over the pools. *)
Definition Close (order : gmap string clientPool → list (string * clientPool)) (closeOk : Client → bool)
    (r : PlacementRouter) : PlacementRouter * option Client :=
  let boot := if bootstrapped r then [BootstrapClient] else [] in
  let pooled := order (clients r) ≫= λ p, (λ i, NodeClient (poolAddr p.2) (Z.of_nat i)) <$> seq 0 (Z.to_nat (poolLen p.2)) in
  (setClients (setBootstrapped r false) ∅, head (filter (λ c, closeOk c = false) (boot ++ pooled))).

(** The state of a router does not depend on its connections. *)
Lemma bootstrapKVClient_frame dialOk r :
  rState (bootstrapKVClient dialOk r).1 = rState r ∧ clients (bootstrapKVClient dialOk r).1 = clients r.
Proof. unfold bootstrapKVClient. by repeat case_match. Qed.

Lemma Refresh_frame dialOk fetched r :
  clients (Refresh dialOk fetched r).1 = clients r ∧
  (rState (Refresh dialOk fetched r).1 = rState r ∨ rState (Refresh dialOk fetched r).1 = fetched).
Proof.
  unfold Refresh. destruct (bootstrapKVClient_frame dialOk r) as [Hs Hc].
  destruct (bootstrapKVClient dialOk r) as [r' c]. simpl in *. repeat case_match; simpl; auto.
Qed.


(** ** Addresses in a snapshot *)

Lemma TrimSpace_empty : TrimSpace "" = ""%string.
Proof. reflexivity. Qed.

Lemma addrByNode_lookup (addrs : gmap string string) nodes id :
  Forall (λ n, cnRpcAddr n = default ""%string (addrs !! cnId n)) nodes →
  addrByNode nodes !! id
  = if decide (id ∈ cnId <$> nodes) then Some (TrimSpace (default ""%string (addrs !! id))) else None.
Proof.
  unfold addrByNode. induction nodes as [|n nodes IH] using rev_ind.
  { intros _. rewrite decide_False by apply not_elem_of_nil. apply lookup_empty. }
  intros [Hf Hn]%Forall_app. apply (proj1 (Forall_singleton _ _)) in Hn. cbn beta in Hn. rewrite foldl_app, fmap_app. cbn [foldl].
  destruct (decide (cnId n = id)) as [<-|Hne].
  - rewrite lookup_insert_eq, Hn, decide_True by set_solver. done.
  - rewrite lookup_insert_ne, IH by done. repeat case_decide; set_solver.
Qed.

Lemma getNodeRPCAddr_default addrs id : (getNodeRPCAddr addrs id).1 = default ""%string (addrs !! id).
Proof. unfold getNodeRPCAddr. by case_match. Qed.

Lemma snapshot_addr pl addrs id :
  default ""%string (addrByNode (csNodes (SnapshotClusterState pl addrs)) !! id)
  = TrimSpace (default ""%string (addrs !! id)).
Proof.
  unfold SnapshotClusterState. set (base := match pl with None => _ | Some p => _ end).
  destruct base as [[epoch vnodes] nodes] eqn:Eb. cbn [csNodes].
  assert (Hnodes : Forall (λ n, cnRpcAddr n = default ""%string (addrs !! cnId n)) nodes).
  { unfold base in Eb. destruct pl; simplify_eq; [|constructor].
    apply Forall_fmap, Forall_true. intros n. apply getNodeRPCAddr_default. }
  set (known := list_to_set (cnId <$> nodes) : gset string).
  assert (Hextra : Forall (λ n, cnRpcAddr n = default ""%string (addrs !! cnId n)) (extraNodes addrs known)).
  { apply Forall_fmap, Forall_true. intros n. apply getNodeRPCAddr_default. }
  rewrite (addrByNode_lookup addrs) by by apply Forall_app_2.
  case_decide as Hin; [done|]. destruct (addrs !! id) as [a|] eqn:E; [|done]. exfalso. apply Hin.
  rewrite fmap_app, elem_of_app. destruct (decide (id ∈ cnId <$> nodes)) as [|Hn]; [by left|right].
  unfold extraNodes. rewrite <-list_fmap_compose. cbn [compose cnId].
  apply list_elem_of_fmap. exists id. split; [done|].
  unfold sortedCopy. rewrite merge_sort_Permutation. apply list_elem_of_filter. split.
  - unfold known. by rewrite elem_of_list_to_set.
  - apply list_elem_of_fmap. exists (id, a). split; [done|]. by apply elem_of_map_to_list.
Qed.

(** The targets of a list of nodes, read off the known addresses. *)
Definition targetsOf (addrs : gmap string string) (ids : list string) : list routeTarget :=
  omap (λ id, let addr := TrimSpace (default ""%string (addrs !! id)) in
              if decide (addr = ""%string) then None else Some (mkTarget id addr)) ids.

Lemma withAddr_snapshot pl addrs ids :
  withAddr (addrByNode (csNodes (SnapshotClusterState pl addrs))) ids = targetsOf addrs ids.
Proof. unfold withAddr, targetsOf. apply list_omap_ext, Forall2_same_length_lookup_2; [done|].
  intros i x y Hx Hy. rewrite Hx in Hy. simplify_eq. by rewrite snapshot_addr. Qed.

Lemma snapshot_vnodes p addrs :
  csVnodes (SnapshotClusterState (Some p) addrs)
  = (λ v, mkCVNode (u32 (vID v)) (Primary v) (Replicas v)) <$> VNodes p.
Proof. reflexivity. Qed.

Section routing.
Context (Sum64String : string → Z) (Hhash : ∀ k, is_u64 (Sum64String k)).

Lemma vnodeIDForKey_index key :
  vnodeIDForKey Sum64String key = vnodeIndex Sum64String key.
Proof using Hhash.
  unfold vnodeIDForKey. destruct (Mul64_index Sum64String Hhash key) as [Hi Hb].
  destruct (Mul64 _ _) as [hi lo]. simpl in Hi. subst hi. unfold u16, VNodeCount in *.
  apply Z.mod_small. lia.
Qed.

(** What a router that holds a node's snapshot knows about a key. *)
Definition knows (r : PlacementRouter) (p : Placement) (addrs : gmap string string) (key : string) (v : VNode) : Prop :=
  rState r = Some (SnapshotClusterState (Some p) addrs) ∧ length (VNodes p) = 1024%nat ∧
  VNodes p !! Z.to_nat (vnodeIndex Sum64String key) = Some v ∧ Primary v ≠ ""%string.

Lemma routeForKey_knows r p addrs key v (any : bool) :
  knows r p addrs key v →
  let cands := targetsOf addrs [Primary v] ++ (if any then targetsOf addrs (Replicas v) else []) in
  routeForKey Sum64String key any r
  = if any && (1 <? length cands)%nat
    then (setCursor r (readCursor r +u64 1),
          Some (rotated ((readCursor r +u64 1) mod Z.of_nat (length cands)) cands))
    else (r, Some cands).
Proof using Hhash.
  intros (Hs & Hlen & Hv & Hp). unfold routeForKey. rewrite Hs, snapshot_vnodes.
  rewrite length_fmap, Hlen. change (Z.of_nat 1024 =? VNodeCount) with true. cbn [negb].
  rewrite vnodeIDForKey_index, list_lookup_fmap, Hv. cbn [fmap option_fmap option_map cvPrimary cvReplicas].
  rewrite decide_False by done. rewrite !withAddr_snapshot. destruct any; simpl; [done|].
  by rewrite app_nil_r.
Qed.

(** C27: writes go to the node that accepts them.  A router that holds the snapshot of a node
    sends a write only to the primary of the key's vnode, at its known address, and every
    node with that identifier and that placement considers itself the owner of the key. *)
Theorem writes_reach_owner r p addrs key v a :
  knows r p addrs key v → addrs !! Primary v = Some a → TrimSpace a ≠ ""%string →
  routeForKey Sum64String key false r = (r, Some [mkTarget (Primary v) (TrimSpace a)]) ∧
  ∀ node, rID node = Primary v → placement node = Some p →
    ∃ isReplica, CheckOwnership Sum64String node key = Some (true, isReplica, Primary v).
Proof using Hhash.
  intros Hk Ha Ht. split.
  - rewrite (routeForKey_knows r p addrs key v false Hk). cbn [andb]. rewrite app_nil_r.
    unfold targetsOf. cbn [omap list_omap]. rewrite Ha. cbn [default from_option id]. by rewrite decide_False.
  - destruct Hk as (_ & Hlen & Hv & _). intros node Hid Hpl. unfold CheckOwnership. rewrite Hpl.
    unfold GetNodesForKey. rewrite Hlen. change (Z.of_nat 1024 =? VNodeCount) with true. cbn [negb].
    destruct (Mul64_index Sum64String Hhash key) as [Hi _]. destruct (Mul64 _ _) as [hi lo]. simpl in Hi. subst hi.
    rewrite Hv. cbn. rewrite bool_decide_true by done. eauto.
Qed.

(** ** Reads *)

Definition readCandidates (addrs : gmap string string) (v : VNode) : list routeTarget :=
  targetsOf addrs [Primary v] ++ targetsOf addrs (Replicas v).

Lemma rotated_Permutation o l : rotated o l ≡ₚ l.
Proof. unfold rotated. rewrite Permutation_app_comm. by rewrite take_drop. Qed.

Lemma rotated_head o l : 0 <= o < Z.of_nat (length l) → head (rotated o l) = l !! Z.to_nat o.
Proof.
  intros Ho. unfold rotated. rewrite head_lookup, lookup_app_l, lookup_drop by (rewrite length_drop; lia).
  f_equal. lia.
Qed.

(** The first targets of [n] successive reads of a key. *)
Fixpoint firstTargets (key : string) (n : nat) (r : PlacementRouter) : list (option routeTarget) :=
  match n with
  | O => []
  | S n => let '(r', ts) := routeForKey Sum64String key true r in (ts ≫= head) :: firstTargets key n r'
  end.

Lemma knows_cursor r p addrs key v c : knows r p addrs key v → knows (setCursor r c) p addrs key v.
Proof. done. Qed.

Lemma firstTargets_lookup p addrs key v n r c :
  knows r p addrs key v → readCursor r = c → 0 <= c → c + Z.of_nat n < 2 ^ 64 →
  (1 < length (readCandidates addrs v))%nat →
  firstTargets key n r
  = (λ i, readCandidates addrs v !! Z.to_nat ((c + 1 + Z.of_nat i) mod Z.of_nat (length (readCandidates addrs v))))
      <$> seq 0 n.
Proof using Hhash.
  set (l := readCandidates addrs v). revert r c. induction n as [|n IH]; intros r c Hk Hc H0 Hn Hl; [done|].
  cbn [firstTargets]. rewrite (routeForKey_knows r p addrs key v true Hk). cbn [andb].
  fold (readCandidates addrs v). fold l. rewrite (proj2 (Nat.ltb_lt 1 (length l))) by done.
  rewrite Hc. unfold u64. rewrite (Z.mod_small (c + 1) (2 ^ 64)) by lia. cbn [mbind option_bind].
  assert (0 <= (c + 1) mod Z.of_nat (length l) < Z.of_nat (length l)) by (apply Z.mod_pos_bound; lia).
  rewrite rotated_head by done. cbn [seq]. rewrite fmap_cons. f_equal; [do 3 f_equal; lia|].
  rewrite (IH (setCursor r (c + 1)) (c + 1)); [|done|done|lia|lia|done].
  rewrite <-seq_shift, <-list_fmap_compose. apply list_fmap_ext. intros i x _. unfold compose. do 3 f_equal. lia.
Qed.

Lemma rotation_lookup (l : list routeTarget) k i :
  (i < length l)%nat → 0 <= k →
  l !! Z.to_nat ((k + Z.of_nat i) mod Z.of_nat (length l))
  = rotated (k mod Z.of_nat (length l)) l !! i.
Proof.
  intros Hi Hk. set (n := Z.of_nat (length l)). assert (Hn : 0 < n) by lia.
  pose proof (Z.mod_pos_bound k n Hn) as Hb.
  rewrite <-(Z.add_mod_idemp_l k) by lia. set (o := k mod n) in *. unfold rotated.
  destruct (decide (o + Z.of_nat i < n)) as [Hlt|Hge].
  - rewrite Z.mod_small, lookup_app_l, lookup_drop by (rewrite ?length_drop; lia). f_equal. lia.
  - rewrite lookup_app_r, length_drop, lookup_take_lt by (rewrite ?length_drop; lia).
    f_equal. replace (o + Z.of_nat i) with ((o + Z.of_nat i - n) + 1 * n) by lia.
    rewrite Z.mod_add, Z.mod_small by lia. lia.
Qed.

Lemma firstTargets_rotated p addrs key v r :
  knows r p addrs key v → 0 <= readCursor r →
  let cands := readCandidates addrs v in
  (1 < length cands)%nat → readCursor r + Z.of_nat (length cands) < 2 ^ 64 →
  firstTargets key (length cands) r
  = Some <$> rotated ((readCursor r + 1) mod Z.of_nat (length cands)) cands.
Proof using Hhash.
  intros Hk H0 cands Hl Hc. rewrite (firstTargets_lookup p addrs key v (length cands) r (readCursor r)) by done.
  fold cands. apply list_eq. intros i. rewrite !list_lookup_fmap.
  pose proof (Permutation_length (rotated_Permutation ((readCursor r + 1) mod Z.of_nat (length cands)) cands)) as Hlen.
  destruct (decide (i < length cands)%nat) as [Hi|Hi].
  - rewrite lookup_seq_lt by done. cbn [fmap option_fmap option_map]. rewrite Nat.add_0_l, rotation_lookup by lia.
    destruct (rotated _ cands !! i) eqn:E; [done|]. apply lookup_ge_None in E. lia.
  - rewrite (proj2 (lookup_ge_None (seq 0 (length cands)) i)) by (rewrite length_seq; lia).
    destruct (rotated _ cands !! i) eqn:E; [|done]. apply lookup_lt_Some in E. lia.
Qed.

(** Reads are spread evenly over the copies.  Every read of a key is offered all copies
    with a known address, and over as many successive reads as there are copies each of them
    is tried first exactly once. *)
Theorem reads_take_turns r p addrs key v :
  knows r p addrs key v → 0 <= readCursor r →
  let cands := readCandidates addrs v in
  (1 < length cands)%nat → readCursor r + Z.of_nat (length cands) < 2 ^ 64 →
  (∃ ts, (routeForKey Sum64String key true r).2 = Some ts ∧ ts ≡ₚ cands) ∧
  firstTargets key (length cands) r ≡ₚ Some <$> cands.
Proof using Hhash.
  intros Hk H0 cands Hl Hc. split.
  - rewrite (routeForKey_knows r p addrs key v true Hk). fold (readCandidates addrs v). fold cands.
    cbn [andb]. rewrite (proj2 (Nat.ltb_lt 1 (length cands))) by done. cbn [snd].
    eexists. split; [done|]. apply rotated_Permutation.
  - pose proof (firstTargets_rotated p addrs key v r Hk H0 Hl Hc) as E. cbv zeta in E. unfold cands.
    by rewrite E, rotated_Permutation.
Qed.
End routing.

(** ** Failures *)

(** A target whose identifier and address carry no surrounding space. *)
Definition plain (t : routeTarget) : Prop :=
  tNode t ≠ ""%string ∧ TrimSpace (tNode t) = tNode t ∧ tAddr t ≠ ""%string ∧ TrimSpace (tAddr t) = tAddr t.

#[export] Instance routeTarget_eq_dec : EqDecision routeTarget.
Proof. solve_decision. Defined.
#[export] Instance plain_dec t : Decision (plain t).
Proof. unfold plain. apply _. Defined.

(** Pools that were made for the addresses of the targets. *)
Definition pools_match (ts : list routeTarget) (r : PlacementRouter) : Prop :=
  ∀ t pool, t ∈ ts → clients r !! tNode t = Some pool → poolAddr pool = tAddr t.

Definition one_addr (ts : list routeTarget) : Prop :=
  ∀ t t', t ∈ ts → t' ∈ ts → tNode t = tNode t' → tAddr t = tAddr t'.

Lemma targetsOf_one_addr addrs ids : one_addr (targetsOf addrs ids).
Proof.
  intros t t' Ht Ht' E. apply list_elem_of_omap in Ht as (x & _ & Hx), Ht' as (y & _ & Hy).
  cbv zeta in Hx, Hy. destruct (decide _) in Hx; destruct (decide _) in Hy; simplify_eq. simpl in *. by subst.
Qed.

Lemma readCandidates_targets addrs v : readCandidates addrs v = targetsOf addrs (Primary v :: Replicas v).
Proof. unfold readCandidates, targetsOf. simpl. by case_decide. Qed.

Lemma clientForNode_plain dialOk t r all :
  plain t → t ∈ all → one_addr all → pools_match all r →
  pools_match all (clientForNode dialOk (tNode t) (tAddr t) r).1 ∧
  ((clientForNode dialOk (tNode t) (tAddr t) r).2 = inr DialFailed ∧ dialOk (tAddr t) = false ∨
   ∃ i, (clientForNode dialOk (tNode t) (tAddr t) r).2 = inl (NodeClient (tAddr t) i)).
Proof.
  intros (Hn & Tn & Ha & Ta) Hin Hone Hm. unfold clientForNode. rewrite Tn, Ta.
  rewrite !bool_decide_false by done. cbn [orb].
  assert (Hins : ∀ pool, poolAddr pool = tAddr t → pools_match all (setClients r (<[tNode t := pool]> (clients r)))).
  { intros pool Hp t' pool' Ht'. cbn [clients setClients]. destruct (decide (tNode t = tNode t')) as [E|E].
    - rewrite E, lookup_insert_eq. intros [= <-]. rewrite Hp. by apply Hone.
    - rewrite lookup_insert_ne by done. by apply Hm. }
  destruct (clients r !! tNode t) as [pool|] eqn:E.
  - assert (Hp : poolAddr pool = tAddr t) by by apply (Hm t). split; [by apply Hins|right].
    rewrite Hp. by eexists.
  - destruct (dialOk (tAddr t)) eqn:Ed; simpl; [split; [by apply Hins|right; by eexists]|]. auto.
Qed.

Section failures.
Context (Sum64String : string → Z) (Hhash : ∀ k, is_u64 (Sum64String k)).
Context {W : Type} (dialOk : string → bool) (call : W → Client → W * option callCode).
(** How the node behind an address answers. *)
Context (status : string → option callCode) (Hcall : ∀ w a i, (call w (NodeClient a i)).2 = status a).

Lemma tryTargets_finds all ts firstErr r w :
  Forall plain ts → ts ⊆ all → one_addr all → pools_match all r →
  (∀ t c, t ∈ ts → status (tAddr t) = Some c → retryable c = true) →
  (∃ t, t ∈ ts ∧ status (tAddr t) = None ∧ dialOk (tAddr t) = true) →
  (tryTargets dialOk call ts firstErr r w).2 = None.
Proof using Hhash Hcall.
  intros Hp. revert firstErr r w. induction Hp as [|t ts Ht Hp IH]; intros firstErr r w Hsub Hone Hm Hretry Hup.
  { destruct Hup as (t & Hin & _). by apply elem_of_nil in Hin. }
  destruct (clientForNode_plain dialOk t r all Ht ltac:(apply Hsub; left) Hone Hm) as [Hm' Hc].
  cbn [tryTargets]. destruct (clientForNode dialOk (tNode t) (tAddr t) r) as [r' c]. simpl in Hm', Hc.
  assert (Hrest : (status (tAddr t) = None → dialOk (tAddr t) = false) →
                  ∀ fe w', (tryTargets dialOk call ts fe r' w').2 = None).
  { intros Hdead fe w'. apply IH; try done; [set_solver| |].
    - intros t' c' Ht'. apply Hretry. by right.
    - destruct Hup as (t' & [->|Hin]%elem_of_cons & Hs & Hd); [rewrite Hdead in Hd by done; done|eauto]. }
  destruct Hc as [[-> Hd]|[i ->]]; [by apply Hrest|].
  pose proof (Hcall w (tAddr t) i) as Hs. destruct (call w (NodeClient (tAddr t) i)) as [w' res]. simpl in Hs. subst res.
  destruct (status (tAddr t)) as [code|] eqn:Es; [|done].
  rewrite (Hretry t code) by (done || left). apply Hrest. congruence.
Qed.

(** A read survives failing nodes.  When the connections of the router match the known
    addresses and every copy of the key's vnode answers, or fails in a way that allows trying
    another node (unavailable, deadline exceeded, stale routing), a read succeeds as long as
    one copy answers, whichever copy is tried first. *)
Theorem reads_survive_failures r p addrs key v fetched w :
  knows Sum64String r p addrs key v →
  let cands := readCandidates addrs v in
  Forall plain cands → pools_match cands r →
  (∀ t c, t ∈ cands → status (tAddr t) = Some c → retryable c = true) →
  (∃ t, t ∈ cands ∧ status (tAddr t) = None ∧ dialOk (tAddr t) = true) →
  (rpcWithPlacement Sum64String dialOk call key true fetched r w).2 = None.
Proof using Hhash Hcall.
  intros Hk cands Hp Hm Hretry Hup.
  assert (Hone : one_addr cands) by (unfold cands; rewrite readCandidates_targets; apply targetsOf_one_addr).
  assert (Hinv : (invoke Sum64String dialOk call key true r w).2 = None).
  { unfold invoke. rewrite (routeForKey_knows Sum64String Hhash r p addrs key v true Hk).
    fold (readCandidates addrs v). fold cands. cbn [andb].
    assert (Hts : ∀ ts r', ts ≡ₚ cands → clients r' = clients r →
      (match ts with [] => (r', w, Some PlacementNotReady) | _ => tryTargets dialOk call ts None r' w end).2 = None).
    { intros ts r' Hts Hc. destruct ts as [|t ts'].
      - destruct Hup as (t & Hin & _). rewrite <-Hts in Hin. by apply elem_of_nil in Hin.
      - apply (tryTargets_finds cands); try done; rewrite ?Hts; try done.
        + unfold pools_match. by rewrite Hc.
        + intros t' c Ht'. rewrite Hts in Ht'. by apply Hretry.
        + destruct Hup as (t' & ? & ?). exists t'. by rewrite Hts. }
    destruct (1 <? length cands)%nat; apply Hts; [apply rotated_Permutation|done|done|done]. }
  unfold rpcWithPlacement. destruct (invoke _ _ _ _ _ _ _) as [[r' w'] err]. simpl in Hinv. by subst err.
Qed.
End failures.

Section findings.
Context (Sum64String : string → Z) (Hhash : ∀ k, is_u64 (Sum64String k)).
Context {W : Type} (dialOk : string → bool) (call : W → Client → W * option callCode).

Lemma invoke_write r p addrs key v a w :
  knows Sum64String r p addrs key v → addrs !! Primary v = Some a → TrimSpace a ≠ ""%string →
  invoke Sum64String dialOk call key false r w
  = tryTargets dialOk call [mkTarget (Primary v) (TrimSpace a)] None r w.
Proof using Hhash.
  intros Hk Ha Ht. unfold invoke. rewrite (routeForKey_knows Sum64String Hhash r p addrs key v false Hk).
  cbn [andb]. rewrite app_nil_r. unfold targetsOf. cbn [omap list_omap]. rewrite Ha.
  cbn [default from_option id]. by rewrite decide_False.
Qed.

(** A pooled client keeps the address of the pool. *)
Lemma clientForNode_pooled id addr pool r :
  TrimSpace id = id → id ≠ ""%string → TrimSpace addr ≠ ""%string → clients r !! id = Some pool →
  ∃ i pool', clientForNode dialOk id addr r
    = (setClients r (<[id := pool']> (clients r)), inl (NodeClient (poolAddr pool) i)) ∧
    poolAddr pool' = poolAddr pool.
Proof.
  intros Ti Hi Ha Hp. unfold clientForNode. rewrite Ti, !bool_decide_false by done. cbn [orb]. rewrite Hp.
  by eexists _, _.
Qed.

(** A node that changed its address is not reached.  Pools are kept by node identifier
    and never compared with the address in the cluster state: when the primary has moved
    from the address its pool was made for, writes keep going to the old address and fail,
    even though refreshing has delivered the new one. *)
Theorem moved_node_not_reached r p addrs key v a old w :
  knows Sum64String r p addrs key v →
  addrs !! Primary v = Some a → TrimSpace (Primary v) = Primary v → TrimSpace (TrimSpace a) ≠ ""%string →
  poolAddr <$> clients r !! Primary v = Some old →
  (∀ w i, (call w (NodeClient old i)).2 = Some Unavailable) →
  (rpcWithPlacement Sum64String dialOk call key false (Some (SnapshotClusterState (Some p) addrs)) r w).2
  = Some (CallErr Unavailable).
Proof using Hhash.
  intros Hk Ha Tp Ht Hold Hcall.
  assert (Hta : TrimSpace a ≠ ""%string) by (intros E; rewrite E in Ht; done).
  assert (Hinv : ∀ r w, knows Sum64String r p addrs key v → poolAddr <$> clients r !! Primary v = Some old →
    ∃ r' w', invoke Sum64String dialOk call key false r w = (r', w', Some (CallErr Unavailable)) ∧
      poolAddr <$> clients r' !! Primary v = Some old ∧ rState r' = rState r).
  { intros r0 w0 Hk0 Ho. rewrite (invoke_write r0 p addrs key v a w0) by done. cbn [tryTargets tNode tAddr].
    destruct (clients r0 !! Primary v) as [pool|] eqn:Ep; [|done]. simpl in Ho. simplify_eq.
    destruct Hk0 as (_ & _ & _ & Hpne).
    destruct (clientForNode_pooled (Primary v) (TrimSpace a) pool r0) as (i & pool' & -> & Hp'); try done.
    pose proof (Hcall w0 i) as Hc. destruct (call w0 _) as [w1 res]. simpl in Hc. subst res. cbn [retryable].
    eexists _, _. split; [done|]. split; [|done]. cbn [clients setClients]. rewrite lookup_insert_eq. simpl. by rewrite Hp'. }
  unfold rpcWithPlacement. destruct (Hinv r w Hk Hold) as (r1 & w1 & -> & Ho1 & Hs1).
  destruct (Refresh_frame dialOk (Some (SnapshotClusterState (Some p) addrs)) r1) as [Hc2 Hs2].
  destruct Hk as (Hs & Hk). edestruct Hinv as (r2 & w2 & -> & _); [|by rewrite Hc2|done].
  split; [|done]. destruct Hs2 as [-> | ->]; [|done]. by rewrite Hs1.
Qed.
End findings.

(** Every failed write is sent again.  Whatever the error of the primary, including one
    that the routing loop treats as final (a missing key, or an internal error after the write
    was applied), the call is repeated after a refresh: the primary executes it twice. *)
Theorem failed_write_sent_twice Sum64String (Hhash : ∀ k, is_u64 (Sum64String k)) r p addrs key v a c w :
  let call (w : list Client) (cl : Client) := (w ++ [cl], Some c) in
  knows Sum64String r p addrs key v → addrs !! Primary v = Some a →
  plain (mkTarget (Primary v) (TrimSpace a)) → pools_match [mkTarget (Primary v) (TrimSpace a)] r →
  ∃ r' i j, rpcWithPlacement Sum64String (λ _, true) call key false None r w
    = (r', w ++ [NodeClient (TrimSpace a) i; NodeClient (TrimSpace a) j], Some (CallErr c)).
Proof.
  intros call Hk Ha Hp Hm. set (t := mkTarget (Primary v) (TrimSpace a)) in *.
  assert (Hone : one_addr [t]).
  { intros x y Hx Hy _. apply list_elem_of_singleton in Hx, Hy. by subst. }
  assert (Hinv : ∀ r w, knows Sum64String r p addrs key v → pools_match [t] r →
    ∃ r' i, invoke Sum64String (λ _, true) call key false r w
      = (r', w ++ [NodeClient (TrimSpace a) i], Some (CallErr c)) ∧ pools_match [t] r' ∧ rState r' = rState r).
  { intros r0 w0 Hk0 Hm0. rewrite (invoke_write Sum64String Hhash _ _ r0 p addrs key v a w0) by (done || apply Hp).
    destruct (clientForNode_plain (λ _, true) t r0 [t] Hp ltac:(left) Hone Hm0) as [Hm1 Hc].
    assert (Hs : rState (clientForNode (λ _, true) (tNode t) (tAddr t) r0).1 = rState r0)
      by (unfold clientForNode; repeat case_match; try done; apply bootstrapKVClient_frame).
    cbn [tryTargets]. fold t. destruct (clientForNode _ (tNode t) (tAddr t) r0) as [r1 cl]. simpl in Hm1, Hc, Hs.
    destruct Hc as [[_ ?]|[i ->]]; [done|]. exists r1, i. cbn [call]. by destruct (retryable c). }
  unfold rpcWithPlacement. destruct (Hinv r w Hk Hm) as (r1 & i & -> & Hm1 & Hs1).
  destruct (Refresh_frame (λ _, true) None r1) as [Hc2 Hs2]. destruct Hk as (Hs & Hk).
  destruct (Hinv (Refresh (λ _, true) None r1).1 (w ++ [NodeClient (TrimSpace a) i])) as (r2 & j & -> & _).
  - split; [|done]. unfold Refresh in *. destruct (bootstrapKVClient_frame (λ _, true) r1) as [Hs3 _].
    destruct (bootstrapKVClient _ r1) as [r3 [|]]; cbn [fst] in Hs3 |- *; by rewrite Hs3, Hs1.
  - unfold pools_match. by rewrite Hc2.
  - exists r2, i, j. by rewrite <-app_assoc.
Qed.

(** ** Witnesses *)

Definition ex_rvnodes : list VNode :=
  (λ v, mkVNode (vID v) (Token v) "n1" ["n2"; "n3"]%string) <$> InitializeVNodes.
Definition ex_rplacement : Placement := mkPlacement 3 [] ex_rvnodes.
Definition ex_addrs : gmap string string :=
  {["n1"%string := "a:1"%string; "n2"%string := "b:2"%string; "n3"%string := "c:3"%string]}.
Definition ex_router : PlacementRouter :=
  setState (NewPlacementRouterWithPoolSize "a:1" 2) (SnapshotClusterState (Some ex_rplacement) ex_addrs).
Definition ex_rvnode : VNode :=
  default (mkVNode 0 0 "" []) (ex_rvnodes !! Z.to_nat (vnodeIndex ex_hash "k")).

Lemma ex_rvnode_shape : Primary ex_rvnode = "n1"%string ∧ Replicas ex_rvnode = ["n2"; "n3"]%string.
Proof. split; vm_compute; reflexivity. Qed.

Lemma ex_knows r : rState r = rState ex_router → knows ex_hash r ex_rplacement ex_addrs "k" ex_rvnode.
Proof.
  intros Hs. split; [exact Hs|]. split; [vm_compute; reflexivity|]. split; [|by rewrite (proj1 ex_rvnode_shape)].
  vm_compute. reflexivity.
Qed.

Lemma writes_reach_owner_witness :
  routeForKey ex_hash "k" false ex_router = (ex_router, Some [mkTarget (Primary ex_rvnode) (TrimSpace "a:1")]).
Proof.
  apply (writes_reach_owner ex_hash ex_hash_u64 ex_router ex_rplacement ex_addrs "k" ex_rvnode "a:1").
  - exact (ex_knows ex_router eq_refl).
  - rewrite (proj1 ex_rvnode_shape). reflexivity.
  - discriminate.
Defined.

Lemma ex_candidates :
  readCandidates ex_addrs ex_rvnode = [mkTarget "n1" "a:1"; mkTarget "n2" "b:2"; mkTarget "n3" "c:3"]%string.
Proof. vm_compute. reflexivity. Qed.

Lemma reads_take_turns_witness :
  firstTargets ex_hash "k" 3 ex_router
  ≡ₚ Some <$> [mkTarget "n1" "a:1"; mkTarget "n2" "b:2"; mkTarget "n3" "c:3"]%string.
Proof.
  pose proof (reads_take_turns ex_hash ex_hash_u64 ex_router ex_rplacement ex_addrs "k" ex_rvnode
    (ex_knows ex_router eq_refl)) as H. cbv zeta in H. rewrite ex_candidates in H.
  apply H; [discriminate|simpl; lia|reflexivity].
Defined.

(** The node at [a:1] is down. *)
Definition ex_status (a : string) : option callCode :=
  if decide (a = "a:1"%string) then Some Unavailable else None.
Definition ex_call (w : unit) (c : Client) : unit * option callCode :=
  (w, match c with NodeClient a _ => ex_status a | BootstrapClient => None end).

Lemma reads_survive_failures_witness :
  (rpcWithPlacement ex_hash (λ _, true) ex_call "k" true None ex_router tt).2 = None.
Proof.
  apply (reads_survive_failures ex_hash ex_hash_u64 (λ _, true) ex_call ex_status (λ w a i, eq_refl)
    ex_router ex_rplacement ex_addrs "k" ex_rvnode).
  - exact (ex_knows ex_router eq_refl).
  - rewrite ex_candidates. apply (bool_decide_unpack (Forall _ _)). vm_compute. exact I.
  - intros t pool _ Hp. discriminate Hp.
  - intros t c _ Hs. unfold ex_status in Hs. destruct (decide _); [|discriminate Hs]. by injection Hs as <-.
  - rewrite ex_candidates. exists (mkTarget "n2" "b:2"). split; [|split; reflexivity].
    apply (bool_decide_unpack (_ ∈ _)). vm_compute. exact I.
Defined.

(** A router whose pool for [n1] was made for another address. *)
Definition ex_stale : PlacementRouter := setClients ex_router {["n1"%string := mkPool "old:9" 2 0]}.
Definition ex_call_old (w : unit) (c : Client) : unit * option callCode :=
  (w, match c with NodeClient a _ => if decide (a = "old:9"%string) then Some Unavailable else None
                 | BootstrapClient => None end).

Lemma moved_node_not_reached_witness :
  (rpcWithPlacement ex_hash (λ _, true) ex_call_old "k" false
     (Some (SnapshotClusterState (Some ex_rplacement) ex_addrs)) ex_stale tt).2 = Some (CallErr Unavailable).
Proof.
  apply (moved_node_not_reached ex_hash ex_hash_u64 (λ _, true) ex_call_old ex_stale ex_rplacement ex_addrs
    "k" ex_rvnode "a:1" "old:9").
  - exact (ex_knows ex_stale eq_refl).
  - rewrite (proj1 ex_rvnode_shape). reflexivity.
  - rewrite (proj1 ex_rvnode_shape). reflexivity.
  - discriminate.
  - rewrite (proj1 ex_rvnode_shape). reflexivity.
  - reflexivity.
Defined.

Lemma failed_write_sent_twice_witness :
  ∃ r' i j, rpcWithPlacement ex_hash (λ _, true) (λ (w : list Client) cl, (w ++ [cl], Some NotFoundCode))
      "k" false None ex_router [] = (r', [NodeClient "a:1" i; NodeClient "a:1" j], Some (CallErr NotFoundCode)).
Proof.
  apply (failed_write_sent_twice ex_hash ex_hash_u64 ex_router ex_rplacement ex_addrs "k" ex_rvnode "a:1" NotFoundCode []).
  - exact (ex_knows ex_router eq_refl).
  - rewrite (proj1 ex_rvnode_shape). reflexivity.
  - rewrite (proj1 ex_rvnode_shape). apply (bool_decide_unpack (plain _)). vm_compute. exact I.
  - intros t pool _ Hp. discriminate Hp.
Defined.
