(* ===== verification/LoadGen.v ===== *)
(** * The load generator ([src/cmd/loadgen/main.go])

    Workers draw operations and keys, run them through a placement router and record
    latencies in a histogram per operation, from which the report reads its quantiles.
    Random draws and measured durations are inputs; printing is left out. *)

From Stdlib.Strings Require Import Byte.
From S2P Require Import Prelude Text Float64 Placement Rebalance Membership Quorum Router.

(** ** Operations and keys *)

Inductive operation := opPut | opGet | opDelete.
#[export] Instance operation_eq_dec : EqDecision operation.
Proof. solve_decision. Defined.

Record opMix := mkMix { putEnd : Z; getEnd : Z }.

(** [v] is the draw from [0, 100). *)
Definition pick (m : opMix) (v : Z) : operation :=
  if v <? putEnd m then opPut else if v <? getEnd m then opGet else opDelete.

Record LoadConfig := mkLoad {
  Addr : string; Clients : Z; Conns : Z; Timeout : Z;
  TLSEnable : bool; TLSCACertFile : string; TLSServerName : string; TLSInsecureSkip : bool;
  ValueSize : Z; Keyspace : Z; PrefillKeys : Z; Warmup : Z; LDuration : Z; ProgressEvery : Z;
  Distribution : string; ZipfS : f64; ZipfV : f64;
  ReadPct : Z; WritePct : Z; DeletePct : Z; TargetOpsPerSec : Z; Seed : Z;
  PutOnly : bool; UseStream : bool
}.

Inductive mixErr := NegativePct | SumNot100.

Definition buildMix (cfg : LoadConfig) : opMix + mixErr :=
  if PutOnly cfg then inl (mkMix 100 100)
  else if (ReadPct cfg <? 0) || (WritePct cfg <? 0) || (DeletePct cfg <? 0) then inr NegativePct
  else if negb (ReadPct cfg +i64 WritePct cfg +i64 DeletePct cfg =? 100) then inr SumNot100
  else inl (mkMix (WritePct cfg) (WritePct cfg +i64 ReadPct cfg)).

(** [latestPicker.Next]; [v] is the fourth power of the draw. *)
Definition latestNext (keyspace : Z) (v : f64) : Z :=
  if keyspace <=? 1 then 0
  else
    let idx := floorZ (fmul (fsub f1 v) (of_Z (keyspace - 1))) in
    let idx := if idx <? 0 then 0 else idx in
    if keyspace <=? idx then keyspace - 1 else idx.

(** [zipfPicker.Next]; [u] is the draw of the Zipf generator. *)
Definition zipfNext (max u : Z) : Z := u mod (max +u64 1).

(** ** The recorder *)

Record opStats := mkStats { okN : Z; failN : Z; latencySum : f64; latencyHist : list Z }.

Definition bounds : list f64 :=
  [ratio 1 4; ratio 1 2] ++ (of_Z <$> [1; 2; 5; 10; 20; 50; 100; 200; 500; 1000; 2000; 5000]).

Definition newStats : opStats := mkStats 0 0 f0 (replicate 15 0).

Definition recorder : Type := operation → opStats.
Definition newRecorder : recorder := λ _, newStats.

(** The first bucket whose bound is at least [ms]. *)
Fixpoint bucketOf (bs : list f64) (ms : f64) : nat :=
  match bs with
  | [] => 0
  | b :: bs => if fle ms b then 0 else S (bucketOf bs ms)
  end.

(** [d] in nanoseconds. *)
Definition millis (d : Z) : f64 := fdiv (of_Z (Z.quot d 1000)) (of_Z 1000).

Definition observeStats (s : opStats) (d : Z) (failed : bool) : opStats :=
  if failed then mkStats (okN s) (failN s +u64 1) (latencySum s) (latencyHist s)
  else
    let ms := millis d in
    mkStats (okN s +u64 1) (failN s) (fadd (latencySum s) ms)
      (alter (λ c, c +u64 1) (bucketOf bounds ms) (latencyHist s)).

Definition observe (op : operation) (d : Z) (failed : bool) (r : recorder) : recorder :=
  λ o, if decide (o = op) then observeStats (r o) d failed else r o.

(** A snapshot copies the histograms, so later observations do not change it. *)
Definition totalOK (r : recorder) : Z := okN (r opPut) +u64 okN (r opGet) +u64 okN (r opDelete).
Definition totalFail (r : recorder) : Z := failN (r opPut) +u64 failN (r opGet) +u64 failN (r opDelete).

(** [math.Ceil] of a positive number, as an integer. *)
Definition ceilZ (x : f64) : Z :=
  match x with
  | S754_finite false m e => if 0 <=? e then Zpos m * 2 ^ e else (Zpos m + 2 ^ (- e) - 1) / 2 ^ (- e)
  | _ => 0
  end.

(** The rank of quantile [q] among [total] observations. *)
Definition rankOf (total : Z) (q : f64) : Z :=
  let target := ceilZ (fmul (of_Z total) q) in if target =? 0 then 1 else target.

(** The scan of [qFromHist]: the first bucket where the running count reaches [target]. *)
Fixpoint scanHist (hist : list Z) (cumulative target : Z) : option nat :=
  match hist with
  | [] => None
  | c :: hist =>
      let cumulative := cumulative +u64 c in
      if target <=? cumulative then Some 0%nat else S <$> scanHist hist cumulative target
  end.

Definition qFromHist (hist : list Z) (bs : list f64) (q : f64) : f64 :=
  let total := foldl (λ t c, t +u64 c) 0 hist in
  if total =? 0 then f0
  else
    let lastBound := default f0 (list.last bs) in
    match scanHist hist 0 (rankOf total q) with
    | Some i => default lastBound (bs !! i)
    | None => lastBound
    end.

(** ** Running operations *)

Section ops.
Context (Sum64String : string → Z) {W : Type} (dialOk : string → bool) (kv : KVClient W).

(** A miss completes a read. *)
Definition doOp (op : operation) (key : string) (value : list byte) (fetched : option ClusterState)
    (r : PlacementRouter) (w : W) : PlacementRouter * W * option routeErr :=
  match op with
  | opPut => Router.Put Sum64String dialOk kv key value fetched r w
  | opGet =>
      let '(r, w, _, err) := Router.Get Sum64String dialOk kv key fetched r w in
      (r, w, match err with Some (CallErr NotFoundCode) => None | _ => err end)
  | opDelete => Router.Delete Sum64String dialOk kv key fetched r w
  end.

(** One turn of a worker: the operation drawn (or a put with streaming), its key, and the
    observation when the phase is measured. *)
Definition workerTurn (cfg : LoadConfig) (mix : opMix) (measure : bool) (v : Z) (key : string) (value : list byte)
    (fetched : option ClusterState) (d : Z) (r : PlacementRouter) (w : W) (rec : recorder)
    : PlacementRouter * W * recorder :=
  let op := if UseStream cfg then opPut else pick mix v in
  let '(r, w, err) := doOp op key value fetched r w in
  (r, w, if measure then observe op d (bool_decide (is_Some err)) rec else rec).
End ops.

(** ** Prefill *)

Definition prefillWorkers (cfg : LoadConfig) : Z :=
  let workers := if PrefillKeys cfg <? Clients cfg then PrefillKeys cfg else Clients cfg in
  if workers <=? 0 then 1 else workers.

(** The keys of one worker: [k], [k + workers], ... below [n]. *)
Fixpoint strided (fuel k workers n : nat) : list nat :=
  match fuel with
  | O => []
  | S fuel => if (k <? n)%nat then k :: strided fuel (k + workers) workers n else []
  end.

(** Worker [id] needs at most as many turns as there are keys. *)
Definition prefillKeys (cfg : LoadConfig) (id : nat) : list nat :=
  strided (Z.to_nat (PrefillKeys cfg)) id (Z.to_nat (prefillWorkers cfg)) (Z.to_nat (PrefillKeys cfg)).

Lemma elem_of_strided fuel k w n x :
  (0 < w)%nat → (n <= k + fuel)%nat →
  x ∈ strided fuel k w n ↔ (k <= x < n)%nat ∧ ∃ j, x = (k + j * w)%nat.
Proof.
  intros Hw. revert k. induction fuel as [|fuel IH]; intros k Hf; simpl.
  { split; [by intros ?%elem_of_nil|lia]. }
  destruct (k <? n)%nat eqn:E; bool_to_prop; [|split; [by intros ?%elem_of_nil|lia]].
  rewrite elem_of_cons, IH by lia. split.
  - intros [-> |[? [j ->]]]; [split; [lia|exists 0%nat; lia]|split; [lia|exists (S j); lia]].
  - intros [? [[|j] ->]]; [left; lia|right; split; [nia|exists j; lia]].
Qed.

Lemma NoDup_strided fuel k w n : (0 < w)%nat → (n <= k + fuel)%nat → NoDup (strided fuel k w n).
Proof.
  intros Hw. revert k. induction fuel as [|fuel IH]; intros k Hf; simpl; [constructor|].
  destruct (k <? n)%nat; [|constructor]. apply list.NoDup_cons. split; [|apply IH; lia].
  rewrite elem_of_strided by lia. lia.
Qed.

Lemma prefillKeys_spec cfg id x :
  (id < Z.to_nat (prefillWorkers cfg))%nat →
  x ∈ prefillKeys cfg id ↔ (x < Z.to_nat (PrefillKeys cfg))%nat ∧ (x mod Z.to_nat (prefillWorkers cfg) = id)%nat.
Proof.
  intros Hid. unfold prefillKeys. set (w := Z.to_nat (prefillWorkers cfg)) in *.
  rewrite elem_of_strided by lia. split.
  - intros [? [j ->]]. split; [lia|]. rewrite Nat.Div0.mod_add. by apply Nat.mod_small.
  - intros [? <-]. pose proof (Nat.div_mod_eq x w). split; [lia|]. exists (x / w)%nat. lia.
Qed.

Lemma elem_of_concat {A} (x : A) ls : x ∈ concat ls ↔ ∃ l, x ∈ l ∧ l ∈ ls.
Proof. rewrite list_elem_of_In, in_concat. setoid_rewrite list_elem_of_In. naive_solver. Qed.

(** Prefilling writes every requested key exactly once: the workers' shares are a partition
    of the keys, whatever the number of clients. *)
Theorem prefill_partitions cfg :
  concat (prefillKeys cfg <$> seq 0 (Z.to_nat (prefillWorkers cfg))) ≡ₚ seq 0 (Z.to_nat (PrefillKeys cfg)).
Proof.
  set (w := Z.to_nat (prefillWorkers cfg)). set (n := Z.to_nat (PrefillKeys cfg)).
  assert (Hw : (0 < w)%nat) by (unfold w, prefillWorkers; repeat case_match; bool_to_prop; lia).
  apply NoDup_Permutation; [|apply NoDup_seq|].
  - assert (Hgen : ∀ k m, (k + m <= w)%nat → NoDup (concat (prefillKeys cfg <$> seq k m)) ∧
      (∀ x, x ∈ concat (prefillKeys cfg <$> seq k m) → (k <= x mod w < k + m)%nat)).
    { intros k m. revert k. induction m as [|m IH]; intros k Hk; [split; [constructor|by intros x ?%elem_of_nil]|].
      cbn [seq]. rewrite fmap_cons. cbn [concat]. destruct (IH (S k) ltac:(lia)) as [Hn Hb]. split.
      - apply list.NoDup_app. split_and!; [apply NoDup_strided; [done|fold n; lia]| |done].
        intros x Hx Hx'%Hb. apply prefillKeys_spec in Hx; [fold w in Hx; lia|lia].
      - intros x [Hx|Hx%Hb]%elem_of_app; [|lia]. apply prefillKeys_spec in Hx; [fold w in Hx; lia|lia]. }
    apply (Hgen 0%nat w). lia.
  - intros x. rewrite elem_of_seq. rewrite elem_of_concat. split.
    + intros (l & Hx & Hl). apply list_elem_of_fmap in Hl as (id & -> & Hid).
      apply elem_of_seq in Hid. apply prefillKeys_spec in Hx; [fold n in Hx; lia|fold w; lia].
    + intros Hx. exists (prefillKeys cfg (x mod w)%nat).
      pose proof (Nat.mod_upper_bound x w ltac:(lia)).
      split; [apply prefillKeys_spec; fold w n; lia|]. apply list_elem_of_fmap. eexists. split; [done|].
      apply elem_of_seq. lia.
Qed.

(** ** The histogram counts what was observed *)

(** The buckets of the successful observations, [(duration, failed)]. *)
Definition bucketsOf (obs : list (Z * bool)) : list nat :=
  (λ o, bucketOf bounds (millis o.1)) <$> filter (λ o, o.2 = false) obs.

Definition observeAll (obs : list (Z * bool)) : opStats :=
  foldl (λ s o, observeStats s o.1 o.2) newStats obs.

Definition tally (P : nat → Prop) `{∀ i, Decision (P i)} (l : list nat) : Z := Z.of_nat (length (filter P l)).

Lemma tally_snoc (P : nat → Prop) `{∀ i, Decision (P i)} l x : tally P (l ++ [x]) = tally P l + if decide (P x) then 1 else 0.
Proof.
  unfold tally. rewrite list.filter_app, length_app, filter_cons, filter_nil. case_decide; simpl; lia.
Qed.

Lemma tally_le (P : nat → Prop) `{∀ i, Decision (P i)} l : 0 <= tally P l <= Z.of_nat (length l).
Proof. unfold tally. pose proof (length_filter P l). lia. Qed.

Lemma bucketOf_bound bs ms : (bucketOf bs ms <= length bs)%nat.
Proof. induction bs as [|b bs IH]; simpl; [lia|]. case_match; lia. Qed.

(** An observation is at most the bound of its bucket, and above the bounds of all earlier ones. *)
Lemma bucketOf_spec bs ms :
  (∀ b, bs !! bucketOf bs ms = Some b → fle ms b = true) ∧
  (∀ j b, (j < bucketOf bs ms)%nat → bs !! j = Some b → fle ms b = false).
Proof.
  induction bs as [|b bs IH]; simpl; [split; [done|lia]|]. destruct (fle ms b) eqn:E; simpl.
  - split; [by intros ? [= <-]|lia].
  - split; [apply IH|]. intros [|j] b' Hj Hb; simpl in Hb; [by simplify_eq|]. apply (proj2 IH j); [lia|done].
Qed.

Lemma bucketsOf_snoc obs d failed :
  bucketsOf (obs ++ [(d, failed)]) = bucketsOf obs ++ (if failed : bool then [] else [bucketOf bounds (millis d)]).
Proof.
  unfold bucketsOf. rewrite list.filter_app, fmap_app, filter_cons, filter_nil. f_equal. by destruct failed.
Qed.

(** Counts are exact: successes, failures, and the number of successful observations in each
    bucket. *)
Theorem histogram_exact obs :
  Z.of_nat (length obs) < 2 ^ 64 →
  let s := observeAll obs in
  okN s = Z.of_nat (length (bucketsOf obs)) ∧
  failN s = Z.of_nat (length obs - length (bucketsOf obs)) ∧
  latencyHist s = (λ i, tally (λ x, x = i) (bucketsOf obs)) <$> seq 0 15.
Proof.
  induction obs as [|[d failed] obs IH] using rev_ind; intros Hlen; [done|].
  rewrite length_app in Hlen. simpl in Hlen. destruct IH as (Ho & Hf & Hh); [lia|]. unfold observeAll in *.
  rewrite foldl_app. cbn [foldl fst snd]. set (s := foldl _ newStats obs) in *. rewrite bucketsOf_snoc, !length_app.
  assert (Hb : (length (bucketsOf obs) <= length obs)%nat).
  { unfold bucketsOf. rewrite length_fmap. apply length_filter. }
  unfold observeStats. destruct failed.
  - cbn [okN failN latencyHist]. rewrite app_nil_r. split_and!; [simpl; lia| |done].
    rewrite Hf. unfold u64. rewrite Z.mod_small by lia. simpl. lia.
  - cbn [okN failN latencyHist]. split_and!.
    + rewrite Ho. unfold u64. rewrite Z.mod_small by lia. simpl. lia.
    + rewrite Hf. simpl. lia.
    + rewrite Hh. set (b := bucketOf bounds (millis d)). apply list_eq. intros i. rewrite list_lookup_alter, !list_lookup_fmap.
      destruct (decide (i < 15)%nat) as [Hi|Hi].
      * pose proof (tally_le (λ x, x = i) (bucketsOf obs)).
        destruct (decide (b = i)) as [->|Hne]; rewrite lookup_seq_lt by done;
          cbn [fmap option_fmap option_map Nat.add]; rewrite tally_snoc; f_equal.
        -- rewrite decide_True by done. unfold u64. rewrite Z.mod_small by lia. lia.
        -- rewrite decide_False by done. lia.
      * rewrite (proj2 (lookup_ge_None (seq 0 15) i)) by (rewrite length_seq; lia).
        destruct (decide (b = i)) as [->|]; [|done].
        by rewrite (proj2 (lookup_ge_None (seq 0 15) i)) by (rewrite length_seq; lia).
Qed.

(** ** Quantiles *)

Lemma tally_split l i : tally (λ x, x < S i)%nat l = tally (λ x, x < i)%nat l + tally (λ x, x = i) l.
Proof.
  induction l as [|x l IH]; [done|]. unfold tally in *. rewrite !filter_cons.
  repeat case_decide; simpl length; lia.
Qed.

Lemma tally_all (P : nat → Prop) `{∀ i, Decision (P i)} l : Forall P l → tally P l = Z.of_nat (length l).
Proof.
  unfold tally. induction 1 as [|x l Hx _ IH]; [done|]. rewrite filter_cons, decide_True by done. simpl. lia.
Qed.

Lemma scanHist_spec l n k target :
  Z.of_nat (length l) < 2 ^ 64 → tally (λ x, x < k)%nat l < target <= tally (λ x, x < k + n)%nat l →
  ∃ i, scanHist ((λ i, tally (λ x, x = i) l) <$> seq k n) (tally (λ x, x < k)%nat l) target = Some i ∧
       tally (λ x, x < k + i)%nat l < target <= tally (λ x, x < S (k + i))%nat l.
Proof.
  intros Hl. revert k. induction n as [|n IH]; intros k Ht; [rewrite Nat.add_0_r in Ht; lia|].
  cbn [seq]. rewrite fmap_cons. cbn [scanHist]. pose proof (tally_le (λ x, x < S k)%nat l) as Hb.
  pose proof (tally_split l k) as Hs. unfold u64. rewrite <-Hs, Z.mod_small by lia.
  destruct (target <=? tally _ l) eqn:E; bool_to_prop.
  - exists 0%nat. rewrite Nat.add_0_r. split; [done|lia].
  - destruct (IH (S k)) as (i & Hi & Hr); [rewrite Nat.add_succ_comm; lia|]. exists (S i). rewrite Hi.
    split; [done|]. by rewrite <-Nat.add_succ_comm.
Qed.

Lemma foldl_u64 l acc :
  Forall (λ c, 0 <= c) l → 0 <= acc → acc + foldr Z.add 0 l < 2 ^ 64 →
  foldl (λ t c, t +u64 c) acc l = acc + foldr Z.add 0 l.
Proof.
  intros Hl. revert acc. induction Hl as [|c l Hc Hl IH]; intros acc Ha Hb; simpl in *; [lia|].
  assert (0 <= foldr Z.add 0 l) by (clear - Hl; induction Hl; simpl; lia).
  unfold u64. rewrite Z.mod_small by lia. rewrite IH; lia.
Qed.

Lemma hist_total l n : foldr Z.add 0 ((λ i, tally (λ x, x = i) l) <$> seq 0 n) = tally (λ x, x < n)%nat l.
Proof.
  assert (Hgen : ∀ k, foldr Z.add 0 ((λ i, tally (λ x, x = i) l) <$> seq k n)
    = tally (λ x, x < k + n)%nat l - tally (λ x, x < k)%nat l).
  { induction n as [|n IH]; intros k; [rewrite Nat.add_0_r; simpl; lia|]. cbn [seq]. rewrite fmap_cons.
    cbn [foldr]. rewrite IH, (tally_split l k), Nat.add_succ_comm. lia. }
  rewrite Hgen. enough (tally (λ x, x < 0)%nat l = 0) as ->; [simpl; lia|].
  clear Hgen. unfold tally. induction l as [|x l IH]; [done|]. rewrite filter_cons, decide_False by lia. exact IH.
Qed.

Lemma bucketsOf_below obs : Forall (λ x, x < 15)%nat (bucketsOf obs).
Proof.
  apply Forall_fmap, Forall_true. intros o. pose proof (bucketOf_bound bounds (millis o.1)) as Hb.
  unfold compose. change (length bounds) with 14%nat in Hb. lia.
Qed.

(** The reported quantile is the bound of the bucket that holds the observation of its rank:
    fewer than [rankOf] observations fall into earlier buckets, and at least [rankOf] into this
    one and the earlier ones (the last bound is reported for the unbounded bucket). *)
Theorem quantile_exact obs q :
  let l := bucketsOf obs in
  let total := Z.of_nat (length l) in
  Z.of_nat (length obs) < 2 ^ 64 → 1 <= rankOf total q <= total →
  ∃ i, qFromHist (latencyHist (observeAll obs)) bounds q = default (of_Z 5000) (bounds !! i) ∧
       tally (λ x, x < i)%nat l < rankOf total q <= tally (λ x, x < S i)%nat l.
Proof.
  intros l total Hlen Hr. destruct (histogram_exact obs Hlen) as (_ & _ & Hh). rewrite Hh. fold l.
  assert (Hl : total < 2 ^ 64).
  { unfold total, l, bucketsOf. rewrite length_fmap. pose proof (length_filter (λ o : Z * bool, o.2 = false) obs). lia. }
  assert (Hall : tally (λ x, x < 15)%nat l = total).
  { apply tally_all, bucketsOf_below. }
  unfold qFromHist. rewrite foldl_u64; [|apply Forall_fmap, Forall_true; intros i; apply tally_le|done|
    rewrite hist_total, Hall; lia].
  rewrite hist_total, Hall, Z.add_0_l. rewrite (proj2 (Z.eqb_neq total 0)) by lia.
  assert (Hz : tally (λ x, x < 0)%nat l = 0).
  { pose proof (hist_total l 0) as H0. by simpl in H0. }
  destruct (scanHist_spec l 15 0 (rankOf total q)) as (i & Hi & Hrk); [done|rewrite Hz; change (0 + 15)%nat with 15%nat; rewrite Hall; lia|].
  rewrite Hz in Hi. rewrite Hi. exists i. split; [reflexivity|done].
Qed.
