(* ===== verification/SessionRead.v ===== *)
(** * Reading one's own writes through a router

    The client's router ([src/cluster/router.go]) composed with the [Get] handlers of the
    nodes it reaches ([src/core/rpc.go]).  A client that remembers the version of its last write
    reads with that version as a minimum; a node that lags behind answers "stale" or
    "not found". *)

From Stdlib.Strings Require Import Byte.
From S2P Require Import Prelude Text Float64 Store StoreSpec WalCodec WalWriter EventLoop Server ServerProofs.
From S2P Require Import Placement AssignProofs Rebalance Membership Quorum Router.

(** ** Nodes behind addresses *)

Definition codeOf (c : Code) : callCode :=
  match c with
  | FailedPrecondition => FailedPreconditionCode
  | NotFound => NotFoundCode
  | Internal | InvalidArgument => OtherCode
  end.

Section nodes.
Context (e : Env) (boot : string).

(** [Get] at the node that listens on an address; nobody listens: unavailable. *)
Definition getAt (a : string) (w : gmap string Server) (key : string) (minVersion : Z)
    : gmap string Server * ((list byte * Z) + callCode) :=
  match w !! a with
  | None => (w, inr Unavailable)
  | Some srv =>
      let '(srv, r) := Server.Get e srv key minVersion in
      (<[a := srv]> w, match r with inl vv => inl vv | inr c => inr (codeOf c) end)
  end.

Definition addrOf (c : Client) : string := match c with BootstrapClient => boot | NodeClient a _ => a end.

(** The client stubs of a cluster that only serves reads. *)
Definition readKV : KVClient (gmap string Server) :=
  mkKV (λ w c key m, getAt (addrOf c) w key m) (λ w c _ _, (w, Some OtherCode)) (λ w c _, (w, Some OtherCode)).

Lemma Get_same srv key m : (Server.Get e srv key m).1 = srv.
Proof.
  unfold Server.Get, sendRequest. destruct (delivery e); simpl; unfold loopAnswer; simpl; destruct srv; simpl.
  all: unfold getResponse; simpl; repeat case_match; simplify_eq; done.
Qed.

(** What the node at [a] answers, and that it changes nothing. *)
Definition answerAt (w : gmap string Server) (key : string) (m : Z) (a : string) : (list byte * Z) + callCode :=
  match w !! a with
  | None => inr Unavailable
  | Some srv => match (Server.Get e srv key m).2 with inl vv => inl vv | inr c => inr (codeOf c) end
  end.

Lemma getAt_answer a w key m : getAt a w key m = (w, answerAt w key m a).
Proof.
  unfold getAt, answerAt. destruct (w !! a) as [srv|] eqn:E; [|done].
  pose proof (Get_same srv key m) as Hs. destruct (Server.Get e srv key m) as [srv' r]. cbn [fst snd] in *. subst.
  by rewrite insert_id.
Qed.

(** A node that holds a live value at least as new as [m] answers with it. *)
Definition current (w : gmap string Server) (key : string) (m : Z) (a : string) : Prop :=
  ∃ val ver, answerAt w key m a = inl (val, ver) ∧ m <= ver.

(** ** One attempt *)

Context (Sum64String : string → Z) (Hhash : ∀ k, is_u64 (Sum64String k)) (dialOk : string → bool).

Definition tried (ts : list routeTarget) (r : PlacementRouter) (w : gmap string Server) (key : string) (m : Z)
    (fe : option routeErr) :=
  tryTargets dialOk (getCall readKV key m) ts fe r (w, ([], 0)).

Lemma clientForNode_state id addr r : rState (clientForNode dialOk id addr r).1 = rState r ∧
  readCursor (clientForNode dialOk id addr r).1 = readCursor r.
Proof.
  unfold clientForNode, bootstrapKVClient. by repeat case_match.
Qed.

Lemma tried_cons all t ts r w key m fe :
  plain t → t ∈ all → one_addr all → pools_match all r → dialOk (tAddr t) = true →
  ∃ r', pools_match all r' ∧ rState r' = rState r ∧ readCursor r' = readCursor r ∧
    tried (t :: ts) r w key m fe =
    match answerAt w key m (tAddr t) with
    | inl vv => (r', (w, vv), None)
    | inr c => if retryable c then tried ts r' w key m (firstOf fe (CallErr c))
               else (r', (w, ([], 0)), Some (CallErr c))
    end.
Proof.
  intros Hp Hin Hone Hm Hd. destruct (clientForNode_plain dialOk t r all Hp Hin Hone Hm) as [Hm' Hc].
  destruct (clientForNode_state (tNode t) (tAddr t) r) as [Hs Hcur]. unfold tried. cbn [tryTargets].
  destruct (clientForNode dialOk (tNode t) (tAddr t) r) as [r' cl]. cbn [fst snd] in *.
  exists r'. split_and!; try done. destruct Hc as [[_ Hd']|[i ->]]; [congruence|].
  unfold getCall. cbn [kvGet readKV addrOf]. rewrite getAt_answer.
  destruct (answerAt w key m (tAddr t)) as [vv|c]; [done|]. by destruct (retryable c).
Qed.

Lemma Get_min srv key m val ver : (Server.Get e srv key m).2 = inl (val, ver) → 0 < m → m <= ver.
Proof.
  unfold Server.Get. destruct (sendRequest e srv _) as [srv' resp]. destruct (pErr resp) as [[[]| |]|]; try done.
  destruct ((0 <? m) && (pVersion resp <? m)) eqn:E; [done|]. intros [= <- <-] Hm.
  apply andb_false_iff in E as [?|?]; bool_to_prop; lia.
Qed.

Lemma answerAt_min w key m a val ver : answerAt w key m a = inl (val, ver) → 0 < m → m <= ver.
Proof.
  unfold answerAt. destruct (w !! a) as [srv|]; [|done]. destruct (Server.Get e srv key m).2 as [[]|] eqn:E; [|done].
  intros [= -> ->]. by eapply (Get_min srv key).
Qed.

Lemma invoke_read r p addrs key v w m :
  knows Sum64String r p addrs key v → 0 <= readCursor r → readCursor r + 1 < 2 ^ 64 →
  let cands := readCandidates addrs v in
  (1 < length cands)%nat →
  invoke Sum64String dialOk (getCall readKV key m) key true r (w, ([], 0))
  = tried (rotated ((readCursor r + 1) mod Z.of_nat (length cands)) cands) (setCursor r (readCursor r + 1)) w key m None.
Proof using Hhash.
  intros Hk H0 Hlt cands Hl. unfold invoke. rewrite (routeForKey_knows Sum64String Hhash r p addrs key v true Hk).
  fold (readCandidates addrs v). fold cands. cbn [andb]. rewrite (proj2 (Nat.ltb_lt 1 (length cands))) by done.
  unfold u64. rewrite (Z.mod_small (readCursor r + 1) (2 ^ 64)) by lia.
  set (l := rotated _ cands). assert (Hlen : length l = length cands) by apply Permutation_length, rotated_Permutation.
  unfold tried. destruct l as [|t l]; [simpl in Hlen; lia|done].
Qed.

(** The first two targets of an attempt. *)
Lemma rotated_two (l : list routeTarget) k :
  (1 < length l)%nat → 0 <= k →
  ∃ t0 t1 rest, rotated (k mod Z.of_nat (length l)) l = t0 :: t1 :: rest ∧
    l !! Z.to_nat (k mod Z.of_nat (length l)) = Some t0 ∧ l !! Z.to_nat ((k + 1) mod Z.of_nat (length l)) = Some t1.
Proof.
  intros Hl Hk. pose proof (rotation_lookup l k 0 ltac:(lia) Hk) as H0. pose proof (rotation_lookup l k 1 ltac:(lia) Hk) as H1.
  rewrite Z.add_0_r in H0. change (Z.of_nat 1) with 1 in H1. rewrite H0, H1.
  assert (Hlen : length (rotated (k mod Z.of_nat (length l)) l) = length l) by apply Permutation_length, rotated_Permutation.
  destruct (rotated _ l) as [|t0 [|t1 rest]]; [simpl in Hlen; lia..|]. by exists t0, t1, rest.
Qed.

Lemma Refresh_cursor fetched r : readCursor (Refresh dialOk fetched r).1 = readCursor r.
Proof. unfold Refresh, bootstrapKVClient. repeat case_match; simplify_eq; done. Qed.

Lemma Refresh_state s0 fetched r : fetched = None ∨ fetched = Some s0 → rState r = Some s0 →
  rState (Refresh dialOk fetched r).1 = Some s0.
Proof.
  intros Hf Hr. unfold Refresh. destruct (bootstrapKVClient_frame dialOk r) as [Hs _].
  destruct (bootstrapKVClient dialOk r) as [r' [c|err]]; simpl in *; destruct Hf as [-> | ->]; simpl; congruence.
Qed.

Lemma next_index k n : 1 < n → 0 <= k → Z.to_nat ((k + 1) mod n) ≠ Z.to_nat (k mod n).
Proof.
  intros Hn Hk. pose proof (Z.mod_pos_bound k n ltac:(lia)). pose proof (Z.mod_pos_bound (k + 1) n ltac:(lia)).
  intros E. assert (Hz : (k + 1) mod n = k mod n) by lia.
  pose proof (Z.div_mod k n ltac:(lia)). pose proof (Z.div_mod (k + 1) n ltac:(lia)).
  assert (Hd : n * ((k + 1) / n - k / n) = 1) by lia. apply Z.eq_mul_1 in Hd. lia.
Qed.

(** A client reads its own writes.  When the router holds the current cluster state and all
    copies of the key's vnode but one hold a live value at least as new as the requested
    version, [GetWithMinVersion] succeeds with what one of the copies holds, at least that new, whichever copy is tried first and
    whatever the remaining copy does: answer, be stale, not know the key, fail or be down. *)
Theorem session_read_succeeds r p addrs key v fetched w m b :
  let cands := readCandidates addrs v in
  knows Sum64String r p addrs key v → 0 <= readCursor r → readCursor r + 2 < 2 ^ 64 → 0 < m →
  (1 < length cands)%nat → Forall plain cands → pools_match cands r →
  (∀ t, t ∈ cands → dialOk (tAddr t) = true) →
  fetched = None ∨ fetched = Some (SnapshotClusterState (Some p) addrs) →
  (∀ i t, cands !! i = Some t → i ≠ b → current w key m (tAddr t)) →
  ∃ r' t val ver, GetWithMinVersion Sum64String dialOk readKV key m fetched r w = (r', w, (val, ver), None) ∧
    t ∈ cands ∧ answerAt w key m (tAddr t) = inl (val, ver) ∧ m <= ver.
Proof using Hhash.
  intros cands Hk H0 Hc Hm Hl Hp Hpools Hdial Hf Hcur.
  assert (Hone : one_addr cands) by (unfold cands; rewrite readCandidates_targets; apply targetsOf_one_addr).
  assert (Hstep : ∀ i t ts r w fe, cands !! i = Some t → pools_match cands r →
    ∃ r', pools_match cands r' ∧ rState r' = rState r ∧ readCursor r' = readCursor r ∧
      tried (t :: ts) r w key m fe =
      match answerAt w key m (tAddr t) with
      | inl vv => (r', (w, vv), None)
      | inr c => if retryable c then tried ts r' w key m (firstOf fe (CallErr c))
                 else (r', (w, ([], 0)), Some (CallErr c))
      end).
  { intros i t ts r0 w0 fe Ht Hm0. apply list_elem_of_lookup_2 in Ht as Hin.
    apply (tried_cons cands); auto. by apply (proj1 (list.Forall_forall _ _) Hp). }
  assert (Hn : 1 < Z.of_nat (length cands)) by lia.
  unfold GetWithMinVersion, rpcWithPlacement. rewrite (invoke_read r p addrs key v w m Hk H0 ltac:(lia) Hl). fold cands.
  destruct (rotated_two cands (readCursor r + 1) Hl ltac:(lia)) as (t0 & t1 & rest & -> & Ht0 & Ht1).
  pose proof (next_index (readCursor r + 1) _ Hn ltac:(lia)) as Hne.
  set (i0 := Z.to_nat ((readCursor r + 1) mod Z.of_nat (length cands))) in *.
  set (i1 := Z.to_nat ((readCursor r + 1 + 1) mod Z.of_nat (length cands))) in *.
  destruct (Hstep i0 t0 (t1 :: rest) (setCursor r (readCursor r + 1)) w None Ht0 Hpools) as (r1 & Hm1 & Hs1 & Hc1 & ->).
  destruct (answerAt w key m (tAddr t0)) as [[val ver]|c] eqn:E0.
  { exists r1, t0, val, ver. split_and!; eauto using list_elem_of_lookup_2, answerAt_min. }
  assert (Hb : i0 = b).
  { destruct (decide (i0 = b)); [done|]. destruct (Hcur i0 t0 Ht0) as (? & ? & Hx & _); [done|]. by rewrite E0 in Hx. }
  destruct (Hcur i1 t1 Ht1) as (val & ver & E1 & Hver); [congruence|].
  destruct (retryable c).
  - destruct (Hstep i1 t1 rest r1 w (firstOf None (CallErr c)) Ht1 Hm1) as (r2 & _ & _ & _ & ->). rewrite E1. eauto 10 using list_elem_of_lookup_2.
  - cbn beta iota. set (r2 := (Refresh dialOk fetched r1).1).
    destruct (Refresh_frame dialOk fetched r1) as [Hcl _]. fold r2 in Hcl.
    assert (Hk2 : knows Sum64String r2 p addrs key v).
    { destruct Hk as (Hs & Hrest). split; [|done]. apply Refresh_state; [done|]. by rewrite Hs1. }
    assert (Hcur2 : readCursor r2 = readCursor r + 1) by (unfold r2; by rewrite Refresh_cursor, Hc1).
    rewrite (invoke_read r2 p addrs key v w m Hk2) by (done || lia). fold cands. rewrite Hcur2.
    destruct (rotated_two cands (readCursor r + 1 + 1) Hl ltac:(lia)) as (t & t' & rest' & -> & Ht & _).
    fold i1 in Ht. rewrite Ht1 in Ht. injection Ht as <-.
    destruct (Hstep i1 t1 (t' :: rest') (setCursor r2 (readCursor r + 1 + 1)) w None Ht1) as (r3 & _ & _ & _ & ->).
    { unfold pools_match. cbn [clients setCursor]. by rewrite Hcl. }
    rewrite E1. eauto 10 using list_elem_of_lookup_2.
Qed.
End nodes.

(** ** Witness *)

(** Three copies of the vnode of key [k]: two hold the client's write, the third lost it. *)
Definition ex_holder : Server :=
  mkServer (Apply NewStore (mkCommand OpPut "k" [x41] 0 7)).1 7.
Definition ex_world : gmap string Server :=
  {["a:1"%string := mkServer NewStore 0; "b:2"%string := ex_holder; "c:3"%string := ex_holder]}.

Lemma ex_answers a : a = "b:2"%string ∨ a = "c:3"%string → current ex_env ex_world "k" 7 a.
Proof. intros [-> | ->]; exists [x41], 7; split; [vm_compute; reflexivity|lia|vm_compute; reflexivity|lia]. Qed.

Lemma ex_plain : Forall plain (readCandidates ex_addrs ex_rvnode).
Proof. rewrite ex_candidates. apply (bool_decide_unpack (Forall _ _)). vm_compute. exact I. Qed.

Lemma ex_current i t : readCandidates ex_addrs ex_rvnode !! i = Some t → i ≠ 0%nat →
  current ex_env ex_world "k" 7 (tAddr t).
Proof.
  rewrite ex_candidates. destruct i as [|[|[|i]]]; intros Hi Hne; [done|..]; simplify_eq/=; apply ex_answers; auto.
Qed.

Lemma ex_world_values t val ver : t ∈ readCandidates ex_addrs ex_rvnode →
  answerAt ex_env ex_world "k" 7 (tAddr t) = inl (val, ver) → val = [x41] ∧ ver = 7.
Proof.
  rewrite ex_candidates. intros Ht Ha.
  repeat (apply elem_of_cons in Ht as [-> | Ht]; [vm_compute in Ha; by simplify_eq|]). by apply elem_of_nil in Ht.
Qed.

Lemma session_read_succeeds_witness :
  ∃ r', GetWithMinVersion ex_hash (λ _, true) (readKV ex_env "a:1") "k" 7 None ex_router ex_world
        = (r', ex_world, ([x41], 7), None).
Proof.
  destruct (session_read_succeeds ex_env "a:1" ex_hash ex_hash_u64 (λ _, true) ex_router ex_rplacement ex_addrs "k"
    ex_rvnode None ex_world 7 0) as (r' & t & val & ver & Hg & Ht & Ha & _).
  - exact (ex_knows ex_router eq_refl).
  - discriminate.
  - reflexivity.
  - reflexivity.
  - rewrite ex_candidates. simpl. lia.
  - exact ex_plain.
  - intros t pool _ Hp. discriminate Hp.
  - intros t _. reflexivity.
  - by left.
  - exact ex_current.
  - destruct (ex_world_values t val ver Ht Ha) as [-> ->]. by exists r'.
Defined.
