(* ===== verification/ReadYourWrites.v ===== *)
(** * Reading one's own writes from a running cluster

    The cluster of [Cluster] (writes, replication, failures, restarts; [src/core/rpc.go],
    [src/cluster/replication.go], [src/cluster/replication_batch.go]) composed with a client's router
    ([src/cluster/router.go]): a client that has been told that its write succeeded reads the key with
    the version of that write as a minimum. *)

From Stdlib.Strings Require Import Byte.
From S2P Require Import Prelude Text Store StoreSpec WalCodec WalWriter EventLoop Durability Placement AssignProofs.
From S2P Require Import Server ServerProofs Quorum WritePath BatchWorker Replication Cluster Router SessionRead.

(** In a list of at most three nodes a majority leaves out at most one position. *)
Lemma majority_misses_one (ns : list string) (H : gset string) :
  NoDup ns → H ⊆ list_to_set ns → (length ns <= S (size H))%nat →
  ∃ b, ∀ i x, ns !! i = Some x → i ≠ b → x ∈ H.
Proof.
  intros Hnd Hsub Hlen. destruct (decide (Exists (.∉ H) ns)) as [Hex|Hall].
  - apply list.Exists_exists in Hex as (x & Hx & HxH). apply list_elem_of_lookup in Hx as [b Hb]. exists b.
    intros i y Hi Hne. destruct (decide (y ∈ H)) as [|HyH]; [done|]. exfalso.
    assert (Hxy : x ≠ y) by (intros ->; by eapply Hne, NoDup_lookup).
    assert (Hs : H ∪ {[x; y]} ⊆ list_to_set ns).
    { apply list_elem_of_lookup_2 in Hi, Hb. set_solver. }
    apply subseteq_size in Hs. rewrite size_list_to_set in Hs by done.
    rewrite size_union in Hs by set_solver. rewrite size_union, !size_singleton in Hs by set_solver. lia.
  - exists 0%nat. intros i x Hi _. apply not_Exists_Forall in Hall; [|apply _].
    pose proof (proj1 (Forall_lookup _ _) Hall i x Hi) as Hx. cbn in Hx. by destruct (decide (x ∈ H)).
Qed.

Section composed.
Context (Sum64String : string → Z) (Hhash : ∀ k, is_u64 (Sum64String k)).
Context (p : Placement) (rf members : Z) (leads : string → option bool).
Context (logs : gmap string (list Command)) (Hlogs : ∀ n log, logs !! n = Some log → Forall writes log).
Context (e : Env) (boot : string) (dialOk : string → bool) (addrs : gmap string string).

Abbreviation cluster_step := (cluster_step Sum64String p rf members leads).

(** The write with version [m] of [key] has not been deleted again. *)
Definition not_deleted (c : Cluster) (key : string) (m : Z) : Prop :=
  (∀ r, r ∈ cStarted c → reKey r = key → m <= reVersion r → reOp r = Op_PUT) ∧
  (∀ n log x, logs !! n = Some log → x ∈ log → Key x = key → m <= Version x → Op x = OpPut).

(** The nodes behind the addresses of a vnode's copies: each is down or is the node of the cluster,
    and the ones that hold version [m] of the key are up. *)
Definition deployed (c : Cluster) (cands : list routeTarget) (key : string) (m : Z) (world : gmap string Server) : Prop :=
  ∀ t, t ∈ cands →
    (world !! tAddr t = None ∨ ∃ nd, cNodes c !! tNode t = Some nd ∧ world !! tAddr t = Some (nSrv nd)) ∧
    (∀ nd, cNodes c !! tNode t = Some nd → m <= held (nSrv nd) key → world !! tAddr t = Some (nSrv nd)).

(** A node that holds the write answers with it or something newer. *)
Lemma holder_current c cands key m world t nd :
  cluster_inv Sum64String p rf members leads logs c → not_deleted c key m → 0 < m → delivery e = Served false →
  deployed c cands key m world → t ∈ cands → cNodes c !! tNode t = Some nd → m <= held (nSrv nd) key →
  current e world key m (tAddr t).
Proof.
  intros Hi [Hput Hlog] Hm Hd Hdep Ht Hn Hheld. destruct (Hdep t Ht) as [_ Hup]. specialize (Hup nd Hn Hheld).
  pose proof (cl_nodes _ _ _ _ _ _ _ Hi _ nd Hn) as Hok.
  assert (Hcell : ∃ ver val, abs (srvStore (nSrv nd)) !! key = Some (ver, Some val) ∧ m <= ver).
  { unfold held, lww_version in Hheld. destruct ((abs (srvStore (nSrv nd)) : gmap string cell) !! key) as [[ver x]|] eqn:Ea; cbn in Hheld; [|lia].
    exists ver. destruct (node_origin logs c nd key (ver, x) Hok Ea) as (y & Hy & Hyk & Hyx).
    destruct x as [val|]; [by exists val|]. exfalso.
    destruct Hy as [(n & log & Hl & Hin)|(r & Hr & Hrk & Hrv & Hrc)].
    - unfold cmd_cell in Hyx. destruct (Op y =? OpPut) eqn:E; [done|]. destruct (Op y =? OpDelete); [|done].
      injection Hyx as <-. rewrite (Hlog n log y) in E; done.
    - rewrite Hrc in Hyx. assert (Hver : reVersion r = ver) by (unfold cmd_cell in Hyx; cbn in Hyx; by repeat case_match; simplify_eq).
      unfold cmd_cell in Hyx. cbn in Hyx. rewrite (Hput r) in Hyx by (done || congruence || lia). done. }
  destruct Hcell as (ver & val & Ha & Hver). exists val, ver. split; [|done]. unfold answerAt. rewrite Hup.
  assert (Hdat : data_ok (srvStore (nSrv nd))) by (rewrite (no_replay _ _ _ Hok); apply apply_all_data_ok, NewStore_data_ok).
  destruct (get_serves_lww e (nSrv nd) key m Hdat) as [_ Hg]. unfold lww_get in Hg. rewrite Ha in Hg.
  destruct (Server.Get e (nSrv nd) key m).2 as [[val' ver']|code].
  - destruct Hg as [[= -> ->] _]. done.
  - rewrite Hd in Hg. destruct code; [destruct Hg as (? & ? & [= -> ->] & ?); lia|by destruct Hg|done|by destruct Hg].
Qed.

(** A router that has the cluster's placement and can dial the copies of the vnode. *)
Record ready (r : PlacementRouter) (fetched : option ClusterState) (key : string) (v : VNode) : Prop := {
  rd_knows : knows Sum64String r p addrs key v;
  rd_cursor : 0 <= readCursor r ∧ readCursor r + 2 < 2 ^ 64;
  rd_plain : Forall plain (readCandidates addrs v);
  rd_pools : pools_match (readCandidates addrs v) r;
  rd_dial : ∀ t, t ∈ readCandidates addrs v → dialOk (tAddr t) = true;
  rd_fetched : fetched = None ∨ fetched = Some (SnapshotClusterState (Some p) addrs)
}.

(** The vnode has two or three copies, all of them with an address, as many as the replication factor
    asks for. *)
Record replicated (v : VNode) : Prop := {
  rp_addrs : tNode <$> readCandidates addrs v = Primary v :: Replicas v;
  rp_nodup : NoDup (Primary v :: Replicas v);
  rp_copies : effectiveRF rf members = Z.of_nat (length (Primary v :: Replicas v));
  rp_few : (1 < length (Primary v :: Replicas v) <= 3)%nat
}.

Lemma knows_copies r key v : knows Sum64String r p addrs key v →
  copies Sum64String p key = list_to_set (Primary v :: Replicas v).
Proof using Hhash.
  intros (_ & Hl & Hv & _). destruct (key_lookup_total Sum64String Hhash p key Hl) as (v' & Hv' & Hn & _).
  rewrite Hv in Hv'. injection Hv' as <-. unfold copies. by rewrite Hn.
Qed.

End composed.

(** ** Witness *)

(** The cluster of [Cluster.ex_c4]: [n1] and [n2] hold the answered write, [n3] never received it and
    is down. *)
Definition ex_ryw_vnode : VNode := default (mkVNode 0 0 "" []) (VNodes ex_ring !! Z.to_nat (vnodeIndex ex_hash "k")).
Definition ex_ryw_router : PlacementRouter :=
  setState (NewPlacementRouterWithPoolSize "a:1" 2) (SnapshotClusterState (Some ex_ring) ex_addrs).
Definition ex_ryw_world : gmap string Server :=
  {["a:1"%string := ex_first.1; "b:2"%string := ex_second.1]}.

Lemma ex_ryw_shape : Primary ex_ryw_vnode = "n1"%string ∧ Replicas ex_ryw_vnode = ["n2"; "n3"]%string.
Proof. split; vm_compute; reflexivity. Qed.
Lemma ex_ryw_candidates :
  readCandidates ex_addrs ex_ryw_vnode = [mkTarget "n1" "a:1"; mkTarget "n2" "b:2"; mkTarget "n3" "c:3"]%string.
Proof. vm_compute. reflexivity. Qed.
Lemma ex_ryw_knows : knows ex_hash ex_ryw_router ex_ring ex_addrs "k" ex_ryw_vnode.
Proof.
  split; [reflexivity|]. split; [vm_compute; reflexivity|]. split; [|by rewrite (proj1 ex_ryw_shape)].
  vm_compute. reflexivity.
Qed.
Lemma ex_ryw_node3 : cNodes ex_c4 !! "n3"%string = Some (mkLNode ex_booted []) ∧ held ex_booted "k" = 0.
Proof. split; [|vm_compute; reflexivity]. cbn [ex_c4 ex_c2 ex_c1 cNodes]. rewrite !lookup_insert_ne by done. reflexivity. Qed.

Lemma ex_ryw_ready : ready ex_hash ex_ring (λ _, true) ex_addrs ex_ryw_router None "k" ex_ryw_vnode.
Proof.
  split; [exact ex_ryw_knows|done| | |done|by left].
  - rewrite ex_ryw_candidates. apply (bool_decide_unpack (Forall _ _)). vm_compute. exact I.
  - intros t pool _ Hp. discriminate Hp.
Qed.

Lemma ex_ryw_replicated : replicated 3 3 ex_addrs ex_ryw_vnode.
Proof.
  destruct ex_ryw_shape as [H1 H2]. split; rewrite ?H1, ?H2, ?ex_ryw_candidates; [reflexivity| |reflexivity|simpl; lia].
  apply (bool_decide_unpack (NoDup _)). vm_compute. exact I.
Qed.

Lemma ex_ryw_deployed : deployed ex_c4 (readCandidates ex_addrs ex_ryw_vnode) "k" (reVersion ex_kcall) ex_ryw_world.
Proof.
  rewrite ex_ryw_candidates. destruct ex_first_eq as (_ & Hv & _), ex_ryw_node3 as [Hn3 Hh3].
  assert (Hpos : 0 < reVersion ex_kcall) by (vm_compute; reflexivity).
  assert (Hn1 : cNodes ex_c4 !! "n1"%string = Some (mkLNode ex_first.1 ([] ++ [ex_kcmd]))).
  { cbn [ex_c4 ex_c2 ex_c1 cNodes]. rewrite lookup_insert_ne by done. apply lookup_insert_eq. }
  assert (Hn2 : cNodes ex_c4 !! "n2"%string = Some (mkLNode ex_second.1 ([] ++ [reqCmd ex_kcall]))) by apply lookup_insert_eq.
  intros t Ht. repeat (apply elem_of_cons in Ht as [-> | Ht]); [..|by apply elem_of_nil in Ht]; cbn [tNode tAddr].
  - rewrite Hn1. split; [right; by eexists|]. intros nd [= <-] _. reflexivity.
  - rewrite Hn2. split; [right; by eexists|]. intros nd [= <-] _. reflexivity.
  - rewrite Hn3. split; [by left|]. intros nd [= <-] Hh. cbn [nSrv] in Hh. rewrite Hh3 in Hh. lia.
Qed.

Lemma ex_ryw_not_deleted : not_deleted ex_logs ex_c4 "k" (reVersion ex_kcall).
Proof.
  split.
  - intros r Hr _ _. cbn in Hr. apply list_elem_of_singleton in Hr as ->. vm_compute. reflexivity.
  - intros n log x Hl Hx. assert (log = []) as ->; [|by apply elem_of_nil in Hx]. unfold ex_logs in Hl.
    apply lookup_insert_Some in Hl as [[_ ?]|[_ Hl]]; [done|]. apply lookup_insert_Some in Hl as [[_ ?]|[_ Hl]]; [done|].
    by apply lookup_singleton_Some in Hl as [_ ?].
Qed.

Lemma ex_kcall_key : reKey (wrCall ex_kwrite) = "k"%string.
Proof. vm_compute. reflexivity. Qed.

