(* ===== verification/Transport.v ===== *)
(** * Transport credentials ([src/cluster/transport.go])

    How a TLS configuration becomes the credentials of the connections a router or a replicator
    dials.  Reading a file and parsing certificates are inputs. *)

From Stdlib.Strings Require Import Byte.
From S2P Require Import Prelude.

Record ClientTLSConfig := mkClientTLS {
  Enabled : bool;
  CACertFile : string;
  ServerName : string;
  InsecureSkipVerify : bool
}.

(** [tls.VersionTLS12] *)
Definition VersionTLS12 : Z := 771.

(** [tls.Config] with the fields the code sets; [RootCAs = None] are the system's. *)
Record tlsConfig (CertPool : Type) := mkTls {
  MinVersion : Z;
  tlsServerName : string;
  tlsSkipVerify : bool;
  RootCAs : option CertPool
}.
Arguments mkTls {_} _ _ _ _.
Arguments MinVersion {_} _.
Arguments tlsServerName {_} _.
Arguments tlsSkipVerify {_} _.
Arguments RootCAs {_} _.

Inductive Credentials (CertPool : Type) := InsecureCredentials | TLSCredentials (c : tlsConfig CertPool).
Arguments InsecureCredentials {_}.
Arguments TLSCredentials {_} _.

Inductive tlsErr := ReadCACert (path : string) | ParseCACert (path : string).

Section transport.
Context {CertPool : Type} (ReadFile : string → option (list byte)) (CertsFromPEM : list byte → option CertPool).

Definition BuildClientTransportCredentials (cfg : ClientTLSConfig) : Credentials CertPool + tlsErr :=
  if negb (Enabled cfg) then inl InsecureCredentials
  else
    let tlsCfg := mkTls VersionTLS12 (ServerName cfg) (InsecureSkipVerify cfg) None in
    if decide (CACertFile cfg = ""%string) then inl (TLSCredentials tlsCfg)
    else match ReadFile (CACertFile cfg) with
    | None => inr (ReadCACert (CACertFile cfg))
    | Some pem =>
        match CertsFromPEM pem with
        | None => inr (ParseCACert (CACertFile cfg))
        | Some pool =>
            inl (TLSCredentials (mkTls (MinVersion tlsCfg) (tlsServerName tlsCfg) (tlsSkipVerify tlsCfg) (Some pool)))
        end
    end.

(** The credentials a new router or replicator starts with. *)
Definition defaultCreds : Credentials CertPool :=
  match BuildClientTransportCredentials (mkClientTLS false "" "" false) with
  | inl c => c
  | inr _ => InsecureCredentials
  end.

(** [ConfigureTLS] of a router and [ConfigureClientTLS] of a replicator: the credentials change
    only when they can be built. *)
Definition ConfigureTLS (cfg : ClientTLSConfig) (creds : Credentials CertPool)
    : Credentials CertPool * option tlsErr :=
  match BuildClientTransportCredentials cfg with
  | inl c => (c, None)
  | inr e => (creds, Some e)
  end.

Definition isTLS (c : Credentials CertPool) : bool :=
  match c with InsecureCredentials => false | TLSCredentials _ => true end.

(** What a connection verifies: TLS of at least version 1.2 for the configured name, against the
    configured certificates when a file is given. *)
Lemma ConfigureTLS_outcomes cfg creds creds' :
  ConfigureTLS cfg creds = (creds', None) →
  isTLS creds' = Enabled cfg ∧
  (∀ c, creds' = TLSCredentials c →
     MinVersion c = VersionTLS12 ∧ tlsServerName c = ServerName cfg ∧ tlsSkipVerify c = InsecureSkipVerify cfg ∧
     (CACertFile cfg = ""%string ↔ RootCAs c = None)).
Proof.
  unfold ConfigureTLS, BuildClientTransportCredentials.
  destruct (Enabled cfg); simpl; [|by intros [= <-]]. destruct (decide (CACertFile cfg = ""%string)) as [E|E].
  { intros [= <-]. split; [done|]. by intros c [= <-]. }
  destruct (ReadFile _) as [pem|]; [|done]. destruct (CertsFromPEM pem) as [pool|]; [|done].
  intros [= <-]. split; [done|]. by intros c [= <-].
Qed.

(** A failure leaves the previous credentials. *)
Lemma ConfigureTLS_failure cfg creds creds' e : ConfigureTLS cfg creds = (creds', Some e) → creds' = creds ∧ Enabled cfg = true.
Proof.
  unfold ConfigureTLS, BuildClientTransportCredentials. destruct (Enabled cfg); simpl; [|done].
  repeat case_match; try done; intros [= <- _]; done.
Qed.
End transport.
