(* ===== verification/Cli.v ===== *)
(** * The interactive client ([src/cmd/cli/main.go])

    The loop that reads commands from standard input and sends them through a router.  The input
    is the byte sequence of standard input; the world behind the router, the files that [putfile]
    reads and the cluster states that refreshes return are inputs. *)

From Stdlib Require Import Ascii.
From Stdlib.Strings Require Import Byte.
From S2P Require Import Prelude Text AssignProofs Router Transport.

(** ** Lines *)

(** [bufio.MaxScanTokenSize]: the size of the scanner's buffer, which also holds the newline. *)
Definition MaxScanTokenSize : Z := 65536.

Definition newline : ascii := ascii_of_N 10.
Definition carriageReturn : ascii := ascii_of_N 13.

Definition dropCR (l : list ascii) : list ascii :=
  match reverse l with
  | a :: r => if decide (a = carriageReturn) then reverse r else l
  | [] => l
  end.

(** The lines a [bufio.Scanner] returns and whether it stopped with [ErrTooLong]; the text after
    the last newline is a line unless it is empty. *)
Fixpoint scanTokens (parts : list (list ascii)) : list (list ascii) * bool :=
  match parts with
  | [] => ([], false)
  | p :: ps =>
      if MaxScanTokenSize <=? Z.of_nat (length p) then ([], true)
      else match ps with
      | [] => (match p with [] => [] | _ => [dropCR p] end, false)
      | _ => let '(ts, tooLong) := scanTokens ps in (dropCR p :: ts, tooLong)
      end
  end.

Definition scanLines (input : list ascii) : list (list ascii) * bool := scanTokens (splitBytes newline input).

(** ** Commands *)

Inductive Output :=
  | OHelp
  | OUsage (cmd : string)
  | OValue (v : list byte)
  | OOk
  | OFileError
  | OError (e : routeErr)
  | OUnknown.

Definition byteOf (a : ascii) : byte := byte_of_ascii a.
Definition byteValue (s : string) : list byte := byteOf <$> bytes s.

Section cli.
Context (Sum64String : string → Z) {W : Type} (dialOk : string → bool) (kv : KVClient W)
        (ReadFile : string → option (list byte)).

(** What one line does: nothing, leave, or a command with its output; [parts[0]] of an empty
    slice would panic. *)
Inductive lineResult := LSkip | LQuit | LPanic | LDid (r : PlacementRouter) (w : W) (out : Output).

Definition okOrError (res : PlacementRouter * W * option routeErr) : lineResult :=
  let '(r, w, err) := res in LDid r w (match err with None => OOk | Some e => OError e end).

Definition doGet (parts : list string) (fetched : option ClusterState) (r : PlacementRouter) (w : W) : lineResult :=
  match parts with
  | _ :: key :: _ =>
      let '(r, w, val, err) := Router.Get Sum64String dialOk kv key fetched r w in
      LDid r w (match err with None => OValue val | Some e => OError e end)
  | _ => LDid r w (OUsage "get KEY")
  end.

Definition doPut (parts : list string) (fetched : option ClusterState) (r : PlacementRouter) (w : W) : lineResult :=
  match parts with
  | _ :: key :: value :: _ => okOrError (Router.Put Sum64String dialOk kv key (byteValue value) fetched r w)
  | _ => LDid r w (OUsage "put KEY VALUE")
  end.

Definition doPutFile (parts : list string) (fetched : option ClusterState) (r : PlacementRouter) (w : W) : lineResult :=
  match parts with
  | _ :: key :: path :: _ =>
      match ReadFile path with
      | None => LDid r w OFileError
      | Some data => okOrError (Router.Put Sum64String dialOk kv key data fetched r w)
      end
  | _ => LDid r w (OUsage "putfile KEY PATH")
  end.

Definition doDelete (parts : list string) (fetched : option ClusterState) (r : PlacementRouter) (w : W) : lineResult :=
  match parts with
  | _ :: key :: _ => okOrError (Router.Delete Sum64String dialOk kv key fetched r w)
  | _ => LDid r w (OUsage "delete KEY")
  end.

Definition cliLine (text : string) (fetched : option ClusterState) (r : PlacementRouter) (w : W) : lineResult :=
  let line := TrimSpace text in
  if decide (line = ""%string) then LSkip
  else
    let parts := Fields line in
    match parts with
    | [] => LPanic
    | p0 :: _ =>
        let cmd := ToLower p0 in
        if decide (cmd = "quit" ∨ cmd = "exit")%string then LQuit
        else if decide (cmd = "help"%string) then LDid r w OHelp
        else if decide (cmd = "get"%string) then doGet parts fetched r w
        else if decide (cmd = "put"%string) then doPut parts fetched r w
        else if decide (cmd = "putfile"%string) then doPutFile parts fetched r w
        else if decide (cmd = "delete"%string) then doDelete parts fetched r w
        else LDid r w OUnknown
    end.

(** How the loop ends. *)
Inductive loopEnd := EndOfInput | EndQuit | EndPanic.

(** [fetches n]: the cluster state the bootstrap node returns if line [n] refreshes. *)
Fixpoint cliLoop (fetches : nat → option ClusterState) (n : nat) (lines : list (list ascii))
    (r : PlacementRouter) (w : W) : PlacementRouter * W * list Output * loopEnd :=
  match lines with
  | [] => (r, w, [], EndOfInput)
  | l :: lines =>
      match cliLine (str l) (fetches n) r w with
      | LSkip => cliLoop fetches (S n) lines r w
      | LQuit => (r, w, [], EndQuit)
      | LPanic => (r, w, [], EndPanic)
      | LDid r w out =>
          let '(r, w, outs, e) := cliLoop fetches (S n) lines r w in (r, w, out :: outs, e)
      end
  end.

(** ** The program *)

Context {CertPool : Type} (CertsFromPEM : list byte → option CertPool).

Inductive cliExit := InvalidTLS (e : tlsErr) | InputError | Panicked | Closed (r : PlacementRouter).

(** [main] after the flags are parsed: [log.Fatalf] leaves without the deferred [Close]. *)
Definition cliMain (addr : string) (tls : ClientTLSConfig) (initial : option ClusterState)
    (fetches : nat → option ClusterState) (order : gmap string clientPool → list (string * clientPool))
    (closeOk : Client → bool) (input : list ascii) (w : W) : Credentials CertPool * W * list Output * cliExit :=
  let router := NewPlacementRouter addr in
  let '(creds, tlsErr) := ConfigureTLS ReadFile CertsFromPEM tls (defaultCreds ReadFile CertsFromPEM) in
  match tlsErr with
  | Some e => (creds, w, [], InvalidTLS e)
  | None =>
      let router := (Refresh dialOk initial router).1 in
      let '(lines, tooLong) := scanLines input in
      let '(router, w, outs, e) := cliLoop fetches 0 lines router w in
      let exit :=
        match e with
        | EndPanic => Panicked
        | EndQuit => Closed (Close order closeOk router).1
        | EndOfInput => if tooLong then InputError else Closed (Close order closeOk router).1
        end in
      (creds, w, outs, exit)
  end.
End cli.

(** ** Properties *)

Section properties.
Context (Sum64String : string → Z) {W : Type} (dialOk : string → bool) (kv : KVClient W)
        (ReadFile : string → option (list byte)).

(** The first word of a line, in lower case. *)
Definition firstWord (l : list ascii) : option string := ToLower <$> head (Fields (str l)).

Definition isQuit (l : list ascii) : bool :=
  bool_decide (firstWord l = Some "quit"%string ∨ firstWord l = Some "exit"%string).

(** The commands of a session: the lines with a word, up to the first [quit] or [exit]. *)
Fixpoint commands (lines : list (list ascii)) : list (list ascii) :=
  match lines with
  | [] => []
  | l :: lines => if isQuit l then [] else match firstWord l with None => commands lines | Some _ => l :: commands lines end
  end.

Lemma cliLine_cases l fetched r w :
  match firstWord l with
  | None => cliLine Sum64String dialOk kv ReadFile (str l) fetched r w = LSkip
  | Some _ => if isQuit l then cliLine Sum64String dialOk kv ReadFile (str l) fetched r w = LQuit
              else ∃ r' w' out, cliLine Sum64String dialOk kv ReadFile (str l) fetched r w = LDid r' w' out
  end.
Proof.
  unfold isQuit, firstWord, cliLine. rewrite <-(Fields_trimmed (str l)).
  destruct (decide (TrimSpace (str l) = ""%string)) as [->|Hne]; [done|]. apply Fields_TrimSpace in Hne.
  destruct (Fields (TrimSpace (str l))) as [|p0 parts]; [done|]. cbn [head fmap option_fmap option_map].
  destruct (decide (ToLower p0 = "quit"%string ∨ ToLower p0 = "exit"%string)) as [Hq|Hq].
  { rewrite bool_decide_true by (destruct Hq as [-> | ->]; auto). done. }
  rewrite bool_decide_false by (intros [[= ?]|[= ?]]; auto). unfold doGet, doPut, doPutFile, doDelete, okOrError.
  repeat case_match; eauto.
Qed.


Lemma Fields_unwords ws : Forall word ws → Fields (str (unwords ws)) = str <$> ws.
Proof. intros Hw. unfold Fields. by rewrite bytes_str, fieldsFrom_unwords. Qed.

(** The words of a command line, whatever space surrounds it. *)
Lemma cliLine_words s c fetched r w parts :
  Fields s = c :: parts → ToLower c = "put"%string →
  cliLine Sum64String dialOk kv ReadFile s fetched r w = doPut Sum64String dialOk kv (c :: parts) fetched r w.
Proof.
  intros Hf Hc. unfold cliLine. rewrite Fields_trimmed, Hf.
  destruct (decide (TrimSpace s = ""%string)) as [E|_].
  { rewrite <-Fields_trimmed, E in Hf. done. }
  rewrite Hc. by repeat first [rewrite decide_False by (intros Hx; naive_solver) | rewrite decide_True by done].
Qed.

(** [put KEY VALUE] stores the first word after the key: the words that follow it are dropped
    without a message, in whatever case the command is written. *)
Theorem cli_put_stores_one_word c k v rest fetched r w :
  Forall word (c :: k :: v :: rest) → ToLower (str c) = "put"%string →
  cliLine Sum64String dialOk kv ReadFile (str (unwords (c :: k :: v :: rest))) fetched r w =
  okOrError (Router.Put Sum64String dialOk kv (str k) (byteOf <$> v) fetched r w).
Proof.
  intros Hw Hc. rewrite (cliLine_words _ (str c) fetched r w (str <$> k :: v :: rest)).
  - cbn [doPut fmap list_fmap]. unfold byteValue. by rewrite bytes_str.
  - by rewrite Fields_unwords.
  - done.
Qed.
End properties.

(** ** Examples *)

(** A world that records the writes it is asked for and answers reads with [x]. *)
Definition ex_kv : KVClient (list (string * list byte)) :=
  mkKV (λ w _ _ _, (w, inl ([x78], 1))) (λ w _ k v, (w ++ [(k, v)], None)) (λ w _ _, (w, None)).

Lemma cli_put_stores_one_word_witness :
  cliLine ex_hash (λ _, true) ex_kv (λ _, None) "PUT k hello world" None ex_router []
  = okOrError (Router.Put ex_hash (λ _, true) ex_kv "k" (byteOf <$> bytes "hello") None ex_router []).
Proof.
  apply (cli_put_stores_one_word ex_hash (λ _, true) ex_kv (λ _, None) (bytes "PUT") (bytes "k") (bytes "hello")
    [bytes "world"]); [|reflexivity].
  apply (bool_decide_unpack (Forall _ _)). vm_compute. exact I.
Defined.

Definition ex_input : list ascii := bytes "  Help  " ++ newline :: newline :: bytes "get" ++ newline :: bytes "quit" ++ newline :: bytes "get k".

Example cli_session_example :
  let '(_, w, outs, exit) :=
    cliMain ex_hash (λ _, true) ex_kv (λ _, None) (λ _, @None unit) "a:1" (mkClientTLS false "" "" false)
      None (λ _, None) map_to_list (λ _, true) ex_input [] in
  w = [] ∧ outs = [OHelp; OUsage "get KEY"] ∧ match exit with Closed r => clients r = ∅ | _ => False end.
Proof. vm_compute. split_and!; reflexivity. Qed.
