(* ===== verification/Startup.v ===== *)
(** * Starting a node ([src/cmd/server/main.go])

    [main] from the parsed flags to the running node: default ports and directories, recovery of
    the store from its log, transport security, gossip, raft and the first connection to the
    cluster.  What the operating system and the libraries answer are inputs; [log.Fatal] and
    [panic] end the process with the reason. *)

From stdpp Require Import pretty.
From Stdlib Require Import Ascii.
From Stdlib.Strings Require Import Byte.
From S2P Require Import Prelude Text Store StoreSpec WalCodec WalWriter EventLoop Durability Server.
From S2P Require Import ServerProofs Placement Membership RaftNode Transport Collector.

(** ** Paths ([path/filepath], Unix) *)

Definition slash : ascii := "/".

(** One path element on the stack of elements kept so far, last first. *)
Definition cleanStep (rooted : bool) (stack : list (list ascii)) (elem : list ascii) : list (list ascii) :=
  if decide (elem = [] ∨ elem = bytes ".") then stack
  else if decide (elem = bytes "..") then
    match stack with
    | top :: stack' => if decide (top = bytes "..") then elem :: stack else stack'
    | [] => if rooted then [] else [elem]
    end
  else elem :: stack.

Fixpoint joinSlash (elems : list (list ascii)) : list ascii :=
  match elems with
  | [] => []
  | [e] => e
  | e :: elems => e ++ slash :: joinSlash elems
  end.

Definition isRooted (p : list ascii) : bool := match p with a :: _ => bool_decide (a = slash) | [] => false end.

Definition cleanElems (p : list ascii) : list (list ascii) :=
  reverse (foldl (cleanStep (isRooted p)) [] (splitBytes slash p)).

Definition render (rooted : bool) (elems : list (list ascii)) : list ascii :=
  match elems with
  | [] => if rooted then [slash] else bytes "."
  | _ => (if rooted then [slash] else []) ++ joinSlash elems
  end.

Definition cleanBytes (p : list ascii) : list ascii := render (isRooted p) (cleanElems p).

(** [filepath.Join]: the non-empty elements, joined and cleaned. *)
Definition Join (elems : list string) : string :=
  match filter (λ e, e ≠ []) (bytes <$> elems) with
  | [] => ""%string
  | parts => str (cleanBytes (joinSlash parts))
  end.

(** ** Flags *)

Record Flags := mkFlags {
  rpcPort : Z;
  rpcHost : string;
  raftPort : Z;
  raftBindAddr : string;
  raftAdvertiseIP : string;
  ack : Z;
  elbSize : Z;
  gossipBindAddr : string;
  gossipPort : Z;
  gossipAdvertiseIP : string;
  seedGossipAddr : string;
  fBandwidthMbps : Z;
  fDiskPath : string;
  metricsInterval : Z;
  walDir : string;
  replicationFactor : Z;
  rpcVerbose : bool;
  metricsBindAddr : string;
  metricsPort : Z;
  rpcTLSEnable : bool;
  rpcTLSCertFile : string;
  rpcTLSKeyFile : string;
  rpcTLSCACertFile : string;
  rpcTLSServerName : string;
  rpcTLSInsecureSkipVerify : bool
}.

Definition defaultFlags : Flags :=
  mkFlags 9999 "127.0.0.1" 0 "0.0.0.0" "" 1 512 "0.0.0.0" 0 "127.0.0.1" "127.0.0.1:7946" 50 "/" (10 * Second) ""
    3 false "0.0.0.0" 0 false "" "" "" "" false.

Definition writerBufferSize : Z := 72 * 1024.
Definition requestChannelSize : Z := 12000.

(** [fmt.Sprintf("%s:%d", host, port)] *)
Definition hostPort (host : string) (port : Z) : string := (host +:+ ":" +:+ pretty port)%string.

Definition nodeIDOf (port : Z) : string := ("node-" +:+ pretty port)%string.

(** [core.AckMode(n)] keeps eight bits; the code tests for the first and the last mode only. *)
Definition AckModeOf (n : Z) : AckMode :=
  let m := n mod 2 ^ 8 in
  if m =? 0 then AckAfterEnqueue else if m =? 2 then AckAfterFsync else AckAfterFlush.

Definition resolvedWalDir (f : Flags) : string :=
  if decide (walDir f = ""%string) then Join ["kvst"%string; nodeIDOf (rpcPort f)] else walDir f.

Definition orDefault (n d : Z) : Z := if n =? 0 then d else n.
Definition resolvedMetricsPort (f : Flags) : Z := orDefault (metricsPort f) (rpcPort f + 2000).
Definition resolvedRaftPort (f : Flags) : Z := orDefault (raftPort f) (rpcPort f + 1000).
Definition resolvedGossipPort (f : Flags) : Z :=
  if (gossipPort f =? 0) && (rpcPort f =? 9999) then 7946 else gossipPort f.
Definition advertiseIP (f : Flags) : string :=
  if decide (raftAdvertiseIP f = ""%string) then rpcHost f else raftAdvertiseIP f.

(** [DetectDiskPath]: only absolute paths are kept. *)
Definition DetectDiskPath (path : string) : string := if isRooted (bytes path) then path else "/"%string.

(** ** The world of the process *)

(** The log file as [os.Stat] and [os.Open] see it. *)
Inductive FileState := FileMissing | FileUnreadable | FileContents (l : list byte).

(** The memberlist configuration [CreateCluster] sets. *)
Record MlConfig := mkMl {
  mlName : string; mlBindAddr : string; mlBindPort : Z; mlAdvertiseAddr : string; mlAdvertisePort : Z;
  mlProbeTimeout : Z; mlProbeInterval : Z; mlGossipInterval : Z
}.

Definition CreateConfig (ID bindAddr adv : string) (port : Z) : MlConfig :=
  let bindAddr := if decide (bindAddr = ""%string) then "127.0.0.1"%string else bindAddr in
  let adv := if decide (adv = ""%string) then "127.0.0.1"%string else adv in
  mkMl ID bindAddr port adv port (2 * Second) (2 * Second) (Second / 2).

Record World := mkWorld {
  userConfigDir : option string;
  mkdir : string → bool;
  logFile : string → FileState;
  openLog : string → bool;
  createMemberlist : MlConfig → bool;
  joinMemberlist : string → bool;
  listen : Z → bool;
  serverKeyPair : string → string → bool
}.

Inductive joinErr := NoMemberlist | NoSeed | JoinFailed.

(** [Node.JoinCluster] once the memberlist exists or not. *)
Definition JoinCluster (wd : World) (ml : option MlConfig) (seed : string) : option joinErr :=
  match ml with
  | None => Some NoMemberlist
  | Some _ =>
      if decide (seed = ""%string) then Some NoSeed
      else if joinMemberlist wd seed then None else Some JoinFailed
  end.

(** [Node.LeaveCluster]; [left] says whether the memberlist could announce the departure. *)
Definition LeaveCluster (ml : option MlConfig) (left : bool) : option joinErr :=
  match ml with
  | None => Some NoMemberlist
  | Some _ => if left then None else Some JoinFailed
  end.

(** ** The server *)

Definition NewServer (s : Store) : Server := mkServer s 0.

Inductive startErr := ListenFailed | TLSFilesMissing | KeyPairFailed.

(** [Server.Start] up to [Serve]: whether the listener uses TLS. *)
Definition Start (wd : World) (cert key : string) (port : Z) : bool + startErr :=
  if negb (listen wd port) then inr ListenFailed
  else if bool_decide (cert = ""%string) && bool_decide (key = ""%string) then inl false
  else if bool_decide (cert = ""%string) || bool_decide (key = ""%string) then inr TLSFilesMissing
  else if serverKeyPair wd cert key then inl true else inr KeyPairFailed.

(** ** [main] *)

Inductive bootErr :=
  | PanicMkdir | PanicReplay (r : ReplayResult) | PanicOpenLog | FatalMissingKeys | PanicGossip
  | FatalClientTLS (e : tlsErr) | PanicRaft (e : newRaftErr) | PanicJoin (e : joinErr) | PanicStart (e : startErr).

Section boot.
Context {R : Type} (lib : Library R) {CertPool : Type}
        (ReadFile : string → option (list byte)) (CertsFromPEM : list byte → option CertPool)
        (cores memTotal : option Z) (diskTotal : string → option Z).

Record Booted := mkBooted {
  bID : string;
  bRPCAddr : string;
  bRaftAddr : string;
  bServer : Server;
  bWal : Wal;
  bBatchSize : Z;
  bMetricsAddr : string;
  bMl : MlConfig;
  bJoined : option string;                       (* the seed contacted *)
  bClientCreds : Credentials CertPool;
  bServerTLS : bool;
  bRf : Z;
  bRaft : RaftNode R;
  bCollector : MetricsCollector
}.

Definition baseDir (wd : World) : string := default "."%string (userConfigDir wd).
Definition walPath (wd : World) (f : Flags) : string := Join [baseDir wd; resolvedWalDir f; "ops.wal"%string].
Definition raftDir (wd : World) (f : Flags) : string := Join [baseDir wd; resolvedWalDir f; "raft"%string].

(** Replaying the log into a new store. *)
Definition recover (wd : World) (path : string) : Store + ReplayResult :=
  match logFile wd path with
  | FileMissing => inl NewStore
  | FileUnreadable => inr (ReplayWal Apply NewStore None).2
  | FileContents l =>
      match ReplayWal Apply NewStore (Some l) with
      | (s, ReplayOk) => inl s
      | (_, r) => inr r
      end
  end.

Definition contents (wd : World) (path : string) : list byte :=
  match logFile wd path with FileContents l => l | _ => [] end.

(** The cluster half of [main], after the store and the server exist. *)
Definition bootCluster (wd : World) (f : Flags) (store : Store) (cert key : string) : Booted + bootErr :=
  let nodeID := nodeIDOf (rpcPort f) in
  let raftAddr := hostPort (advertiseIP f) (resolvedRaftPort f) in
  let ml := CreateConfig nodeID (gossipBindAddr f) (gossipAdvertiseIP f) (resolvedGossipPort f) in
  if negb (createMemberlist wd ml) then inr PanicGossip
  else
    let tls := mkClientTLS (rpcTLSEnable f) (rpcTLSCACertFile f) (rpcTLSServerName f) (rpcTLSInsecureSkipVerify f) in
    match ConfigureTLS ReadFile CertsFromPEM tls (defaultCreds ReadFile CertsFromPEM) with
    | (_, Some e) => inr (FatalClientTLS e)
    | (creds, None) =>
        match NewRaftNode lib nodeID (hostPort (raftBindAddr f) (resolvedRaftPort f)) raftAddr (raftDir wd f)
                (rpcPort f =? 9999) with
        | inr e => inr (PanicRaft e)
        | inl rn =>
            let joined := if rpcPort f =? 9999 then None else Some (seedGossipAddr f) in
            match (if rpcPort f =? 9999 then None else JoinCluster wd (Some ml) (seedGossipAddr f)) with
            | Some e => inr (PanicJoin e)
            | None =>
                match Start wd cert key (rpcPort f) with
                | inr e => inr (PanicStart e)
                | inl serverTLS =>
                    inl (mkBooted nodeID (hostPort (rpcHost f) (rpcPort f)) raftAddr (NewServer store)
                           (NewWal (contents wd (walPath wd f)) (Z.to_nat writerBufferSize) (AckModeOf (ack f)))
                           (elbSize f) (hostPort (metricsBindAddr f) (resolvedMetricsPort f)) ml joined creds serverTLS
                           (replicationFactor f) rn
                           (NewMetricsCollector nodeID (fBandwidthMbps f) (DetectDiskPath (fDiskPath f)) cores memTotal diskTotal))
                end
            end
        end
    end.

Definition boot (wd : World) (f : Flags) : Booted + bootErr :=
  if negb (mkdir wd (Join [baseDir wd; resolvedWalDir f])) then inr PanicMkdir
  else match recover wd (walPath wd f) with
  | inr r => inr (PanicReplay r)
  | inl store =>
      if negb (openLog wd (walPath wd f)) then inr PanicOpenLog
      else if rpcTLSEnable f then
        if bool_decide (rpcTLSCertFile f = ""%string) || bool_decide (rpcTLSKeyFile f = ""%string) then inr FatalMissingKeys
        else bootCluster wd f store (rpcTLSCertFile f) (rpcTLSKeyFile f)
      else bootCluster wd f store "" ""
  end.
(** ** What a started node looks like *)

Lemma Start_tls wd cert key port t : Start wd cert key port = inl t →
  t = negb (bool_decide (cert = ""%string)) ∧ t = negb (bool_decide (key = ""%string)).
Proof.
  unfold Start. repeat case_bool_decide; simpl; repeat case_match; try done; by intros [= <-].
Qed.

(** The node that [main] assembles. *)
Record assembled (wd : World) (f : Flags) (store : Store) (n : Booted) : Prop := {
  as_id : bID n = nodeIDOf (rpcPort f);
  as_rpc : bRPCAddr n = hostPort (rpcHost f) (rpcPort f);
  as_raftAddr : bRaftAddr n = hostPort (advertiseIP f) (resolvedRaftPort f);
  as_server : bServer n = NewServer store;
  as_wal : bWal n = NewWal (contents wd (walPath wd f)) (Z.to_nat writerBufferSize) (AckModeOf (ack f));
  as_creds : ConfigureTLS ReadFile CertsFromPEM
      (mkClientTLS (rpcTLSEnable f) (rpcTLSCACertFile f) (rpcTLSServerName f) (rpcTLSInsecureSkipVerify f))
      (defaultCreds ReadFile CertsFromPEM) = (bClientCreds n, None);
  as_raft : NewRaftNode lib (nodeIDOf (rpcPort f)) (hostPort (raftBindAddr f) (resolvedRaftPort f))
      (hostPort (advertiseIP f) (resolvedRaftPort f)) (raftDir wd f) (rpcPort f =? 9999) = inl (bRaft n);
  as_joined : bJoined n = if rpcPort f =? 9999 then None else Some (seedGossipAddr f)
}.

Lemma bootCluster_assembled wd f store cert key n : bootCluster wd f store cert key = inl n →
  assembled wd f store n ∧ Start wd cert key (rpcPort f) = inl (bServerTLS n).
Proof.
  unfold bootCluster. destruct (createMemberlist _ _); [|done]. cbn [negb].
  destruct (ConfigureTLS _ _ _ _) as [creds [|]] eqn:Ec; [done|].
  destruct (NewRaftNode _ _ _ _ _ _) as [rn|] eqn:En; [|done].
  destruct (if rpcPort f =? 9999 then None else _); [done|].
  destruct (Start _ _ _ _) as [t|] eqn:Es; [|done]. intros [= <-]. by split; [split|].
Qed.

Lemma boot_assembled wd f n : boot wd f = inl n →
  ∃ store, recover wd (walPath wd f) = inl store ∧ assembled wd f store n ∧ bServerTLS n = rpcTLSEnable f.
Proof.
  unfold boot. destruct (mkdir _ _); [|done]. cbn [negb]. destruct (recover _ _) as [store|]; [|done].
  destruct (openLog _ _); [|done]. cbn [negb]. intros Hb. exists store. split; [done|].
  destruct (rpcTLSEnable f).
  - repeat case_bool_decide; simpl in Hb; try done.
    apply bootCluster_assembled in Hb as [Ha Hs]. split; [done|]. apply Start_tls in Hs as [Hs _].
    by rewrite bool_decide_false in Hs.
  - apply bootCluster_assembled in Hb as [Ha Hs]. split; [done|]. apply Start_tls in Hs as [Hs _]. done.
Qed.


Lemma recover_log wd path cmds : Forall good_write cmds → logFile wd path = FileContents (encode_all cmds) →
  recover wd path = inl (apply_all NewStore cmds).
Proof.
  intros Hg Hf. assert (Hwf : Forall wf_cmd cmds) by (eapply Forall_impl; [|exact Hg]; by intros c (_ & _ & ?)).
  unfold recover. rewrite Hf. pose proof (ReplayWal_app Apply NewStore cmds [] Hwf) as Hr.
  rewrite app_nil_r, good_writes_apply in Hr by done. by rewrite Hr.
Qed.

(** C14: a restarted node holds what its log holds.  When the log is the encoding of the
    writes the previous process recorded, a node that starts has exactly these writes applied to
    an empty store, appends to the same file, and starts its version counter at zero; when the
    last record was cut by a crash, no node starts. *)
Theorem boot_recovers_log wd f cmds :
  Forall good_write cmds →
  (logFile wd (walPath wd f) = FileContents (encode_all cmds) → ∀ n, boot wd f = inl n →
     srvStore (bServer n) = apply_all NewStore cmds ∧ file (bWal n) = encode_all cmds ∧
     versionCounter (bServer n) = 0) ∧
  (∀ cmd p q, good_write cmd → p ≠ [] → q ≠ [] → p ++ q = encode cmd →
     logFile wd (walPath wd f) = FileContents (encode_all cmds ++ p) → ∀ n, boot wd f ≠ inl n).
Proof.
  intros Hg. assert (Hwf : Forall wf_cmd cmds) by (eapply Forall_impl; [|exact Hg]; by intros c (_ & _ & ?)).
  pose proof (good_writes_apply NewStore cmds Hg) as Hap. split.
  - intros Hf n (store & Hr & Ha & _)%boot_assembled. rewrite (as_server _ _ _ _ Ha), (as_wal _ _ _ _ Ha).
    rewrite (recover_log _ _ cmds Hg Hf) in Hr. unfold contents. rewrite Hf. by injection Hr as <-.
  - intros cmd p q (_ & _ & Hc) Hp Hq Hpq Hf n (store & Hr & _)%boot_assembled. unfold recover in Hr. rewrite Hf in Hr.
    rewrite (ReplayWal_app Apply NewStore cmds p Hwf), Hap in Hr.
    destruct (ReplayWal_torn Apply (apply_all NewStore cmds) cmd p q) as (err & _ & Ht); try done. by rewrite Ht in Hr.
Qed.

(** C37: a restart can make acknowledged writes disappear.  The new process starts its
    version counter at zero and takes versions from the clock.  When the clock is behind the
    version the log holds for a key (it was set back, or the version came from a node whose clock is
    ahead), a [Put] of that key, and its deletion, answer success while the store ignores them. *)
Theorem restart_put_ignored `{Server.Replicator} wd f cmds n key value clock m :
  Forall good_write cmds → logFile wd (walPath wd f) = FileContents (encode_all cmds) → boot wd f = inl n →
  let s := apply_all NewStore cmds in
  0 < clock → clock < mVersion (metaOf s key) → owns key = true →
  (∀ op v, ReplicateToAll op key v (GetVNodeForKey key) clock = None) →
  let e := mkEnv clock (Served false) m in
  srvStore (Put e (bServer n) key value).1.1 = s ∧ (Put e (bServer n) key value).1.2 = inl tt ∧
  srvStore (Delete e (bServer n) key).1.1 = s ∧ (Delete e (bServer n) key).1.2 = inl tt.
Proof.
  intros Hg Hf Hb s Hc Hlt Hown Hrep e.
  assert (bServer n = mkServer s 0) as ->.
  { apply boot_assembled in Hb as (store & Hr & Ha & _). rewrite (as_server _ _ _ _ Ha). unfold NewServer. f_equal.
    rewrite (recover_log _ _ cmds Hg Hf) in Hr. by injection Hr as <-. }
  assert (Hst : ∀ op v, Apply s (mkCommand op key v (GetVNodeForKey key) clock) = (s, None)).
  { intros op v. rewrite Apply_eq. unfold stale. cbn [Version Key].
    by rewrite (proj2 (Z.eqb_neq clock 0)), (proj2 (Z.ltb_lt _ _)) by lia. }
  unfold owns in Hown. unfold Put, Delete. destruct (CheckOwnership key) as [[o ?] ?]. simpl in Hown. subst o.
  unfold NextVersion, candidate. cbn [negb now e versionCounter srvStore].
  rewrite (proj2 (Z.leb_gt clock 0)) by lia. unfold sendRequest, loopAnswer. cbn [delivery e rOp mode srvStore cmdOf].
  change (OpPut =? OpGet) with false. change (OpDelete =? OpGet) with false. cbn [cmdOf rOp rKey rValue rVNodeID rVersion].
  unfold cmdOf. cbn [rOp rKey rValue rVNodeID rVersion]. rewrite !Hst. cbn [fmap option_fmap option_map pErr].
  destruct (decide (m = AckAfterEnqueue)); cbn [pErr fmap option_fmap option_map]; rewrite !Hrep; done.
Qed.
End boot.

(** ** Witnesses *)

Definition ex_lib : Library unit :=
  mkLibrary unit (λ _, true) (λ _, true) true (λ _, true) (λ _, Some (mkTCP None true 10999 "")) (λ _ _, true)
    (λ _, inl tt) (λ r _, (r, None)) (λ _, Leader) (λ _, ""%string) (λ r _, (r, None)) (λ r _ _, (r, None))
    (λ r _, (r, None)) (λ _, inl []) (λ _, None) true.

Definition ex_log : list Command := [mkCommand OpPut "k" [x41] 4 900; mkCommand OpDelete "j" [] 4 901].

Definition ex_start : World :=
  mkWorld (Some "/home/u/.config"%string) (λ _, true)
    (λ p, if decide (p = "/home/u/.config/kvst/node-9999/ops.wal"%string) then FileContents (encode_all ex_log) else FileMissing)
    (λ _, true) (λ _, true) (λ _, true) (λ _, true) (λ _ _, true).

(** The default flags, with TLS. *)
Definition ex_tls_flags : Flags :=
  mkFlags 9999 "127.0.0.1" 0 "0.0.0.0" "" 2 512 "0.0.0.0" 0 "127.0.0.1" "127.0.0.1:7946" 50 "/" (10 * Second) ""
    3 false "0.0.0.0" 0 true "cert.pem" "key.pem" "ca.pem" "kv" false.

Definition ex_boot (f : Flags) : @Booted unit unit + bootErr :=
  boot ex_lib (λ _, Some []) (λ _, Some tt) (Some 4) (Some (2 ^ 33)) (λ _, Some (2 ^ 36)) ex_start f.
Definition started (r : @Booted unit unit + bootErr) : bool := match r with inl _ => true | inr _ => false end.

Lemma ex_boots f : f = ex_tls_flags ∨ f = defaultFlags → ∃ n, ex_boot f = inl n.
Proof.
  intros Hf. assert (H : started (ex_boot f) = true) by (destruct Hf as [-> | ->]; vm_compute; reflexivity).
  destruct (ex_boot f) as [n|]; [by exists n|done].
Qed.

Lemma ex_log_file f : f = ex_tls_flags ∨ f = defaultFlags →
  logFile ex_start (walPath ex_start f) = FileContents (encode_all ex_log).
Proof. intros [-> | ->]; vm_compute; reflexivity. Qed.

Lemma ex_log_good : Forall good_write ex_log.
Proof. apply (bool_decide_unpack (Forall _ _)). vm_compute. exact I. Qed.


Lemma boot_recovers_log_witness :
  ∃ n, ex_boot defaultFlags = inl n ∧ srvStore (bServer n) = apply_all NewStore ex_log ∧ file (bWal n) = encode_all ex_log.
Proof.
  destruct (ex_boots defaultFlags (or_intror eq_refl)) as [n Hn]. exists n. split; [exact Hn|].
  destruct (boot_recovers_log ex_lib (λ _, Some []) (λ _, Some tt) (Some 4) (Some (2 ^ 33)) (λ _, Some (2 ^ 36))
    ex_start defaultFlags ex_log ex_log_good) as [H _].
  destruct (H (ex_log_file defaultFlags (or_intror eq_refl)) n Hn) as (H1 & H2 & _). by split.
Defined.

(** A replicator whose peers accept everything. *)
#[local] Instance ex_accepting : Server.Replicator :=
  {| ReplicateToAll := λ _ _ _ _ _, None; CheckOwnership := λ _, (true, false, ""%string); GetVNodeForKey := λ _, 4 |}.

(** The clock stands at 500, the log holds version 900: the value 41 stays. *)
Lemma restart_put_ignored_witness :
  ∃ n, ex_boot defaultFlags = inl n ∧
    let e := mkEnv 500 (Served false) AckAfterFsync in
    (Put e (bServer n) "k" [x42]).1.2 = inl tt ∧
    srvStore (Put e (bServer n) "k" [x42]).1.1 = apply_all NewStore ex_log.
Proof.
  destruct (ex_boots defaultFlags (or_intror eq_refl)) as [n Hn]. exists n. split; [exact Hn|].
  destruct (restart_put_ignored ex_lib (λ _, Some []) (λ _, Some tt) (Some 4) (Some (2 ^ 33)) (λ _, Some (2 ^ 36))
    ex_start defaultFlags ex_log n "k" [x42] 500 AckAfterFsync ex_log_good
    (ex_log_file defaultFlags (or_intror eq_refl)) Hn) as (H1 & H2 & _); [lia|vm_compute; reflexivity|reflexivity|reflexivity|].
  by split.
Defined.
