(* ===== verification/Identity.v ===== *)
(** * Node identities ([src/cmd/server/main.go], [src/cluster/membership.go])

    What a started node is called and where it keeps its data, both derived from its RPC port:
    peers read the identity back from the gossiped metadata, and nodes on one host do not share
    anything. *)

From stdpp Require Import pretty.
From Stdlib Require Import Ascii.
From Stdlib.Strings Require Import Byte.
From S2P Require Import Prelude Text Membership RaftNode Transport Startup.

(** ** Decimal numbers *)

Definition numeral (a : ascii) : Prop := code a = 45 ∨ 48 <= code a <= 57.

Lemma pretty_N_char_numeral x : numeral (pretty_N_char x).
Proof. unfold numeral, pretty_N_char. right. repeat case_match; vm_compute; split; discriminate. Qed.

Lemma pretty_N_go_numeral x s : Forall numeral (bytes s) → Forall numeral (bytes (pretty_N_go x s)).
Proof.
  revert s. induction (N.lt_wf_0 x) as [x _ IH]; intros s Hs.
  destruct (decide (x = 0%N)) as [->|Hx]; [by rewrite pretty_N_go_0|].
  rewrite pretty_N_go_step by lia. apply IH; [apply N.div_lt; lia|]. constructor; [apply pretty_N_char_numeral|done].
Qed.

Lemma pretty_N_go_nonempty x s : s ≠ ""%string ∨ (0 < x)%N → pretty_N_go x s ≠ ""%string.
Proof.
  revert s. induction (N.lt_wf_0 x) as [x _ IH]; intros s Hs.
  destruct (decide (x = 0%N)) as [->|Hx]; [rewrite pretty_N_go_0; destruct Hs; [done|lia]|].
  rewrite pretty_N_go_step by lia. apply IH; [apply N.div_lt; lia|by left].
Qed.

Lemma pretty_numeral (z : Z) : Forall numeral (bytes (pretty z)) ∧ bytes (pretty z) ≠ [].
Proof.
  assert (HN : ∀ x : N, Forall numeral (bytes (pretty x)) ∧ bytes (pretty x) ≠ []).
  { intros x. unfold pretty, pretty_N. destruct (decide (x = 0%N)).
    - split; [|done]. constructor; [|constructor]. right. vm_compute. split; discriminate.
    - split; [by apply pretty_N_go_numeral|]. apply bytes_nonempty, pretty_N_go_nonempty. right. lia. }
  destruct z as [|p|p].
  - split; [|done]. constructor; [|constructor]. right. vm_compute. split; discriminate.
  - apply (HN (N.pos p)).
  - destruct (HN (N.pos p)) as [H1 _]. split; [|done]. change (bytes (pretty (Z.neg p))) with ("-"%char :: bytes (pretty (N.pos p))).
    constructor; [by left|done].
Qed.

(** ** Metadata *)

Lemma spaceLen_trimLeft l : spaceLen l = 0%nat → trimLeft l = l.
Proof. unfold trimLeft. destruct l as [|a [|b [|c l]]]; cbn; repeat case_match; done. Qed.

Lemma trimmed_spaceLen l : trimmed l → spaceLen l = 0%nat.
Proof. intros [<- _]. apply trimLeft_spaceLen. Qed.

(** Text that ends with a printing ASCII byte has no trailing space. *)
Lemma trimRight_last l a : 32 < code a < 128 → trimRight (l ++ [a]) = l ++ [a].
Proof.
  intros Ha. unfold trimRight. rewrite reverse_app. cbn [reverse rev_append app].
  assert (H1 : space1 a = false) by (unfold space1; rewrite (proj2 (Z.leb_gt (code a) 13)), (proj2 (Z.eqb_neq (code a) 32)) by lia; by rewrite andb_false_r).
  assert (Hs : starts a) by (left; lia).
  assert (Ht : trimBy space1 (λ a b, space2 b a) (λ a b c, space3 c b a) (a :: reverse l) = a :: reverse l).
  { cbn [trimBy]. rewrite H1. destruct (reverse l) as [|b [|c r]]; [done|..]; rewrite space2_starts by done; [done|].
    by rewrite space3_starts by auto. }
  change (reverse [a] ++ reverse l) with (a :: reverse l). rewrite Ht, reverse_cons. by rewrite reverse_involutive.
Qed.

Lemma numeral_printing a : numeral a → 32 < code a < 128.
Proof. unfold numeral. lia. Qed.

Lemma trimmed_number l z : l ≠ [] → spaceLen l = 0%nat → (∃ sp r, bytes z = sp :: r ∧ starts sp) →
  (∃ r a, bytes z = r ++ [a] ∧ 32 < code a < 128) → trimmed (l ++ bytes z).
Proof.
  intros Hl H0 (sp & r & Hz & Hsp) (r' & a & Hz' & Ha). split.
  - apply spaceLen_trimLeft. rewrite Hz. by rewrite spaceLen_app.
  - rewrite Hz', app_assoc. by apply trimRight_last.
Qed.

Lemma pretty_last (z : Z) : ∃ r a, bytes (pretty z) = r ++ [a] ∧ 32 < code a < 128.
Proof.
  destruct (pretty_numeral z) as [Hn Hne]. destruct (bytes (pretty z)) as [|a r _] using rev_ind; [done|].
  exists r, a. split; [done|]. apply Forall_app in Hn as [_ Hn]. apply Forall_cons_iff in Hn as [Hn _].
  by apply numeral_printing.
Qed.

Lemma numeral_no_byte x l : Forall numeral l → (code x <? 45) || (code x =? 46) || (code x =? 47) = true → x ∉ l.
Proof.
  intros Hl Hx Hin. apply (proj1 (list.Forall_forall _ _) Hl) in Hin. unfold numeral in Hin.
  rewrite !orb_true_iff in Hx. destruct Hx as [[Hx|Hx]|Hx]; bool_to_prop; lia.
Qed.

Lemma field_number h s (z : Z) : h ≠ [] → spaceLen h = 0%nat → comma ∉ h →
  bytes s = h ++ bytes (pretty z) → field s.
Proof.
  intros Hh H0 Hc Hs. destruct (pretty_numeral z) as [Hn Hne]. split_and!.
  - intros ->. simpl in Hs. by destruct h.
  - rewrite Hs. apply not_elem_of_app. split; [done|]. by apply numeral_no_byte.
  - rewrite Hs. apply trimmed_number; [done..| |apply pretty_last].
    destruct (bytes (pretty z)) as [|a r]; [done|]. exists a, r. split; [done|]. left.
    apply Forall_cons_iff in Hn as [[?|?] _]; lia.
Qed.

Lemma field_hostPort host port : field host → field (hostPort host port).
Proof.
  intros (Hne & Hc & Ht). apply (field_number (bytes host ++ bytes ":") _ port).
  - by destruct (bytes host).
  - rewrite (spaceLen_app _ ":"%char []); [by apply trimmed_spaceLen|by left|by apply bytes_nonempty].
  - apply not_elem_of_app. split; [done|]. apply (bool_decide_unpack (_ ∉ _)). vm_compute. exact I.
  - unfold hostPort. by rewrite !bytes_app, <-app_assoc.
Qed.

Lemma field_nodeID port : field (nodeIDOf port).
Proof.
  apply (field_number (bytes "node-") _ port); [done|reflexivity| |].
  - apply (bool_decide_unpack (_ ∉ _)). vm_compute. exact I.
  - unfold nodeIDOf. by rewrite bytes_app.
Qed.

(** What a started node gossips to the cluster. *)
Definition gossipedMeta {R CertPool : Type} (n : @Booted R CertPool) : string := NodeMeta (bID n) (bRPCAddr n) (bRaftAddr n).

Section identity.
Context {R : Type} (lib : Library R) {CertPool : Type}
        (ReadFile : string → option (list byte)) (CertsFromPEM : list byte → option CertPool)
        (cores memTotal : option Z) (diskTotal : string → option Z).

(** Peers learn a started node's identity.  For host names without commas and surrounding
    space, every peer decodes from the gossiped metadata of a started node exactly its identifier,
    its RPC address and its raft address. *)
Theorem started_node_is_known wd f n :
  boot lib ReadFile CertsFromPEM cores memTotal diskTotal wd f = inl n →
  field (rpcHost f) → field (advertiseIP f) →
  bID n = nodeIDOf (rpcPort f) ∧ parseMeta (gossipedMeta n) = inl (bID n, bRPCAddr n) ∧
  parseMetaWithRaft (gossipedMeta n) = inl (bID n, bRPCAddr n, bRaftAddr n).
Proof.
  intros (store & _ & Ha & _)%boot_assembled Hh Hadv. unfold gossipedMeta.
  rewrite (as_id _ _ _ _ _ _ _ Ha), (as_rpc _ _ _ _ _ _ _ Ha), (as_raftAddr _ _ _ _ _ _ _ Ha).
  split; [done|]. apply node_meta_round_trip; auto using field_nodeID, field_hostPort.
Qed.
End identity.

(** ** Directories *)

Lemma splitBytes_join l r sep : splitBytes sep (l ++ sep :: r) = splitBytes sep l ++ splitBytes sep r.
Proof.
  induction l as [|a l IH]; simpl; [by rewrite decide_True|]. destruct (decide (a = sep)); [by rewrite IH|].
  rewrite IH. assert (Hne : splitBytes sep l ≠ []) by (destruct l; simpl; repeat case_match; done).
  by destruct (splitBytes sep l).
Qed.

(** A path element that cleaning keeps. *)
Definition plainElem (e : list ascii) : Prop := e ≠ [] ∧ e ≠ bytes "." ∧ e ≠ bytes ".." ∧ slash ∉ e.

Lemma cleanStep_plain rooted st e : plainElem e → cleanStep rooted st e = e :: st.
Proof.
  intros (H1 & H2 & H3 & _). unfold cleanStep. by rewrite !decide_False by tauto.
Qed.

Lemma cleanStep_plains rooted es st : Forall plainElem es → foldl (cleanStep rooted) st es = reverse es ++ st.
Proof.
  intros He. revert st. induction He as [|e es H _ IH]; intros st; [done|].
  cbn [foldl]. by rewrite cleanStep_plain, IH, reverse_cons, <-app_assoc.
Qed.

Lemma joinSlash_cons e es : es ≠ [] → joinSlash (e :: es) = e ++ slash :: joinSlash es.
Proof. by destruct es. Qed.

Lemma splitBytes_joinSlash es : es ≠ [] → Forall plainElem es → splitBytes slash (joinSlash es) = es.
Proof.
  intros Hne He. induction He as [|e [|e' es] H _ IH]; [done|apply splitBytes_none, H|].
  rewrite joinSlash_cons, splitBytes_app by (done || apply H). by rewrite IH.
Qed.

Definition slashed (B : list (list ascii)) : list ascii := concat ((λ e, e ++ [slash]) <$> B).

Lemma joinSlash_app B C : C ≠ [] → joinSlash (B ++ C) = slashed B ++ joinSlash C.
Proof.
  intros HC. unfold slashed. induction B as [|e B IH]; [done|]. cbn [app fmap list_fmap concat].
  rewrite joinSlash_cons by (by destruct B). by rewrite IH, <-!app_assoc.
Qed.

(** Plain elements below a directory stay below it. *)
Lemma cleanBytes_below base es : base ≠ [] → es ≠ [] → Forall plainElem es →
  cleanBytes (base ++ slash :: joinSlash es) =
  ((if isRooted base then [slash] else []) ++ slashed (cleanElems base)) ++ joinSlash es.
Proof.
  intros Hb He Hp. assert (Hr : isRooted (base ++ slash :: joinSlash es) = isRooted base) by (by destruct base).
  unfold cleanBytes, cleanElems. rewrite Hr, splitBytes_join, foldl_app, splitBytes_joinSlash by done.
  rewrite cleanStep_plains by done. rewrite reverse_app, reverse_involutive. set (B := reverse _).
  unfold render. destruct (B ++ es) as [|x xs] eqn:E; [by apply app_nil in E as [_ ?]|]. rewrite <-E, joinSlash_app by done.
  by rewrite app_assoc.
Qed.

Lemma cleanBytes_plain es : es ≠ [] → Forall plainElem es → cleanBytes (joinSlash es) = joinSlash es.
Proof.
  intros He Hp. assert (Hr : isRooted (joinSlash es) = false).
  { destruct Hp as [|e es Hpe _]; [done|]. destruct Hpe as (Hne & _ & _ & Hs). destruct e as [|a e]; [done|].
    assert (Ha : a ≠ slash) by (intros ->; apply Hs; left).
    destruct es as [|e' es]; [|rewrite joinSlash_cons by done]; cbn; by apply bool_decide_false. }
  unfold cleanBytes, cleanElems. rewrite Hr, splitBytes_joinSlash, cleanStep_plains by done.
  rewrite app_nil_r, reverse_involutive. unfold render. by destruct es.
Qed.

Lemma nodeID_plain port : plainElem (bytes (nodeIDOf port)).
Proof.
  unfold nodeIDOf. rewrite bytes_app. split_and!; [done..|]. apply not_elem_of_app. split.
  - apply (bool_decide_unpack (_ ∉ _)). vm_compute. exact I.
  - apply numeral_no_byte; [apply pretty_numeral|done].
Qed.

Lemma ex_plainElem e : bool_decide (e ≠ [] ∧ e ≠ bytes "." ∧ e ≠ bytes ".." ∧ slash ∉ e) = true → plainElem e.
Proof. apply bool_decide_eq_true. Qed.

(** The default directory of a node. *)
Lemma default_dir f : walDir f = ""%string →
  bytes (resolvedWalDir f) = joinSlash [bytes "kvst"; bytes (nodeIDOf (rpcPort f))].
Proof.
  intros Hd. unfold resolvedWalDir. rewrite decide_True by done. unfold Join. cbn [fmap list_fmap].
  pose proof (nodeID_plain (rpcPort f)) as Hp.
  rewrite !filter_cons_True, filter_nil by (done || apply Hp). rewrite bytes_str, cleanBytes_plain; [done..|].
  constructor; [apply ex_plainElem; vm_compute; reflexivity|by constructor].
Qed.

(** The part of a path that depends on the base directory only. *)
Definition basePrefix (base : list ascii) : list ascii :=
  match base with [] => [] | _ => (if isRooted base then [slash] else []) ++ slashed (cleanElems base) end.

(** A file of a node with the default directory. *)
Lemma default_path base f name : walDir f = ""%string → plainElem (bytes name) →
  bytes (Join [base; resolvedWalDir f; name]) =
  basePrefix (bytes base) ++ bytes "kvst" ++ slash :: bytes (nodeIDOf (rpcPort f)) ++ slash :: bytes name.
Proof.
  intros Hd Hn. pose proof (nodeID_plain (rpcPort f)) as Hp.
  assert (Hes : Forall plainElem [bytes "kvst"; bytes (nodeIDOf (rpcPort f)); bytes name])
    by (rewrite !Forall_cons_iff; split; [apply ex_plainElem; vm_compute; reflexivity|by split; [|split]]).
  assert (Hj : joinSlash [bytes "kvst"; bytes (nodeIDOf (rpcPort f)); bytes name] =
    bytes "kvst" ++ slash :: bytes (nodeIDOf (rpcPort f)) ++ slash :: bytes name) by done.
  assert (Hj2 : joinSlash [bytes (resolvedWalDir f); bytes name] =
    joinSlash [bytes "kvst"; bytes (nodeIDOf (rpcPort f)); bytes name]).
  { rewrite default_dir by done. cbn [joinSlash]. by rewrite <-app_assoc. }
  unfold Join. cbn [fmap list_fmap].
  assert (Hne : bytes (resolvedWalDir f) ≠ []) by (by rewrite default_dir).
  destruct (decide (bytes base = [])) as [Hb|Hb].
  - rewrite filter_cons_False by auto. rewrite !filter_cons_True, filter_nil by (done || apply Hn).
    rewrite bytes_str, Hj2, cleanBytes_plain, Hb by done. done.
  - rewrite !filter_cons_True, filter_nil by (done || apply Hn). rewrite bytes_str, joinSlash_cons, Hj2 by done.
    rewrite cleanBytes_below by done. rewrite Hj. unfold basePrefix. by destruct (bytes base).
Qed.

Definition portsOf (f : Flags) : list Z := [rpcPort f; resolvedRaftPort f; resolvedMetricsPort f].

(** Nodes on one host stay apart.  Two nodes started with different RPC ports and otherwise
    default ports and directories have different identifiers, log files and raft directories, and,
    unless their RPC ports are 1000 or 2000 apart, no TCP port in common. *)
Theorem nodes_on_one_host_apart wd f1 f2 :
  rpcPort f1 ≠ rpcPort f2 → walDir f1 = ""%string → walDir f2 = ""%string →
  nodeIDOf (rpcPort f1) ≠ nodeIDOf (rpcPort f2) ∧ walPath wd f1 ≠ walPath wd f2 ∧ raftDir wd f1 ≠ raftDir wd f2 ∧
  (Forall (λ f, raftPort f = 0 ∧ metricsPort f = 0) [f1; f2] →
   Z.abs (rpcPort f1 - rpcPort f2) ≠ 1000 → Z.abs (rpcPort f1 - rpcPort f2) ≠ 2000 →
   ∀ p, p ∈ portsOf f1 → p ∉ portsOf f2).
Proof.
  intros Hne Hd1 Hd2.
  assert (Hid : nodeIDOf (rpcPort f1) ≠ nodeIDOf (rpcPort f2)) by (unfold nodeIDOf; intros E; by simplify_eq).
  assert (Hpath : ∀ base name, plainElem (bytes name) → Join [base; resolvedWalDir f1; name] ≠ Join [base; resolvedWalDir f2; name]).
  { intros base name Hn E. apply (f_equal bytes) in E. rewrite !default_path in E by done.
    do 2 apply app_inv_head in E. apply Hid. rewrite <-(str_bytes (nodeIDOf (rpcPort f1))), <-(str_bytes (nodeIDOf (rpcPort f2))).
    f_equal. revert E. generalize (bytes (nodeIDOf (rpcPort f1))), (bytes (nodeIDOf (rpcPort f2))). intros i1 i2 [= E].
    by apply app_inv_tail in E. }
  split_and!; [done|apply Hpath; apply ex_plainElem; vm_compute; reflexivity..|].
  intros Hp H1 H2 p Hp1 Hp2. apply Forall_cons_iff in Hp as [[Ha Hb] Hp]. apply Forall_cons_iff in Hp as [[Hc Hdd] _].
  unfold portsOf, resolvedRaftPort, resolvedMetricsPort, orDefault in *. rewrite Ha, Hb in Hp1. rewrite Hc, Hdd in Hp2.
  simpl in *. set_unfold in Hp1. set_unfold in Hp2. lia.
Qed.

(** ** Witnesses *)

Lemma ex_local_field : field "127.0.0.1".
Proof. apply ex_field. vm_compute. reflexivity. Qed.

Lemma started_node_is_known_witness :
  ∃ n, ex_boot defaultFlags = inl n ∧
    parseMetaWithRaft (gossipedMeta n)
    = inl ("node-9999", "127.0.0.1:9999", "127.0.0.1:10999")%string.
Proof.
  destruct (ex_boots defaultFlags (or_intror eq_refl)) as [n Hn]. exists n. split; [exact Hn|].
  pose proof (started_node_is_known ex_lib (λ _, Some []) (λ _, Some tt) (Some 4) (Some (2 ^ 33)) (λ _, Some (2 ^ 36))
    ex_start defaultFlags n Hn ex_local_field ex_local_field) as (_ & _ & ->).
  destruct (boot_assembled _ _ _ _ _ _ _ _ _ Hn) as (store & _ & Ha & _).
  rewrite (as_id _ _ _ _ _ _ _ Ha), (as_rpc _ _ _ _ _ _ _ Ha), (as_raftAddr _ _ _ _ _ _ _ Ha). vm_compute. reflexivity.
Defined.

(** The second node of the local script. *)
Definition ex_second : Flags :=
  mkFlags 10000 "127.0.0.1" 0 "127.0.0.1" "127.0.0.1" 1 512 "0.0.0.0" 7947 "127.0.0.1" "127.0.0.1:7946" 150 "/" (4 * Second) ""
    3 false "0.0.0.0" 0 false "" "" "" "" false.

Lemma nodes_on_one_host_apart_witness :
  walPath ex_start defaultFlags ≠ walPath ex_start ex_second ∧ ∀ p, p ∈ portsOf defaultFlags → p ∉ portsOf ex_second.
Proof.
  destruct (nodes_on_one_host_apart ex_start defaultFlags ex_second) as (_ & Hw & _ & Hp); [discriminate|reflexivity..|].
  split; [exact Hw|]. apply Hp; [|discriminate..]. rewrite !Forall_cons_iff. by split_and!.
Defined.
