(* ===== verification/Observability.v ===== *)
(** * Observability ([src/observability/metrics.go])

    The series a process registers and what its components record in them.  The client library
    (prometheus) is behind the interface [Prometheus]: registered handles, of which counters refuse
    negative increments and every labelled series a wrong number of label values, by panicking. *)

From S2P Require Import Prelude Float64 FloatError WalCodec Collector.

(** ** Series *)

Inductive Gauge :=
  | placementEpochCurrent | migrationActiveVNodes | storeKeys | storeTombstones | storeValueBytes
  | storeVnodesWithData | storeVnodesWithTombstones | localNodeCPUUsage | localNodeMemUsage
  | localNodeNetUsage | localNodeDiskUsage | localNodeAvgRTTMs | localNodeCPUCores | localNodeMemGB
  | localNodeBandwidthMbps | localNodeDiskGB | clusterMembers.

Inductive Counter :=
  | placementApplyTotal | migrationVNodesGainedTotal | migrationVNodesLostTotal
  | migrationVNodesReplicaAddedTotal | migrationVNodesReplicaChangedTotal | transferAttemptsTotal
  | transferEntriesTotal | transferBytesTotal | getMigrationFallbackTotal | staleWriteIgnoredTotal
  | storeApplyTotal | storeGetTotal | rpcRequestsTotal | clientRequestsTotal | replicationQuorumTotal.

Inductive Histogram :=
  | placementApplyDurationSeconds | transferDurationSeconds | storeGetDurationSeconds
  | storeSnapshotEntries | rpcDurationSeconds | replicationAcks | replicationTargets.

Definition gaugeName (s : Gauge) : string :=
  match s with
  | placementEpochCurrent => "nawst_placement_epoch_current"
  | migrationActiveVNodes => "nawst_migration_active_vnodes"
  | storeKeys => "nawst_store_keys"
  | storeTombstones => "nawst_store_tombstones"
  | storeValueBytes => "nawst_store_value_bytes"
  | storeVnodesWithData => "nawst_store_vnodes_with_data"
  | storeVnodesWithTombstones => "nawst_store_vnodes_with_tombstones"
  | localNodeCPUUsage => "nawst_local_cpu_usage_ratio"
  | localNodeMemUsage => "nawst_local_mem_usage_ratio"
  | localNodeNetUsage => "nawst_local_net_usage_ratio"
  | localNodeDiskUsage => "nawst_local_disk_usage_ratio"
  | localNodeAvgRTTMs => "nawst_local_avg_rtt_ms"
  | localNodeCPUCores => "nawst_local_cpu_cores"
  | localNodeMemGB => "nawst_local_mem_gb"
  | localNodeBandwidthMbps => "nawst_local_bandwidth_mbps"
  | localNodeDiskGB => "nawst_local_disk_gb"
  | clusterMembers => "nawst_cluster_members"
  end.

Definition counterName (s : Counter) : string :=
  match s with
  | placementApplyTotal => "nawst_placement_apply_total"
  | migrationVNodesGainedTotal => "nawst_migration_vnodes_gained_total"
  | migrationVNodesLostTotal => "nawst_migration_vnodes_lost_total"
  | migrationVNodesReplicaAddedTotal => "nawst_migration_vnodes_replica_added_total"
  | migrationVNodesReplicaChangedTotal => "nawst_migration_vnodes_replica_changed_total"
  | transferAttemptsTotal => "nawst_transfer_attempts_total"
  | transferEntriesTotal => "nawst_transfer_entries_total"
  | transferBytesTotal => "nawst_transfer_bytes_total"
  | getMigrationFallbackTotal => "nawst_get_migration_fallback_total"
  | staleWriteIgnoredTotal => "nawst_stale_write_ignored_total"
  | storeApplyTotal => "nawst_store_apply_total"
  | storeGetTotal => "nawst_store_get_total"
  | rpcRequestsTotal => "nawst_rpc_requests_total"
  | clientRequestsTotal => "nawst_client_requests_total"
  | replicationQuorumTotal => "nawst_replication_quorum_total"
  end.

Definition histogramName (s : Histogram) : string :=
  match s with
  | placementApplyDurationSeconds => "nawst_placement_apply_duration_seconds"
  | transferDurationSeconds => "nawst_transfer_duration_seconds"
  | storeGetDurationSeconds => "nawst_store_get_duration_seconds"
  | storeSnapshotEntries => "nawst_store_snapshot_entries"
  | rpcDurationSeconds => "nawst_rpc_request_duration_seconds"
  | replicationAcks => "nawst_replication_acks"
  | replicationTargets => "nawst_replication_targets"
  end.

Definition counterLabels (s : Counter) : list string :=
  match s with
  | transferAttemptsTotal => ["result"]
  | storeApplyTotal => ["op"; "result"]
  | storeGetTotal => ["result"]
  | rpcRequestsTotal => ["method"; "result"]
  | clientRequestsTotal => ["method"; "result"]
  | replicationQuorumTotal => ["result"]
  | _ => []
  end%string.

Definition histogramLabels (s : Histogram) : list string :=
  match s with rpcDurationSeconds => ["method"%string] | _ => [] end.

(** Buckets of a histogram; [None] are the library's default buckets. *)
Definition histogramBuckets (s : Histogram) : option (list Z) :=
  match s with
  | storeSnapshotEntries => Some [1; 5; 10; 25; 50; 100; 250; 500; 1000; 2500; 5000]
  | replicationAcks => Some [1; 2; 3; 4; 5; 7; 9]
  | replicationTargets => Some [0; 1; 2; 3; 4; 5; 7; 9]
  | _ => None
  end.

Definition gauges : list Gauge :=
  [placementEpochCurrent; migrationActiveVNodes; storeKeys; storeTombstones; storeValueBytes; storeVnodesWithData;
   storeVnodesWithTombstones; localNodeCPUUsage; localNodeMemUsage; localNodeNetUsage; localNodeDiskUsage;
   localNodeAvgRTTMs; localNodeCPUCores; localNodeMemGB; localNodeBandwidthMbps; localNodeDiskGB; clusterMembers].
Definition counters : list Counter :=
  [placementApplyTotal; migrationVNodesGainedTotal; migrationVNodesLostTotal; migrationVNodesReplicaAddedTotal;
   migrationVNodesReplicaChangedTotal; transferAttemptsTotal; transferEntriesTotal; transferBytesTotal;
   getMigrationFallbackTotal; staleWriteIgnoredTotal; storeApplyTotal; storeGetTotal; rpcRequestsTotal;
   clientRequestsTotal; replicationQuorumTotal].
Definition histograms : list Histogram :=
  [placementApplyDurationSeconds; transferDurationSeconds; storeGetDurationSeconds; storeSnapshotEntries;
   rpcDurationSeconds; replicationAcks; replicationTargets].

(** Names are registered when the package is initialised; a duplicate would panic there. *)
Definition registeredNames : list string :=
  (gaugeName <$> gauges) ++ (counterName <$> counters) ++ (histogramName <$> histograms).

Lemma registered_once : NoDup registeredNames.
Proof. apply (bool_decide_unpack (NoDup _)). vm_compute. exact I. Qed.

(** ** The client library *)

Inductive Call :=
  | GaugeSet (g : Gauge) (v : f64)
  | GaugeInc (g : Gauge)
  | GaugeDec (g : Gauge)
  | CounterInc (c : Counter) (labels : list string)
  | CounterAdd (c : Counter) (labels : list string) (v : f64)
  | Observe (h : Histogram) (labels : list string) (v : f64).

(** The library on the state of a registry; [None] is a panic.  The laws are the documented
    conditions under which its methods return. *)
Class Prometheus (Reg : Type) := {
  perform : Call → Reg → option Reg;
  gauge_returns : ∀ g v r, is_Some (perform (GaugeSet g v) r) ∧ is_Some (perform (GaugeInc g) r) ∧
    is_Some (perform (GaugeDec g) r);
  inc_returns : ∀ c ls r, length ls = length (counterLabels c) → is_Some (perform (CounterInc c ls) r);
  add_returns : ∀ c ls v r, length ls = length (counterLabels c) → fle f0 v = true → is_Some (perform (CounterAdd c ls v) r);
  observe_returns : ∀ h ls v r, length ls = length (histogramLabels h) → is_Some (perform (Observe h ls v) r)
}.

Fixpoint performAll `{Prometheus Reg} (calls : list Call) (r : Reg) : option Reg :=
  match calls with
  | [] => Some r
  | c :: calls => perform c r ≫= performAll calls
  end.

(** ** What is recorded *)

(** [float64(n)] *)
Definition fl (n : Z) : f64 := of_Z n.

Definition orUnknown (s : string) : string := if decide (s = ""%string) then "unknown"%string else s.

Definition ObservePlacementApply (epoch gained lost changedReplicas addedReplicas d : Z) : list Call :=
  [GaugeSet placementEpochCurrent (fl epoch);
   CounterInc placementApplyTotal [];
   Observe placementApplyDurationSeconds [] (Seconds d);
   CounterAdd migrationVNodesGainedTotal [] (fl gained);
   CounterAdd migrationVNodesLostTotal [] (fl lost);
   CounterAdd migrationVNodesReplicaChangedTotal [] (fl changedReplicas);
   CounterAdd migrationVNodesReplicaAddedTotal [] (fl addedReplicas)].

Definition IncMigrationActive : list Call := [GaugeInc migrationActiveVNodes].
Definition DecMigrationActive : list Call := [GaugeDec migrationActiveVNodes].

Definition ObserveTransfer (result : string) (d entries bytes : Z) : list Call :=
  let result := orUnknown result in
  [CounterInc transferAttemptsTotal [result]; Observe transferDurationSeconds [] (Seconds d)] ++
  (if 0 <? entries then [CounterAdd transferEntriesTotal [] (fl entries)] else []) ++
  (if 0 <? bytes then [CounterAdd transferBytesTotal [] (fl bytes)] else []).

Definition IncGetMigrationFallback : list Call := [CounterInc getMigrationFallbackTotal []].
Definition IncStaleWriteIgnored : list Call := [CounterInc staleWriteIgnoredTotal []].

Definition ObserveStoreApply (op result : string) : list Call :=
  [CounterInc storeApplyTotal [orUnknown op; orUnknown result]].

Definition ObserveStoreGet (result : string) (d : Z) : list Call :=
  [CounterInc storeGetTotal [orUnknown result]; Observe storeGetDurationSeconds [] (Seconds d)].

Definition ObserveStoreSnapshot (entries : Z) : list Call :=
  if 0 <=? entries then [Observe storeSnapshotEntries [] (fl entries)] else [].

Definition SetStoreState (keys tombstones valueBytes vnodesWithData vnodesWithTombstones : Z) : list Call :=
  [GaugeSet storeKeys (fl keys); GaugeSet storeTombstones (fl tombstones); GaugeSet storeValueBytes (fl valueBytes);
   GaugeSet storeVnodesWithData (fl vnodesWithData); GaugeSet storeVnodesWithTombstones (fl vnodesWithTombstones)].

Definition ObserveRPC (method result : string) (d : Z) : list Call :=
  let method := orUnknown method in
  [CounterInc rpcRequestsTotal [method; orUnknown result]; Observe rpcDurationSeconds [method] (Seconds d)].

Definition ObserveClientRequest (method result : string) : list Call :=
  [CounterInc clientRequestsTotal [orUnknown method; orUnknown result]].

Definition ObserveReplicationQuorum (result : string) (acks targets : Z) : list Call :=
  [CounterInc replicationQuorumTotal [orUnknown result]; Observe replicationAcks [] (fl acks);
   Observe replicationTargets [] (fl targets)].

Definition ObserveLocalCapacity (cpuUsage memUsage netUsage diskUsage avgRTT : f64)
    (cpuCores memGB bandwidthMbps diskGB : Z) : list Call :=
  [GaugeSet localNodeCPUUsage cpuUsage; GaugeSet localNodeMemUsage memUsage; GaugeSet localNodeNetUsage netUsage;
   GaugeSet localNodeDiskUsage diskUsage; GaugeSet localNodeAvgRTTMs avgRTT; GaugeSet localNodeCPUCores (fl cpuCores);
   GaugeSet localNodeMemGB (fl memGB); GaugeSet localNodeBandwidthMbps (fl bandwidthMbps);
   GaugeSet localNodeDiskGB (fl diskGB)].

Definition SetClusterMembers (n : Z) : list Call :=
  [GaugeSet clusterMembers (fl (if n <? 0 then 0 else n))].

(** ** Recording never stops the program *)

Inductive Observation :=
  | PlacementApplied (epoch : Z) (gained lost changedReplicas addedReplicas : list Z) (d : Z)
  | MigrationActive | MigrationDone
  | Transferred (result : string) (d entries bytes : Z)
  | MigrationFallback | StaleWrite
  | StoreApplied (op result : string)
  | StoreGot (result : string) (d : Z)
  | SnapshotTaken (entries : Z)
  | StoreState (keys tombstones valueBytes vnodesWithData vnodesWithTombstones : Z)
  | RPC (method result : string) (d : Z)
  | ClientRequest (method result : string)
  | QuorumReached (result : string) (acks targets : Z)
  | Capacity (cpuUsage memUsage netUsage diskUsage avgRTT : f64) (cpuCores memGB bandwidthMbps diskGB : Z)
  | Members (n : Z).

(** The calls the program makes: [ApplyPlacementFromRaft] passes the lengths of its lists of
    vnodes, the others pass their arguments on. *)
Definition callsOf (o : Observation) : list Call :=
  match o with
  | PlacementApplied e g l c a d => ObservePlacementApply e (len g) (len l) (len c) (len a) d
  | MigrationActive => IncMigrationActive
  | MigrationDone => DecMigrationActive
  | Transferred r d n b => ObserveTransfer r d n b
  | MigrationFallback => IncGetMigrationFallback
  | StaleWrite => IncStaleWriteIgnored
  | StoreApplied op r => ObserveStoreApply op r
  | StoreGot r d => ObserveStoreGet r d
  | SnapshotTaken n => ObserveStoreSnapshot n
  | StoreState k t b d v => SetStoreState k t b d v
  | RPC m r d => ObserveRPC m r d
  | ClientRequest m r => ObserveClientRequest m r
  | QuorumReached r a t => ObserveReplicationQuorum r a t
  | Capacity c m n d r cc mg bw dg => ObserveLocalCapacity c m n d r cc mg bw dg
  | Members n => SetClusterMembers n
  end.

(** Go's [int] is 64 bits wide. *)
Definition int_sized (o : Observation) : Prop :=
  match o with
  | PlacementApplied _ g l c a _ => Forall (λ vs, len vs < 2 ^ 63) [g; l; c; a]
  | Transferred _ _ n b => n < 2 ^ 63 ∧ b < 2 ^ 63
  | _ => True
  end.

Lemma fl_nonneg n : 0 <= n → n < 2 ^ 63 → fle f0 (fl n) = true.
Proof.
  intros H0 Hlt. destruct (decide (n = 0)) as [->|Hn]; [reflexivity|].
  destruct (of_Z_finite n) as (m & e & Hm); [lia..|]. unfold fl. by rewrite Hm.
Qed.

(** A call the library accepts. *)
Definition accepted (c : Call) : Prop :=
  match c with
  | CounterInc s ls => length ls = length (counterLabels s)
  | CounterAdd s ls v => length ls = length (counterLabels s) ∧ fle f0 v = true
  | Observe h ls _ => length ls = length (histogramLabels h)
  | _ => True
  end.

#[local] Create HintDb observe.
#[local] Hint Unfold callsOf ObservePlacementApply IncMigrationActive DecMigrationActive ObserveTransfer
  IncGetMigrationFallback IncStaleWriteIgnored ObserveStoreApply ObserveStoreGet ObserveStoreSnapshot SetStoreState
  ObserveRPC ObserveClientRequest ObserveReplicationQuorum ObserveLocalCapacity SetClusterMembers : observe.

Ltac each_call :=
  autounfold with observe; cbv zeta;
  repeat match goal with
  | |- Forall _ (_ ++ _) => apply Forall_app_2
  | |- Forall _ (if ?b then _ else _) => destruct b eqn:?; bool_to_prop
  | |- Forall _ (_ :: _) => constructor
  | |- Forall _ [] => constructor
  end.

Lemma callsOf_accepted o : int_sized o → Forall accepted (callsOf o).
Proof.
  unfold int_sized. intros Ho. destruct o; each_call; cbn [accepted counterLabels histogramLabels length]; try done.
  all: rewrite ?Forall_cons_iff in Ho; destruct_and?; split; [done|]; apply fl_nonneg; unfold len in *; lia.
Qed.

(** Recording never stops the program.  Whatever sequence of observations a node makes, the
    library accepts every call: counters only grow, every labelled series gets as many label
    values as it declares, and the series are registered under distinct names. *)
Theorem observations_never_panic `{Prometheus Reg} (os : list Observation) (r : Reg) :
  Forall int_sized os → is_Some (performAll (os ≫= callsOf) r) ∧ NoDup registeredNames.
Proof.
  intros Hos. split; [|apply registered_once].
  assert (Hacc : Forall accepted (os ≫= callsOf)).
  { induction Hos as [|o os Ho _ IH]; [constructor|]. cbn [mbind list_bind]. apply Forall_app_2; [|exact IH].
    by apply callsOf_accepted. }
  clear Hos. revert r. induction Hacc as [|c cs Hc _ IH]; intros r; [by eexists|]. cbn [performAll].
  assert (Hp : is_Some (perform c r)).
  { destruct c as [g v|g|g|c ls|c ls v|h ls v]; simpl in Hc.
    - apply (gauge_returns g v r).
    - apply (gauge_returns g f0 r).
    - apply (gauge_returns g f0 r).
    - exact (inc_returns c ls r Hc).
    - exact (add_returns c ls v r (proj1 Hc) (proj2 Hc)).
    - exact (observe_returns h ls v r Hc). }
  destruct Hp as [r' ->]. apply IH.
Qed.

(** No label value is empty. *)
Lemma labels_never_empty o :
  Forall (λ c, match c with CounterInc _ ls | CounterAdd _ ls _ | Observe _ ls _ => Forall (λ l, l ≠ ""%string) ls | _ => True end)
    (callsOf o).
Proof.
  assert (Hu : ∀ s, orUnknown s ≠ ""%string) by (intros s; unfold orUnknown; by case_decide).
  destruct o; each_call; auto.
Qed.

(** ** Witness *)

(** A registry that records the calls it accepts. *)
Definition ex_perform (c : Call) (r : list Call) : option (list Call) :=
  match c with
  | CounterInc s ls => if decide (length ls = length (counterLabels s)) then Some (r ++ [c]) else None
  | CounterAdd s ls v =>
      if decide (length ls = length (counterLabels s)) then if fle f0 v then Some (r ++ [c]) else None else None
  | Observe h ls _ => if decide (length ls = length (histogramLabels h)) then Some (r ++ [c]) else None
  | _ => Some (r ++ [c])
  end.

#[local] Program Instance ex_prometheus : Prometheus (list Call) := {| perform := ex_perform |}.
Next Obligation. intros g v r. split; [|split]; by eexists. Qed.
Next Obligation. intros c ls r Hl. cbn. rewrite decide_True by done. by eexists. Qed.
Next Obligation. intros c ls v r Hl Hv. cbn. rewrite decide_True, Hv by done. by eexists. Qed.
Next Obligation. intros h ls v r Hl. cbn. rewrite decide_True by done. by eexists. Qed.

Lemma observations_never_panic_witness :
  is_Some (performAll ([PlacementApplied 3 [1; 2] [] [4] [] 1500; Transferred "" 20 2 0; RPC "put" "ok" 7] ≫= callsOf) []).
Proof.
  destruct (observations_never_panic [PlacementApplied 3 [1; 2] [] [4] [] 1500; Transferred "" 20 2 0; RPC "put" "ok" 7] [])
    as [H _]; [|exact H]. rewrite !Forall_cons_iff. cbn. rewrite !Forall_cons_iff. cbn. repeat split; constructor.
Defined.
