(* ===== verification/LoadRun.v ===== *)
(** * A run of the load generator ([src/cmd/loadgen/main.go])

    The configuration as [parseFlags] leaves it, the choice of keys, and the phases of a run:
    prefill, warm-up, and the measured workload with its report.  Random draws, measured times and
    the order in which workers take their turns are inputs. *)

From stdpp Require Import pretty.
From Stdlib Require Import Ascii.
From Stdlib.Strings Require Import Byte.
From S2P Require Import Prelude Text Float64 WalCodec Placement Membership Quorum AssignProofs Router LoadGen Collector Transport Startup Identity.

(** ** Flags *)

Definition f101 : f64 := ratio 101 100.

(** The adjustments [parseFlags] makes to the parsed values. *)
Definition normalize (c : LoadConfig) : LoadConfig :=
  let keyspace := if Keyspace c <=? 0 then 1 else Keyspace c in
  let prefill := if PrefillKeys c <? 0 then 0 else PrefillKeys c in
  mkLoad (Addr c)
    (if Clients c <=? 0 then 1 else Clients c)
    (if Conns c <=? 0 then 1 else Conns c)
    (Timeout c) (TLSEnable c) (TLSCACertFile c) (TLSServerName c) (TLSInsecureSkip c)
    (if ValueSize c <=? 0 then 64 else ValueSize c)
    keyspace
    (if keyspace <? prefill then keyspace else prefill)
    (Warmup c)
    (if LDuration c <=? 0 then 30 * Second else LDuration c)
    (if ProgressEvery c <=? 0 then 5 * Second else ProgressEvery c)
    (Distribution c)
    (if fle (ZipfS c) f1 then f101 else ZipfS c)
    (if flt (ZipfV c) f1 then f1 else ZipfV c)
    (ReadPct c) (WritePct c) (DeletePct c) (TargetOpsPerSec c) (Seed c) (PutOnly c) (UseStream c).

Definition defaultLoad (seed : Z) : LoadConfig :=
  mkLoad "localhost:9999" 128 32 (3 * Second) false "" "" false 512 300000 120000 (30 * Second) (5 * Minute) (5 * Second)
    "zipf" (ratio 11 10) f1 80 15 5 0 seed false false.

(** ** Keys *)

Inductive keyPicker := uniformPicker (keyspace : Z) | latestPicker (keyspace : Z) | zipfPicker (max : Z).
Inductive pickerErr := InvalidZipf | UnknownDistribution.

(** [rand.NewZipf] refuses an exponent of at most one and an offset below one. *)
Definition newZipfOk (s v : f64) : bool := negb (fle s f1 || flt v f1).

Definition buildPicker (cfg : LoadConfig) : keyPicker + pickerErr :=
  let dist := ToLower (Distribution cfg) in
  if decide (dist = "uniform"%string) then inl (uniformPicker (Keyspace cfg))
  else if decide (dist = "latest"%string) then inl (latestPicker (Keyspace cfg))
  else if decide (dist = "zipf"%string) then
    if Keyspace cfg <=? 1 then inl (uniformPicker (Keyspace cfg))
    else if newZipfOk (ZipfS cfg) (ZipfV cfg) then inl (zipfPicker (Keyspace cfg - 1))
    else inr InvalidZipf
  else inr UnknownDistribution.

(** The draws of one turn: [intn n] is in [0, n), [pow4] the fourth power of a draw from [0, 1),
    [zipf] the draw of the Zipf generator. *)
Record Draws := mkDraws { intn : Z → Z; pow4 : f64; zipf : Z }.

(** [Next]; [Intn] panics on an empty range. *)
Definition Next (p : keyPicker) (d : Draws) : option Z :=
  match p with
  | uniformPicker k => if k <=? 0 then None else Some (intn d k)
  | latestPicker k => Some (latestNext k (pow4 d))
  | zipfPicker m => Some (zipfNext m (zipf d))
  end.

(** [%08d] *)
Definition pad8 (l : list ascii) : list ascii := replicate (8 - length l) "0"%char ++ l.
Definition keyName (n : Z) : string := ("k" +:+ str (pad8 (bytes (pretty n))))%string.

(** [pickKey]; the remainder by zero would panic. *)
Definition pickKey (cfg : LoadConfig) (p : keyPicker) (d : Draws) : option string :=
  match Next p d with
  | None => None
  | Some i => if Keyspace cfg =? 0 then None else Some (keyName (Z.rem i (Keyspace cfg)))
  end.

(** [randomValue]: the draws are from [0, 26). *)
Definition randomValue (draws : list Z) : list byte := (λ v, byte_of_Z (v + 97)) <$> draws.

(** ** Phases *)

Section run.
Context (Sum64String : string → Z) {W : Type} (dialOk : string → bool) (kv : KVClient W).

(** One turn of a worker: when it starts, its draws, what a refresh would return and how long it
    takes. *)
Record Turn := mkTurn {
  tStart : Z; tOpDraw : Z; tDraws : Draws; tValue : list byte; tFetched : option ClusterState; tTook : Z
}.

Definition perWorkerPace (cfg : LoadConfig) : Z :=
  if 0 <? TargetOpsPerSec cfg then
    let perWorker := fdiv (of_Z (TargetOpsPerSec cfg)) (of_Z (Clients cfg)) in
    if flt f0 perWorker then floorZ (fdiv (of_Z Second) perWorker) else 0
  else 0.

(** How long a worker sleeps after an operation that took [elapsed]. *)
Definition pause (pace elapsed : Z) : Z :=
  if 0 <? pace then (let sleep := pace - elapsed in if 0 <? sleep then sleep else 0) else 0.

Definition RunState : Type := PlacementRouter * W * recorder.

(** The body of a worker's loop; [None] is a panic. *)
Definition phaseTurn (cfg : LoadConfig) (mix : opMix) (p : keyPicker) (stopAt : Z) (measure : bool)
    (st : RunState) (t : Turn) : option RunState :=
  if tStart t <? stopAt then
    let '(r, w, rec) := st in
    match pickKey cfg p (tDraws t) with
    | None => None
    | Some key => Some (workerTurn Sum64String dialOk kv cfg mix measure (tOpDraw t) key (tValue t) (tFetched t) (tTook t) r w rec)
    end
  else Some st.

Fixpoint phaseTurns (cfg : LoadConfig) (mix : opMix) (p : keyPicker) (stopAt : Z) (measure : bool)
    (st : RunState) (ts : list Turn) : option RunState :=
  match ts with
  | [] => Some st
  | t :: ts => phaseTurn cfg mix p stopAt measure st t ≫= λ st, phaseTurns cfg mix p stopAt measure st ts
  end.

Inductive runErr := RunTLS (e : tlsErr) | RunMix (e : mixErr) | RunPanic.

(** [runPhase]: the turns of all workers in the order in which they happen.  A worker whose
    picker cannot be built returns at once. *)
Definition runPhase (cfg : LoadConfig) (start : Z) (measure : bool) (ts : list Turn) (r : PlacementRouter) (w : W)
    : RunState + runErr :=
  match buildMix cfg with
  | inr e => inr (RunMix e)
  | inl mix =>
      match buildPicker cfg with
      | inr _ => inl (r, w, newRecorder)
      | inl p =>
          match phaseTurns cfg mix p (start + LDuration cfg) measure (r, w, newRecorder) ts with
          | Some st => inl st
          | None => inr RunPanic
          end
      end
  end.

(** [prefill]: the keys in the order the workers reach them, each with its worker's value. *)
Fixpoint prefillPuts (cfg : LoadConfig) (order : list (nat * list byte * option ClusterState)) (r : PlacementRouter) (w : W)
    (ok fail : Z) : PlacementRouter * W * Z * Z :=
  match order with
  | [] => (r, w, ok, fail)
  | (k, v, fetched) :: order =>
      let '(r, w, err) :=
        Router.Put Sum64String dialOk kv (keyName (Z.rem (Z.of_nat k) (Keyspace cfg))) v fetched r w in
      match err with
      | Some _ => prefillPuts cfg order r w ok (fail +u64 1)
      | None => prefillPuts cfg order r w (ok +u64 1) fail
      end
  end.

Definition prefill (cfg : LoadConfig) (order : list (nat * list byte * option ClusterState)) (r : PlacementRouter) (w : W)
    : PlacementRouter * W * Z * Z :=
  if PrefillKeys cfg <=? 0 then (r, w, 0, 0) else prefillPuts cfg order r w 0 0.

(** ** The report *)

Record OpLine := mkLine { lOp : operation; lOk : Z; lFail : Z; lAvg : f64; lP50 : f64; lP95 : f64; lP99 : f64 }.
Record Report := mkReport { rpOK : Z; rpFail : Z; rpRate : option f64; rpThroughput : f64; rpLines : list OpLine }.

Definition opLine (rec : recorder) (bs : list f64) (op : operation) : option OpLine :=
  let s := rec op in
  if okN s +u64 failN s =? 0 then None
  else
    let avg := if 0 <? okN s then fdiv (latencySum s) (of_Z (okN s)) else f0 in
    Some (mkLine op (okN s) (failN s) avg (qFromHist (latencyHist s) bs (ratio 1 2))
            (qFromHist (latencyHist s) bs (ratio 95 100)) (qFromHist (latencyHist s) bs (ratio 99 100))).

Definition printReport (rec : recorder) (elapsed : Z) (bs : list f64) : Report :=
  let ok := totalOK rec in
  let fail := totalFail rec in
  let total := ok +u64 fail in
  let sec := Seconds elapsed in
  let sec := if fle sec f0 then f1 else sec in
  mkReport ok fail
    (if 0 <? total then Some (fdiv (fmul (of_Z 100) (of_Z ok)) (of_Z total)) else None)
    (fdiv (of_Z ok) sec) (omap (opLine rec bs) [opPut; opGet; opDelete]).

(** ** [main] *)

Context {CertPool : Type} (ReadFile : string → option (list byte)) (CertsFromPEM : list byte → option CertPool).

Record RunInput := mkInput {
  inInitial : option ClusterState;
  inPrefill : list (nat * list byte * option ClusterState);
  inWarmupStart : Z; inWarmup : list Turn;
  inStart : Z; inMeasured : list Turn; inElapsed : Z
}.

Definition warmupConfig (c : LoadConfig) : LoadConfig :=
  mkLoad (Addr c) (Clients c) (Conns c) (Timeout c) (TLSEnable c) (TLSCACertFile c) (TLSServerName c) (TLSInsecureSkip c)
    (ValueSize c) (Keyspace c) (PrefillKeys c) (Warmup c) (Warmup c) (ProgressEvery c) (Distribution c) (ZipfS c) (ZipfV c)
    (ReadPct c) (WritePct c) (DeletePct c) (TargetOpsPerSec c) (Seed c) (PutOnly c) (UseStream c).

Definition loadMain (flags : LoadConfig) (inp : RunInput) (w : W) : (W * Report) + runErr :=
  let cfg := normalize flags in
  let router := NewPlacementRouterWithPoolSize (Addr cfg) (Conns cfg) in
  let tls := mkClientTLS (TLSEnable cfg) (TLSCACertFile cfg) (TLSServerName cfg) (TLSInsecureSkip cfg) in
  match ConfigureTLS ReadFile CertsFromPEM tls (defaultCreds ReadFile CertsFromPEM) with
  | (_, Some e) => inr (RunTLS e)
  | (_, None) =>
      let router := (Refresh dialOk (inInitial inp) router).1 in
      let '(router, w, _, _) := prefill cfg (inPrefill inp) router w in
      match (if 0 <? Warmup cfg then runPhase (warmupConfig cfg) (inWarmupStart inp) false (inWarmup inp) router w
             else inl (router, w, newRecorder)) with
      | inr e => inr e
      | inl (router, w, _) =>
          match runPhase cfg (inStart inp) true (inMeasured inp) router w with
          | inr e => inr e
          | inl (_, w, rec) => inl (w, printReport rec (inElapsed inp) bounds)
          end
      end
  end.
End run.

(** ** Keys stay in the key space *)

Definition draws_ok (d : Draws) : Prop := (∀ n, 0 < n → 0 <= intn d n < n) ∧ is_u64 (zipf d).

Lemma Next_range p d ks : draws_ok d → 0 < ks → ks < 2 ^ 63 →
  p = uniformPicker ks ∨ p = latestPicker ks ∨ p = zipfPicker (ks - 1) →
  ∃ i, Next p d = Some i ∧ 0 <= i < ks.
Proof.
  intros [Hi Hz] H0 Hlt [-> | [-> | ->]]; cbn [Next].
  - rewrite (proj2 (Z.leb_gt ks 0)) by lia. eauto.
  - eexists. split; [done|]. unfold latestNext. repeat case_match; bool_to_prop; lia.
  - eexists. split; [done|]. unfold zipfNext, u64. rewrite Z.sub_add, (Z.mod_small ks) by lia.
    apply Z.mod_pos_bound. lia.
Qed.

Lemma normalize_keyspace c : 0 < Keyspace (normalize c).
Proof. unfold normalize. cbn [Keyspace]. case_match; bool_to_prop; lia. Qed.

Lemma normalize_zipf c : newZipfOk (ZipfS (normalize c)) (ZipfV (normalize c)) = true.
Proof.
  unfold newZipfOk, normalize. cbn [ZipfS ZipfV]. destruct (fle (ZipfS c) f1) eqn:E1, (flt (ZipfV c) f1) eqn:E2.
  all: rewrite ?E1, ?E2; reflexivity.
Qed.

(** With adjusted flags only an unknown distribution is refused. *)
Lemma buildPicker_normalized c :
  (∃ p, buildPicker (normalize c) = inl p ∧
     let ks := Keyspace (normalize c) in p = uniformPicker ks ∨ p = latestPicker ks ∨ p = zipfPicker (ks - 1)) ∨
  buildPicker (normalize c) = inr UnknownDistribution.
Proof.
  unfold buildPicker. rewrite normalize_zipf. repeat case_decide; [left; eauto..| |by right].
  left. case_match; eauto.
Qed.

Lemma pickKey_range c p d :
  buildPicker (normalize c) = inl p → draws_ok d → Keyspace c < 2 ^ 63 →
  ∃ i, pickKey (normalize c) p d = Some (keyName i) ∧ 0 <= i < Keyspace (normalize c).
Proof.
  intros Hp Hd Hlt. pose proof (normalize_keyspace c) as H0.
  assert (Hks : Keyspace (normalize c) < 2 ^ 63) by (unfold normalize; cbn [Keyspace]; case_match; bool_to_prop; lia).
  destruct (buildPicker_normalized c) as [(p' & Hp' & Hcase)|Hu]; [|congruence]. rewrite Hp in Hp'. injection Hp' as <-.
  destruct (Next_range p d _ Hd H0 Hks Hcase) as (i & Hi & Hb). unfold pickKey. rewrite Hi, (proj2 (Z.eqb_neq _ 0)) by lia.
  exists (Z.rem i (Keyspace (normalize c))). split; [done|]. rewrite Z.rem_small by lia. lia.
Qed.

(** ** Distinct numbers have distinct keys *)

Definition digit (a : ascii) : N := (N_of_ascii a - 48)%N.
Fixpoint decimal (l : list ascii) : N :=
  match l with [] => 0 | a :: l => digit a * 10 ^ N.of_nat (length l) + decimal l end%N.

Lemma digit_char x : (x < 10)%N → digit (pretty_N_char x) = x.
Proof.
  intros Hx. assert (x = 0 ∨ x = 1 ∨ x = 2 ∨ x = 3 ∨ x = 4 ∨ x = 5 ∨ x = 6 ∨ x = 7 ∨ x = 8 ∨ x = 9)%N as H by lia.
  repeat (destruct H as [-> | H]; [reflexivity|]). by subst.
Qed.

Lemma decimal_go x s : decimal (bytes (pretty_N_go x s)) = (x * 10 ^ N.of_nat (length (bytes s)) + decimal (bytes s))%N.
Proof.
  revert s. induction (N.lt_wf_0 x) as [x _ IH]; intros s.
  destruct (decide (x = 0%N)) as [->|Hx]; [by rewrite pretty_N_go_0|].
  rewrite pretty_N_go_step, IH by (try apply N.div_lt; lia).
  change (bytes (String ?a s)) with (a :: bytes s). cbn [length decimal].
  rewrite digit_char by (apply N.mod_lt; done). rewrite Nat2N.inj_succ, N.pow_succ_r'.
  pose proof (N.div_mod x 10 ltac:(done)) as Hdm. set (q := (x / 10)%N) in *. set (m := (x mod 10)%N) in *. clearbody q m.
  rewrite Hdm. lia.
Qed.

Lemma decimal_pretty n : 0 <= n → decimal (bytes (pretty n)) = Z.to_N n.
Proof.
  intros Hn. destruct n as [|p|p]; [reflexivity| |lia]. change (pretty (Z.pos p)) with (pretty (N.pos p)).
  unfold pretty, pretty_N. rewrite decide_False by done. rewrite decimal_go. simpl. lia.
Qed.

Lemma decimal_pad n l : decimal (replicate n "0"%char ++ l) = decimal l.
Proof. induction n as [|n IH]; [done|]. cbn [replicate app decimal]. by rewrite IH. Qed.

Lemma keyName_inj a b : 0 <= a → 0 <= b → keyName a = keyName b → a = b.
Proof.
  intros Ha Hb Hk. unfold keyName in Hk. simplify_eq/=. rename Hk into H. apply (f_equal bytes) in H. rewrite !bytes_str in H.
  apply (f_equal decimal) in H. unfold pad8 in H. rewrite !decimal_pad, !decimal_pretty in H by done. lia.
Qed.

(** Prefilling writes distinct keys. *)
Lemma prefill_keys_distinct n : NoDup ((λ k, keyName (Z.of_nat k)) <$> seq 0 n).
Proof.
  apply NoDup_fmap_2_strong; [|apply NoDup_seq]. intros x y _ _ Hk. apply keyName_inj in Hk; lia.
Qed.

(** ** Every operation is counted *)

Definition countedOf (rec : recorder) : Z :=
  okN (rec opPut) + failN (rec opPut) + (okN (rec opGet) + failN (rec opGet)) + (okN (rec opDelete) + failN (rec opDelete)).
Definition countsOk (rec : recorder) : Prop := ∀ op, 0 <= okN (rec op) ∧ 0 <= failN (rec op).

Lemma observe_counts op d failed rec : countsOk rec → countedOf rec + 1 < 2 ^ 64 →
  countsOk (observe op d failed rec) ∧ countedOf (observe op d failed rec) = countedOf rec + 1.
Proof.
  intros Hc Hlt. pose proof (Hc opPut) as H1. pose proof (Hc opGet) as H2. pose proof (Hc opDelete) as H3. unfold countedOf in *.
  assert (Hu : ∀ o, u64 (okN (rec o) + 1) = okN (rec o) + 1 ∧ u64 (failN (rec o) + 1) = failN (rec o) + 1)
    by (intros o; unfold u64; rewrite !Z.mod_small by (destruct o; lia); done).
  split.
  - intros o. unfold observe, observeStats. pose proof (Hc o). destruct (Hu o) as [E1 E2].
    case_decide; [|done]. subst. destruct failed; cbn [okN failN]; rewrite ?E1, ?E2; lia.
  - unfold observe, observeStats. destruct (Hu op) as [E1 E2].
    destruct op, failed; repeat first [rewrite decide_True by done | rewrite decide_False by done]; cbn [okN failN]; rewrite ?E1, ?E2; lia.
Qed.

Section counting.
Context (Sum64String : string → Z) {W : Type} (dialOk : string → bool) (kv : KVClient W).

(** The turns that start before the end of a phase. *)
Definition inTime (stopAt : Z) (ts : list Turn) : list Turn := filter (λ t, tStart t < stopAt) ts.

Lemma workerTurn_counts cfg mix v key value fetched d r w rec :
  countsOk rec → countedOf rec + 1 < 2 ^ 64 →
  let rec' := (workerTurn Sum64String dialOk kv cfg mix true v key value fetched d r w rec).2 in
  countsOk rec' ∧ countedOf rec' = countedOf rec + 1.
Proof.
  intros Hc Hlt. unfold workerTurn. destruct (doOp _ _ _ _ _ _ _ _ _) as [[r' w'] err]. by apply observe_counts.
Qed.

Lemma phaseTurns_counts c mix p stopAt ts r w rec :
  let cfg := normalize c in
  buildPicker cfg = inl p → Keyspace c < 2 ^ 63 → Forall (λ t, draws_ok (tDraws t)) ts →
  countsOk rec → countedOf rec + Z.of_nat (length (inTime stopAt ts)) < 2 ^ 64 →
  ∃ r' w' rec', phaseTurns Sum64String dialOk kv cfg mix p stopAt true (r, w, rec) ts = Some (r', w', rec') ∧
    countsOk rec' ∧ countedOf rec' = countedOf rec + Z.of_nat (length (inTime stopAt ts)).
Proof.
  intros cfg Hp Hks Hts. unfold inTime. revert r w rec. induction Hts as [|t ts Ht _ IH]; intros r w rec Hc Hlt.
  { exists r, w, rec. simpl. split_and!; try done. lia. }
  cbn [phaseTurns]. unfold phaseTurn. rewrite filter_cons in Hlt |- *.
  destruct (tStart t <? stopAt) eqn:E; bool_to_prop.
  - rewrite decide_True in Hlt |- * by done. cbn [length] in Hlt |- *.
    destruct (pickKey_range c p (tDraws t) Hp Ht Hks) as (i & Hk & _). fold cfg in Hk. rewrite Hk.
    destruct (workerTurn_counts cfg mix (tOpDraw t) (keyName i) (tValue t) (tFetched t) (tTook t) r w rec Hc) as [Hc' He]; [lia|].
    destruct (workerTurn _ _ _ _ _ _ _ _ _ _ _ _ _ _) as [[r' w'] rec']. cbn [snd] in Hc', He. cbn [mbind option_bind].
    destruct (IH r' w' rec' Hc') as (r2 & w2 & rec2 & -> & Hc2 & He2); [lia|].
    exists r2, w2, rec2. split_and!; [done..|lia].
  - rewrite decide_False in Hlt |- * by lia. by apply IH.
Qed.

Lemma totals_counted rec : countsOk rec → countedOf rec < 2 ^ 64 → totalOK rec + totalFail rec = countedOf rec.
Proof.
  intros Hc Hlt. pose proof (Hc opPut). pose proof (Hc opGet). pose proof (Hc opDelete). unfold totalOK, totalFail, countedOf in *.
  unfold u64. rewrite !Z.mod_small; rewrite ?Z.mod_small; lia.
Qed.

(** A phase without a measurement never panics either. *)
Lemma phaseTurns_runs c c' mix p stopAt measure ts st :
  buildPicker (normalize c) = inl p → Keyspace c < 2 ^ 63 → Forall (λ t, draws_ok (tDraws t)) ts →
  Keyspace c' = Keyspace (normalize c) →
  ∃ st', phaseTurns Sum64String dialOk kv c' mix p stopAt measure st ts = Some st'.
Proof.
  intros Hp Hks Hts Hcc. revert st. induction Hts as [|t ts Ht _ IH]; intros st; [by eexists|].
  cbn [phaseTurns]. unfold phaseTurn. destruct (tStart t <? stopAt); [|apply IH].
  destruct (pickKey_range c p (tDraws t) Hp Ht Hks) as (i & Hk & _). destruct st as [[r w] rec].
  assert (Hk' : pickKey c' p (tDraws t) = Some (keyName i)) by (unfold pickKey in *; by rewrite Hcc).
  rewrite Hk'. apply IH.
Qed.

Context {CertPool : Type} (ReadFile : string → option (list byte)) (CertsFromPEM : list byte → option CertPool).

(** C34: a run of the load generator reports every operation.  With percentages that add up to
    100, a known distribution and usable TLS settings, whatever the other flags, the draws and the
    cluster do, the run neither panics nor stops, and the successes and failures it reports add up to the
    operations the workers started in time. *)
Theorem load_run_reports_every_operation flags inp w :
  let cfg := normalize flags in
  (∃ mix, buildMix flags = inl mix) → (∃ p, buildPicker cfg = inl p) →
  (∃ creds, BuildClientTransportCredentials ReadFile CertsFromPEM
     (mkClientTLS (TLSEnable flags) (TLSCACertFile flags) (TLSServerName flags) (TLSInsecureSkip flags)) = inl creds) →
  Keyspace flags < 2 ^ 63 →
  Forall (λ t, draws_ok (tDraws t)) (inWarmup inp) → Forall (λ t, draws_ok (tDraws t)) (inMeasured inp) →
  Z.of_nat (length (inMeasured inp)) < 2 ^ 64 →
  ∃ w' rep, loadMain Sum64String dialOk kv ReadFile CertsFromPEM flags inp w = inl (w', rep) ∧
    rpOK rep + rpFail rep = Z.of_nat (length (inTime (inStart inp + LDuration cfg) (inMeasured inp))).
Proof.
  intros cfg [mix Hmix] [p Hp] [creds Htls] Hks Hw Hm Hlen.
  assert (Hmix' : buildMix cfg = inl mix ∧ buildMix (warmupConfig cfg) = inl mix) by (split; exact Hmix).
  assert (Hp' : buildPicker (warmupConfig cfg) = inl p) by exact Hp.
  assert (Hcreds : ConfigureTLS ReadFile CertsFromPEM
     (mkClientTLS (TLSEnable cfg) (TLSCACertFile cfg) (TLSServerName cfg) (TLSInsecureSkip cfg)) (defaultCreds ReadFile CertsFromPEM)
     = (creds, None)) by (unfold ConfigureTLS; cbn [cfg normalize TLSEnable TLSCACertFile TLSServerName TLSInsecureSkip]; by rewrite Htls).
  unfold loadMain. cbv zeta. fold cfg. rewrite Hcreds.
  destruct (prefill _ _ _ _ _ _ _) as [[[r1 w1] ok1] fail1].
  assert (Hwarm : ∃ st, (if 0 <? Warmup cfg then runPhase Sum64String dialOk kv (warmupConfig cfg) (inWarmupStart inp) false (inWarmup inp) r1 w1
     else inl (r1, w1, newRecorder)) = inl st).
  { destruct (0 <? Warmup cfg); [|by eexists]. unfold runPhase. rewrite (proj2 Hmix'), Hp'.
    edestruct (phaseTurns_runs flags (warmupConfig cfg)) as [st Hst]; [exact Hp|done|exact Hw|done|]. rewrite Hst. by eexists. }
  destruct Hwarm as [[[r2 w2] rec2] ->]. unfold runPhase. rewrite (proj1 Hmix'), Hp.
  pose proof (length_filter (λ t, tStart t < inStart inp + LDuration cfg) (inMeasured inp)) as Hfl.
  destruct (phaseTurns_counts flags mix p (inStart inp + LDuration cfg) (inMeasured inp) r2 w2 newRecorder) as (r3 & w3 & rec3 & Hph & Hc3 & He3);
    [exact Hp|done|exact Hm|done|unfold inTime; change (countedOf newRecorder) with 0; lia|]. fold cfg in Hph. rewrite Hph.
  eexists w3, _. split; [done|]. cbn [rpOK rpFail printReport]. unfold inTime in *. rewrite totals_counted; [|done|].
  - rewrite He3. done.
  - rewrite He3. change (countedOf newRecorder) with 0. lia.
Qed.
End counting.

(** ** Witness *)

Definition ex_load_kv : KVClient unit := mkKV (λ w _ _ _, (w, inl ([], 1))) (λ w _ _ _, (w, None)) (λ w _ _, (w, Some NotFoundCode)).
Definition ex_turn (start v : Z) : Turn := mkTurn start v (mkDraws (λ _, 0) f0 5) [] None 1000.
Definition ex_run : RunInput := mkInput None [] 0 [] 0 [ex_turn 1 3; ex_turn 2 97; ex_turn (6 * Minute) 3] (5 * Minute).

Lemma ex_turn_ok s v : draws_ok (tDraws (ex_turn s v)).
Proof. split; [intros n Hn; cbn; lia|split; [discriminate|reflexivity]]. Qed.

Lemma load_run_reports_every_operation_witness :
  ∃ w' rep, loadMain ex_hash (λ _, true) ex_load_kv (λ _, None) (λ _, @None unit) (defaultLoad 1) ex_run tt = inl (w', rep) ∧
    rpOK rep + rpFail rep = 2.
Proof.
  apply (load_run_reports_every_operation ex_hash (λ _, true) ex_load_kv (λ _, None) (λ _, @None unit) (defaultLoad 1) ex_run tt).
  - exists (mkMix 15 95). reflexivity.
  - exists (zipfPicker 299999). vm_compute. reflexivity.
  - exists InsecureCredentials. reflexivity.
  - reflexivity.
  - constructor.
  - repeat (apply Forall_cons_iff; split; [apply ex_turn_ok|]). constructor.
  - reflexivity.
Defined.
