(* ===== verification/ReplicatorState.v ===== *)
(** * The replicator's own state ([src/cluster/replication.go])

    Construction, the guarded accessors, the migration sources that placement changes leave behind,
    and the summaries written to the log.  Every accessor holds the lock of the field it touches, so it
    is one step on the state. *)

From stdpp Require Import pretty sorting.
From Stdlib Require Ascii.
From Stdlib.Strings Require Import Byte.
From S2P Require Import Prelude Text Float64 Store StoreSpec WalCodec WalWriter EventLoop Placement.
From S2P Require Import AssignProofs Server ServerProofs Migration Score Rebalance Membership Router.
From S2P Require Import Transport Collector Quorum.

(** What other components install in the replicator. *)
Record Hooks := mkHooks {
  hkApplier : option (Server → Command → Server * bool);   (* [transferApplyFn] *)
  hkDropper : option (Server → Z → Server * bool);         (* [transferDropFn] *)
  hkCollector : option MetricsCollector;
  hkGossip : option (list byte → bool);                    (* [gossipFn], whether it fails *)
  hkRaft : bool                                            (* [Rf] is set *)
}.

Section replicator.
Context (Sum64String : string → Z) {CertPool : Type}
        (ReadFile : string → option (list byte)) (CertsFromPEM : list byte → option CertPool).

Record ReplicatorState := mkReplicator {
  replID : string;
  replFactor : Z;
  replGrace : Z;
  replVerbose : bool;
  replPlacement : option Placement;
  replMetrics : MetricsState;
  replRecon : ReconState;
  replSources : gmap Z string;
  replStopped : bool;                      (* [stopCh] is closed *)
  replCreds : Credentials CertPool;
  replHooks : Hooks
}.

Definition NewReplicator (id : string) (rf : Z) : ReplicatorState :=
  mkReplicator id rf (2 * Second) false None (mkMetricsState [] ∅ ∅) (mkRecon ∅ ∅ ∅ (mkMetricsState [] ∅ ∅)) ∅ false
    (defaultCreds ReadFile CertsFromPEM) (mkHooks None None None None false).

Definition setSources (r : ReplicatorState) (ms : gmap Z string) : ReplicatorState :=
  mkReplicator (replID r) (replFactor r) (replGrace r) (replVerbose r) (replPlacement r) (replMetrics r) (replRecon r) ms
    (replStopped r) (replCreds r) (replHooks r).
Definition SetPlacement (r : ReplicatorState) (p : option Placement) : ReplicatorState :=
  mkReplicator (replID r) (replFactor r) (replGrace r) (replVerbose r) p (replMetrics r) (replRecon r) (replSources r)
    (replStopped r) (replCreds r) (replHooks r).
Definition SetVerbose (r : ReplicatorState) (b : bool) : ReplicatorState :=
  mkReplicator (replID r) (replFactor r) (replGrace r) b (replPlacement r) (replMetrics r) (replRecon r) (replSources r)
    (replStopped r) (replCreds r) (replHooks r).
Definition ConfigureClientTLS (r : ReplicatorState) (cfg : ClientTLSConfig) : ReplicatorState * option tlsErr :=
  let '(creds, e) := ConfigureTLS ReadFile CertsFromPEM cfg (replCreds r) in
  (mkReplicator (replID r) (replFactor r) (replGrace r) (replVerbose r) (replPlacement r) (replMetrics r) (replRecon r)
     (replSources r) (replStopped r) creds (replHooks r), e).

Definition setHooks (r : ReplicatorState) (h : Hooks) : ReplicatorState :=
  mkReplicator (replID r) (replFactor r) (replGrace r) (replVerbose r) (replPlacement r) (replMetrics r) (replRecon r) (replSources r)
    (replStopped r) (replCreds r) h.
Definition SetTransferApplier (r : ReplicatorState) (fn : option (Server → Command → Server * bool)) : ReplicatorState :=
  setHooks r (mkHooks fn (hkDropper (replHooks r)) (hkCollector (replHooks r)) (hkGossip (replHooks r)) (hkRaft (replHooks r))).
Definition SetTransferDropper (r : ReplicatorState) (fn : option (Server → Z → Server * bool)) : ReplicatorState :=
  setHooks r (mkHooks (hkApplier (replHooks r)) fn (hkCollector (replHooks r)) (hkGossip (replHooks r)) (hkRaft (replHooks r))).
Definition SetMetricsCollector (r : ReplicatorState) (c : option MetricsCollector) : ReplicatorState :=
  setHooks r (mkHooks (hkApplier (replHooks r)) (hkDropper (replHooks r)) c (hkGossip (replHooks r)) (hkRaft (replHooks r))).
Definition SetGossipBroadcaster (r : ReplicatorState) (fn : option (list byte → bool)) : ReplicatorState :=
  setHooks r (mkHooks (hkApplier (replHooks r)) (hkDropper (replHooks r)) (hkCollector (replHooks r)) fn (hkRaft (replHooks r))).
Definition SetRaft (r : ReplicatorState) (rf : bool) : ReplicatorState :=
  setHooks r (mkHooks (hkApplier (replHooks r)) (hkDropper (replHooks r)) (hkCollector (replHooks r)) (hkGossip (replHooks r)) rf).
Definition getTransferApplier (r : ReplicatorState) : option (Server → Command → Server * bool) := hkApplier (replHooks r).
Definition getTransferDropper (r : ReplicatorState) : option (Server → Z → Server * bool) := hkDropper (replHooks r).
Definition dialCreds (r : ReplicatorState) : Credentials CertPool := replCreds r.

(** [SetMetrics] replaces the metrics and the latency matrix and keeps the smoothing state. *)
Definition SetMetrics (r : ReplicatorState) (metrics : list NodeMetrics) (rtt : gmap string (gmap string f64)) : ReplicatorState :=
  mkReplicator (replID r) (replFactor r) (replGrace r) (replVerbose r) (replPlacement r)
    (mkMetricsState metrics rtt (metricEMA (replMetrics r))) (replRecon r) (replSources r) (replStopped r) (replCreds r) (replHooks r).

(** [transferVNodeFrom] of a replicator: it needs the applier to have been installed. *)
Definition transferWith (r : ReplicatorState) (srv : Server) (src : option (list RecvResult)) : Server * option TransferErr :=
  transferVNodeFrom (getTransferApplier r) srv src.

(** A transfer before [main] has installed the applier fails without applying anything, and no later
    accessor but the one that installs it changes that. *)
Lemma transfer_needs_applier r srv src p b ms rtt :
  transferWith (SetMetrics (SetVerbose (SetPlacement (SetTransferApplier r None) p) b) ms rtt) srv src = (srv, Some ErrNoApplier).
Proof. reflexivity. Qed.

(** [ReplicatePut] and [ReplicateDelete]: the request every target gets and the outcome.  They pass no
    version, so every target chooses its own. *)
Definition replicateUnversioned (op : pbOp) (r : ReplState) (refreshed : option Placement) (key : string) (value : list byte)
    (evs : list QEvent) : option (ReplicationRequest * option QResult) :=
  vnodeID ← Quorum.GetVNodeForKey Sum64String r key;
  Some (mkRepl op key value vnodeID 0, Quorum.ReplicateToAll Sum64String r refreshed key evs).
Definition ReplicatePut (r : ReplState) (refreshed : option Placement) (key : string) (value : list byte) (evs : list QEvent) :=
  replicateUnversioned Op_PUT r refreshed key value evs.
Definition ReplicateDelete (r : ReplState) (refreshed : option Placement) (key : string) (evs : list QEvent) :=
  replicateUnversioned Op_DELETE r refreshed key [] evs.

Definition getPlacement (r : ReplicatorState) : option Placement := replPlacement r.

(** Closing a channel twice panics ([None]). *)
Definition closeChan (closed : bool) : option bool := if closed then None else Some true.

(** [StopMetricsReporter]: the [select] under [stopMu] returns when the channel is closed. *)
Definition StopMetricsReporter (r : ReplicatorState) : option ReplicatorState :=
  if replStopped r then Some r
  else closed ← closeChan (replStopped r);
       Some (mkReplicator (replID r) (replFactor r) (replGrace r) (replVerbose r) (replPlacement r) (replMetrics r) (replRecon r)
               (replSources r) closed (replCreds r) (replHooks r)).

(** [None]: an index out of range in the placement. *)
Definition GetMigrationSourceForKey (r : ReplicatorState) (key : string) : option string :=
  match getPlacement r with
  | None => Some ""%string
  | Some p => vnodeID ← GetVNodeIDForKey Sum64String p key; Some (default ""%string (replSources r !! vnodeID))
  end.

(** Any number of callers may stop the reporter. *)
Lemma StopMetricsReporter_repeated r n :
  ∃ r', Nat.iter (S n) (λ o, o ≫= StopMetricsReporter) (Some r) = Some r' ∧ replStopped r' = true.
Proof.
  induction n as [|n (r' & Hr & Hs)].
  - unfold StopMetricsReporter, closeChan. simpl. destruct (replStopped r) eqn:E; simpl; eauto.
  - exists r'. split; [|done]. change (Nat.iter (S (S n)) _ _) with
      (Nat.iter (S n) (λ o, o ≫= StopMetricsReporter) (Some r) ≫= StopMetricsReporter).
    rewrite Hr. simpl. unfold StopMetricsReporter. by rewrite Hs.
Qed.
End replicator.

(** ** Summaries *)

Fixpoint joinWith (sep : string) (l : list string) : string :=
  match l with
  | [] => ""%string
  | [x] => x
  | x :: l => (x +:+ sep +:+ joinWith sep l)%string
  end.

(** [ids] are the keys of the map in the order Go iterates over it. *)
Definition formatVNodeCounts (counts : gmap string Z) (ids : list string) : string :=
  if decide (size counts = 0%nat) then "none"%string
  else joinWith ", " ((λ id, (id +:+ "=" +:+ pretty (countOf counts id))%string) <$> sortedCopy ids).

Definition formatBoolNodeSet (nodes : gmap string bool) (ids : list string) : string :=
  if decide (size nodes = 0%nat) then "none"%string
  else match filter (λ id, nodes !! id = Some true) ids with
       | [] => "none"%string
       | ids => joinWith "," (sortedCopy ids)
       end.

Lemma string_le_trans s t u : string_le s t → string_le t u → string_le s u.
Proof.
  unfold string_le, String.leb. revert t u. induction s as [|a s IH]; intros [|b t] [|c u]; simpl; try done.
  unfold Ascii.compare. intros H1 H2.
  destruct (N.compare_spec (Ascii.N_of_ascii a) (Ascii.N_of_ascii b)) as [E1|E1|E1]; [| |done];
  destruct (N.compare_spec (Ascii.N_of_ascii b) (Ascii.N_of_ascii c)) as [E2|E2|E2]; try done.
  all: destruct (N.compare_spec (Ascii.N_of_ascii a) (Ascii.N_of_ascii c)); try done; try lia.
  by apply (IH t u).
Qed.

#[export] Instance string_le_transitive : Transitive string_le.
Proof. intros s t u. apply string_le_trans. Qed.
#[export] Instance string_le_antisym : AntiSymm (=) string_le.
Proof. intros s t. apply String.leb_antisym. Qed.
#[export] Instance string_le_total : Total string_le.
Proof. intros s t. apply String.leb_total. Qed.

Lemma sortedCopy_perm l l' : l ≡ₚ l' → sortedCopy l = sortedCopy l'.
Proof.
  intros Hp. unfold sortedCopy. apply (StronglySorted_unique string_le).
  - apply StronglySorted_merge_sort; apply _.
  - apply StronglySorted_merge_sort; apply _.
  - by rewrite !merge_sort_Permutation.
Qed.

(** The log lines do not depend on the order of Go's map iteration. *)
Lemma summaries_deterministic counts nodes ids ids' : ids ≡ₚ ids' →
  formatVNodeCounts counts ids = formatVNodeCounts counts ids' ∧ formatBoolNodeSet nodes ids = formatBoolNodeSet nodes ids'.
Proof.
  intros Hp. unfold formatVNodeCounts, formatBoolNodeSet. rewrite (sortedCopy_perm ids ids' Hp). split; [done|].
  assert (Hf : filter (λ id, nodes !! id = Some true) ids ≡ₚ filter (λ id, nodes !! id = Some true) ids') by (by rewrite Hp).
  case_decide; [done|].
  destruct (filter _ ids) as [|x l] eqn:E1, (filter _ ids') as [|y l'] eqn:E2; [done|..].
  - by apply Permutation_nil_l in Hf.
  - symmetry in Hf. by apply Permutation_nil_l in Hf.
  - by rewrite (sortedCopy_perm _ _ Hf).
Qed.

(** [score] is the text [%.4f] of a score. *)
Definition score_le (a b : NodeInfo) : Prop :=
  if feq (Score a) (Score b) then string_le (nID a) (nID b) else flt (Score a) (Score b) = true.
#[export] Instance score_le_dec a b : Decision (score_le a b).
Proof. unfold score_le. destruct (feq _ _); apply _. Defined.

Definition formatScoreSummary (score : f64 → string) (scores : list NodeInfo) (limit : Z) : string :=
  match scores with
  | [] => "none"%string
  | _ =>
      let n := Z.of_nat (length scores) in
      let limit := if (limit <=? 0) || (n <? limit) then n else limit in
      joinWith ", " ((λ x, (nID x +:+ "=" +:+ score (Score x))%string) <$> take (Z.to_nat limit) (merge_sort score_le scores))
  end.

(** The summary of a router's state. *)
Definition StateSummary (r : PlacementRouter) : string :=
  match rState r with
  | None => "<no placement>"%string
  | Some st =>
      ("epoch=" +:+ pretty (csEpoch st) +:+ " nodes="
        +:+ joinWith "," (sortedCopy ((λ n, (cnId n +:+ "=" +:+ cnRpcAddr n)%string) <$> csNodes st)))%string
  end.

(** The summary does not depend on the order in which a node lists the members. *)
Lemma StateSummary_order r r' st st' :
  rState r = Some st → rState r' = Some st' → csEpoch st = csEpoch st' → csNodes st ≡ₚ csNodes st' →
  StateSummary r = StateSummary r'.
Proof.
  intros Hr Hr' He Hn. unfold StateSummary. rewrite Hr, Hr', He. do 4 f_equal. apply sortedCopy_perm. by rewrite Hn.
Qed.

(** ** Migration sources *)

Section sources.
Context `{Server.Replicator}.

(** A source is kept only for a gained vnode that no candidate could provide. *)
Definition failedGain (me : MigEnv) (self : string) (oldPl p : Placement) (v : Z) (src : string) : Prop :=
  let cands := gainedSources self (default ""%string (ownerMap (VNodes oldPl) !! v))
                 (default [] (replicasAt oldPl v)) (default [] (replicasAt p v)) in
  head cands = Some src ∧ ∃ srv, (tryTransfers (transferFrom me v) srv cands).2 = false.

Lemma migrateGained_sources me self oldPl p gs st :
  (∀ v src, migrationSource st !! v = Some src → failedGain me self oldPl p v src) →
  ∀ v src, migrationSource (foldl (migrateGained me self (ownerMap (VNodes oldPl)) oldPl p) st gs) !! v = Some src →
    failedGain me self oldPl p v src.
Proof.
  revert st. induction gs as [|g gs IH]; intros st Hst; [done|]. cbn [foldl]. apply IH. clear IH.
  intros v src. unfold migrateGained. set (cands := gainedSources _ _ _ _).
  destruct (tryTransfers (transferFrom me g) (mgServer st) cands) as [srv ok] eqn:Et. cbn [migrationSource].
  assert (Hms : ∀ ms, ms = match cands with [] => migrationSource st | s :: _ => setMigrationSource g s (migrationSource st) end →
    ∀ src, ms !! v = Some src → failedGain me self oldPl p v src ∨ (v = g ∧ head cands = Some src)).
  { intros ms -> s. destruct cands as [|c cs]; [auto|]. unfold setMigrationSource. case_decide.
    - intros [_ Hl]%lookup_delete_Some. auto.
    - intros [[-> <-]|[_ Hl]]%lookup_insert_Some; auto. }
  intros Hl. destruct ok.
  - unfold clearMigrationSource in Hl. apply lookup_delete_Some in Hl as [Hne Hl].
    destruct (Hms _ eq_refl _ Hl) as [?|[-> _]]; [done|done].
  - destruct (Hms _ eq_refl _ Hl) as [?|[-> Hh]]; [done|]. split; [exact Hh|]. exists (mgServer st). fold cands. by rewrite Et.
Qed.

(** After a placement change has been processed, the recorded sources are exactly leads to data
    the node could not fetch. *)
Theorem sources_are_failed_gains me self oldPl p st p' st' :
  migrationSource st = ∅ → ApplyPlacementFromRaft me self (Some oldPl) p st = Some (p', st') →
  ∀ v src, migrationSource st' !! v = Some src → failedGain me self oldPl p v src.
Proof.
  intros H0 Ha v src Hl. unfold ApplyPlacementFromRaft in Ha. destruct (deltas self oldPl p) as [ds|]; [|done].
  cbn [mbind option_bind] in Ha. injection Ha as <- <-.
  set (st1 := foldl (migrateGained me self _ oldPl p) st _) in Hl.
  assert (Hadd : ∀ l s, migrationSource (foldl (migrateAdded me self (ownerMap (VNodes p)) p) s l) = migrationSource s).
  { induction l as [|x l IH]; intros s; [done|]. cbn [foldl]. by rewrite IH. }
  assert (Hlost : ∀ l s u t, migrationSource (foldl (migrateLost me) s l) !! u = Some t → migrationSource s !! u = Some t).
  { induction l as [|x l IH]; intros s u t Hx; [done|]. apply IH in Hx. unfold migrateLost, clearMigrationSource in Hx. cbn [migrationSource] in Hx.
    by apply lookup_delete_Some in Hx as [_ ?]. }
  apply Hlost in Hl. rewrite Hadd in Hl. revert Hl. apply migrateGained_sources. intros u t Hu. by rewrite H0, lookup_empty in Hu.
Qed.
End sources.

(** ** Serving the cluster state *)

(** [GetClusterState]: an empty state until the replicator is installed. *)
Definition GetClusterState {CertPool : Type} (r : option (@ReplicatorState CertPool * gmap string string)) : ClusterState :=
  match r with
  | None => mkCState 0 [] []
  | Some (r, addrs) => SnapshotClusterState (getPlacement r) addrs
  end.

(** A router that fetched its state from a node without a placement routes nothing: every operation
    fails without a call. *)
Lemma unplaced_state_routes_nothing {CertPool : Type} (r : option (@ReplicatorState CertPool * gmap string string))
    Sum64String router key any :
  match r with None => True | Some (r, _) => getPlacement r = None end →
  rState router = Some (GetClusterState r) → routeForKey Sum64String key any router = (router, None).
Proof.
  intros Hr Hs. assert (Hv : csVnodes (GetClusterState r) = []).
  { destruct r as [[r addrs]|]; [|done]. unfold GetClusterState, SnapshotClusterState. by rewrite Hr. }
  unfold routeForKey. rewrite Hs, Hv. by rewrite (proj2 (Z.eqb_neq _ _)).
Qed.
